(* ===== verification/_CoqProject ===== *)
-Q . S2P
Prelude.v
Civil.v
Utf8.v
Prompb.v
Extract.v
TimeConv.v
Json.v
Proto.v
ProtoResponse.v
Snappy.v
JsonParse.v
JsonString.v
Rfc3339.v
Region.v
Bootstrap.v
Mapper.v
Backend.v
JsonDecode.v
Handler.v
HandlerInv.v
Codec.v
