(* ===== verification/Prelude.v ===== *)
(** * A verification development of aws_lambda_read_adapter

    The program ([src/main.go], one Go file) is a Prometheus remote-read
    adapter: an HTTP handler on [/read] decodes a snappy-compressed
    protobuf [ReadRequest], requires exactly one query, reads its
    parameters from the label matchers, invokes an AWS Lambda function
    with a JSON payload of the query's time range and parameters, decodes
    the function's JSON reply into [[]timeSerie], maps it to Prometheus
    time series and writes them back as a compressed protobuf
    [ReadResponse].  The region of the Lambda client is resolved once at
    start-up.

    ** Files, in dependency order, and what they model

    - [Prelude] (this file): Go's [int64] ([in_int64], [wrap64]); the
      outcome of Go code ([Ok], [Err] for a returned [error], [Panic]);
      the state-and-error monad [goM] with its notation in [go_scope];
      [mapM] for a [for ... range] loop whose body can fail; [run_units]
      for a byte loop that advances by one rune or escape; bit fields as
      sums ([lor_add]); the hint databases [adapter] and the tactics
      [go_simp], [int64_bounds], [zbool], [pow2_values].
    - [Civil]: the proleptic Gregorian calendar of Go's [time] package
      ([civil_from_days], [days_from_civil]).
    - [Utf8]: Go's [unicode/utf8] ([decode_rune], [encode_rune]) and
      [utf16.DecodeRune]; [sanitize] is [string([]rune(s))].
    - [Prompb]: the protobuf records the code reads and writes, and the
      adapter's own [timeSerie] / [lambdaResult] (lines 30-35).
    - [Extract] ([Module Extract]): the matcher scan of [runQuery],
      lines 47-67 ([scan_step], [scan_matchers], [extract_params]).
    - [TimeConv]: [time.Unix(ms/1000, ms%1000*1000)] of lines 44-45
      ([unix_of_ms], with Go's [time.Unix] as [time_Unix]) and the
      interface [TimeFormat] of [Time.Format(time.RFC3339)].
    - [Json]: Go's [json.Marshal] for the payload (lines 68-81): the
      escaping loop of [encodeState.string] ([string_loop]) and maps
      written with sorted keys ([encode]).
    - [Proto]: the gogo/protobuf code generated for [prompb] that the
      handler calls at lines 169 and 191: varints with Go's overflow
      checks ([uvarint_loop], [encodeVarint], [sov]), [Unmarshal] of
      [ReadRequest], [Query] and [LabelMatcher] ([msg_loop] over the
      fields with the length and wire-type checks and [skipTypes]), and
      [Marshal]/[Size] of [ReadResponse] and of the request messages.
    - [ProtoResponse]: the other side of line 191, the [Unmarshal] of
      [ReadResponse] and its messages that the Prometheus server applies
      to the body (a reference inverse, not code the adapter runs, so
      not in the map): fixed64 doubles read by [LittleEndian.Uint64]
      ([get_le]) and [math.Float64frombits] ([float64frombits]) on the
      binary64 values of [Floats.SpecFloat]; and the rounding of
      [float64(i)] ([binary_round] of [SpecFloat] on an integer).
    - [Snappy]: golang/snappy's [Decode] (line 163: [decodedLen], the
      tag loop [decode_loop] with its overlapping copies) and [Encode]
      (line 198: [encodeBlock] with its hash table as a [gmap],
      [emitLiteral], [emitCopy], [MaxEncodedLen] and the [ErrTooLarge]
      panic), and the proof that [Decode] inverts [Encode], by a
      simulation of the decoder along the encoder's output.
    - [JsonParse]: the syntax check of [json.Unmarshal] (line 96,
      [checkValid] of Go 1.20): a scanner with fuel ([parse_value],
      [json_parse]) that keeps numbers and strings as lexemes, with the
      nesting limit [maxNestingDepth] and Go's [SyntaxError] messages
      ([quote_char], [syntax_error], [unexpected_eof]), and the printer
      [print_jval] it is checked against.
    - [JsonString]: [unquoteBytes], the decoding of string contents.
    - [Rfc3339]: [Time.Format] with the RFC 3339 layout (lines 70-71)
      in a [Location], and [parse], its inverse; the instance
      [rfc3339_format] of [TimeFormat].
    - [Region]: [GetDefaultRegion] and the start-up check of [main]
      (lines 115-135, 147-152) against the interface [RegionEnv].
    - [Bootstrap]: the rest of [main] (lines 26-28, 137-206): [flag.Parse]
      for the one flag [-web.listen-address] ([parse_one], [parse_loop]),
      the routes of [http.DefaultServeMux] ([mux_handler], with the
      handlers of the [net/http/pprof] import) and the end of the process
      ([main_boot], [exit_status]).
    - [Mapper]: the mapping of the Lambda reply to time series, lines
      101-111, with Go's index-out-of-range panics.
    - [Backend]: [runQuery] (lines 37-113) in [goM Calls], the state
      being the log of Lambda invocations; the AWS SDK and the reply
      decoder are the interfaces [LambdaService] and [ReplyDecoder].
    - [JsonDecode]: [json.Unmarshal] into [lambdaResult] (lines 95-99):
      storing the scanned value into the Go types (fields matched up to
      case, slices decoded in place, [null], [strconv.ParseInt] for
      [int], [UnmarshalTypeError]); its instance [json_reply_decoder]
      of [ReplyDecoder]; the reply a Go function writes ([reply_json]).
    - [Handler]: the [/read] handler (lines 156-202) in [goM HState]:
      the log of invocations and [net/http]'s [ResponseWriter] (header
      map, the status and header sent by the first [WriteHeader], the
      body); snappy and protobuf are the interface [WireCodec].
    - [HandlerInv]: the vocabulary of an invariant, not a translation:
      the [ResponseWriter] operations the handler performs as a step
      relation [rw_step] (header set, [WriteHeader] with a status in
      [handler_code], [Write]) and its closure [rw_steps]; every run of
      [read_handler] is such a sequence ([read_handler_mono]).
    - [Codec]: the instance [go_codec] of [WireCodec] built from [Proto]
      and [Snappy], the handler's contract on messages [read_spec], and
      the well-formedness of its responses for the wire ([read_spec_wf]).

    Components interact only through the typeclasses: [runQuery] is
    proved against any [LambdaService], [TimeFormat] and [ReplyDecoder],
    the handler against any [WireCodec], and the instances
    [rfc3339_format], [json_reply_decoder] and [go_codec] are used with
    them in C30, C32, C13 and the end-to-end scenarios.

    ** What the theorems show (claims C1-C37)

    - Extraction (C1, C28): last-write-wins per name, the function-name
      guard and its error, and the matcher operator being ignored.
    - Mapping (C2, C9): the exact series and samples, and a panic
      exactly on a datapoint shorter than two elements.
    - runQuery (C3, C6, C10, C11, C34, C35): no invocation without a
      function name, exactly one invocation otherwise with the payload
      whose shape and key order C35 gives, the success path, a decoder
      error passed on, and a non-200 status swallowed as a success with
      no series (a bug of line 92).
    - Reply decoding (C5, C7, C8, C16, C17, C27, C32, C33): the JSON
      syntax round trip for values nested at most 10000 deep (C7), the
      rejection of deeper ones with Go's ["exceeded max depth"] (C16)
      and of every truncated array or object (C17); the string round
      trip through the encoder and [unquoteBytes] (invalid UTF-8 becomes
      U+FFFD); the reply round trip; [strconv.ParseInt]'s range check
      (C27) and the rejection of fractional datapoints (C33); C32
      composes [runQuery] with the real decoder.
    - Handler (C4, C12, C22-C24): 400 for undecodable requests, for a
      query count other than one and for [runQuery]'s errors, the 200
      protobuf response, and a failed write whose [http.Error(..., 500)]
      cannot change the 200 already sent.
    - The wire (C13-C15, C18, C19): the refinement of [read_spec] by the
      handler on bytes, with the codecs and the reply decoder the program
      links, down to the response Prometheus decodes (C13); the snappy
      round trip (C14); the protobuf round trip of requests (C15) and of
      responses (C18); and [float64(i)] giving a valid binary64 value,
      never [-0.0], exact up to 2^53 (C19), which is what makes every
      response of the program one that Prometheus reads back.
    - Start-up (C20, C21, C29, C37): the listen address is the last
      occurrence of the flag or [:9461], and a failing server ends the
      process with status 0; an undefined flag exits with status 2; the
      mux routes [/read] and [/metrics] exactly and exposes the pprof
      handlers under [/debug/pprof/]; the region, and the panic exactly
      when the metadata service fails (C29).
    - The response writer (C36): every request the handler completes
      has been sent a status, which is 200, 400 or 500.
    - Time (C25, C26, C30): floor seconds for negative timestamps too,
      the microsecond-for-nanosecond scaling of line 44, and the RFC
      3339 round trip of the payload times.
    - The JSON encoder's loop and its unit-by-unit reading (C31).
    Each theorem with hypotheses has a witness at a concrete input; the
    end-to-end scenario of the specification, with the reply decoded by
    the model of [json.Unmarshal], is [Handler.scenario_end_to_end], and
    [Handler.scenario_fractional_value] is the same query answered 400
    for a reply with the value [7.5]; [Codec.read_handler_refines_witness]
    runs it on the bytes Prometheus sends.

    ** Bounds and fuel

    Integers are [Z] with [int64] ranges proved where the code could
    wrap ([TimeConv]) and checked where Go checks them ([parse_int],
    C27); protobuf
    varints are reinterpreted at 64 and 32 bits ([wrap64], [wrap32]) as
    the generated code's conversions do.  The byte loops
    ([string_loop], [run_units]) take [length s] or [length s + 1]
    units of fuel, enough because each iteration consumes a byte (C31,
    [run_units_enough]).  [json_parse] gives the scanner
    [2 * length s + 1] units: a value takes at least one byte and an
    element or member two units, so the fuel never runs out
    ([json_parse_no_panic]), and a value costs no more units than its
    text has bytes ([cost_le_length]), so C7 holds within it.  The protobuf message loop and the snappy decoder
    take one unit per input byte (each field or element reads at least
    one), proved enough in C15 and C14; [encodeVarint] takes 9 units
    for the ten bytes of a 64-bit value.  The loops of the snappy
    encoder ([search], [match_loop], [block_loop], [extend]) take
    [len(src)] units; C14 holds for any fuel they are given, since
    stopping early only leaves more bytes to the final literal.
    [flag.Parse] takes [length args + 1] units, one per argument.
    Decimal digit loops take 20 units, the digits of a 64-bit value.
    The calendar's facts are checked by [vm_compute] over one 400-year
    era (146097 days); the tag bytes of snappy over their whole range.

    ** Not modelled

    The AWS SDK ([LambdaService]), a library the code only calls, kept
    as an interface; logging; the socket I/O of [ListenAndServe]; the
    exposition of the [/metrics] handler and the pprof handlers' output;
    [path.Clean] in the mux.  In protobuf, the bytes of unknown fields
    ([XXX_unrecognized], which the generated code keeps and re-emits).  In the
    JSON decoder, the capacity of a Go slice (elements a slice had
    before a shorter array cut it, visible only to a third occurrence of
    a key) and the decoding of JSON objects into anything but
    [timeSerie]. *)

From stdpp Require Export base list strings option pretty.
From Stdlib Require Export ZArith Lia Ascii.

(** ** Notation scope of the development *)

Declare Scope go_scope.
Delimit Scope go_scope with go.
Open Scope Z_scope.

(** ** Go's [int64]: mathematical integers with the width written out *)

Definition int64_min : Z := - 2 ^ 63.
Definition int64_max : Z := 2 ^ 63 - 1.

(** [in_int64 z]: [z] is a value of Go's [int64] (and of [int] on the
    64-bit platforms the adapter is built for). *)
Definition in_int64 (z : Z) : bool := (int64_min <=? z) && (z <=? int64_max).

(** Two's-complement wrap-around of an arbitrary integer to 64 bits. *)
Definition wrap64 (z : Z) : Z := (z + 2 ^ 63) mod 2 ^ 64 - 2 ^ 63.

(** ** Outcomes of Go code: a value, a returned [error], or a panic *)

Inductive outcome (A : Type) : Type :=
| Ok (a : A)
| Err (msg : string)
| Panic (msg : string).
Arguments Ok {A} a.
Arguments Err {A} msg.
Arguments Panic {A} msg.

#[export] Instance outcome_eq_dec {A} `{EqDecision A} : EqDecision (outcome A).
Proof. solve_decision. Defined.

(** Go's [if err != nil { return ..., err }] after each call of a
    function that returns a value and an error, as stdpp's monad
    notation [x ← f ...; k]. *)
#[export] Instance outcome_ret : MRet outcome := fun A a => Ok a.
#[export] Instance outcome_bind : MBind outcome :=
  fun A B k m => match m with Ok a => k a | Err e => Err e | Panic p => Panic p end.

Lemma outcome_bind_ok {A B} (a : A) (k : A -> outcome B) : (Ok a ≫= k) = k a.
Proof. reflexivity. Qed.

(** ** A state-and-error monad for the statements of a Go function

    [goM S A] threads the part [S] of the world a function mutates and
    stops at the first [return nil, err] ([Err]) or runtime panic. *)

Definition goM (S A : Type) : Type := S -> outcome A * S.

Definition ret {S A} (a : A) : goM S A := fun s => (Ok a, s).
Definition throw {S A} (msg : string) : goM S A := fun s => (Err msg, s).
Definition panic {S A} (msg : string) : goM S A := fun s => (Panic msg, s).
Definition get_st {S} : goM S S := fun s => (Ok s, s).
Definition put_st {S} (s' : S) : goM S unit := fun _ => (Ok tt, s').

Definition bind {S A B} (m : goM S A) (k : A -> goM S B) : goM S B :=
  fun s =>
    match m s with
    | (Ok a, s') => k a s'
    | (Err e, s') => (Err e, s')
    | (Panic p, s') => (Panic p, s')
    end.

(** Lift a pure Go result ([v, err := f(...)]) into the monad. *)
Definition lift {S A} (o : outcome A) : goM S A := fun s => (o, s).

Notation "x <- m ;; k" := (bind m (fun x => k))
  (at level 100, m at next level, right associativity) : go_scope.
Notation "m ;;; k" := (bind m (fun _ => k))
  (at level 100, right associativity) : go_scope.

Local Open Scope go_scope.

Lemma bind_ret_l {S A B} (a : A) (k : A -> goM S B) s :
  bind (ret a) k s = k a s.
Proof. reflexivity. Qed.

Lemma bind_throw {S A B} msg (k : A -> goM S B) s :
  bind (throw msg) k s = (Err msg, s).
Proof. reflexivity. Qed.

Lemma bind_lift_ok {S A B} (a : A) (k : A -> goM S B) s :
  bind (lift (Ok a)) k s = k a s.
Proof. reflexivity. Qed.

Lemma bind_assoc {S A B C} (m : goM S A) (k : A -> goM S B)
      (h : B -> goM S C) s :
  bind (bind m k) h s = bind m (fun a => bind (k a) h) s.
Proof.
  unfold bind. destruct (m s) as [[a|e|p] s']; reflexivity.
Qed.

(** Running a computation that stops with [Err] leaves the value [Err]
    whatever follows. *)
Lemma bind_err {S A B} (m : goM S A) (k : A -> goM S B) s e s' :
  m s = (Err e, s') -> bind m k s = (Err e, s').
Proof. unfold bind. intros ->. reflexivity. Qed.

Lemma bind_ok {S A B} (m : goM S A) (k : A -> goM S B) s a s' :
  m s = (Ok a, s') -> bind m k s = k a s'.
Proof. unfold bind. intros ->. reflexivity. Qed.

Lemma bind_ok_inv {S A B} (m : goM S A) (k : A -> goM S B) s b s'' :
  bind m k s = (Ok b, s'') -> exists a s', m s = (Ok a, s') /\ k a s' = (Ok b, s'').
Proof. unfold bind. destruct (m s) as [[a|e|p] s']; [by exists a, s'|done|done]. Qed.

(** ** The last matching element of a list

    Go loops of the shape [for _, x := range xs { if p(x) { v = f(x) } }]
    keep the value of the last element that matches. *)

Definition last_some {A B} (f : A -> option B) (l : list A) : option B :=
  head (omap f (rev l)).

Lemma last_some_app {A B} (f : A -> option B) (l : list A) (x : A) :
  last_some f (l ++ [x]) =
  match f x with Some b => Some b | None => last_some f l end.
Proof.
  unfold last_some. rewrite rev_app_distr. simpl. by destruct (f x).
Qed.

(** The overwriting loop computes [last_some]. *)
Lemma fold_left_overwrite {A B} (f : A -> option B) (l : list A) (d : B) :
  fold_left (fun acc x => default acc (f x)) l d = default d (last_some f l).
Proof.
  revert d. induction l as [|x l IH] using rev_ind; intros d; [done|].
  rewrite fold_left_app, last_some_app. simpl. rewrite IH.
  by destruct (f x).
Qed.

(** ** A [for ... range] loop whose body can fail or panic

    [mapM f l] runs [f] on the elements in order and stops at the first
    element whose result is an error or a panic, as a Go loop that
    [append]s the results does. *)

Fixpoint mapM {A B} (f : A -> outcome B) (l : list A) : outcome (list B) :=
  match l with
  | [] => Ok []
  | x :: l' =>
      match f x with
      | Ok b =>
          match mapM f l' with
          | Ok bs => Ok (b :: bs)
          | Err e => Err e
          | Panic p => Panic p
          end
      | Err e => Err e
      | Panic p => Panic p
      end
  end.

Lemma mapM_ok_map {A B} (f : A -> outcome B) (g : A -> B) (l : list A) :
  (forall x, In x l -> f x = Ok (g x)) -> mapM f l = Ok (map g l).
Proof.
  induction l as [|x l IH]; intros H; [done|]. simpl.
  rewrite (H x) by (left; done). rewrite IH; [done|]. intros y Hy. apply H. by right.
Qed.

Lemma mapM_ok_inv {A B} (f : A -> outcome B) (l : list A) (bs : list B) :
  mapM f l = Ok bs -> Forall2 (fun a b => f a = Ok b) l bs.
Proof.
  revert bs. induction l as [|x l IH]; intros bs H; simpl in H.
  - injection H as <-. constructor.
  - destruct (f x) eqn:Hf; try discriminate.
    destruct (mapM f l) eqn:Hl; try discriminate.
    injection H as <-. constructor; auto.
Qed.

(** A body that never returns an error makes the loop panic exactly when
    one element panics. *)
Lemma mapM_no_err {A B} (f : A -> outcome B) (l : list A) e :
  (forall x, f x <> Err e) -> mapM f l <> Err e.
Proof.
  intros Hf. induction l as [|x l IH]; simpl; [done|].
  specialize (Hf x). destruct (f x); try congruence. destruct (mapM f l); congruence.
Qed.

Lemma mapM_panic {A B} (f : A -> outcome B) (l : list A) :
  (exists x p, In x l /\ f x = Panic p) ->
  (forall x e, f x <> Err e) ->
  exists p, mapM f l = Panic p.
Proof.
  intros (x & p & Hin & Hx) Hf. induction l as [|y l IH]; [done|]. simpl.
  destruct Hin as [<-|Hin].
  - rewrite Hx. eauto.
  - destruct (f y) eqn:Hy; [| by destruct (Hf y msg) | eauto].
    destruct (IH Hin) as [p' ->]. eauto.
Qed.

(** ** Reading a sequence unit by unit

    [run_units u fuel s] cuts [s] into the units [u] reads (each of at
    least one element, and its output), and concatenates the outputs:
    the reference reading of byte loops that advance by one rune, or by
    one escape.  A unit of at least one element makes [length s] units of
    fuel enough ([run_units_enough]). *)

Fixpoint run_units {A B} (u : list A -> list B * nat) (fuel : nat) (s : list A) : list B :=
  match fuel with
  | O => []
  | S fuel =>
      match s with
      | [] => []
      | _ => let '(o, size) := u s in o ++ run_units u fuel (drop size s)
      end
  end.

Section RunUnits.
Context {A B : Type} (u : list A -> list B * nat).
Hypothesis u_size : forall s, s <> [] -> (1 <= snd (u s))%nat.

Lemma run_units_enough f g l :
  (length l <= f)%nat -> (length l <= g)%nat -> run_units u f l = run_units u g l.
Proof.
  revert g l. induction f as [|f IH]; intros g l Hf Hg.
  - destruct l; [by destruct g | simpl in Hf; lia].
  - destruct l as [|b rest]; [by destruct g|]. destruct g as [|g]; [simpl in Hg; lia|].
    cbn [run_units]. pose proof (u_size (b :: rest) ltac:(done)) as Hs.
    destruct (u (b :: rest)) as [o size]. simpl in Hs. f_equal.
    apply IH; rewrite length_drop; simpl in *; lia.
Qed.

Lemma run_units_unfold l :
  l <> [] ->
  run_units u (length l) l = fst (u l) ++ run_units u (length (drop (snd (u l)) l)) (drop (snd (u l)) l).
Proof.
  intros Hl. destruct l as [|b rest]; [done|].
  pose proof (u_size (b :: rest) Hl) as Hs.
  destruct (u (b :: rest)) as [o size] eqn:E. cbn [fst snd] in *.
  cbn [length run_units]. rewrite E. f_equal.
  apply run_units_enough; rewrite ?length_drop; cbn [length]; lia.
Qed.

(** A unit read from the front of [o ++ t] that takes exactly [o]. *)
Lemma run_units_app o t x :
  o <> [] -> u (o ++ t) = (x, length o) ->
  run_units u (length (o ++ t)) (o ++ t) = x ++ run_units u (length t) t.
Proof.
  intros Ho Hu. rewrite run_units_unfold by (destruct o; done).
  rewrite Hu. simpl. by rewrite drop_app_length.
Qed.

End RunUnits.

(** ** Boolean quantifiers over lists *)

Lemma forallb_false_exists {A} (f : A -> bool) (l : list A) :
  forallb f l = false <-> exists x, In x l /\ f x = false.
Proof.
  induction l as [|x l IH]; simpl.
  - split; [discriminate | intros (? & [] & _)].
  - rewrite andb_false_iff, IH. split.
    + intros [H | (y & Hy & Hf)]; eauto.
    + intros (y & [<- | Hy] & Hf); eauto.
Qed.

(** ** int64 lemmas *)

Lemma in_int64_spec z : in_int64 z = true <-> int64_min <= z <= int64_max.
Proof.
  unfold in_int64. rewrite andb_true_iff, !Z.leb_le. reflexivity.
Qed.

Lemma wrap64_id z : in_int64 z = true -> wrap64 z = z.
Proof.
  rewrite in_int64_spec. unfold wrap64, int64_min, int64_max. intros H.
  rewrite Z.mod_small; lia.
Qed.

Lemma wrap64_in_int64 z : in_int64 (wrap64 z) = true.
Proof.
  apply in_int64_spec. unfold wrap64, int64_min, int64_max.
  pose proof (Z.mod_pos_bound (z + 2 ^ 63) (2 ^ 64)). lia.
Qed.

(** ** Bit fields as arithmetic

    Go code that packs bit fields with [|] and [<<] computes sums when
    the fields do not overlap. *)

Lemma lor_add a b k : 0 <= k -> a mod 2 ^ k = 0 -> 0 <= b < 2 ^ k -> Z.lor a b = a + b.
Proof.
  intros Hk Ha Hb.
  assert (H : Z.land a b = 0).
  { apply Z.bits_inj'. intros i Hi. rewrite Z.land_spec, Z.bits_0.
    destruct (Z.ltb_spec i k).
    - rewrite <- (Z.mod_pow2_bits_low a k i) by lia. by rewrite Ha, Z.bits_0.
    - rewrite <- (Z.mod_small b (2 ^ k)) by lia.
      rewrite Z.mod_pow2_bits_high by lia. apply andb_false_r. }
  rewrite <- Z.lxor_lor by done. by rewrite Z.add_nocarry_lxor.
Qed.

Lemma land_ones_mod x n : 0 <= n -> Z.land x (2 ^ n - 1) = x mod 2 ^ n.
Proof. intros Hn. rewrite <- Z.land_ones by done. by rewrite Z.ones_equiv, <- Z.sub_1_r. Qed.

(** ** Automation of the development *)

Create HintDb adapter.
Create Rewrite HintDb adapter.
#[export] Hint Rewrite @bind_ret_l @bind_throw @bind_lift_ok @bind_assoc
  : adapter.
#[export] Hint Resolve wrap64_in_int64 : adapter.

(** Unfold the monad and case on every outcome the goal inspects. *)
Ltac go_simp :=
  repeat (autorewrite with adapter in *; simpl in *;
          try match goal with
              | |- context [match ?o with Ok _ => _ | Err _ => _ | Panic _ => _ end] =>
                  destruct o eqn:?
              end).

(** Split a conjunction of int64 bounds and close it by arithmetic. *)
Ltac int64_bounds :=
  repeat match goal with
         | H : in_int64 _ = true |- _ => apply in_int64_spec in H
         | |- in_int64 _ = true => apply in_int64_spec
         end;
  unfold int64_min, int64_max in *; lia.

(** Replace the constant powers of two in the goal by their values. *)
Ltac pow2_values :=
  repeat match goal with
         | |- context [2 ^ ?k] =>
             let v := eval vm_compute in (2 ^ k) in change (2 ^ k) with v
         end.

(** Case on every integer comparison of the goal, discarding the cases
    that contradict the context. *)
Ltac zbool :=
  repeat (match goal with
          | |- context [Z.ltb ?a ?b] => destruct (Z.ltb_spec a b)
          | |- context [Z.leb ?a ?b] => destruct (Z.leb_spec a b)
          | |- context [Z.eqb ?a ?b] => destruct (Z.eqb_spec a b)
          end; simpl in *; try lia); try done.
