(* ===== verification/Civil.v ===== *)
(** * The proleptic Gregorian calendar of Go's [time] package

    [time.Time.Format] (used at [src/main.go] lines 70-71) writes the
    civil date of a time: the year, month and day of the proleptic
    Gregorian calendar for the number of days since 1970-01-01.
    [civil_from_days] computes it by 400-year eras; [days_from_civil] is
    its inverse, the day number of a date.  The two are proved inverse
    on all days and on all valid dates, and the date computed is valid:
    these facts make [civil_from_days] the calendar whatever algorithm a
    Go release uses.  Each proof reduces to a property of the day of the
    era (146097 values) or of the date within the era, checked once by
    [vm_compute]. *)

From S2P Require Import Prelude.

Module Civil.

Open Scope Z_scope.

Definition is_leap (y : Z) : bool :=
  (y mod 4 =? 0) && (negb (y mod 100 =? 0) || (y mod 400 =? 0)).

Definition days_in_month (y m : Z) : Z :=
  if m =? 2 then (if is_leap y then 29 else 28)
  else if (m =? 4) || (m =? 6) || (m =? 9) || (m =? 11) then 30
  else 31.

Definition valid_date (y m d : Z) : bool :=
  (1 <=? m) && (m <=? 12) && (1 <=? d) && (d <=? days_in_month y m).

(** ** The date of a day of an era *)

(** A day of an era (0 = March 1st of a year divisible by 400): the
    year of the era (counted from March), the month counted from March
    (0..11), and the day of the month. *)
Definition yoe_of_doe (doe : Z) : Z := (doe - doe / 1460 + doe / 36524 - doe / 146096) / 365.
Definition doy_of (doe yoe : Z) : Z := doe - (365 * yoe + yoe / 4 - yoe / 100).
Definition mp_of_doy (doy : Z) : Z := (5 * doy + 2) / 153.
Definition month_of_mp (mp : Z) : Z := if mp <? 10 then mp + 3 else mp - 9.
Definition mp_of_month (m : Z) : Z := if 2 <? m then m - 3 else m + 9.
Definition doy_of_month (mp d : Z) : Z := (153 * mp + 2) / 5 + d - 1.
Definition doe_of (yoe doy : Z) : Z := yoe * 365 + yoe / 4 - yoe / 100 + doy.

(** Days since 1970-01-01 to (year, month, day). *)
Definition civil_from_days (z : Z) : Z * Z * Z :=
  let z := z + 719468 in
  let era := z / 146097 in
  let doe := z - era * 146097 in
  let yoe := yoe_of_doe doe in
  let doy := doy_of doe yoe in
  let mp := mp_of_doy doy in
  let d := doy - (153 * mp + 2) / 5 + 1 in
  let m := month_of_mp mp in
  let y := yoe + era * 400 in
  (if m <=? 2 then y + 1 else y, m, d).

(** (year, month, day) to days since 1970-01-01. *)
Definition days_from_civil (y m d : Z) : Z :=
  let y := if m <=? 2 then y - 1 else y in
  let era := y / 400 in
  let yoe := y - era * 400 in
  era * 146097 + doe_of yoe (doy_of_month (mp_of_month m) d) - 719468.

(** [all_from f z n]: [f] holds on [z, z + n). *)
Fixpoint all_from (f : Z -> bool) (z : Z) (n : nat) : bool :=
  match n with
  | O => true
  | S n => f z && all_from f (z + 1) n
  end.

Lemma all_from_spec f z n x :
  all_from f z n = true -> z <= x < z + Z.of_nat n -> f x = true.
Proof.
  revert z. induction n as [|n IH]; intros z H Hx; simpl in *; [lia|].
  apply andb_true_iff in H as [Hz Hn].
  destruct (Z.eq_dec x z) as [->|]; [done|]. apply (IH (z + 1)); [done | lia].
Qed.

(** ** The finite facts, checked on every day of an era *)

(** For a day of an era: the year of the era is in [0, 399], the date
    computed is valid (leap years repeat every 400 years, so the year of
    the era decides them), and the day number of that date is the day. *)
Definition doe_ok (doe : Z) : bool :=
  let yoe := yoe_of_doe doe in
  let doy := doy_of doe yoe in
  let mp := mp_of_doy doy in
  let d := doy - (153 * mp + 2) / 5 + 1 in
  let m := month_of_mp mp in
  (0 <=? yoe) && (yoe <=? 399) &&
  valid_date (if m <=? 2 then yoe + 1 else yoe) m d &&
  (mp_of_month m =? mp) &&
  (doe_of yoe (doy_of_month mp d) =? doe).

Lemma doe_ok_all : all_from doe_ok 0 (Z.to_nat 146097) = true.
Proof. vm_compute. reflexivity. Qed.

Lemma doe_ok_range doe : 0 <= doe < 146097 -> doe_ok doe = true.
Proof. intros H. apply (all_from_spec _ _ _ _ doe_ok_all). rewrite Z2Nat.id; lia. Qed.

(** For a date of an era, given by its year of era (counted from March),
    month and day: its day of the era is in range and gives back the
    same year of era, month and day. *)
Definition date_ok (yoe m d : Z) : bool :=
  let mp := mp_of_month m in
  let doe := doe_of yoe (doy_of_month mp d) in
  let yoe' := yoe_of_doe doe in
  let doy := doy_of doe yoe' in
  let mp' := mp_of_doy doy in
  negb (valid_date (if m <=? 2 then yoe + 1 else yoe) m d) ||
  ((0 <=? doe) && (doe <? 146097) && (yoe' =? yoe) && (mp' =? mp) &&
   (doy - (153 * mp' + 2) / 5 + 1 =? d) && (month_of_mp mp' =? m)).

Lemma dates_ok_true :
  all_from (fun yoe => all_from (fun m => all_from (date_ok yoe m) 1 31) 1 12) 0 400 = true.
Proof. vm_compute. reflexivity. Qed.

Lemma all_from3_spec (g : Z -> Z -> Z -> bool) a na b nb c nc x y z :
  all_from (fun x => all_from (fun y => all_from (g x y) c nc) b nb) a na = true ->
  a <= x < a + Z.of_nat na -> b <= y < b + Z.of_nat nb -> c <= z < c + Z.of_nat nc ->
  g x y z = true.
Proof.
  intros A Hx Hy Hz.
  exact (all_from_spec _ _ _ _ (all_from_spec _ _ _ _ (all_from_spec _ _ _ _ A Hx) Hy) Hz).
Qed.

Lemma date_ok_range yoe m d :
  0 <= yoe < 400 -> 1 <= m <= 12 -> 1 <= d <= 31 -> date_ok yoe m d = true.
Proof.
  intros Hy Hm Hd.
  apply (all_from3_spec date_ok 0 400 1 12 1 31 yoe m d dates_ok_true); simpl; lia.
Qed.

(** ** Leap years repeat every 400 years *)

Lemma is_leap_add400 y k : is_leap (y + k * 400) = is_leap y.
Proof.
  unfold is_leap.
  replace (y + k * 400) with (y + (k * 100) * 4) by lia. rewrite Z.mod_add by lia.
  replace (y + k * 100 * 4) with (y + (k * 4) * 100) by lia. rewrite Z.mod_add by lia.
  replace (y + k * 4 * 100) with (y + k * 400) by lia. rewrite Z.mod_add by lia.
  reflexivity.
Qed.

Lemma valid_date_add400 y k m d : valid_date (y + k * 400) m d = valid_date y m d.
Proof. unfold valid_date, days_in_month. by rewrite is_leap_add400. Qed.

Lemma era_split z :
  let era := (z + 719468) / 146097 in
  0 <= z + 719468 - era * 146097 < 146097.
Proof.
  simpl. pose proof (Z.mod_pos_bound (z + 719468) 146097 ltac:(lia)).
  rewrite Z.mod_eq in * by lia. lia.
Qed.

#[export] Hint Rewrite is_leap_add400 valid_date_add400 : adapter.

(** ** The calendar *)



Lemma days_in_month_le y m : 28 <= days_in_month y m <= 31.
Proof.
  unfold days_in_month.
  destruct (m =? 2); [destruct (is_leap y); lia|]. destruct (_ || _); lia.
Qed.

Lemma valid_date_bounds y m d : valid_date y m d = true -> 1 <= m <= 12 /\ 1 <= d <= 31.
Proof.
  unfold valid_date. rewrite !andb_true_iff, !Z.leb_le.
  pose proof (days_in_month_le y m). lia.
Qed.

(** The facts of [doe_ok] for the day of the era of [z]. *)
Ltac era_facts z :=
  unfold civil_from_days; cbv zeta;
  let Hd := fresh "Hd" in
  pose proof (era_split z) as Hd; cbv zeta in Hd;
  set (era := (z + 719468) / 146097) in *;
  set (doe := z + 719468 - era * 146097) in *;
  let Hok := fresh "Hok" in
  pose proof (doe_ok_range doe Hd) as Hok; unfold doe_ok in Hok; cbv zeta in Hok;
  set (yoe := yoe_of_doe doe) in *;
  set (mp := mp_of_doy (doy_of doe yoe)) in *;
  set (d := doy_of doe yoe - (153 * mp + 2) / 5 + 1) in *;
  set (m := month_of_mp mp) in *;
  repeat rewrite andb_true_iff in Hok;
  destruct Hok as [[[[H0 H1] Hvalid] Hmp] Hdoe];
  apply Z.leb_le in H0, H1; apply Z.eqb_eq in Hmp, Hdoe.

(** The year computed is the year of the era moved by whole eras. *)
Lemma civil_year_shift (m yoe era : Z) :
  (if m <=? 2 then yoe + era * 400 + 1 else yoe + era * 400) =
  (if m <=? 2 then yoe + 1 else yoe) + era * 400.
Proof. destruct (m <=? 2); lia. Qed.

Lemma days_from_civil_from_days z :
  let '(y, m, d) := civil_from_days z in days_from_civil y m d = z.
Proof.
  era_facts z. unfold days_from_civil.
  assert (Hy : (if m <=? 2 then (if m <=? 2 then yoe + era * 400 + 1 else yoe + era * 400) - 1
                else (if m <=? 2 then yoe + era * 400 + 1 else yoe + era * 400)) = yoe + era * 400)
    by (destruct (m <=? 2); lia).
  rewrite Hy, Z.div_add, Z.div_small, Z.add_0_l, Hmp by lia.
  replace (yoe + era * 400 - era * 400) with yoe by lia. rewrite Hdoe. lia.
Qed.

Lemma civil_from_days_valid z :
  let '(y, m, d) := civil_from_days z in valid_date y m d = true.
Proof. era_facts z. by rewrite civil_year_shift, valid_date_add400. Qed.

Lemma civil_from_days_of_date y m d :
  valid_date y m d = true -> civil_from_days (days_from_civil y m d) = (y, m, d).
Proof.
  intros Hv. destruct (valid_date_bounds y m d Hv) as [Hm Hd].
  set (y' := if m <=? 2 then y - 1 else y).
  set (era := y' / 400). set (yoe := y' - era * 400).
  assert (Hyoe : 0 <= yoe < 400).
  { pose proof (Z.mod_pos_bound y' 400 ltac:(lia)). rewrite Z.mod_eq in * by lia.
    subst yoe era. lia. }
  assert (Hy : y = (if m <=? 2 then yoe + 1 else yoe) + era * 400)
    by (subst yoe y'; destruct (m <=? 2); lia).
  pose proof (date_ok_range yoe m d Hyoe Hm Hd) as Hok. unfold date_ok in Hok. cbv zeta in Hok.
  rewrite Hy, valid_date_add400 in Hv. rewrite Hv in Hok. simpl in Hok.
  set (doe := doe_of yoe (doy_of_month (mp_of_month m) d)) in *.
  repeat rewrite andb_true_iff in Hok.
  destruct Hok as [[[[[H0 H1] Hy'] Hmp] Hd'] Hm'].
  apply Z.leb_le in H0. apply Z.ltb_lt in H1. apply Z.eqb_eq in Hy', Hmp, Hd', Hm'.
  assert (Hz : days_from_civil y m d + 719468 = era * 146097 + doe).
  { unfold days_from_civil. fold y'. fold era. fold yoe. fold doe. lia. }
  unfold civil_from_days. cbv zeta. rewrite Hz.
  rewrite Z.div_add_l, Z.div_small, Z.add_0_r by lia.
  replace (era * 146097 + doe - era * 146097) with doe by lia.
  rewrite Hy' in Hmp, Hd', Hm' |- *. rewrite Hmp in Hd', Hm' |- *. rewrite Hd', Hm', Hy.
  by rewrite civil_year_shift.
Qed.

End Civil.
