(* ===== verification/Utf8.v ===== *)
(** * UTF-8 as Go's [unicode/utf8] reads and writes it

    Bytes are [ascii] values 0..255 ([byte_val], [byte_of]).
    [decode_rune] is [utf8.DecodeRune] (and [DecodeRuneInString]) with
    its table of accepted second bytes, [encode_rune] is
    [utf8.EncodeRune], [decode_surrogates] is [utf16.DecodeRune].  The
    encoder of the payload ([Json]) and the decoder of the reply
    ([JsonString]) both walk strings rune by rune with them.

    [sanitize] is Go's [string([]rune(s))]: every rune re-encoded, so
    every byte of an invalid sequence becomes U+FFFD; [utf8_valid] is
    [utf8.Valid].  The lemmas show that a rune that [decode_rune] reads
    is re-encoded as the very bytes it was read from
    ([decode_rune_encode]), so that a valid string is its own
    [sanitize]. *)

From S2P Require Import Prelude.
From Stdlib Require Import Ascii.

Module Utf8.

Open Scope Z_scope.

(** A Go string or byte slice: a sequence of bytes. *)
Abbreviation bytes := (list ascii).

Definition byte_val (c : ascii) : Z := Z.of_N (N_of_ascii c).
Definition byte_of (z : Z) : ascii := ascii_of_N (Z.to_N z).

(** ** [unicode/utf8] *)

Definition RuneError : Z := 65533.

Definition in_range (lo hi : Z) (c : ascii) : bool :=
  (lo <=? byte_val c) && (byte_val c <=? hi).

(** The accepted range of the second byte of a sequence, by its first
    byte (the [acceptRanges] table of [utf8.go]). *)
Definition accept_range (b0 : Z) : Z * Z :=
  if b0 =? 224 then (160, 191)        (* 0xE0: no overlong 3-byte form *)
  else if b0 =? 237 then (128, 159)   (* 0xED: no surrogates *)
  else if b0 =? 240 then (144, 191)   (* 0xF0: no overlong 4-byte form *)
  else if b0 =? 244 then (128, 143)   (* 0xF4: nothing above U+10FFFF *)
  else (128, 191).

(** [utf8.DecodeRuneInString]: the first rune and its width; an invalid
    or truncated sequence gives [(RuneError, 1)], an empty input
    [(RuneError, 0)]. *)
Definition decode_rune (s : bytes) : Z * nat :=
  match s with
  | [] => (RuneError, 0%nat)
  | c0 :: rest =>
      let b0 := byte_val c0 in
      if b0 <? 128 then (b0, 1%nat)
      else if (b0 <? 194) || (244 <? b0) then (RuneError, 1%nat)
      else
        let '(lo, hi) := accept_range b0 in
        match rest with
        | c1 :: rest1 =>
            let b1 := byte_val c1 in
            if negb (in_range lo hi c1) then (RuneError, 1%nat)
            else if b0 <? 224 then
              (Z.lor (Z.shiftl (Z.land b0 31) 6) (Z.land b1 63), 2%nat)
            else
              match rest1 with
              | c2 :: rest2 =>
                  let b2 := byte_val c2 in
                  if negb (in_range 128 191 c2) then (RuneError, 1%nat)
                  else if b0 <? 240 then
                    (Z.lor (Z.lor (Z.shiftl (Z.land b0 15) 12) (Z.shiftl (Z.land b1 63) 6))
                           (Z.land b2 63), 3%nat)
                  else
                    match rest2 with
                    | c3 :: _ =>
                        let b3 := byte_val c3 in
                        if negb (in_range 128 191 c3) then (RuneError, 1%nat)
                        else
                          (Z.lor (Z.lor (Z.shiftl (Z.land b0 7) 18) (Z.shiftl (Z.land b1 63) 12))
                                 (Z.lor (Z.shiftl (Z.land b2 63) 6) (Z.land b3 63)), 4%nat)
                    | [] => (RuneError, 1%nat)
                    end
              | [] => (RuneError, 1%nat)
              end
        | [] => (RuneError, 1%nat)
        end
  end.


(** [utf8.EncodeRune]: surrogates, negative values and values past
    U+10FFFF are written as U+FFFD. *)
Definition encode_rune (r : Z) : bytes :=
  let r := if ((55296 <=? r) && (r <? 57344)) || (1114111 <? r) || (r <? 0) then RuneError else r in
  if r <? 128 then [byte_of r]
  else if r <? 2048 then [byte_of (192 + Z.shiftr r 6); byte_of (128 + Z.land r 63)]
  else if r <? 65536 then
    [byte_of (224 + Z.shiftr r 12); byte_of (128 + Z.land (Z.shiftr r 6) 63);
     byte_of (128 + Z.land r 63)]
  else
    [byte_of (240 + Z.shiftr r 18); byte_of (128 + Z.land (Z.shiftr r 12) 63);
     byte_of (128 + Z.land (Z.shiftr r 6) 63); byte_of (128 + Z.land r 63)].

(** [utf16.DecodeRune]: [(r1-surr1)<<10 | (r2-surr2) + surrSelf]. *)
Definition decode_surrogates (r1 r2 : Z) : Z :=
  if (55296 <=? r1) && (r1 <? 56320) && (56320 <=? r2) && (r2 <? 57344)
  then Z.lor (Z.shiftl (r1 - 55296) 10) (r2 - 56320) + 65536
  else RuneError.

(** ** Strings rune by rune *)

(** One iteration of [for _, r := range s { utf8.EncodeRune(r) }]. *)
Definition rune_unit (s : bytes) : bytes * nat :=
  match s with
  | [] => ([], 0%nat)
  | c :: _ =>
      if byte_val c <? 128 then ([c], 1%nat)
      else let '(rr, size) := decode_rune s in (encode_rune rr, size)
  end.

(** Go's [string([]rune(s))]. *)
Definition sanitize (s : bytes) : bytes := run_units rune_unit (length s) s.

(** One iteration of [utf8.Valid]: an ASCII byte, or a rune that is not
    the [(RuneError, 1)] of an invalid sequence. *)
Definition valid_unit (s : bytes) : list bool * nat :=
  match s with
  | [] => ([], 0%nat)
  | c :: _ =>
      if byte_val c <? 128 then ([true], 1%nat)
      else let '(rr, size) := decode_rune s in
           ([negb ((rr =? RuneError) && (size =? 1)%nat)], size)
  end.

(** [utf8.Valid]: no unit is invalid. *)
Definition utf8_valid (s : bytes) : bool := forallb id (run_units valid_unit (length s) s).

(** ** Bytes *)

Lemma byte_val_bound c : 0 <= byte_val c < 256.
Proof. unfold byte_val. pose proof (N_ascii_bounded c). lia. Qed.

Lemma byte_of_eq z c : z = byte_val c -> byte_of z = c.
Proof. intros ->. unfold byte_of, byte_val. by rewrite N2Z.id, ascii_N_embedding. Qed.

Lemma cons_byte_eq z c (l l' : bytes) : z = byte_val c -> l = l' -> byte_of z :: l = c :: l'.
Proof. intros H ->. by rewrite (byte_of_eq z c H). Qed.

Lemma in_range_spec lo hi c : in_range lo hi c = true <-> lo <= byte_val c <= hi.
Proof. unfold in_range. rewrite andb_true_iff, !Z.leb_le. done. Qed.

(** ** The decoder *)

Lemma decode_rune_size c s :
  (1 <= snd (decode_rune (c :: s)) <= S (length s))%nat.
Proof.
  unfold decode_rune.
  repeat (case_match; simplify_eq/=; try lia).
Qed.
Lemma decode_rune_prefix c0 s t c n :
  decode_rune (c0 :: s) = (c, n) -> (c, n) <> (RuneError, 1%nat) ->
  decode_rune (take n (c0 :: s) ++ t) = (c, n).
Proof.
  unfold decode_rune. intros H Hn.
  destruct (byte_val c0 <? 128) eqn:E0; [simplify_eq; simpl; by rewrite E0|].
  destruct ((byte_val c0 <? 194) || (244 <? byte_val c0)) eqn:E1; [simplify_eq|].
  destruct (accept_range (byte_val c0)) as [lo hi] eqn:Ea.
  destruct s as [|c1 s]; [simplify_eq|].
  destruct (negb (in_range lo hi c1)) eqn:E2; [simplify_eq|].
  destruct (byte_val c0 <? 224) eqn:E3.
  { simplify_eq. simpl. by rewrite E0, E1, Ea, E2, E3. }
  destruct s as [|c2 s]; [simplify_eq|].
  destruct (negb (in_range 128 191 c2)) eqn:E4; [simplify_eq|].
  destruct (byte_val c0 <? 240) eqn:E5.
  { simplify_eq. simpl. by rewrite E0, E1, Ea, E2, E3, E4, E5. }
  destruct s as [|c3 s]; [simplify_eq|].
  destruct (negb (in_range 128 191 c3)) eqn:E6; [simplify_eq|].
  simplify_eq. simpl. by rewrite E0, E1, Ea, E2, E3, E4, E5, E6.
Qed.

Lemma accept_range_spec b0 :
  let '(lo, hi) := accept_range b0 in
  128 <= lo /\ hi <= 191 /\ (b0 = 224 -> 160 <= lo) /\ (b0 = 237 -> hi <= 159) /\
  (b0 = 240 -> 144 <= lo) /\ (b0 = 244 -> hi <= 143).
Proof. unfold accept_range. zbool. Qed.

(** The masks and shifts of the decoder and the encoder as arithmetic. *)
Local Ltac bits_to_arith :=
  repeat first
    [ rewrite Z.shiftl_mul_pow2 by lia
    | rewrite Z.shiftr_div_pow2 by lia
    | progress change 63 with (2 ^ 6 - 1)
    | progress change 31 with (2 ^ 5 - 1)
    | progress change 15 with (2 ^ 4 - 1)
    | progress change 7 with (2 ^ 3 - 1)
    | rewrite land_ones_mod by lia ].

Lemma decode_2 b0 b1 :
  Z.lor (Z.shiftl (Z.land b0 31) 6) (Z.land b1 63) = b0 mod 32 * 64 + b1 mod 64.
Proof.
  bits_to_arith. rewrite (lor_add _ _ 6).
  all: pow2_values.
  all: Z.to_euclidean_division_equations; lia.
Qed.

Lemma decode_3 b0 b1 b2 :
  Z.lor (Z.lor (Z.shiftl (Z.land b0 15) 12) (Z.shiftl (Z.land b1 63) 6)) (Z.land b2 63) =
  b0 mod 16 * 4096 + b1 mod 64 * 64 + b2 mod 64.
Proof.
  bits_to_arith. rewrite (lor_add (_ * 2 ^ 12) _ 12), (lor_add (_ + _) _ 6).
  all: pow2_values; Z.to_euclidean_division_equations; lia.
Qed.

Lemma decode_4 b0 b1 b2 b3 :
  Z.lor (Z.lor (Z.shiftl (Z.land b0 7) 18) (Z.shiftl (Z.land b1 63) 12))
        (Z.lor (Z.shiftl (Z.land b2 63) 6) (Z.land b3 63)) =
  b0 mod 8 * 262144 + b1 mod 64 * 4096 + b2 mod 64 * 64 + b3 mod 64.
Proof.
  bits_to_arith.
  rewrite (lor_add (_ * 2 ^ 18) _ 18), (lor_add (_ * 2 ^ 6) _ 6), (lor_add (_ + _) _ 12).
  all: pow2_values; Z.to_euclidean_division_equations; lia.
Qed.

(** ** The encoder *)

Lemma encode_rune_1 r : 0 <= r < 128 -> encode_rune r = [byte_of r].
Proof. intros H. unfold encode_rune. zbool. Qed.

Lemma encode_rune_2 r :
  128 <= r < 2048 -> encode_rune r = [byte_of (192 + r / 64); byte_of (128 + r mod 64)].
Proof. intros H. unfold encode_rune. zbool; bits_to_arith; by pow2_values. Qed.

Lemma encode_rune_3 r :
  2048 <= r < 65536 -> ~ (55296 <= r < 57344) ->
  encode_rune r = [byte_of (224 + r / 4096); byte_of (128 + r / 64 mod 64); byte_of (128 + r mod 64)].
Proof. intros H1 H2. unfold encode_rune. zbool; bits_to_arith; by pow2_values. Qed.

Lemma encode_rune_4 r :
  65536 <= r <= 1114111 ->
  encode_rune r = [byte_of (240 + r / 262144); byte_of (128 + r / 4096 mod 64);
                   byte_of (128 + r / 64 mod 64); byte_of (128 + r mod 64)].
Proof. intros H. unfold encode_rune. zbool; bits_to_arith; by pow2_values. Qed.

Local Ltac bytes_eq :=
  simpl; rewrite ?take_0;
  repeat (apply cons_byte_eq; [Z.to_euclidean_division_equations; lia|]); reflexivity.

(** A rune read from valid bytes is written back as the same bytes. *)
Lemma decode_rune_encode c0 s c n :
  decode_rune (c0 :: s) = (c, n) -> (c, n) <> (RuneError, 1%nat) ->
  encode_rune c = take n (c0 :: s).
Proof.
  unfold decode_rune. intros H Hn. pose proof (byte_val_bound c0) as B0.
  destruct (Z.ltb_spec (byte_val c0) 128).
  { simplify_eq. rewrite encode_rune_1 by lia. simpl. bytes_eq. }
  destruct ((byte_val c0 <? 194) || (244 <? byte_val c0)) eqn:E1; [simplify_eq|].
  apply orb_false_iff in E1 as [E1 E1']. apply Z.ltb_ge in E1, E1'.
  pose proof (accept_range_spec (byte_val c0)) as Ha.
  destruct (accept_range (byte_val c0)) as [lo hi].
  destruct s as [|c1 s]; [simplify_eq|]. pose proof (byte_val_bound c1) as B1.
  destruct (in_range lo hi c1) eqn:E2; simpl in H; [|simplify_eq].
  apply in_range_spec in E2.
  destruct (Z.ltb_spec (byte_val c0) 224).
  { simplify_eq. rewrite decode_2, encode_rune_2
      by (Z.to_euclidean_division_equations; lia). simpl. bytes_eq. }
  destruct s as [|c2 s]; [simplify_eq|]. pose proof (byte_val_bound c2) as B2.
  destruct (in_range 128 191 c2) eqn:E3; simpl in H; [|simplify_eq].
  apply in_range_spec in E3.
  destruct (Z.ltb_spec (byte_val c0) 240).
  { simplify_eq. rewrite decode_3, encode_rune_3
      by (Z.to_euclidean_division_equations; lia). simpl. bytes_eq. }
  destruct s as [|c3 s]; [simplify_eq|]. pose proof (byte_val_bound c3) as B3.
  destruct (in_range 128 191 c3) eqn:E4; simpl in H; [|simplify_eq].
  apply in_range_spec in E4.
  simplify_eq. rewrite decode_4, encode_rune_4
    by (Z.to_euclidean_division_equations; lia). simpl. bytes_eq.
Qed.

(** The bytes of a rune that does not start with an ASCII byte are all
    non-ASCII. *)
Lemma decode_rune_high c0 s c n :
  decode_rune (c0 :: s) = (c, n) -> (c, n) <> (RuneError, 1%nat) -> 128 <= byte_val c0 ->
  Forall (fun b => 128 <= byte_val b) (take n (c0 :: s)).
Proof.
  intros H Hn Hb. unfold decode_rune in H.
  destruct (Z.ltb_spec (byte_val c0) 128); [lia|].
  destruct ((byte_val c0 <? 194) || (244 <? byte_val c0)); [simplify_eq|].
  pose proof (accept_range_spec (byte_val c0)) as Ha.
  destruct (accept_range (byte_val c0)) as [lo hi].
  destruct s as [|c1 s]; [simplify_eq|].
  destruct (in_range lo hi c1) eqn:E1; simpl in H; [|simplify_eq]. apply in_range_spec in E1.
  destruct (byte_val c0 <? 224); [simplify_eq; simpl; repeat constructor; lia|].
  destruct s as [|c2 s]; [simplify_eq|].
  destruct (in_range 128 191 c2) eqn:E2; simpl in H; [|simplify_eq]. apply in_range_spec in E2.
  destruct (byte_val c0 <? 240); [simplify_eq; simpl; repeat constructor; lia|].
  destruct s as [|c3 s]; [simplify_eq|].
  destruct (in_range 128 191 c3) eqn:E3; simpl in H; [|simplify_eq]. apply in_range_spec in E3.
  simplify_eq. simpl. rewrite take_0. repeat constructor; lia.
Qed.

(** ** Strings *)

Lemma rune_unit_size s : s <> [] -> (1 <= snd (rune_unit s))%nat.
Proof.
  destruct s as [|c s]; [done|]. intros _. unfold rune_unit.
  pose proof (decode_rune_size c s). repeat case_match; simplify_eq/=; lia.
Qed.

Lemma valid_unit_size s : snd (valid_unit s) = snd (rune_unit s).
Proof. destruct s as [|c s]; [done|]. unfold valid_unit, rune_unit. by repeat case_match. Qed.

(** A valid unit is written back as the bytes it was read from. *)
Lemma rune_unit_valid s :
  forallb id (fst (valid_unit s)) = true -> fst (rune_unit s) = take (snd (rune_unit s)) s.
Proof.
  destruct s as [|b rest]; [done|]. unfold valid_unit, rune_unit.
  destruct (byte_val b <? 128); [simpl; by rewrite take_0|].
  destruct (decode_rune (b :: rest)) as [c size] eqn:D. simpl. rewrite andb_true_r.
  intros Hv. apply (decode_rune_encode b rest c size D).
  intros [= -> ->]. by rewrite Z.eqb_refl in Hv.
Qed.

(** A valid UTF-8 string is its own [string([]rune(s))]: re-encoding
    its runes gives back its bytes. *)
Theorem sanitize_valid s : utf8_valid s = true -> sanitize s = s.
Proof.
  induction s as [s IH] using (well_founded_ind (well_founded_ltof _ (@length ascii))).
  unfold ltof in IH. destruct s as [|b rest]; [done|]. intros Hv.
  assert (Hs := rune_unit_size (b :: rest) ltac:(done)).
  unfold utf8_valid in Hv.
  rewrite (run_units_unfold valid_unit (fun s H => eq_ind_r _ (rune_unit_size s H) (valid_unit_size s))) in Hv
    by done.
  rewrite forallb_app, valid_unit_size in Hv. apply andb_prop in Hv as [Hu Hr].
  unfold sanitize. rewrite (run_units_unfold rune_unit rune_unit_size) by done.
  rewrite (rune_unit_valid _ Hu). fold (sanitize (drop (snd (rune_unit (b :: rest))) (b :: rest))).
  rewrite IH; [apply take_drop | rewrite length_drop; simpl in *; lia | exact Hr].
Qed.

End Utf8.
