(* ===== verification/Prompb.v ===== *)
(** * The remote-read wire data ([prompb]) and the Lambda reply ([timeSerie])

    The Prometheus remote-read messages that [src/main.go] reads and
    builds ([prompb.ReadRequest], [Query], [LabelMatcher], [ReadResponse],
    [QueryResult], [TimeSeries], [Label], [Sample]), as records with the
    fields of the vendored protobuf definitions; and the two types the
    adapter declares itself for the JSON reply of the Lambda function,
    [timeSerie] and [lambdaResult] (main.go lines 30-35).  Numbers are
    [Z] kept in their Go width by the invariants of the components; a
    [double] is a binary64 [spec_float]. *)

From S2P Require Import Prelude.
From Stdlib Require Import Floats.SpecFloat.

(** ** The label matchers of a query *)

(** [prompb.LabelMatcher_Type], a Go [int32] enum: the four matcher
    operators are its named values, and the decoder keeps any other
    value it reads. *)
Definition MatchType : Type := Z.
Definition EQ : MatchType := 0.
Definition NEQ : MatchType := 1.
Definition RE : MatchType := 2.
Definition NRE : MatchType := 3.

Record LabelMatcher : Type := mkLabelMatcher {
  Type_ : MatchType;
  Name : string;
  Value : string
}.

(** [prompb.Query]; the read hints of newer protocol versions are not
    read by the adapter and are left out. *)
Record Query : Type := mkQuery {
  StartTimestampMs : Z;
  EndTimestampMs : Z;
  Matchers : list LabelMatcher
}.

Record ReadRequest : Type := mkReadRequest { Queries : list Query }.

(** ** The response *)

Record Label : Type := mkLabel { LName : string; LValue : string }.

(** A binary64 number: Go's [float64]. *)
Definition float64 : Type := spec_float.

(** Go's conversion [float64(i)] of an integer: round to nearest, ties to
    even, on 53 bits of precision and the binary64 exponent range. *)
Definition float64_of_int (i : Z) : float64 := binary_normalize 53 1024 i 0 false.

Record Sample : Type := mkSample { SValue : float64; Timestamp : Z }.

Record TimeSeries : Type := mkTimeSeries {
  Labels : list Label;
  Samples : list Sample
}.

Record QueryResult : Type := mkQueryResult { Timeseries : list TimeSeries }.

Record ReadResponse : Type := mkReadResponse { Results : list QueryResult }.

(** ** The JSON reply of the Lambda function (main.go, lines 30-35) *)

(** [type timeSerie struct { Target string; Datapoints [][]int }]: each
    datapoint is a Go slice of [int], of any length. *)
Record timeSerie : Type := mktimeSerie {
  Target : string;
  Datapoints : list (list Z)
}.

(** [type lambdaResult []timeSerie] *)
Definition lambdaResult : Type := list timeSerie.

(** ** Decidable equality, so that [decide] and [simplify_eq] apply *)

#[export] Instance LabelMatcher_eq_dec : EqDecision LabelMatcher.
Proof. solve_decision. Defined.
#[export] Instance Query_eq_dec : EqDecision Query.
Proof. solve_decision. Defined.
#[export] Instance Label_eq_dec : EqDecision Label.
Proof. solve_decision. Defined.
#[export] Instance timeSerie_eq_dec : EqDecision timeSerie.
Proof. solve_decision. Defined.
