(* ===== verification/Extract.v ===== *)
(** * The query extractor: the matcher scan at the top of [runQuery]

    [src/main.go], lines 47-67: four string variables start empty; one
    pass over [q.Matchers] overwrites each with the value of every
    matcher whose name is ["__name__"], ["functionName"], ["target"] or
    ["type"]; an empty [functionName] ends [runQuery] with the error
    ["no function name specified"].  The scan is [scan_matchers], the
    guard [extract_params]; [matcher_value] is the declarative reading
    (the value of the last matcher of that name) the theorems compare
    them with. *)

From S2P Require Import Prelude Prompb.

Module Extract.

(** The four variables of lines 47-50. *)
Record params : Type := mkParams {
  metricName : string;
  functionName : string;
  paramTarget : string;
  paramType : string
}.

Definition params0 : params := mkParams "" "" "" "".

(** One iteration of the loop body (lines 52-63): four independent
    [if]s, in the order of the source. *)
Definition scan_step (p : params) (m : LabelMatcher) : params :=
  let p := if String.eqb (Name m) "__name__"
           then mkParams (Value m) (functionName p) (paramTarget p) (paramType p)
           else p in
  let p := if String.eqb (Name m) "functionName"
           then mkParams (metricName p) (Value m) (paramTarget p) (paramType p)
           else p in
  let p := if String.eqb (Name m) "target"
           then mkParams (metricName p) (functionName p) (Value m) (paramType p)
           else p in
  if String.eqb (Name m) "type"
  then mkParams (metricName p) (functionName p) (paramTarget p) (Value m)
  else p.

(** [for _, m := range q.Matchers { ... }] *)
Definition scan_matchers (ms : list LabelMatcher) : params :=
  fold_left scan_step ms params0.

(** Lines 65-67: the only required parameter. *)
Definition extract_params (ms : list LabelMatcher) : outcome params :=
  let p := scan_matchers ms in
  if String.eqb (functionName p) "" then Err "no function name specified"
  else Ok p.

(** ** The declarative reading *)

Definition value_if_named (n : string) (m : LabelMatcher) : option string :=
  if String.eqb (Name m) n then Some (Value m) else None.

(** The value of the last matcher named [n], or [""] when there is none. *)
Definition matcher_value (n : string) (ms : list LabelMatcher) : string :=
  default "" (last_some (value_if_named n) ms).

Definition params_spec (ms : list LabelMatcher) : params :=
  mkParams (matcher_value "__name__" ms) (matcher_value "functionName" ms)
           (matcher_value "target" ms) (matcher_value "type" ms).

(** ** Lemmas *)

Lemma matcher_value_snoc n ms m :
  matcher_value n (ms ++ [m]) =
  if String.eqb (Name m) n then Value m else matcher_value n ms.
Proof.
  unfold matcher_value. rewrite last_some_app. unfold value_if_named.
  by destruct (String.eqb (Name m) n).
Qed.

Lemma scan_matchers_snoc ms m :
  scan_matchers (ms ++ [m]) = scan_step (scan_matchers ms) m.
Proof. unfold scan_matchers. by rewrite fold_left_app. Qed.

(** The four names are distinct, so one step moves at most one field. *)
Lemma scan_step_spec ms m :
  scan_step (params_spec ms) m = params_spec (ms ++ [m]).
Proof.
  unfold params_spec. rewrite !matcher_value_snoc. unfold scan_step.
  destruct m as [t nm v]; simpl.
  repeat match goal with
         | |- context [String.eqb ?a ?b] => destruct (String.eqb_spec a b); subst
         end; done.
Qed.

Lemma scan_matchers_spec ms : scan_matchers ms = params_spec ms.
Proof.
  induction ms as [|m ms IH] using rev_ind; [done|].
  by rewrite scan_matchers_snoc, IH, scan_step_spec.
Qed.

(** Relabelling the operator of every matcher does not change a name or
    a value, hence not the scan. *)
Definition set_type (t : MatchType) (m : LabelMatcher) : LabelMatcher :=
  mkLabelMatcher t (Name m) (Value m).

Lemma matcher_value_set_type t n ms :
  matcher_value n (map (set_type t) ms) = matcher_value n ms.
Proof.
  induction ms as [|m ms IH] using rev_ind; [done|].
  rewrite map_app. simpl. by rewrite !matcher_value_snoc, IH.
Qed.

(** A matcher whose name is none of the four is skipped. *)
Definition recognised (m : LabelMatcher) : bool :=
  String.eqb (Name m) "__name__" || String.eqb (Name m) "functionName" ||
  String.eqb (Name m) "target" || String.eqb (Name m) "type".

Lemma matcher_value_filter n ms :
  n = "__name__" \/ n = "functionName" \/ n = "target" \/ n = "type" ->
  matcher_value n (List.filter recognised ms) = matcher_value n ms.
Proof.
  intros Hn. induction ms as [|m ms IH] using rev_ind; [done|].
  rewrite List.filter_app, matcher_value_snoc, <- IH. simpl.
  destruct (recognised m) eqn:Hr; simpl.
  - by rewrite matcher_value_snoc.
  - rewrite app_nil_r. unfold recognised in Hr.
    destruct (String.eqb_spec (Name m) n) as [Heq|]; [|done].
    exfalso. rewrite Heq in Hr.
    destruct Hn as [-> | [-> | [-> | ->]]]; discriminate.
Qed.

#[export] Hint Rewrite scan_matchers_spec matcher_value_set_type : adapter.

(** ** Properties *)

Lemma extract_params_eq ms :
  extract_params ms =
  if String.eqb (matcher_value "functionName" ms) ""
  then Err "no function name specified"
  else Ok (params_spec ms).
Proof. unfold extract_params. by rewrite scan_matchers_spec. Qed.

(** ** Properties *)

(** C1. Functional behaviour of the matcher scan and its guard: the
    extractor succeeds exactly when the last ["functionName"] matcher
    has a non-empty value, and then returns, for each of the four
    names, the value of the last matcher of that name (or [""]); it
    fails only with "no function name specified", exactly when that
    value is empty, and never panics. *)
Theorem extract_params_spec ms p e :
  (extract_params ms = Ok p <->
   matcher_value "functionName" ms <> "" /\ p = params_spec ms) /\
  (extract_params ms = Err e <->
   matcher_value "functionName" ms = "" /\ e = "no function name specified") /\
  extract_params ms <> Panic e.
Proof.
  rewrite extract_params_eq.
  destruct (String.eqb_spec (matcher_value "functionName" ms) "") as [H|H];
    (split; [|split]); try (split; intros; destruct_and?; simplify_eq; done); discriminate.
Qed.

(** C28. The matcher's operator is ignored: relabelling every matcher as
    [=], [!=], [=~] or [!~] gives the same parameters, so a query
    [functionName!="f"] invokes the function ["f"]. *)
Theorem extract_params_ignores_type t ms :
  extract_params (map (set_type t) ms) = extract_params ms.
Proof. rewrite !extract_params_eq. unfold params_spec. by rewrite !matcher_value_set_type. Qed.

End Extract.
