(* ===== verification/TimeConv.v ===== *)
(** * The time range of a query: [time.Unix] on milliseconds

    [src/main.go], lines 44-45: [runQuery] turns the query's
    [StartTimestampMs] and [EndTimestampMs] into [time.Time] values with
    [time.Unix(int64(ms/1000), int64(ms%1000*1000))].  Go's [/] and [%]
    truncate toward zero ([Z.quot], [Z.rem]); [time.Unix] (Go's [time]
    package) normalises a nanosecond argument outside [0, 1e9) into the
    seconds.  [unix_of_ms] is the composition the adapter performs;
    [time_Unix] is the library function as documented and implemented in
    Go's [time/time.go]. *)

From S2P Require Import Prelude.

Module TimeConv.

(** The instant of a [time.Time]: seconds since the Unix epoch and a
    nanosecond offset in [0, 1e9).  The location ([time.Local]) is the
    process's, a parameter of the formatting in [Rfc3339]. *)
Record Time : Type := mkTime { sec : Z; nsec : Z }.

Definition nanos_per_sec : Z := 1000000000.

(** [func Unix(sec int64, nsec int64) Time] *)
Definition time_Unix (s ns : Z) : Time :=
  if (ns <? 0) || (nanos_per_sec <=? ns) then
    let n := Z.quot ns nanos_per_sec in
    let s := s + n in
    let ns := ns - n * nanos_per_sec in
    if ns <? 0 then mkTime (s - 1) (ns + nanos_per_sec) else mkTime s ns
  else mkTime s ns.

(** [time.Unix(int64(ms/1000), int64(ms%1000*1000))] *)
Definition unix_of_ms (ms : Z) : Time :=
  time_Unix (Z.quot ms 1000) (Z.rem ms 1000 * 1000).

(** [t.Format(time.RFC3339)] as [runQuery] uses it (lines 70-71): the
    interface [Backend] is stated against, implemented in [Rfc3339]. *)
Class TimeFormat : Type := {
  format_rfc3339 : Time -> string
}.

(** The instant in nanoseconds since the epoch. *)
Definition time_ns (t : Time) : Z := sec t * nanos_per_sec + nsec t.

(** ** Lemmas *)

(** [time.Unix] keeps the instant and normalises the offset. *)
Lemma time_Unix_ns s ns : time_ns (time_Unix s ns) = s * nanos_per_sec + ns.
Proof.
  unfold time_Unix, time_ns, nanos_per_sec.
  destruct (_ || _); [|reflexivity].
  destruct (Z.ltb_spec (ns - Z.quot ns 1000000000 * 1000000000) 0); simpl; lia.
Qed.

Lemma time_Unix_nsec_range s ns : 0 <= nsec (time_Unix s ns) < nanos_per_sec.
Proof.
  unfold time_Unix, nanos_per_sec.
  destruct (Z.ltb_spec ns 0), (Z.leb_spec 1000000000 ns); simpl;
    try lia;
    pose proof (Z.quot_rem' ns 1000000000);
    pose proof (Z.rem_bound_abs ns 1000000000 ltac:(lia));
    rewrite Z.mul_comm in *;
    (destruct (Z.ltb_spec (ns - 1000000000 * Z.quot ns 1000000000) 0)
     || destruct (Z.ltb_spec (ns - Z.quot ns 1000000000 * 1000000000) 0));
    simpl; lia.
Qed.

(** The seconds and offset of a normalised time are the floor quotient
    and the remainder of its instant. *)
Lemma time_split (t : Time) :
  0 <= nsec t < nanos_per_sec ->
  sec t = time_ns t / nanos_per_sec /\ nsec t = time_ns t mod nanos_per_sec.
Proof.
  intros H. unfold time_ns. split.
  - rewrite Z.div_add_l by (unfold nanos_per_sec; lia).
    rewrite Z.div_small by lia. lia.
  - rewrite Z.add_comm, Z.mod_add, Z.mod_small by (unfold nanos_per_sec in *; lia).
    reflexivity.
Qed.

Lemma unix_of_ms_ns ms :
  time_ns (unix_of_ms ms) = Z.quot ms 1000 * nanos_per_sec + Z.rem ms 1000 * 1000.
Proof. apply time_Unix_ns. Qed.

(** The truncated quotient and remainder of the source, with the carry
    of [time.Unix], give the floor quotient and the modulus. *)
Lemma quot_rem_floor_div ms :
  (Z.quot ms 1000 * nanos_per_sec + Z.rem ms 1000 * 1000) / nanos_per_sec = ms / 1000.
Proof. unfold nanos_per_sec. Z.to_euclidean_division_equations. nia. Qed.

(** ** Properties *)

Lemma unix_of_ms_sec_eq ms : sec (unix_of_ms ms) = ms / 1000.
Proof.
  destruct (time_split (unix_of_ms ms)) as [Hs _]; [apply time_Unix_nsec_range|].
  by rewrite Hs, unix_of_ms_ns, quot_rem_floor_div.
Qed.

(** C25. The time [runQuery] builds from a millisecond timestamp: its
    seconds are the floor of [ms / 1000], for negative timestamps too
    (Go's truncating [/] and the carry of [time.Unix] compose to a
    floor), and its nanosecond offset is the remainder scaled by 1000,
    normalised into [0, 1e9). *)
Theorem unix_of_ms_sec ms :
  sec (unix_of_ms ms) = ms / 1000 /\
  nsec (unix_of_ms ms) = (Z.rem ms 1000 * 1000) mod nanos_per_sec.
Proof.
  split; [apply unix_of_ms_sec_eq|].
  destruct (time_split (unix_of_ms ms)) as [_ Hn]; [apply time_Unix_nsec_range|].
  rewrite Hn, unix_of_ms_ns, Z.add_comm, Z.mul_comm, Z.mod_add; [done|].
  unfold nanos_per_sec. lia.
Qed.

(** C26. The sub-second part of the query times is a thousand times too
    small: the instant [time.Unix] receives equals [ms] milliseconds only
    when [ms] is a whole number of seconds, because the remainder in
    milliseconds is scaled by 1000 (to microseconds) where [time.Unix]
    expects nanoseconds. *)
Theorem unix_of_ms_exact_iff ms :
  time_ns (unix_of_ms ms) = ms * 1000000 <-> Z.rem ms 1000 = 0.
Proof.
  rewrite unix_of_ms_ns. pose proof (Z.quot_rem' ms 1000).
  unfold nanos_per_sec. lia.
Qed.

End TimeConv.
