(* ===== verification/Json.v ===== *)
(** * The invocation payload: Go's [encoding/json] encoder

    [src/main.go], lines 68-81, builds a [map[string]interface{}] of two
    [map[string]string] and serialises it with [json.Marshal].  The
    encoder (Go's [encoding/json/encode.go]) writes a map's entries in
    the byte order of their keys, and a string between quotes with the
    escaping of [encodeState.string] with [escapeHTML] set: control
    bytes, [<], [>] and [&] become [\u00XX], the quote and backslash are
    backslash-escaped, [\n], [\r] and [\t] use their short forms, an
    invalid UTF-8 byte becomes the six bytes [\ufffd], and U+2028 and
    U+2029 become [\u2028] and [\u2029].  [string_loop] is the
    encoder's loop with its indices [i] and [start] and its buffered
    flush of [s[start:i]]; [escape] reads the string unit by unit with
    [Utf8.decode_rune]. *)

From S2P Require Import Prelude Utf8.
From Stdlib Require Import Ascii.
From stdpp Require Import sorting.

Module Json.

Import Utf8.
Open Scope Z_scope.

(** ** [encodeState.string] *)

(** [htmlSafeSet]: the ASCII bytes written as they are when [escapeHTML]
    is set: printable ASCII and DEL except the quote, the backslash, [<],
    [>] and [&]. *)
Definition html_safe (b : ascii) : bool :=
  let v := byte_val b in
  (32 <=? v) && negb (v =? 34) && negb (v =? 92) && negb (v =? 60) &&
  negb (v =? 62) && negb (v =? 38).

Definition hex_digit (v : Z) : ascii :=
  nth (Z.to_nat v) (String.list_ascii_of_string "0123456789abcdef") "0"%char.

(** The escape written after the backslash for an ASCII byte that is
    not safe (the [switch b] of the encoder). *)
Definition escape_ascii (b : ascii) : bytes :=
  let v := byte_val b in
  if (v =? 92) || (v =? 34) then [b]
  else if v =? 10 then ["n"%char]
  else if v =? 13 then ["r"%char]
  else if v =? 9 then ["t"%char]
  else ["u"%char; "0"%char; "0"%char; hex_digit (Z.shiftr v 4); hex_digit (Z.land v 15)].

(** [if start < i { e.WriteString(s[start:i]) }] *)
Definition flush (s : bytes) (start i : nat) (out : bytes) : bytes :=
  if (start <? i)%nat then out ++ take (i - start) (drop start s) else out.

Definition bs (x : string) : bytes := String.list_ascii_of_string x.

(** The loop [for i := 0; i < len(s); { ... }] of [encodeState.string],
    with [out] the bytes written so far; each iteration advances [i] by
    at least one byte, so [length s + 1] units of fuel reach the exit. *)
Fixpoint string_loop (fuel : nat) (s : bytes) (i start : nat) (out : bytes) : bytes :=
  match fuel with
  | O => out
  | S fuel =>
      match s !! i with
      | None => if (start <? length s)%nat then out ++ drop start s else out
      | Some b =>
          if byte_val b <? 128 then
            if html_safe b then string_loop fuel s (S i) start out
            else string_loop fuel s (S i) (S i)
                   (flush s start i out ++ "\"%char :: escape_ascii b)
          else
            let '(c, size) := decode_rune (drop i s) in
            if (c =? RuneError) && (size =? 1)%nat then
              string_loop fuel s (i + size) (i + size) (flush s start i out ++ bs "\ufffd")
            else if (c =? 8232) || (c =? 8233) then
              string_loop fuel s (i + size) (i + size)
                (flush s start i out ++ bs "\u202" ++ [hex_digit (Z.land c 15)])
            else string_loop fuel s (i + size) start out
      end
  end.

(** The string between two quote bytes (34). *)
Definition encode_string (s : bytes) : bytes :=
  "034"%char :: string_loop (S (length s)) s 0 0 [] ++ ["034"%char].

(** ** The encoder unit by unit

    The reference reading of [encodeState.string]: the input is a
    sequence of units (an ASCII byte, or what [decode_rune] reads), and
    each unit is written on its own: a safe ASCII byte as it is, another
    with its escape, an invalid byte as the escape of U+FFFD, U+2028 and
    U+2029 escaped, and every other rune as its own bytes. *)

Definition unit_out (s : bytes) : bytes * nat :=
  match s with
  | [] => ([], 0%nat)
  | b :: _ =>
      if byte_val b <? 128 then
        ((if html_safe b then [b] else "\"%char :: escape_ascii b), 1%nat)
      else
        let '(c, size) := decode_rune s in
        if (c =? RuneError) && (size =? 1)%nat then (bs "\ufffd", size)
        else if (c =? 8232) || (c =? 8233) then (bs "\u202" ++ [hex_digit (Z.land c 15)], size)
        else (take size s, size)
  end.

Definition escape (s : bytes) : bytes := run_units unit_out (length s) s.

(** ** Values and [json.Marshal] *)

(** The values the adapter marshals: strings, and Go maps from string
    keys, given by their entries. *)
Inductive JValue : Type :=
| JString (s : bytes)
| JObject (entries : list (bytes * JValue)).

(** Go sorts the keys of a map by byte order before writing it. *)
Definition key_le {V} (k1 k2 : bytes * V) : Prop :=
  String.le (String.string_of_list_ascii k1.1) (String.string_of_list_ascii k2.1).

#[export] Instance key_le_dec {V} : RelDecision (@key_le V).
Proof. intros x y. unfold key_le. apply _. Defined.

Definition sort_entries {V} (kvs : list (bytes * V)) : list (bytes * V) :=
  merge_sort key_le kvs.

(** The entries of an object, already sorted and their values encoded,
    each [key:value] and separated by commas. *)
Fixpoint join_entries (l : list (bytes * bytes)) (first : bool) : bytes :=
  match l with
  | [] => []
  | (k, x) :: l' =>
      (if first then [] else [","%char]) ++ encode_string k ++ [":"%char] ++ x ++
      join_entries l' false
  end.

(** [encodeState.reflectValue]: a map is written as its entries in the
    order of their keys (the encoding of a value depends only on the
    value, so the values are encoded before the entries are sorted). *)
Fixpoint encode (v : JValue) : bytes :=
  match v with
  | JString s => encode_string s
  | JObject kvs =>
      "{"%char ::
        join_entries (sort_entries (map (fun '(k, x) => (k, encode x)) kvs)) true
        ++ ["}"%char]
  end.

(** [json.Marshal]: it fails only on values (channels, functions, NaN)
    that a [JValue] cannot hold. *)
Definition Marshal (v : JValue) : outcome bytes := Ok (encode v).

(** JSON text written with single quotes for the double quotes. *)
Definition json_text (x : string) : bytes :=
  map (fun c => if Ascii.eqb c "'"%char then "034"%char else c) (bs x).

(** ** Lemmas on the encoder *)

Lemma unit_out_size s : s <> [] -> (1 <= snd (unit_out s) <= length s)%nat.
Proof.
  destruct s as [|b rest]; [done|]. intros _.
  pose proof (decode_rune_size b rest) as H. unfold unit_out.
  destruct (decode_rune (b :: rest)) as [c size]. simpl in H.
  destruct (byte_val b <? 128); [simpl; lia|].
  repeat case_match; simpl; lia.
Qed.

Lemma escape_unfold l :
  l <> [] -> escape l = fst (unit_out l) ++ escape (drop (snd (unit_out l)) l).
Proof.
  intros Hl. apply (run_units_unfold unit_out (fun s H => proj1 (unit_out_size s H)) l Hl).
Qed.

Lemma take_extend (s : bytes) start i k :
  (start <= i)%nat ->
  take (i - start) (drop start s) ++ take k (drop i s) = take (i + k - start) (drop start s).
Proof.
  intros H. replace (i + k - start)%nat with (i - start + k)%nat by lia.
  rewrite <- take_take_drop, drop_drop. do 3 f_equal. lia.
Qed.

Lemma flush_eq s start i out :
  (start <= i)%nat -> flush s start i out = out ++ take (i - start) (drop start s).
Proof.
  intros H. unfold flush. destruct (Nat.ltb_spec start i); [done|].
  replace (i - start)%nat with 0%nat by lia. by rewrite app_nil_r.
Qed.

(** The loop, run from any state of its indices, writes what it has
    written, the pending bytes [s[start:i]], and the units of the rest. *)
Lemma string_loop_spec fuel s i start out :
  (start <= i <= length s)%nat -> (length s - i < fuel)%nat ->
  string_loop fuel s i start out = out ++ take (i - start) (drop start s) ++ escape (drop i s).
Proof.
  revert i start out. induction fuel as [|f IH]; intros i start out Hi Hf; [lia|].
  cbn [string_loop]. destruct (s !! i) as [b|] eqn:E.
  - assert (Hlt : (i < length s)%nat) by (apply lookup_lt_Some in E; done).
    rewrite (drop_S _ _ _ E), escape_unfold by done.
    unfold unit_out at 1 2. destruct (byte_val b <? 128).
    + destruct (html_safe b); simpl.
      * rewrite IH by lia.
        assert (take (S i - start) (drop start s) = take (i - start) (drop start s) ++ [b]) as Ht.
        { replace (S i - start)%nat with (i + 1 - start)%nat by lia.
          rewrite <- (take_extend s start i 1) by lia. by rewrite (drop_S _ _ _ E). }
        rewrite Ht. by rewrite <- !app_assoc.
      * rewrite IH by lia. rewrite flush_eq by lia.
        replace (S i - S i)%nat with 0%nat by lia. simpl. by rewrite <- !app_assoc.
    + rewrite <- (drop_S _ _ _ E).
      pose proof (decode_rune_size b (drop (S i) s)) as Hs.
      rewrite <- (drop_S _ _ _ E) in Hs. rewrite length_drop in Hs.
      destruct (decode_rune (drop i s)) as [c size] eqn:D. simpl in Hs.
      rewrite drop_drop.
      destruct ((c =? RuneError) && (size =? 1)%nat); [|destruct ((c =? 8232) || (c =? 8233))];
        simpl; rewrite IH by lia.
      * rewrite flush_eq by lia. replace (i + size - (i + size))%nat with 0%nat by lia.
        simpl. by rewrite <- !app_assoc.
      * rewrite flush_eq by lia. replace (i + size - (i + size))%nat with 0%nat by lia.
        simpl. by rewrite <- !app_assoc.
      * rewrite <- take_extend by lia. by rewrite <- !app_assoc.
  - apply lookup_ge_None in E. replace i with (length s) by lia.
    rewrite (drop_ge s (length s)) by lia. unfold escape. simpl. rewrite app_nil_r.
    rewrite take_ge by (rewrite length_drop; lia).
    destruct (Nat.ltb_spec start (length s)); [done|].
    rewrite drop_ge by lia. by rewrite app_nil_r.
Qed.

Lemma encode_string_escape s : encode_string s = "034"%char :: escape s ++ ["034"%char].
Proof.
  unfold encode_string. rewrite string_loop_spec by lia. by rewrite drop_0.
Qed.

(** Two entries whose keys are in byte order stay in that order. *)
Lemma sort_entries_two {V} (k1 k2 : string) (x y : V) :
  String.leb k1 k2 = true ->
  sort_entries [(bs k1, x); (bs k2, y)] = [(bs k1, x); (bs k2, y)].
Proof.
  intros H. unfold sort_entries, merge_sort. simpl.
  unfold key_le. simpl. unfold bs.
  case_decide as Hd.
  - by rewrite sorting.list_merge_nil_r.
  - exfalso. apply Hd. rewrite !String.string_of_list_ascii_of_string.
    unfold String.le. by rewrite H.
Qed.

(** ** Properties *)

(** C31. Equivalence and termination of the encoder's loop: run with
    more fuel than the string has bytes, Go's loop over [i] and [start],
    with its buffered copies of [s[start:i]], writes exactly the
    unit-by-unit escape of the string. *)
Theorem string_loop_escape fuel s :
  (length s < fuel)%nat -> string_loop fuel s 0 0 [] = escape s.
Proof. intros H. rewrite string_loop_spec by lia. by rewrite drop_0. Qed.

Lemma string_loop_escape_witness :
  string_loop 6 (bs "a<b&") 0 0 [] = escape (bs "a<b&").
Proof. apply string_loop_escape. simpl. lia. Defined.

End Json.
