(* ===== verification/Proto.v ===== *)
(** * The protobuf wire format of the remote-read messages

    [src/main.go] decodes the request with [proto.Unmarshal(reqBuf, &req)]
    (line 169) and encodes the response with [proto.Marshal(&resp)]
    (line 191).  Both dispatch to the code that gogo/protobuf generates
    for the [prompb] messages ([types.pb.go], [remote.pb.go]): this file
    translates that generated code.

    - Varints: [encodeVarint] is [encodeVarintTypes], [sov] is
      [sovTypes], [read_uvarint] the loop [for shift := uint(0); ;
      shift += 7 { ... }] inlined at every integer the decoder reads.
    - Encoding: [marshal_Label], ..., [marshal_ReadResponse] are the
      [MarshalTo] methods, fields in field-number order, a zero scalar or
      empty string left out, a nested message prefixed by its [Size()]
      ([size_Label], ...).  A [double] is written as the eight bytes of
      [math.Float64bits], little-endian.
    - Decoding: [msg_loop] is the loop [for iNdEx < l { ... }] of every
      generated [Unmarshal] method, with the checks of the field key; a
      message supplies its [switch fieldNum] as a [field_handler]; an
      unknown field is passed over by [skip_types] ([skipTypes]).
      Integers are read as Go reads them: a 64-bit pattern
      reinterpreted as [int64] ([wrap64]) or truncated to [int32]
      ([wrap32]); a length is checked against the buffer as [int].

    The position [iNdEx] of the Go code is [l - length s] for the bytes
    [s] that remain of a buffer of length [l]. *)

From S2P Require Import Prelude Utf8 Prompb Json.
From Stdlib Require Import Floats.SpecFloat.

Module Proto.

Import Utf8 Json.
Open Scope Z_scope.

(** ** Integers of the wire *)

(** Go's conversion [uint64(x)] of an [int64]. *)
Definition uint64_of_int64 (x : Z) : Z := x mod 2 ^ 64.

(** Go's conversion [int32(x)] of a 64-bit value. *)
Definition wrap32 (z : Z) : Z := (z + 2 ^ 31) mod 2 ^ 32 - 2 ^ 31.

(** [encodeVarintTypes]: seven bits per byte, least significant first,
    the high bit set on every byte but the last.  A [uint64] takes at
    most ten bytes: nine turns of the loop and the last byte. *)
Fixpoint encode_varint_fuel (fuel : nat) (v : Z) : bytes :=
  match fuel with
  | O => [byte_of v]
  | S f =>
      if v <? 128 then [byte_of v]
      else byte_of (Z.lor (Z.land v 127) 128) :: encode_varint_fuel f (Z.shiftr v 7)
  end.

Definition encodeVarint (v : Z) : bytes := encode_varint_fuel 9 v.

(** [sovTypes(x) = (bits.Len64(x|1) + 6) / 7]: the size of a varint. *)
Definition sov (x : Z) : Z := (Z.log2 (Z.lor x 1) + 1 + 6) / 7.

(** The errors of the generated decoder. *)
Definition ErrUnexpectedEOF : string := "unexpected EOF".
Definition ErrIntOverflow : string := "proto: integer overflow".
Definition ErrInvalidLength : string := "proto: negative length found during unmarshaling".
Definition ErrUnexpectedEndOfGroup : string := "proto: unexpected end of group".

(** The loop that reads a varint into a [uint64]: [shift] is [0], [7],
    ..., the bits shifted past the 64th are lost. *)
Fixpoint uvarint_loop (s : bytes) (shift acc : Z) : outcome (Z * bytes) :=
  if 64 <=? shift then Err ErrIntOverflow
  else match s with
       | [] => Err ErrUnexpectedEOF
       | b :: s' =>
           let acc := Z.land (Z.lor acc (Z.shiftl (Z.land (byte_val b) 127) shift)) (2 ^ 64 - 1) in
           if byte_val b <? 128 then Ok (acc, s') else uvarint_loop s' (shift + 7) acc
       end.

Definition read_uvarint (s : bytes) : outcome (Z * bytes) := uvarint_loop s 0 0.

(** ** Encoding ([MarshalTo], [Size]) *)

Abbreviation len s := (Z.of_nat (length s)).

(** The key of a field, [fieldNum << 3 | wireType]: one byte for the
    field numbers of the remote-read messages. *)
Definition key (fieldNum wireType : Z) : ascii := byte_of (Z.lor (Z.shiftl fieldNum 3) wireType).

(** [binary.LittleEndian.PutUint64]. *)
Fixpoint put_le (n : nat) (v : Z) : bytes :=
  match n with
  | O => []
  | S n => byte_of (Z.land v 255) :: put_le n (Z.shiftr v 8)
  end.

(** [math.Float64bits]: the IEEE 754 layout of a binary64 number, sign,
    11 bits of biased exponent and 52 bits of fraction.  The NaN of the
    model, which [float64(i)] never produces, is Go's [math.NaN()]. *)
Definition float64bits (f : spec_float) : Z :=
  let sign (s : bool) := if s then 2 ^ 63 else 0 in
  match f with
  | S754_zero s => sign s
  | S754_infinity s => sign s + 2047 * 2 ^ 52
  | S754_nan => 9221120237041090561
  | S754_finite s m e =>
      sign s + (if Z.pos m <? 2 ^ 52 then Z.pos m else (e + 1075) * 2 ^ 52 + (Z.pos m - 2 ^ 52))
  end.

(** Go's [f != 0] on a [float64]: true of every number but the zeros
    (and of NaN). *)
Definition float_nonzero (f : spec_float) : bool :=
  match f with S754_zero _ => false | _ => true end.

(** [if len(m.F) > 0 { key; encodeVarint(len); copy }] *)
Definition string_field (fieldNum : Z) (x : string) : bytes :=
  let b := bs x in
  if (0 <? length b)%nat then key fieldNum 2 :: encodeVarint (len b) ++ b else [].

Definition size_string_field (x : string) : Z :=
  let l := len (bs x) in if 0 <? l then 1 + l + sov l else 0.

(** [if m.F != 0 { key; encodeVarint(uint64(m.F)) }] *)
Definition int_field (fieldNum : Z) (x : Z) : bytes :=
  if x =? 0 then [] else key fieldNum 0 :: encodeVarint (uint64_of_int64 x).

Definition size_int_field (x : Z) : Z := if x =? 0 then 0 else 1 + sov (uint64_of_int64 x).

(** [for _, msg := range m.F { key; encodeVarint(msg.Size()); msg.MarshalTo }] *)
Definition message_fields {A} (fieldNum : Z) (size : A -> Z) (marshal : A -> bytes) (xs : list A) : bytes :=
  mjoin (map (fun x => key fieldNum 2 :: encodeVarint (size x) ++ marshal x) xs).

Definition size_message_fields {A} (size : A -> Z) (xs : list A) : Z :=
  fold_left (fun n e => let l := size e in n + (1 + l + sov l)) xs 0.

(** [Label]: name 1, value 2. *)
Definition marshal_Label (m : Label) : bytes := string_field 1 (LName m) ++ string_field 2 (LValue m).
Definition size_Label (m : Label) : Z := size_string_field (LName m) + size_string_field (LValue m).

(** [Sample]: value 1 (a [double], eight bytes), timestamp 2. *)
Definition marshal_Sample (m : Sample) : bytes :=
  (if float_nonzero (SValue m) then key 1 1 :: put_le 8 (float64bits (SValue m)) else []) ++
  int_field 2 (Timestamp m).
Definition size_Sample (m : Sample) : Z :=
  (if float_nonzero (SValue m) then 9 else 0) + size_int_field (Timestamp m).

(** [TimeSeries]: labels 1, samples 2. *)
Definition marshal_TimeSeries (m : TimeSeries) : bytes :=
  message_fields 1 size_Label marshal_Label (Labels m) ++
  message_fields 2 size_Sample marshal_Sample (Samples m).
Definition size_TimeSeries (m : TimeSeries) : Z :=
  size_message_fields size_Label (Labels m) + size_message_fields size_Sample (Samples m).

(** [QueryResult]: timeseries 1. *)
Definition marshal_QueryResult (m : QueryResult) : bytes :=
  message_fields 1 size_TimeSeries marshal_TimeSeries (Timeseries m).
Definition size_QueryResult (m : QueryResult) : Z :=
  size_message_fields size_TimeSeries (Timeseries m).

(** [ReadResponse]: results 1.  [proto.Marshal] allocates [Size()]
    bytes and fills them; it returns no error. *)
Definition marshal_ReadResponse (m : ReadResponse) : bytes :=
  message_fields 1 size_QueryResult marshal_QueryResult (Results m).
Definition size_ReadResponse (m : ReadResponse) : Z :=
  size_message_fields size_QueryResult (Results m).

(** The request as the Prometheus server encodes it.  [LabelMatcher]:
    type 1 (the enum as a varint of its sign-extended value), name 2,
    value 3. *)
Definition marshal_LabelMatcher (m : LabelMatcher) : bytes :=
  int_field 1 (Type_ m) ++ string_field 2 (Name m) ++ string_field 3 (Value m).
Definition size_LabelMatcher (m : LabelMatcher) : Z :=
  size_int_field (Type_ m) + size_string_field (Name m) + size_string_field (Value m).

(** [Query]: start_timestamp_ms 1, end_timestamp_ms 2, matchers 3. *)
Definition marshal_Query (m : Query) : bytes :=
  int_field 1 (StartTimestampMs m) ++ int_field 2 (EndTimestampMs m) ++
  message_fields 3 size_LabelMatcher marshal_LabelMatcher (Matchers m).
Definition size_Query (m : Query) : Z :=
  size_int_field (StartTimestampMs m) + size_int_field (EndTimestampMs m) +
  size_message_fields size_LabelMatcher (Matchers m).

(** [ReadRequest]: queries 1. *)
Definition marshal_ReadRequest (m : ReadRequest) : bytes :=
  message_fields 1 size_Query marshal_Query (Queries m).

(** ** Decoding ([Unmarshal]) *)

(** [fmt.Errorf("proto: wrong wireType = %d for field F", wireType)] *)
Definition wrong_wire_type (wireType : Z) (field : string) : string :=
  "proto: wrong wireType = " +:+ pretty wireType +:+ " for field " +:+ field.

(** [case n: if wireType != 0 { ... }; m.F = 0; for shift ... ]: the
    64-bit pattern of a varint field. *)
Definition varint_field (field : string) (wireType : Z) (s : bytes) : outcome (Z * bytes) :=
  if negb (wireType =? 0) then Err (wrong_wire_type wireType field) else read_uvarint s.

(** [case n: if wireType != 2 { ... }]; the length read as an [int],
    [if n < 0], [postIndex := iNdEx + n], [if postIndex < 0],
    [if postIndex > l]; then [dAtA[iNdEx:postIndex]]. *)
Definition bytes_field (field : string) (wireType l : Z) (s : bytes) : outcome (bytes * bytes) :=
  if negb (wireType =? 2) then Err (wrong_wire_type wireType field) else
  '(n, s1) ← read_uvarint s;
  let n := wrap64 n in
  if n <? 0 then Err ErrInvalidLength else
  let postIndex := wrap64 (l - len s1 + n) in
  if postIndex <? 0 then Err ErrInvalidLength else
  if l <? postIndex then Err ErrUnexpectedEOF else
  Ok (take (Z.to_nat n) s1, drop (Z.to_nat n) s1).

(** One turn of the loop of [skipTypes] at [iNdEx = i] with group depth
    [depth], after the key [wire] has been read and [r] remains: the
    next index and depth. *)
Definition skip_wire (d : bytes) (wire depth : Z) (r : bytes) : outcome (Z * Z) :=
  let i := len d - len r in
  let wireType := Z.land wire 7 in
  if wireType =? 0 then '(_, r') ← read_uvarint r; Ok (len d - len r', depth)
  else if wireType =? 1 then Ok (wrap64 (i + 8), depth)
  else if wireType =? 2 then
    '(n, r') ← read_uvarint r;
    let n := wrap64 n in
    if n <? 0 then Err ErrInvalidLength else Ok (wrap64 (len d - len r' + n), depth)
  else if wireType =? 3 then Ok (i, depth + 1)
  else if wireType =? 4 then
    if depth =? 0 then Err ErrUnexpectedEndOfGroup else Ok (i, depth - 1)
  else if wireType =? 5 then Ok (wrap64 (i + 4), depth)
  else Err ("proto: illegal wireType " +:+ pretty wireType).

(** [skipTypes(dAtA)]: the length of the field (or group) at the head of
    [dAtA].  Each turn reads a key, so [length d + 1] turns are enough. *)
Fixpoint skip_loop (fuel : nat) (d : bytes) (i depth : Z) : outcome Z :=
  match fuel with
  | O => Err ErrUnexpectedEOF
  | S f =>
      if negb (i <? len d) then Err ErrUnexpectedEOF else
      '(wire, r) ← read_uvarint (drop (Z.to_nat i) d);
      '(i', depth') ← skip_wire d wire depth r;
      if i' <? 0 then Err ErrInvalidLength
      else if depth' =? 0 then Ok i'
      else skip_loop f d i' depth'
  end.

Definition skip_types (d : bytes) : outcome Z := skip_loop (S (length d)) d 0 0.

(** [default:] of the field switch: [skippy, err := skipTypes(dAtA[iNdEx:])]
    from [preIndex], its checks, and [iNdEx += skippy].  The skipped
    bytes go to [XXX_unrecognized], which the adapter never reads. *)
Definition skip_unknown (l : Z) (s : bytes) : outcome nat :=
  let iNdEx := l - len s in
  skippy ← skip_types s;
  if (skippy <? 0) || (wrap64 (iNdEx + skippy) <? 0) then Err ErrInvalidLength
  else if l <? iNdEx + skippy then Err ErrUnexpectedEOF
  else Ok (Z.to_nat skippy).

(** The [switch fieldNum] of a message: [Some] result for the fields it
    knows, [None] for [default:].  Its arguments are the field number,
    the wire type, the length of the buffer, the bytes after the key and
    the message decoded so far. *)
Definition field_handler (M : Type) : Type := Z -> Z -> Z -> bytes -> M -> option (outcome (M * bytes)).

(** One turn of [for iNdEx < l]: the key, its checks, the field. *)
Definition msg_field {M} (name : string) (h : field_handler M) (l : Z) (s : bytes) (m : M)
    : outcome (M * bytes) :=
  '(wire, s1) ← read_uvarint s;
  let fieldNum := wrap32 (Z.shiftr wire 3) in
  let wireType := Z.land wire 7 in
  if wireType =? 4 then Err ("proto: " +:+ name +:+ ": wiretype end group for non-group")
  else if fieldNum <=? 0 then
    Err ("proto: " +:+ name +:+ ": illegal tag " +:+ pretty fieldNum +:+ " (wire type " +:+ pretty wire +:+ ")")
  else match h fieldNum wireType l s1 m with
       | Some r => r
       | None => n ← skip_unknown l s; Ok (m, drop n s)
       end.

(** The loop: each turn reads at least the key, so [length] turns are
    enough. *)
Fixpoint msg_loop {M} (name : string) (h : field_handler M) (l : Z) (fuel : nat) (s : bytes) (m : M)
    : outcome M :=
  match fuel with
  | O => Ok m
  | S f =>
      match s with
      | [] => Ok m
      | _ :: _ => '(m', s') ← msg_field name h l s m; msg_loop name h l f s' m'
      end
  end.

(** [m.Unmarshal(dAtA)] of a message reset to its zero value [m0]. *)
Definition unmarshal_msg {M} (name : string) (h : field_handler M) (m0 : M) (data : bytes) : outcome M :=
  msg_loop name h (len data) (length data) data m0.

(** [LabelMatcher.Unmarshal] *)
Definition LabelMatcher_field : field_handler LabelMatcher := fun fieldNum wireType l s m =>
  if fieldNum =? 1 then Some (
    '(v, s') ← varint_field "Type" wireType s;
    Ok (mkLabelMatcher (wrap32 v) (Name m) (Value m), s'))
  else if fieldNum =? 2 then Some (
    '(b, s') ← bytes_field "Name" wireType l s;
    Ok (mkLabelMatcher (Type_ m) (String.string_of_list_ascii b) (Value m), s'))
  else if fieldNum =? 3 then Some (
    '(b, s') ← bytes_field "Value" wireType l s;
    Ok (mkLabelMatcher (Type_ m) (Name m) (String.string_of_list_ascii b), s'))
  else None.

Definition unmarshal_LabelMatcher : bytes -> outcome LabelMatcher :=
  unmarshal_msg "LabelMatcher" LabelMatcher_field (mkLabelMatcher 0 "" "").

(** [Query.Unmarshal]: the matchers appended in order. *)
Definition Query_field : field_handler Query := fun fieldNum wireType l s m =>
  if fieldNum =? 1 then Some (
    '(v, s') ← varint_field "StartTimestampMs" wireType s;
    Ok (mkQuery (wrap64 v) (EndTimestampMs m) (Matchers m), s'))
  else if fieldNum =? 2 then Some (
    '(v, s') ← varint_field "EndTimestampMs" wireType s;
    Ok (mkQuery (StartTimestampMs m) (wrap64 v) (Matchers m), s'))
  else if fieldNum =? 3 then Some (
    '(b, s') ← bytes_field "Matchers" wireType l s;
    lm ← unmarshal_LabelMatcher b;
    Ok (mkQuery (StartTimestampMs m) (EndTimestampMs m) (Matchers m ++ [lm]), s'))
  else None.

Definition unmarshal_Query : bytes -> outcome Query :=
  unmarshal_msg "Query" Query_field (mkQuery 0 0 []).

(** [ReadRequest.Unmarshal], and [proto.Unmarshal(reqBuf, &req)]. *)
Definition ReadRequest_field : field_handler ReadRequest := fun fieldNum wireType l s m =>
  if fieldNum =? 1 then Some (
    '(b, s') ← bytes_field "Queries" wireType l s;
    q ← unmarshal_Query b;
    Ok (mkReadRequest (Queries m ++ [q]), s'))
  else None.

Definition unmarshal_ReadRequest : bytes -> outcome ReadRequest :=
  unmarshal_msg "ReadRequest" ReadRequest_field (mkReadRequest []).

(** ** The Go types of the request's fields

    [wf_ReadRequest r]: every integer of [r] is a value of its Go type,
    [int64] for the timestamps and [int32] for the matcher type. *)

Definition in_int32 (z : Z) : bool := (- 2 ^ 31 <=? z) && (z <? 2 ^ 31).

Definition wf_LabelMatcher (m : LabelMatcher) : bool := in_int32 (Type_ m).

Definition wf_Query (q : Query) : bool :=
  in_int64 (StartTimestampMs q) && in_int64 (EndTimestampMs q) && forallb wf_LabelMatcher (Matchers q).

Definition wf_ReadRequest (r : ReadRequest) : bool := forallb wf_Query (Queries r).

(** ** Varints *)

Lemma byte_val_of z : 0 <= z < 256 -> byte_val (byte_of z) = z.
Proof.
  intros Hz. unfold byte_val, byte_of. rewrite N_ascii_embedding; [lia|].
  apply N2Z.inj_lt. rewrite Z2N.id; lia.
Qed.

(** ** The decoder's loop on the encoder's fields *)

Lemma read_key f w s : 1 <= f < 16 -> 0 <= w < 8 ->
  read_uvarint (key f w :: s) = Ok (f * 8 + w, s).
Proof.
  intros Hf Hw. unfold read_uvarint, key. cbn [uvarint_loop].
  rewrite Z.shiftl_mul_pow2 by lia. change (2 ^ 3) with 8.
  rewrite (lor_add _ _ 3) by (change (2 ^ 3) with 8; rewrite ?Z_mod_mult; lia).
  rewrite byte_val_of by lia. simpl.
  change 127 with (2 ^ 7 - 1). rewrite (land_ones_mod _ 7), Z.mod_small by lia.
  rewrite Z.shiftl_0_r, Z.lor_0_l, land_ones_mod, Z.mod_small by lia.
  by replace (_ <? 128) with true by lia.
Qed.

Lemma msg_field_key {M} name (h : field_handler M) l f w s m r :
  1 <= f < 16 -> 0 <= w < 8 -> w <> 4 -> h f w l s m = Some r ->
  msg_field name h l (key f w :: s) m = r.
Proof.
  intros Hf Hw Hw4 Hh. unfold msg_field. rewrite read_key by done. cbn [mbind outcome_bind].
  replace (Z.land (f * 8 + w) 7) with w.
  2:{ change 7 with (2 ^ 3 - 1). rewrite land_ones_mod by lia. change (2^3) with 8.
      rewrite Z.add_comm, Z_mod_plus_full, Z.mod_small; lia. }
  replace (wrap32 (Z.shiftr (f * 8 + w) 3)) with f.
  2:{ rewrite Z.shiftr_div_pow2 by lia. change (2^3) with 8.
      replace ((f * 8 + w) / 8) with f by (apply Z.div_unique with w; lia).
      unfold wrap32. rewrite Z.mod_small; lia. }
  replace (w =? 4) with false by lia. replace (f <=? 0) with false by lia. by rewrite Hh.
Qed.

(** The varint reader reads back what [encodeVarint] writes. *)
Lemma uvarint_acc acc shift c :
  0 <= shift -> 0 <= acc < 2 ^ shift -> 0 <= c -> acc + c * 2 ^ shift < 2 ^ 64 ->
  Z.land (Z.lor acc (Z.shiftl c shift)) (2 ^ 64 - 1) = acc + c * 2 ^ shift.
Proof.
  intros Hs Hacc Hc Hlt. rewrite Z.shiftl_mul_pow2 by lia. rewrite Z.lor_comm.
  rewrite (lor_add _ _ shift) by (rewrite ?Z_mod_mult; lia).
  rewrite land_ones_mod by lia. rewrite Z.mod_small by nia. lia.
Qed.
Lemma varint_byte_low v : 0 <= v ->
  Z.land (Z.lor (Z.land v 127) 128) 127 = v mod 128 /\ 128 <= Z.lor (Z.land v 127) 128 < 256.
Proof.
  intros Hv. change 127 with (2 ^ 7 - 1). rewrite !land_ones_mod by lia.
  rewrite Z.lor_comm, (lor_add 128 _ 7) by first [reflexivity | lia | apply Z.mod_pos_bound; lia].
  split; [|pose proof (Z.mod_pos_bound v (2^7)); lia].
  change (2 ^ 7) with 128. replace (128 + v mod 128) with (v mod 128 + 1 * 128) by lia.
  by rewrite Z_mod_plus_full, Zmod_mod.
Qed.

Lemma uvarint_encode k v shift acc rest :
  0 <= v < 2 ^ (7 * Z.of_nat (S k)) -> 0 <= shift -> 0 <= acc < 2 ^ shift ->
  shift + 7 * Z.of_nat k < 64 -> acc + v * 2 ^ shift < 2 ^ 64 ->
  uvarint_loop (encode_varint_fuel k v ++ rest) shift acc = Ok (acc + v * 2 ^ shift, rest).
Proof.
  revert v shift acc. induction k as [|k IH]; intros v shift acc Hv Hs Hacc Hk Hlt;
    cbn [encode_varint_fuel]; [|destruct (Z.ltb_spec v 128)];
    cbn [app uvarint_loop]; replace (64 <=? shift) with false by lia.
  1,2: assert (v < 128) by (simpl in Hv; lia);
    rewrite byte_val_of by lia; replace (v <? 128) with true by lia;
    change 127 with (2 ^ 7 - 1); rewrite (land_ones_mod v 7) by lia; change (2 ^ 7) with 128;
    rewrite (Z.mod_small v) by lia;
    rewrite uvarint_acc by lia; done.
  destruct (varint_byte_low v) as [Hlow Hb]; [lia|].
  rewrite byte_val_of, Hlow by lia. replace (_ <? 128) with false by lia.
  pose proof (Z.mod_pos_bound v 128) as Hm. pose proof (Z.mod_le v 128) as Hm'.
  rewrite uvarint_acc by nia.
  rewrite Z.shiftr_div_pow2 by lia. change (2 ^ 7) with 128.
  assert (E : 2 ^ (shift + 7) = 2 ^ shift * 128) by (rewrite Z.pow_add_r; lia).
  assert (E2 : 2 ^ (7 * Z.of_nat (S (S k))) = 2 ^ (7 * Z.of_nat (S k)) * 128).
  { rewrite (Nat2Z.inj_succ (S k)), Z.mul_succ_r, Z.pow_add_r; lia. }
  pose proof (Z.div_mod v 128 ltac:(lia)). pose proof (Z.pow_pos_nonneg 2 shift).
  rewrite IH; rewrite ?E, ?E2 in *; [f_equal; f_equal; nia|nia..].
Qed.

Lemma read_encodeVarint v rest :
  0 <= v < 2 ^ 64 -> read_uvarint (encodeVarint v ++ rest) = Ok (v, rest).
Proof.
  intros Hv. unfold read_uvarint, encodeVarint.
  rewrite uvarint_encode; [f_equal; f_equal; lia|simpl; lia..].
Qed.

Lemma sov_log2 v : 0 <= v -> sov v = (Z.log2 v + 7) / 7.
Proof.
  intros Hv. unfold sov. rewrite Z.log2_lor by lia. change (Z.log2 1) with 0.
  rewrite Z.max_l by (apply Z.log2_nonneg). f_equal. lia.
Qed.

Lemma sov_small v : 0 <= v < 128 -> sov v = 1.
Proof.
  intros Hv. rewrite sov_log2 by lia. destruct (Z.eq_dec v 0) as [->|]; [done|].
  assert (Z.log2 v < 7) by (apply Z.log2_lt_pow2; lia). pose proof (Z.log2_nonneg v).
  symmetry. apply Z.div_unique with (Z.log2 v); lia.
Qed.

Lemma sov_shift v : 128 <= v -> sov v = 1 + sov (v / 128).
Proof.
  intros Hv. rewrite !sov_log2 by (try apply Z.div_pos; lia).
  assert (H7 : 7 <= Z.log2 v) by (apply Z.log2_le_pow2; lia).
  change (v / 128) with (v / 2 ^ 7). rewrite <- Z.shiftr_div_pow2, Z.log2_shiftr by lia.
  rewrite Z.max_r by lia. replace (Z.log2 v + 7) with ((Z.log2 v - 7 + 7) + 1 * 7) by lia.
  rewrite Z.div_add by lia. lia.
Qed.

Lemma length_encode_varint_fuel k v :
  0 <= v < 2 ^ (7 * Z.of_nat (S k)) -> Z.of_nat (length (encode_varint_fuel k v)) = sov v.
Proof.
  revert v. induction k as [|k IH]; intros v Hv; cbn [encode_varint_fuel].
  - rewrite sov_small; [done|simpl in Hv; lia].
  - destruct (Z.ltb_spec v 128); [by rewrite sov_small by lia|].
    rewrite sov_shift by lia. cbn [length]. rewrite Z.shiftr_div_pow2 by lia.
    change (2 ^ 7) with 128. rewrite Nat2Z.inj_succ, IH; [lia|]. split; [apply Z.div_pos; lia|].
    apply Z.div_lt_upper_bound; [lia|].
    rewrite (Nat2Z.inj_succ (S k)), Z.mul_succ_r, Z.pow_add_r in Hv; lia.
Qed.

Lemma length_encodeVarint v : 0 <= v < 2 ^ 64 -> Z.of_nat (length (encodeVarint v)) = sov v.
Proof. intros Hv. apply length_encode_varint_fuel. simpl. lia. Qed.

Lemma bytes_field_encode field l b rest :
  len (b ++ rest) <= l < 2 ^ 63 ->
  bytes_field field 2 l (encodeVarint (len b) ++ b ++ rest) = Ok (b, rest).
Proof.
  intros Hl. rewrite length_app in Hl. unfold bytes_field. cbn [negb Z.eqb].
  rewrite read_encodeVarint by lia. cbn [mbind outcome_bind].
  rewrite wrap64_id by (apply in_int64_spec; unfold int64_min, int64_max; lia).
  rewrite length_app, wrap64_id by (apply in_int64_spec; unfold int64_min, int64_max; lia).
  zbool. rewrite Nat2Z.id, take_app_length, drop_app_length. done.
Qed.

Lemma msg_loop_nil {M} name (h : field_handler M) l fuel m : msg_loop name h l fuel [] m = Ok m.
Proof. by destruct fuel. Qed.

Lemma msg_loop_opt {M} name (h : field_handler M) l fuel s t (m m' : M) :
  (s = [] /\ m' = m) \/ (s <> [] /\ msg_field name h l (s ++ t) m = Ok (m', t)) ->
  (length (s ++ t) <= fuel)%nat ->
  exists fuel', (length t <= fuel' <= fuel)%nat /\
    msg_loop name h l fuel (s ++ t) m = msg_loop name h l fuel' t m'.
Proof.
  intros [[-> ->]|[Hs H]] Hf; [exists fuel; simpl; auto with lia|].
  destruct s as [|c s]; [done|]. destruct fuel as [|f]; [simpl in Hf; lia|].
  exists f. split; [simpl in Hf; rewrite length_app in Hf; lia|]. simpl in H |- *. by rewrite H.
Qed.

Lemma msg_loop_fields {M A} name (h : field_handler M) l (enc : A -> bytes) (upd : M -> A -> M) xs :
  (forall x t m, In x xs -> len (enc x ++ t) <= l -> msg_field name h l (enc x ++ t) m = Ok (upd m x, t)) ->
  (forall x, enc x <> []) ->
  forall fuel t m, (length (mjoin (map enc xs) ++ t) <= fuel)%nat -> len (mjoin (map enc xs) ++ t) <= l ->
  exists fuel', (length t <= fuel' <= fuel)%nat /\
    msg_loop name h l fuel (mjoin (map enc xs) ++ t) m = msg_loop name h l fuel' t (fold_left upd xs m).
Proof.
  intros Hx Hne. induction xs as [|x xs IH]; intros fuel t m Hf Hl; [exists fuel; simpl; auto with lia|].
  change (mjoin (map enc (x :: xs))) with (enc x ++ mjoin (map enc xs)) in *.
  rewrite <- app_assoc in *.
  destruct (msg_loop_opt name h l fuel (enc x) (mjoin (map enc xs) ++ t) m (upd m x)) as (f1 & Hf1 & ->);
    [right; split; [done|apply Hx; [left|]; done]|done|].
  destruct (IH ltac:(intros; apply Hx; [right|]; done) f1 t (upd m x)) as (f2 & Hf2 & E);
    [lia|rewrite !length_app in *; lia|].
  exists f2. split; [lia|done].
Qed.


Lemma uint64_of_int64_range x : 0 <= uint64_of_int64 x < 2 ^ 64.
Proof. unfold uint64_of_int64. apply Z.mod_pos_bound. lia. Qed.

Lemma wrap64_uint64 x : in_int64 x = true -> wrap64 (uint64_of_int64 x) = x.
Proof.
  rewrite in_int64_spec. unfold int64_min, int64_max, wrap64, uint64_of_int64. intros Hx.
  rewrite Zplus_mod_idemp_l, Z.mod_small; lia.
Qed.

Lemma wrap32_uint64 x : in_int32 x = true -> wrap32 (uint64_of_int64 x) = x.
Proof.
  unfold in_int32, wrap32, uint64_of_int64. intros Hx. apply andb_prop in Hx as [H1 H2].
  apply Z.leb_le in H1. apply Z.ltb_lt in H2.
  rewrite <- Zplus_mod_idemp_l, Z.mod_mod_divide by (exists (2 ^ 32); reflexivity).
  rewrite Zplus_mod_idemp_l, Z.mod_small; lia.
Qed.

Lemma varint_field_encode field x rest :
  varint_field field 0 (encodeVarint (uint64_of_int64 x) ++ rest) = Ok (uint64_of_int64 x, rest).
Proof. apply read_encodeVarint, uint64_of_int64_range. Qed.

Lemma bs_nil x : bs x = [] -> x = ""%string.
Proof. destruct x; done. Qed.

Lemma string_of_bs x : String.string_of_list_ascii (bs x) = x.
Proof. apply String.string_of_list_ascii_of_string. Qed.

Lemma int_field_opt {M} name (h : field_handler M) l f x t (m m' : M) :
  1 <= f < 16 -> (x = 0 -> m' = m) ->
  (x <> 0 -> h f 0 l (encodeVarint (uint64_of_int64 x) ++ t) m = Some (Ok (m', t))) ->
  (int_field f x = [] /\ m' = m) \/ (int_field f x <> [] /\ msg_field name h l (int_field f x ++ t) m = Ok (m', t)).
Proof.
  intros Hf H0 H1. unfold int_field. destruct (Z.eqb_spec x 0); [left; auto|right].
  split; [done|]. apply msg_field_key; auto with lia.
Qed.

Lemma string_field_opt {M} name (h : field_handler M) l f x t (m m' : M) :
  1 <= f < 16 -> (x = ""%string -> m' = m) -> len (string_field f x ++ t) <= l ->
  (bs x <> [] -> len (bs x ++ t) <= l -> h f 2 l (encodeVarint (len (bs x)) ++ bs x ++ t) m = Some (Ok (m', t))) ->
  (string_field f x = [] /\ m' = m) \/ (string_field f x <> [] /\ msg_field name h l (string_field f x ++ t) m = Ok (m', t)).
Proof.
  intros Hf H0 Hl H1. unfold string_field in *. destruct (bs x) as [|c b] eqn:E.
  - left. split; [done|]. apply H0, bs_nil, E.
  - right. split; [done|]. replace (0 <? length (c :: b))%nat with true by done.
    rewrite <- app_comm_cons, <- app_assoc. apply msg_field_key; [lia|lia|lia|].
    apply H1; [done|]. cbn [Nat.ltb Nat.leb] in Hl. rewrite !length_app in *. cbn [length] in *. rewrite length_app in Hl. cbn [length] in Hl. lia.
Qed.

#[local] Ltac loop_step m' :=
  match goal with
  | |- msg_loop ?nm ?h ?l ?fu (?s ++ ?t) ?m = _ =>
      let f := fresh "fuel" in let Hf := fresh "Hfuel" in
      destruct (msg_loop_opt nm h l fu s t m m') as (f & Hf & ->); [|rewrite ?length_app in *; lia|]
  end.

Lemma unmarshal_marshal_LabelMatcher m :
  in_int32 (Type_ m) = true -> len (marshal_LabelMatcher m) < 2 ^ 63 ->
  unmarshal_LabelMatcher (marshal_LabelMatcher m) = Ok m.
Proof.
  destruct m as [t n v]. intros Ht Hl. cbn [Type_] in Ht.
  unfold unmarshal_LabelMatcher, unmarshal_msg. unfold marshal_LabelMatcher in *. cbn [Type_ Name Value] in *.
  remember (len _) as l eqn:El. rewrite <- (app_nil_r (string_field 3 v)) in El |- *.
  loop_step (mkLabelMatcher t "" "").
  { apply int_field_opt; [lia|intros ->; done|intros _].
    unfold LabelMatcher_field. cbn -[varint_field bytes_field encodeVarint uint64_of_int64 wrap32 bs].
    rewrite varint_field_encode. cbn [mbind outcome_bind]. by rewrite wrap32_uint64. }
  loop_step (mkLabelMatcher t n "").
  { apply string_field_opt; [lia|intros ->; done|rewrite !length_app in *; lia|intros _ Hb].
    unfold LabelMatcher_field. cbn -[varint_field bytes_field encodeVarint uint64_of_int64 wrap32 bs].
    rewrite bytes_field_encode by lia. cbn [mbind outcome_bind]. by rewrite string_of_bs. }
  loop_step (mkLabelMatcher t n v).
  { apply string_field_opt; [lia|intros ->; done|rewrite !length_app in *; lia|intros _ Hb].
    unfold LabelMatcher_field. cbn -[varint_field bytes_field encodeVarint uint64_of_int64 wrap32 bs].
    rewrite bytes_field_encode by lia. cbn [mbind outcome_bind]. by rewrite string_of_bs. }
  apply msg_loop_nil.
Qed.

(** ** [Size()] is the length of what [MarshalTo] writes *)

Lemma fold_size {A} (g : A -> Z) xs a :
  fold_left (fun n e => let l := g e in n + (1 + l + sov l)) xs a =
  a + fold_right (fun e n => 1 + g e + sov (g e) + n) 0 xs.
Proof. revert a. induction xs as [|x xs IH]; intros a; simpl; [lia|]. rewrite IH. lia. Qed.

Lemma size_string_field_len f x : len (bs x) < 2 ^ 64 -> size_string_field x = len (string_field f x).
Proof.
  intros Hx. unfold size_string_field, string_field.
  destruct (bs x) as [|c b]; [done|]. cbn [Nat.ltb Nat.leb]. zbool.
  pose proof (length_encodeVarint (Z.of_nat (S (length b))) ltac:(lia)). rewrite length_app. cbn [length]. lia.
Qed.

Lemma size_int_field_len f x : size_int_field x = len (int_field f x).
Proof.
  unfold size_int_field, int_field. destruct (x =? 0); [done|].
  cbn [length]. rewrite Nat2Z.inj_succ, length_encodeVarint by apply uint64_of_int64_range. lia.
Qed.

Lemma size_message_fields_len {A} f (size : A -> Z) marshal xs :
  (forall x, In x xs -> len (marshal x) < 2 ^ 64 -> size x = len (marshal x)) ->
  len (message_fields f size marshal xs) < 2 ^ 64 ->
  size_message_fields size xs = len (message_fields f size marshal xs).
Proof.
  intros Hx. unfold size_message_fields, message_fields. rewrite fold_size, Z.add_0_l.
  induction xs as [|x xs IH]; [done|]. intros Hl.
  change (mjoin (map (fun x => key f 2 :: encodeVarint (size x) ++ marshal x) (x :: xs)))
    with ((key f 2 :: encodeVarint (size x) ++ marshal x) ++
          mjoin (map (fun x => key f 2 :: encodeVarint (size x) ++ marshal x) xs)) in *.
  rewrite !length_app in *. cbn [length fold_right] in *. rewrite !length_app in *.
  rewrite Hx by (first [by left | lia]). rewrite IH by (intros; try apply Hx; auto with datatypes; lia).
  pose proof (length_encodeVarint (len (marshal x)) ltac:(lia)). lia.
Qed.


Lemma string_field_length f x : (length (bs x) <= length (string_field f x))%nat.
Proof.
  unfold string_field. destruct (bs x) as [|c b]; [done|]. cbn [Nat.ltb Nat.leb length].
  rewrite length_app. cbn [length]. lia.
Qed.

Lemma size_LabelMatcher_len m :
  len (marshal_LabelMatcher m) < 2 ^ 64 -> size_LabelMatcher m = len (marshal_LabelMatcher m).
Proof.
  unfold size_LabelMatcher, marshal_LabelMatcher. intros Hl. rewrite !length_app in *.
  pose proof (string_field_length 2 (Name m)). pose proof (string_field_length 3 (Value m)).
  rewrite (size_int_field_len 1), (size_string_field_len 2 (Name m)), (size_string_field_len 3 (Value m)) by lia.
  lia.
Qed.


Lemma message_field_step {M A} name (h : field_handler M) l f (size : A -> Z) marshal x t m r :
  1 <= f < 16 -> h f 2 l (encodeVarint (size x) ++ marshal x ++ t) m = Some r ->
  msg_field name h l ((key f 2 :: encodeVarint (size x) ++ marshal x) ++ t) m = r.
Proof. intros Hf Hh. rewrite <- app_comm_cons, <- app_assoc. apply msg_field_key; auto with lia. Qed.

Lemma message_fields_length {A} f (size : A -> Z) marshal xs x :
  In x xs -> (length (marshal x) < length (message_fields f size marshal xs))%nat.
Proof.
  unfold message_fields. induction xs as [|y xs IH]; [done|]. intros [<-|Hin];
  change (mjoin (map ?g (?a :: xs))) with (g a ++ mjoin (map g xs)); rewrite length_app;
  [|specialize (IH Hin)]; cbn [length]; rewrite ?length_app; lia.
Qed.

Lemma fold_append {A B} (mk : list A -> B) (get : B -> list A) xs acc :
  (forall l, get (mk l) = l) ->
  fold_left (fun b x => mk (get b ++ [x])) xs (mk acc) = mk (acc ++ xs).
Proof.
  intros Hg. revert acc. induction xs as [|x xs IH]; intros acc; simpl; [by rewrite app_nil_r|].
  by rewrite Hg, IH, <- app_assoc.
Qed.

Lemma message_fields_loop {M A} name (h : field_handler M) field l f (size : A -> Z) marshal
    (unmarshal : bytes -> outcome A) (upd : M -> A -> M) xs :
  1 <= f < 16 -> l < 2 ^ 63 ->
  (forall s m, h f 2 l s m = Some ('(b, s') ← bytes_field field 2 l s; x ← unmarshal b; Ok (upd m x, s'))) ->
  (forall x, In x xs -> size x = len (marshal x) /\ unmarshal (marshal x) = Ok x) ->
  forall fuel t m, (length (message_fields f size marshal xs ++ t) <= fuel)%nat ->
  len (message_fields f size marshal xs ++ t) <= l ->
  exists fuel', (length t <= fuel' <= fuel)%nat /\
    msg_loop name h l fuel (message_fields f size marshal xs ++ t) m = msg_loop name h l fuel' t (fold_left upd xs m).
Proof.
  intros Hf Hl Hh Hx. apply msg_loop_fields; [|done].
  intros x t m Hin Hxl. destruct (Hx x Hin) as [Hs Hu].
  apply message_field_step; [done|]. rewrite Hh, Hs.
  rewrite bytes_field_encode by (rewrite !length_app in *; cbn [length] in *; rewrite !length_app in *; lia).
  cbn [mbind outcome_bind]. by rewrite Hu.
Qed.

Lemma fold_Query st en ms acc :
  fold_left (fun q x => mkQuery (StartTimestampMs q) (EndTimestampMs q) (Matchers q ++ [x])) ms
    (mkQuery st en acc) = mkQuery st en (acc ++ ms).
Proof.
  revert acc. induction ms as [|x ms IH]; intros acc; simpl; [by rewrite app_nil_r|].
  by rewrite IH, <- app_assoc.
Qed.

Lemma unmarshal_marshal_Query q :
  wf_Query q = true -> len (marshal_Query q) < 2 ^ 63 -> unmarshal_Query (marshal_Query q) = Ok q.
Proof.
  destruct q as [st en ms]. unfold wf_Query. cbn [StartTimestampMs EndTimestampMs Matchers].
  intros (Hwf & Hms)%andb_prop Hl. apply andb_prop in Hwf as [Hst Hen].
  unfold unmarshal_Query, unmarshal_msg. unfold marshal_Query in *. cbn [StartTimestampMs EndTimestampMs Matchers] in *.
  remember (len _) as l eqn:El. rewrite <- (app_nil_r (message_fields 3 _ _ ms)) in El |- *.
  loop_step (mkQuery st 0 []).
  { apply int_field_opt; [lia|intros ->; done|intros _].
    unfold Query_field. cbn -[varint_field bytes_field encodeVarint uint64_of_int64 wrap64 bs].
    rewrite varint_field_encode. cbn [mbind outcome_bind]. by rewrite wrap64_uint64. }
  loop_step (mkQuery st en []).
  { apply int_field_opt; [lia|intros ->; done|intros _].
    unfold Query_field. cbn -[varint_field bytes_field encodeVarint uint64_of_int64 wrap64 bs].
    rewrite varint_field_encode. cbn [mbind outcome_bind]. by rewrite wrap64_uint64. }
  destruct (message_fields_loop "Query" Query_field "Matchers" l 3 size_LabelMatcher marshal_LabelMatcher
     unmarshal_LabelMatcher (fun q x => mkQuery (StartTimestampMs q) (EndTimestampMs q) (Matchers q ++ [x])) ms)
     with (fuel := fuel0) (t := @nil ascii) (m := mkQuery st en []) as (f3 & Hf3 & ->);
    [lia|lia|done| |lia|subst l; rewrite !length_app in *; lia|].
  { intros x Hin. rewrite forallb_forall in Hms.
    pose proof (message_fields_length 3 size_LabelMatcher marshal_LabelMatcher ms x Hin).
    assert (len (marshal_LabelMatcher x) < 2 ^ 63) by (rewrite El, !length_app in Hl; lia).
    split; [apply size_LabelMatcher_len; lia|]. apply unmarshal_marshal_LabelMatcher; [by apply Hms|lia]. }
  rewrite msg_loop_nil. f_equal. apply (fold_Query st en ms []).
Qed.

Lemma size_Query_len q : len (marshal_Query q) < 2 ^ 64 -> size_Query q = len (marshal_Query q).
Proof.
  unfold size_Query, marshal_Query. intros Hl. rewrite !length_app in *.
  rewrite (size_int_field_len 1), (size_int_field_len 2).
  rewrite (size_message_fields_len 3 size_LabelMatcher marshal_LabelMatcher); [lia| |lia].
  intros x _. apply size_LabelMatcher_len.
Qed.

Lemma unmarshal_marshal_ReadRequest_ok r :
  wf_ReadRequest r = true -> len (marshal_ReadRequest r) < 2 ^ 63 ->
  unmarshal_ReadRequest (marshal_ReadRequest r) = Ok r.
Proof.
  destruct r as [qs]. unfold wf_ReadRequest, unmarshal_ReadRequest, unmarshal_msg, marshal_ReadRequest.
  cbn [Queries]. intros Hqs Hl. remember (len _) as l eqn:El.
  rewrite <- (app_nil_r (message_fields 1 _ _ qs)) in El |- *.
  destruct (message_fields_loop "ReadRequest" ReadRequest_field "Queries" l 1 size_Query marshal_Query
     unmarshal_Query (fun r q => mkReadRequest (Queries r ++ [q])) qs)
     with (fuel := length (message_fields 1 size_Query marshal_Query qs ++ [])) (t := @nil ascii)
       (m := mkReadRequest []) as (f1 & Hf1 & ->);
    [lia|lia|done| |lia|lia|].
  { intros q Hin. rewrite forallb_forall in Hqs.
    pose proof (message_fields_length 1 size_Query marshal_Query qs q Hin).
    assert (len (marshal_Query q) < 2 ^ 63) by (rewrite El, !length_app in Hl; lia).
    split; [apply size_Query_len; lia|]. apply unmarshal_marshal_Query; [by apply Hqs|lia]. }
  rewrite msg_loop_nil. f_equal. by apply (fold_append mkReadRequest Queries qs []).
Qed.

(** C15. Round trip of the request: [proto.Unmarshal] in the adapter
    reads back every well-typed [ReadRequest] that the Prometheus server
    encodes with [proto.Marshal], for a message shorter than 2^63 bytes
    (any buffer Go can hold). *)
Theorem unmarshal_marshal_ReadRequest r :
  wf_ReadRequest r = true -> len (marshal_ReadRequest r) < 2 ^ 63 ->
  unmarshal_ReadRequest (marshal_ReadRequest r) = Ok r.
Proof. apply unmarshal_marshal_ReadRequest_ok. Qed.

(** The size of an [int64] field: [sovTypes] is the number of bytes
    [encodeVarintTypes] writes for [uint64(x)], between 1 and 10, and
    exactly 10 for a negative [x], whose sign extension fills 64 bits. *)
Theorem int64_varint_size x :
  in_int64 x = true ->
  len (encodeVarint (uint64_of_int64 x)) = sov (uint64_of_int64 x) /\
  1 <= sov (uint64_of_int64 x) <= 10 /\ (x < 0 -> sov (uint64_of_int64 x) = 10).
Proof.
  intros Hx. apply in_int64_spec in Hx. unfold int64_min, int64_max in Hx.
  pose proof (uint64_of_int64_range x) as Hr.
  split; [by apply length_encodeVarint|]. rewrite sov_log2 by lia.
  destruct (Z.eq_dec (uint64_of_int64 x) 0) as [E|E].
  { rewrite E. unfold uint64_of_int64 in E. split; [done|intros Hn].
    apply Z.mod_divide in E as [k Hk]; lia. }
  assert (Hl : Z.log2 (uint64_of_int64 x) < 64) by (apply Z.log2_lt_pow2; lia).
  pose proof (Z.log2_nonneg (uint64_of_int64 x)).
  split; [split; [apply Z.div_le_lower_bound|apply Z.div_le_upper_bound]; lia|].
  intros Hn. assert (Hu : uint64_of_int64 x = x + 2 ^ 64).
  { unfold uint64_of_int64. rewrite <- (Z.mod_add _ 1) by lia. apply Z.mod_small. lia. }
  assert (63 <= Z.log2 (uint64_of_int64 x)) by (apply Z.log2_le_pow2; lia).
  symmetry. apply Z.div_unique with (Z.log2 (uint64_of_int64 x) + 7 - 70); lia.
Qed.

(** ** Witnesses *)

Definition sample_request : ReadRequest :=
  mkReadRequest [mkQuery 1000 (-5) [mkLabelMatcher EQ "__name__" "foo";
                                    mkLabelMatcher NEQ "functionName" "f1";
                                    mkLabelMatcher (-7) "" "x"]].

Lemma unmarshal_marshal_ReadRequest_witness :
  unmarshal_ReadRequest (marshal_ReadRequest sample_request) = Ok sample_request.
Proof. apply unmarshal_marshal_ReadRequest; vm_compute; reflexivity. Defined.

Lemma int64_varint_size_witness :
  len (encodeVarint (uint64_of_int64 (-5))) = sov (uint64_of_int64 (-5)) /\
  1 <= sov (uint64_of_int64 (-5)) <= 10 /\ (-5 < 0 -> sov (uint64_of_int64 (-5)) = 10).
Proof. apply int64_varint_size. reflexivity. Defined.

End Proto.
