(* ===== verification/ProtoResponse.v ===== *)
(** * The response as Prometheus reads it

    The handler writes [proto.Marshal(&resp)] (line 191); the Prometheus
    server that sent the request decodes it with the [Unmarshal] methods
    gogo/protobuf generates for [prompb.ReadResponse], [QueryResult],
    [TimeSeries], [Label] and [Sample].  This file translates them, in
    the style of [Proto]: a [field_handler] per message for [msg_loop],
    the repeated fields appended in order, a [double] read as eight
    little-endian bytes ([encoding_binary.LittleEndian.Uint64], [get_le])
    and reinterpreted by [math.Float64frombits] ([float64frombits]).
    This decoder is not code the adapter runs: it is the client's
    inverse, against which the bytes of line 191 are checked.

    - [unmarshal_marshal_ReadResponse]: Prometheus reads back every
      response whose samples are valid floats other than [-0.0] with
      [int64] timestamps ([wf_ReadResponse]).
    - [float64_of_int_correct]: Go's [float64(i)] of line 108 gives a
      well-formed binary64 value, never [-0.0] (the one float that
      [MarshalTo] drops, [if m.Value != 0], so that it would come back
      as [+0.0]), exact up to 2^53. *)

From S2P Require Import Prelude Utf8 Prompb Json Proto.
From Stdlib Require Import Floats.SpecFloat.

Module ProtoResponse.

Import Utf8 Json Proto.
Open Scope Z_scope.

(** ** [math.Float64frombits] *)

(** The sign bit, the 11 bits of biased exponent and the 52 bits of
    fraction of [v]: an exponent of 2047 is an infinity (fraction 0) or
    a NaN, 0 a zero or a subnormal, else a normal number with its
    implicit leading bit. *)
Definition float64frombits (v : Z) : spec_float :=
  let s := Z.shiftr v 63 =? 1 in
  let e := Z.land (Z.shiftr v 52) 2047 in
  let m := Z.land v (2 ^ 52 - 1) in
  if e =? 2047 then (if m =? 0 then S754_infinity s else S754_nan)
  else if e =? 0 then
    match m with Zpos p => S754_finite s p (-1074) | _ => S754_zero s end
  else S754_finite s (Z.to_pos (m + 2 ^ 52)) (e - 1075).

(** ** Decoding ([Unmarshal]) *)

Fixpoint get_le (n : nat) (b : bytes) : Z :=
  match n, b with
  | S n, c :: r => Z.lor (byte_val c) (Z.shiftl (get_le n r) 8)
  | _, _ => 0
  end.

Definition fixed64_field (field : string) (wireType l : Z) (s : bytes) : outcome (Z * bytes) :=
  if negb (wireType =? 1) then Err (wrong_wire_type wireType field)
  else if l <? l - len s + 8 then Err ErrUnexpectedEOF
  else Ok (get_le 8 s, drop 8 s).

Definition Label_field : field_handler Label := fun fieldNum wireType l s m =>
  if fieldNum =? 1 then Some (
    '(b, s') ← bytes_field "Name" wireType l s;
    Ok (mkLabel (String.string_of_list_ascii b) (LValue m), s'))
  else if fieldNum =? 2 then Some (
    '(b, s') ← bytes_field "Value" wireType l s;
    Ok (mkLabel (LName m) (String.string_of_list_ascii b), s'))
  else None.

Definition unmarshal_Label : bytes -> outcome Label :=
  unmarshal_msg "Label" Label_field (mkLabel "" "").

Definition Sample_field : field_handler Sample := fun fieldNum wireType l s m =>
  if fieldNum =? 1 then Some (
    '(v, s') ← fixed64_field "Value" wireType l s;
    Ok (mkSample (float64frombits v) (Timestamp m), s'))
  else if fieldNum =? 2 then Some (
    '(v, s') ← varint_field "Timestamp" wireType s;
    Ok (mkSample (SValue m) (wrap64 v), s'))
  else None.

Definition unmarshal_Sample : bytes -> outcome Sample :=
  unmarshal_msg "Sample" Sample_field (mkSample (S754_zero false) 0).

Definition TimeSeries_field : field_handler TimeSeries := fun fieldNum wireType l s m =>
  if fieldNum =? 1 then Some (
    '(b, s') ← bytes_field "Labels" wireType l s;
    x ← unmarshal_Label b;
    Ok (mkTimeSeries (Labels m ++ [x]) (Samples m), s'))
  else if fieldNum =? 2 then Some (
    '(b, s') ← bytes_field "Samples" wireType l s;
    x ← unmarshal_Sample b;
    Ok (mkTimeSeries (Labels m) (Samples m ++ [x]), s'))
  else None.

Definition unmarshal_TimeSeries : bytes -> outcome TimeSeries :=
  unmarshal_msg "TimeSeries" TimeSeries_field (mkTimeSeries [] []).

Definition QueryResult_field : field_handler QueryResult := fun fieldNum wireType l s m =>
  if fieldNum =? 1 then Some (
    '(b, s') ← bytes_field "Timeseries" wireType l s;
    x ← unmarshal_TimeSeries b;
    Ok (mkQueryResult (Timeseries m ++ [x]), s'))
  else None.

Definition unmarshal_QueryResult : bytes -> outcome QueryResult :=
  unmarshal_msg "QueryResult" QueryResult_field (mkQueryResult []).

Definition ReadResponse_field : field_handler ReadResponse := fun fieldNum wireType l s m =>
  if fieldNum =? 1 then Some (
    '(b, s') ← bytes_field "Results" wireType l s;
    x ← unmarshal_QueryResult b;
    Ok (mkReadResponse (Results m ++ [x]), s'))
  else None.

Definition unmarshal_ReadResponse : bytes -> outcome ReadResponse :=
  unmarshal_msg "ReadResponse" ReadResponse_field (mkReadResponse []).

(** The integer a finite float denotes, if it is one: [(-1)^s * m * 2^e]. *)
Definition float_int_value (f : spec_float) : option Z :=
  match f with
  | S754_zero _ => Some 0
  | S754_finite s m e =>
      let a := if 0 <=? e then Some (Z.pos m * 2 ^ e)
               else if Z.pos m mod 2 ^ (- e) =? 0 then Some (Z.pos m / 2 ^ (- e)) else None in
      option_map (fun a => if s then - a else a) a
  | _ => None
  end.

Definition is_neg_zero (f : spec_float) : bool := match f with S754_zero true => true | _ => false end.

Definition wf_Sample (m : Sample) : bool :=
  valid_binary 53 1024 (SValue m) && negb (is_neg_zero (SValue m)) && in_int64 (Timestamp m).
Definition wf_TimeSeries (m : TimeSeries) : bool := forallb wf_Sample (Samples m).
Definition wf_QueryResult (m : QueryResult) : bool := forallb wf_TimeSeries (Timeseries m).
Definition wf_ReadResponse (m : ReadResponse) : bool := forallb wf_QueryResult (Results m).

(** ** The binary64 layout *)

Lemma digits2_pos_size p : digits2_pos p = Pos.size p.
Proof. induction p; simpl; congruence. Qed.

Lemma bounded_cases m e :
  bounded 53 1024 m e = true ->
  (Z.pos m < 2 ^ 52 /\ e = -1074) \/ (2 ^ 52 <= Z.pos m < 2 ^ 53 /\ -1074 <= e <= 971).
Proof.
  unfold bounded, canonical_mantissa, fexp, emin. rewrite digits2_pos_size.
  intros (Hc & He)%andb_prop. apply Z.eqb_eq in Hc. apply Z.leb_le in He.
  pose proof (Pos.size_gt m) as Hgt. pose proof (Pos.size_le m) as Hle.
  assert (Hgt' : Z.pos m < Z.pos (2 ^ Pos.size m)) by exact Hgt.
  assert (Hle' : Z.pos (2 ^ Pos.size m) <= Z.pos m~0) by exact Hle. clear Hgt Hle.
  rewrite Pos2Z.inj_pow in Hgt', Hle'. rewrite Pos2Z.inj_xO in Hle'.
  set (d := Z.pos (Pos.size m)) in *.
  destruct (Z.max_spec (d + e - 53) (3 - 1024 - 53)) as [[H1 H2]|[H1 H2]]; rewrite H2 in Hc.
  - left. split; [|lia]. assert (d <= 52) by lia.
    apply (Z.lt_le_trans _ _ _ Hgt'). apply Z.pow_le_mono_r; lia.
  - right. assert (d = 53) by lia. rewrite H in Hgt', Hle'. simpl in Hle'. lia.
Qed.

Lemma bits_fields S E M :
  0 <= S <= 1 -> 0 <= E < 2048 -> 0 <= M < 2 ^ 52 ->
  Z.shiftr (S * 2 ^ 63 + E * 2 ^ 52 + M) 63 = S /\
  Z.land (Z.shiftr (S * 2 ^ 63 + E * 2 ^ 52 + M) 52) 2047 = E /\
  Z.land (S * 2 ^ 63 + E * 2 ^ 52 + M) (2 ^ 52 - 1) = M.
Proof.
  intros HS HE HM. rewrite !Z.shiftr_div_pow2 by lia. change 2047 with (2 ^ 11 - 1).
  rewrite !land_ones_mod by lia.
  replace (S * 2 ^ 63 + E * 2 ^ 52 + M) with (M + (S * 2 ^ 11 + E) * 2 ^ 52)
    by (change (2 ^ 63) with (2 ^ 11 * 2 ^ 52); lia).
  assert (H52 : (M + (S * 2 ^ 11 + E) * 2 ^ 52) / 2 ^ 52 = S * 2 ^ 11 + E)
    by (rewrite Z.div_add, Z.div_small; lia).
  refine (conj _ (conj _ _)).
  - change (2 ^ 63) with (2 ^ 52 * 2 ^ 11). rewrite <- Z.div_div, H52 by lia.
    rewrite Z.div_add_l, Z.div_small; lia.
  - rewrite H52, Z.add_comm, Z_mod_plus_full. apply Z.mod_small. lia.
  - rewrite Z_mod_plus_full. apply Z.mod_small. lia.
Qed.

Lemma frombits_fields (v : Z) (s : bool) (E M : Z) :
  0 <= E < 2048 -> 0 <= M < 2 ^ 52 -> v = (if s then 2 ^ 63 else 0) + (E * 2 ^ 52 + M) ->
  float64frombits v =
  if E =? 2047 then (if M =? 0 then S754_infinity s else S754_nan)
  else if E =? 0 then match M with Zpos p => S754_finite s p (-1074) | _ => S754_zero s end
  else S754_finite s (Z.to_pos (M + 2 ^ 52)) (E - 1075).
Proof.
  intros HE HM ->. unfold float64frombits.
  destruct (bits_fields (if s then 1 else 0) E M) as (H1 & H2 & H3); [destruct s; lia|lia|lia|].
  replace ((if s then 2 ^ 63 else 0) + (E * 2 ^ 52 + M)) with ((if s then 1 else 0) * 2 ^ 63 + E * 2 ^ 52 + M)
    by (destruct s; lia).
  rewrite H1, H2, H3. by destruct s.
Qed.

Lemma float64frombits_bits_ok f : valid_binary 53 1024 f = true -> float64frombits (float64bits f) = f.
Proof.
  intros Hv. destruct f as [s|s| |s m e]; cbn [float64bits].
  - rewrite (frombits_fields _ s 0 0) by (destruct s; lia). done.
  - rewrite (frombits_fields _ s 2047 0) by (destruct s; lia). done.
  - rewrite (frombits_fields _ false 2047 (2 ^ 51 + 1)) by lia. done.
  - destruct (bounded_cases m e Hv) as [[Hm ->]|[Hm He]].
    + rewrite (proj2 (Z.ltb_lt _ _) Hm).
      rewrite (frombits_fields _ s 0 (Z.pos m)) by (destruct s; lia). done.
    + rewrite (proj2 (Z.ltb_ge _ _) (proj1 Hm)).
      rewrite (frombits_fields _ s (e + 1075) (Z.pos m - 2 ^ 52)) by (destruct s; lia).
      rewrite (proj2 (Z.eqb_neq _ _)), (proj2 (Z.eqb_neq _ _)) by lia.
      replace (Z.pos m - 2 ^ 52 + 2 ^ 52) with (Z.pos m) by lia. simpl. f_equal. lia.
Qed.

(** ** [float64(i)] ([binary_normalize] on an integer)

    [binary_round] aligns the integer on 53 significant bits: an integer
    below 2^53 is shifted left with no loss ([binary_round_small]); a
    wider one is shifted right by [shr_1] steps, rounded to nearest even
    and, when the rounding carries into a 54th bit, shifted once more
    ([binary_round_large]). *)

Lemma iter_pos_nat {A} (f : A -> A) n x : iter_pos f n x = Nat.iter (Pos.to_nat n) f x.
Proof.
  revert x. induction n as [n IH|n IH|]; intros x; cbn [iter_pos].
  - rewrite Pos2Nat.inj_xI, !IH, <- Nat.iter_add, <- Nat.iter_succ_r. f_equal. lia.
  - rewrite Pos2Nat.inj_xO, !IH. rewrite <- Nat.iter_add. f_equal. lia.
  - reflexivity.
Qed.

Lemma shr_1_m r : 0 <= shr_m r -> shr_m (shr_1 r) = Z.div2 (shr_m r).
Proof. destruct r as [[|[p|p|]|p] ? ?]; cbn; lia || done. Qed.

Lemma shr_1_nonneg r : 0 <= shr_m r -> 0 <= shr_m (shr_1 r).
Proof. intros H. rewrite shr_1_m by done. rewrite Z.div2_div. apply Z.div_pos; lia. Qed.

Lemma iter_shr_1_m k r : 0 <= shr_m r -> shr_m (Nat.iter k shr_1 r) = shr_m r / 2 ^ Z.of_nat k.
Proof.
  intros H. induction k as [|k IH]; [by rewrite Z.div_1_r|]. rewrite Nat.iter_succ.
  assert (Hn : 0 <= shr_m (Nat.iter k shr_1 r)) by (rewrite IH; apply Z.div_pos; lia).
  rewrite shr_1_m, Z.div2_div, IH by done. rewrite Z.div_div by lia. f_equal.
  rewrite Nat2Z.inj_succ, Z.pow_succ_r; lia.
Qed.

Lemma round_nearest_even_cases m l : round_nearest_even m l = m \/ round_nearest_even m l = m + 1.
Proof. destruct l as [|[]]; cbn; try destruct (Z.even m); auto. Qed.


Lemma size_log2 p : Z.pos (Pos.size p) = Z.log2 (Z.pos p) + 1.
Proof.
  assert (Z.log2 (Z.pos p) = Z.pos (Pos.size p) - 1) as ->; [|lia].
  apply Z.log2_unique; [lia|].
  pose proof (Pos.size_gt p) as Hgt. pose proof (Pos.size_le p) as Hle.
  assert (Hgt' : Z.pos p < Z.pos (2 ^ Pos.size p)) by exact Hgt.
  assert (Hle' : Z.pos (2 ^ Pos.size p) <= Z.pos p~0) by exact Hle.
  rewrite Pos2Z.inj_pow in Hgt', Hle'. change (Z.pos p~0) with (2 * Z.pos p) in Hle'.
  replace (Z.pos (Pos.size p)) with (Z.succ (Z.pos (Pos.size p) - 1)) in Hgt', Hle' by lia.
  rewrite Z.pow_succ_r in Hgt', Hle' |- * by lia. lia.
Qed.

Lemma digits_log2 m : 0 < m -> Zdigits2 m = Z.log2 m + 1.
Proof. destruct m as [|p|p]; try lia. intros _. cbn [Zdigits2]. by rewrite digits2_pos_size, size_log2. Qed.

Lemma log2_53 m : 2 ^ 52 <= m < 2 ^ 53 -> Z.log2 m = 52.
Proof. intros H. apply Z.log2_unique; lia. Qed.

Lemma fexp_normal x : -1021 <= x -> fexp 53 1024 x = x - 53.
Proof. intros H. unfold fexp, emin. lia. Qed.

Lemma bounded_normal m e : 2 ^ 52 <= Z.pos m < 2 ^ 53 -> -1074 <= e <= 971 -> bounded 53 1024 m e = true.
Proof.
  intros Hm He. unfold bounded, canonical_mantissa. rewrite digits2_pos_size, size_log2, log2_53 by done.
  unfold fexp, emin. apply andb_true_intro. split; [apply Z.eqb_eq; lia|apply Z.leb_le; lia].
Qed.

Lemma shr_fexp_normal m e l : 2 ^ 52 <= m < 2 ^ 53 -> -1074 <= e ->
  shr_fexp 53 1024 m e l = (shr_record_of_loc m l, e).
Proof.
  intros Hm He. unfold shr_fexp. rewrite digits_log2, log2_53 by lia. unfold fexp, emin.
  replace (Z.max (52 + 1 + e - 53) (3 - 1024 - 53) - e) with 0 by lia. done.
Qed.

Lemma shr_fexp_wide m e l k : 2 ^ (52 + Z.pos k) <= m < 2 ^ (53 + Z.pos k) -> -1074 <= e ->
  shr_fexp 53 1024 m e l = (iter_pos shr_1 k (shr_record_of_loc m l), e + Z.pos k).
Proof.
  intros Hm He. unfold shr_fexp.
  assert (Z.log2 m = 52 + Z.pos k) as Hl
    by (apply Z.log2_unique; [lia|]; replace (Z.succ (52 + Z.pos k)) with (53 + Z.pos k) by lia; lia).
  assert (0 < 2 ^ (52 + Z.pos k)) by (apply Z.pow_pos_nonneg; lia).
  rewrite digits_log2, Hl by lia. unfold fexp, emin.
  replace (Z.max (52 + Z.pos k + 1 + e - 53) (3 - 1024 - 53) - e) with (Z.pos k) by lia. done.
Qed.

Lemma pos_iter_xO p k : Z.pos (Pos.iter xO p k) = Z.pos p * 2 ^ Z.pos k.
Proof.
  induction k as [|k IH] using Pos.peano_ind; [cbn; lia|].
  rewrite Pos.iter_succ, Pos2Z.inj_succ, Z.pow_succ_r by lia.
  change (Z.pos (Pos.iter xO p k)~0) with (2 * Z.pos (Pos.iter xO p k)). rewrite IH. lia.
Qed.

Lemma log2_pos_bounds p : 0 <= Z.log2 (Z.pos p) /\ 2 ^ Z.log2 (Z.pos p) <= Z.pos p < 2 * 2 ^ Z.log2 (Z.pos p).
Proof.
  pose proof (Z.log2_spec (Z.pos p) ltac:(lia)) as [H1 H2]. pose proof (Z.log2_nonneg (Z.pos p)).
  rewrite Z.pow_succ_r in H2 by lia. lia.
Qed.

(** [float64(i)] for [0 < i < 2^53]: shifted left to 53 significant
    bits, with no rounding. *)
Lemma binary_round_small s p : Z.pos p < 2 ^ 53 ->
  exists m, Z.pos m = Z.pos p * 2 ^ (52 - Z.log2 (Z.pos p)) /\
    binary_round 53 1024 s p 0 = S754_finite s m (Z.log2 (Z.pos p) - 52).
Proof.
  intros Hp. destruct (log2_pos_bounds p) as (HL & Hlo & Hhi). set (L := Z.log2 (Z.pos p)) in *.
  assert (HL52 : L <= 52) by (apply Z.lt_succ_r, Z.log2_lt_pow2; lia).
  assert (HAB : 2 ^ L * 2 ^ (52 - L) = 2 ^ 52) by (rewrite <- Z.pow_add_r by lia; f_equal; lia).
  assert (0 < 2 ^ (52 - L)) by (apply Z.pow_pos_nonneg; lia).
  assert (Halign : exists m, Z.pos m = Z.pos p * 2 ^ (52 - L) /\
            shl_align p 0 (fexp 53 1024 (Z.pos (digits2_pos p) + 0)) = (m, L - 52)).
  { rewrite digits2_pos_size, size_log2, fexp_normal by lia. fold L. unfold shl_align.
    replace (L + 1 + 0 - 53 - 0) with (L - 52) by lia.
    destruct (L - 52) as [|d|d] eqn:E; [|lia|].
    - exists p. split; [|f_equal; lia]. replace (52 - L) with 0 by lia. lia.
    - exists (Pos.iter xO p d). rewrite pos_iter_xO. split; [|f_equal; lia]. do 2 f_equal. lia. }
  destruct Halign as (m & Hm & Ha). exists m. split; [done|].
  assert (Hmb : 2 ^ 52 <= Z.pos m < 2 ^ 53) by (change (2 ^ 53) with (2 * 2 ^ 52); nia).
  unfold binary_round. rewrite Ha. unfold binary_round_aux.
  rewrite shr_fexp_normal by lia. cbn [shr_record_of_loc shr_m loc_of_shr_record round_nearest_even].
  rewrite shr_fexp_normal by lia. cbn [shr_record_of_loc shr_m].
  replace (L - 52 <=? 1024 - 53) with true by lia. done.
Qed.

Lemma binary_round_large s p k : 2 ^ (52 + Z.pos k) <= Z.pos p < 2 ^ (53 + Z.pos k) ->
  (exists m e, binary_round 53 1024 s p 0 = S754_finite s m e /\ bounded 53 1024 m e = true) \/
  binary_round 53 1024 s p 0 = S754_infinity s.
Proof.
  intros Hp. assert (HK : 2 ^ (52 + Z.pos k) = 2 ^ 52 * 2 ^ Z.pos k) by (apply Z.pow_add_r; lia).
  assert (HK' : 2 ^ (53 + Z.pos k) = 2 ^ 53 * 2 ^ Z.pos k) by (apply Z.pow_add_r; lia).
  assert (Hk : 0 < 2 ^ Z.pos k) by (apply Z.pow_pos_nonneg; lia).
  assert (Hl : Z.log2 (Z.pos p) = 52 + Z.pos k)
    by (apply Z.log2_unique; [lia|]; replace (Z.succ (52 + Z.pos k)) with (53 + Z.pos k) by lia; lia).
  unfold binary_round. rewrite digits2_pos_size, size_log2, Hl, fexp_normal by lia.
  unfold shl_align. replace (52 + Z.pos k + 1 + 0 - 53 - 0) with (Z.pos k) by lia. cbn iota beta.
  unfold binary_round_aux. rewrite (shr_fexp_wide _ _ _ k) by lia.
  set (r0 := iter_pos shr_1 k (shr_record_of_loc (Z.pos p) loc_Exact)).
  assert (Hq : shr_m r0 = Z.pos p / 2 ^ Z.pos k)
    by (unfold r0; rewrite iter_pos_nat, iter_shr_1_m, positive_nat_Z; cbn; lia).
  assert (Hqb : 2 ^ 52 <= shr_m r0 < 2 ^ 53).
  { rewrite Hq. split; [apply Z.div_le_lower_bound|apply Z.div_lt_upper_bound]; lia. }
  destruct (round_nearest_even_cases (shr_m r0) (loc_of_shr_record r0)) as [Hr|Hr];
    set (r := round_nearest_even _ _) in *; clearbody r r0;
    [|destruct (Z.eq_dec (shr_m r0 + 1) (2 ^ 53)) as [He|He]].
  1, 3: rewrite shr_fexp_normal by lia; cbn [shr_record_of_loc shr_m];
    destruct r as [|m|m]; try lia; 
    destruct (0 + Z.pos k <=? 1024 - 53) eqn:Ek; [left; exists m, (0 + Z.pos k); split; [done|apply bounded_normal; lia]|by right].
  rewrite Hr, He, (shr_fexp_wide _ _ _ 1) by (cbn; lia). cbn -[Z.pow Z.leb].
  destruct (0 + Z.pos k + 1 <=? 1024 - 53) eqn:Ek; [left; eexists _, _; split; [reflexivity|apply bounded_normal; cbn; lia]|by right].
Qed.

Lemma binary_round_int s p :
  exists m e, binary_round 53 1024 s p 0 = S754_finite s m e /\ bounded 53 1024 m e = true \/
  binary_round 53 1024 s p 0 = S754_infinity s.
Proof.
  destruct (Z_lt_le_dec (Z.pos p) (2 ^ 53)) as [Hs|Hl].
  - destruct (binary_round_small s p Hs) as (m & Hm & ->). exists m, (Z.log2 (Z.pos p) - 52). left.
    split; [done|]. destruct (log2_pos_bounds p) as (HL & Hlo & Hhi).
    assert (Z.log2 (Z.pos p) <= 52) by (apply Z.lt_succ_r, Z.log2_lt_pow2; lia).
    assert (2 ^ Z.log2 (Z.pos p) * 2 ^ (52 - Z.log2 (Z.pos p)) = 2 ^ 52) by (rewrite <- Z.pow_add_r by lia; f_equal; lia).
    assert (0 < 2 ^ (52 - Z.log2 (Z.pos p))) by (apply Z.pow_pos_nonneg; lia).
    apply bounded_normal; [change (2 ^ 53) with (2 * 2 ^ 52); nia|lia].
  - destruct (log2_pos_bounds p) as (HL & Hlo & Hhi).
    assert (H53 : 53 <= Z.log2 (Z.pos p)) by (apply Z.log2_le_pow2; lia).
    destruct (binary_round_large s p (Z.to_pos (Z.log2 (Z.pos p) - 52))) as [(m & e & H)|H].
    + rewrite Z2Pos.id by lia. replace (52 + (Z.log2 (Z.pos p) - 52)) with (Z.log2 (Z.pos p)) by lia.
      replace (53 + (Z.log2 (Z.pos p) - 52)) with (Z.succ (Z.log2 (Z.pos p))) by lia.
      rewrite Z.pow_succ_r by lia. lia.
    + by exists m, e; left.
    + by exists 1%positive, 0; right.
Qed.

Lemma float_int_value_aligned s p m L : Z.pos m = Z.pos p * 2 ^ (52 - L) -> 0 <= L <= 52 ->
  float_int_value (S754_finite s m (L - 52)) = Some (if s then - Z.pos p else Z.pos p).
Proof.
  intros Hm HL. assert (0 < 2 ^ (52 - L)) by (apply Z.pow_pos_nonneg; lia). cbn [float_int_value].
  destruct (0 <=? L - 52) eqn:E.
  - assert (L = 52) as -> by lia. rewrite Z.sub_diag, Z.mul_1_r in Hm.
    cbn -[Z.mul]. rewrite Z.mul_1_r, Hm. by destruct s.
  - replace (- (L - 52)) with (52 - L) by lia. rewrite Hm, Z.mod_mul, Z.div_mul by lia. done.
Qed.

Lemma float64_of_int_wf i : valid_binary 53 1024 (float64_of_int i) = true /\ is_neg_zero (float64_of_int i) = false.
Proof.
  destruct i as [|p|p]; [done|pose proof (binary_round_int false p) as Hr|pose proof (binary_round_int true p) as Hr];
    unfold float64_of_int, binary_normalize; destruct Hr as (m & e & [[-> H]| ->]); done.
Qed.

Lemma float64_of_int_exact i : Z.abs i <= 2 ^ 53 -> float_int_value (float64_of_int i) = Some i.
Proof.
  intros Hi. destruct (Z.eq_dec (Z.abs i) (2 ^ 53)) as [He|Hn].
  - destruct (Z.abs_eq_or_opp i) as [Ha|Ha]; rewrite Ha in He; [|assert (i = - 2 ^ 53) by lia];
      subst i; vm_compute; reflexivity.
  - assert (Hp : forall p, Z.pos p < 2 ^ 53 -> forall s,
              float_int_value (binary_round 53 1024 s p 0) = Some (if s then - Z.pos p else Z.pos p)).
    { intros p Hp s. destruct (binary_round_small s p Hp) as (m & Hm & ->).
      destruct (log2_pos_bounds p) as (HL & _ & _).
      apply float_int_value_aligned; [done|]. split; [done|]. apply Z.lt_succ_r, Z.log2_lt_pow2; lia. }
    destruct i as [|p|p]; [done| |]; unfold float64_of_int, binary_normalize; rewrite Hp by lia; done.
Qed.

(** ** Decoding what [MarshalTo] writes *)

Lemma length_put_le n v : length (put_le n v) = n.
Proof. revert v. induction n as [|n IH]; intros v; simpl; [done|by rewrite IH]. Qed.

Lemma get_le_put_le n v t : 0 <= v < 2 ^ (8 * Z.of_nat n) -> get_le n (put_le n v ++ t) = v.
Proof.
  revert v. induction n as [|n IH]; intros v Hv; cbn [put_le get_le app].
  - simpl in Hv. lia.
  - rewrite IH.
    2:{ rewrite Z.shiftr_div_pow2 by lia. split; [apply Z.div_pos; lia|].
        apply Z.div_lt_upper_bound; [lia|]. rewrite <- Z.pow_add_r by lia.
        replace (8 + 8 * Z.of_nat n) with (8 * Z.of_nat (S n)) by lia. lia. }
    change 255 with (2 ^ 8 - 1). rewrite land_ones_mod, byte_val_of by (try apply Z.mod_pos_bound; lia).
    rewrite Z.shiftl_mul_pow2, Z.shiftr_div_pow2 by lia. rewrite Z.lor_comm.
    rewrite (lor_add _ _ 8) by (rewrite ?Z_mod_mult; try apply Z.mod_pos_bound; lia).
    pose proof (Z.div_mod v (2 ^ 8)). lia.
Qed.

Lemma fixed64_field_encode field l v t :
  0 <= v < 2 ^ 64 -> len (put_le 8 v ++ t) <= l ->
  fixed64_field field 1 l (put_le 8 v ++ t) = Ok (v, t).
Proof.
  intros Hv Hl. unfold fixed64_field. cbn [negb Z.eqb]. rewrite length_app, length_put_le in *.
  rewrite (proj2 (Z.ltb_ge _ _)) by lia. rewrite get_le_put_le by (simpl; lia).
  rewrite drop_app_length' by (by rewrite length_put_le). done.
Qed.

Lemma float64bits_range f : valid_binary 53 1024 f = true -> 0 <= float64bits f < 2 ^ 64.
Proof.
  intros Hv. destruct f as [s|s| |s m e]; cbn [float64bits]; [destruct s; lia..|lia|].
  destruct (bounded_cases m e Hv) as [[Hm ->]|[Hm He]];
    [rewrite (proj2 (Z.ltb_lt _ _) Hm)|rewrite (proj2 (Z.ltb_ge _ _) (proj1 Hm))]; destruct s; lia.
Qed.

#[local] Ltac loop_step m' :=
  match goal with
  | |- msg_loop ?nm ?h ?l ?fu (?s ++ ?t) ?m = _ =>
      let f := fresh "fuel" in let Hf := fresh "Hfuel" in
      destruct (msg_loop_opt nm h l fu s t m m') as (f & Hf & ->); [|rewrite ?length_app in *; lia|]
  end.

Lemma unmarshal_marshal_Label m :
  len (marshal_Label m) < 2 ^ 63 -> unmarshal_Label (marshal_Label m) = Ok m.
Proof.
  destruct m as [n v]. intros Hl. unfold unmarshal_Label, unmarshal_msg. unfold marshal_Label in *.
  cbn [LName LValue] in *.
  remember (len _) as l eqn:El. rewrite <- (app_nil_r (string_field 2 v)) in El |- *.
  loop_step (mkLabel n "").
  { apply string_field_opt; [lia|intros ->; done|rewrite !length_app in *; lia|intros _ Hb].
    unfold Label_field. cbn -[bytes_field encodeVarint bs].
    rewrite bytes_field_encode by lia. cbn [mbind outcome_bind]. by rewrite string_of_bs. }
  loop_step (mkLabel n v).
  { apply string_field_opt; [lia|intros ->; done|rewrite !length_app in *; lia|intros _ Hb].
    unfold Label_field. cbn -[bytes_field encodeVarint bs].
    rewrite bytes_field_encode by lia. cbn [mbind outcome_bind]. by rewrite string_of_bs. }
  apply msg_loop_nil.
Qed.

Lemma unmarshal_marshal_Sample m :
  wf_Sample m = true -> len (marshal_Sample m) < 2 ^ 63 -> unmarshal_Sample (marshal_Sample m) = Ok m.
Proof.
  destruct m as [v ts]. unfold wf_Sample. cbn [SValue Timestamp].
  intros ((Hv & Hz)%andb_prop & Hts)%andb_prop Hl.
  unfold unmarshal_Sample, unmarshal_msg. unfold marshal_Sample in *. cbn [SValue Timestamp] in *.
  remember (len _) as l eqn:El. rewrite <- (app_nil_r (int_field 2 ts)) in El |- *.
  loop_step (mkSample v 0).
  { destruct (float_nonzero v) eqn:Ev; [right|left].
    - split; [done|]. apply msg_field_key; [lia|lia|lia|].
      unfold Sample_field. cbn -[fixed64_field float64frombits put_le float64bits app].
      rewrite fixed64_field_encode by first [by apply float64bits_range | subst l; rewrite ?length_app; cbn [length]; rewrite ?length_app, ?length_put_le; lia].
      cbn [mbind outcome_bind]. by rewrite float64frombits_bits_ok.
    - split; [done|]. destruct v as [[]| | |]; done. }
  loop_step (mkSample v ts).
  { apply int_field_opt; [lia|intros ->; done|intros _].
    unfold Sample_field. cbn -[varint_field fixed64_field encodeVarint uint64_of_int64 wrap64].
    rewrite varint_field_encode. cbn [mbind outcome_bind]. by rewrite wrap64_uint64. }
  apply msg_loop_nil.
Qed.

(** ** [Size()] of the response messages *)

Lemma size_Label_len m : len (marshal_Label m) < 2 ^ 64 -> size_Label m = len (marshal_Label m).
Proof.
  unfold size_Label, marshal_Label. intros Hl. rewrite !length_app in *.
  pose proof (string_field_length 1 (LName m)). pose proof (string_field_length 2 (LValue m)).
  rewrite (size_string_field_len 1 (LName m)), (size_string_field_len 2 (LValue m)) by lia. lia.
Qed.

Lemma size_Sample_len m : size_Sample m = len (marshal_Sample m).
Proof.
  unfold size_Sample, marshal_Sample. rewrite length_app, (size_int_field_len 2).
  destruct (float_nonzero (SValue m)); cbn [length]; rewrite ?length_put_le; lia.
Qed.

Lemma size_TimeSeries_len m : len (marshal_TimeSeries m) < 2 ^ 64 -> size_TimeSeries m = len (marshal_TimeSeries m).
Proof.
  unfold size_TimeSeries, marshal_TimeSeries. intros Hl. rewrite !length_app in *.
  rewrite (size_message_fields_len 1 size_Label marshal_Label), (size_message_fields_len 2 size_Sample marshal_Sample);
    [lia|intros; apply size_Sample_len|lia|intros; by apply size_Label_len|lia].
Qed.

Lemma size_QueryResult_len m : len (marshal_QueryResult m) < 2 ^ 64 -> size_QueryResult m = len (marshal_QueryResult m).
Proof.
  unfold size_QueryResult, marshal_QueryResult. intros Hl.
  apply size_message_fields_len; [intros; by apply size_TimeSeries_len|done].
Qed.

(** ** Round trips of the response messages *)

Lemma fold_TimeSeries_labels ls ss acc :
  fold_left (fun m x => mkTimeSeries (Labels m ++ [x]) (Samples m)) ls (mkTimeSeries acc ss) = mkTimeSeries (acc ++ ls) ss.
Proof. revert acc. induction ls as [|x ls IH]; intros acc; simpl; [by rewrite app_nil_r|]. by rewrite IH, <- app_assoc. Qed.

Lemma fold_TimeSeries_samples ls ss acc :
  fold_left (fun m x => mkTimeSeries (Labels m) (Samples m ++ [x])) ss (mkTimeSeries ls acc) = mkTimeSeries ls (acc ++ ss).
Proof. revert acc. induction ss as [|x ss IH]; intros acc; simpl; [by rewrite app_nil_r|]. by rewrite IH, <- app_assoc. Qed.

(** The elements of a repeated field are shorter than the field. *)
Lemma message_fields_elem_len {A} f (size : A -> Z) marshal xs x rest :
  In x xs -> len (message_fields f size marshal xs ++ rest) < 2 ^ 63 -> len (marshal x) < 2 ^ 63.
Proof.
  intros Hin Hl. pose proof (message_fields_length f size marshal xs x Hin). rewrite length_app in Hl. lia.
Qed.

Lemma unmarshal_marshal_TimeSeries m :
  wf_TimeSeries m = true -> len (marshal_TimeSeries m) < 2 ^ 63 -> unmarshal_TimeSeries (marshal_TimeSeries m) = Ok m.
Proof.
  destruct m as [ls ss]. unfold wf_TimeSeries. cbn [Labels Samples]. intros Hss Hl.
  unfold unmarshal_TimeSeries, unmarshal_msg. unfold marshal_TimeSeries in *. cbn [Labels Samples] in *.
  remember (len _) as l eqn:El. rewrite <- (app_nil_r (message_fields 2 _ _ ss)) in El |- *.
  destruct (message_fields_loop "TimeSeries" TimeSeries_field "Labels" l 1 size_Label marshal_Label
     unmarshal_Label (fun m x => mkTimeSeries (Labels m ++ [x]) (Samples m)) ls)
     with (fuel := length (message_fields 1 size_Label marshal_Label ls ++ message_fields 2 size_Sample marshal_Sample ss ++ []))
          (t := message_fields 2 size_Sample marshal_Sample ss ++ []) (m := mkTimeSeries [] [])
     as (f1 & Hf1 & ->); [lia|lia|done| |lia|lia|].
  { intros x Hin. assert (len (marshal_Label x) < 2 ^ 63) by (subst l; eapply message_fields_elem_len; eauto).
    split; [apply size_Label_len; lia|by apply unmarshal_marshal_Label]. }
  rewrite (fold_TimeSeries_labels ls [] []).
  destruct (message_fields_loop "TimeSeries" TimeSeries_field "Samples" l 2 size_Sample marshal_Sample
     unmarshal_Sample (fun m x => mkTimeSeries (Labels m) (Samples m ++ [x])) ss)
     with (fuel := f1) (t := @nil ascii) (m := mkTimeSeries ([] ++ ls) [])
     as (f2 & Hf2 & ->); [lia|lia|done| |lia|subst l; rewrite !length_app in *; lia|].
  { intros x Hin. rewrite forallb_forall in Hss.
    assert (len (marshal_Sample x) < 2 ^ 63).
    { pose proof (message_fields_length 2 size_Sample marshal_Sample ss x Hin). rewrite El, !length_app in Hl. lia. }
    split; [apply size_Sample_len|apply unmarshal_marshal_Sample; [by apply Hss|lia]]. }
  rewrite msg_loop_nil, (fold_TimeSeries_samples ([] ++ ls) ss []). done.
Qed.

Lemma unmarshal_marshal_QueryResult m :
  wf_QueryResult m = true -> len (marshal_QueryResult m) < 2 ^ 63 -> unmarshal_QueryResult (marshal_QueryResult m) = Ok m.
Proof.
  destruct m as [tss]. unfold wf_QueryResult. cbn [Timeseries]. intros Hts Hl.
  unfold unmarshal_QueryResult, unmarshal_msg. unfold marshal_QueryResult in *. cbn [Timeseries] in *.
  remember (len _) as l eqn:El. rewrite <- (app_nil_r (message_fields 1 _ _ tss)) in El |- *.
  destruct (message_fields_loop "QueryResult" QueryResult_field "Timeseries" l 1 size_TimeSeries marshal_TimeSeries
     unmarshal_TimeSeries (fun m x => mkQueryResult (Timeseries m ++ [x])) tss)
     with (fuel := length (message_fields 1 size_TimeSeries marshal_TimeSeries tss ++ [])) (t := @nil ascii)
          (m := mkQueryResult []) as (f1 & Hf1 & ->); [lia|lia|done| |lia|lia|].
  { intros x Hin. rewrite forallb_forall in Hts.
    assert (len (marshal_TimeSeries x) < 2 ^ 63) by (subst l; eapply message_fields_elem_len; eauto).
    split; [apply size_TimeSeries_len; lia|apply unmarshal_marshal_TimeSeries; [by apply Hts|done]]. }
  rewrite msg_loop_nil. f_equal. by apply (fold_append mkQueryResult Timeseries tss []).
Qed.

Lemma unmarshal_marshal_ReadResponse_ok m :
  wf_ReadResponse m = true -> len (marshal_ReadResponse m) < 2 ^ 63 -> unmarshal_ReadResponse (marshal_ReadResponse m) = Ok m.
Proof.
  destruct m as [rs]. unfold wf_ReadResponse. cbn [Results]. intros Hrs Hl.
  unfold unmarshal_ReadResponse, unmarshal_msg. unfold marshal_ReadResponse in *. cbn [Results] in *.
  remember (len _) as l eqn:El. rewrite <- (app_nil_r (message_fields 1 _ _ rs)) in El |- *.
  destruct (message_fields_loop "ReadResponse" ReadResponse_field "Results" l 1 size_QueryResult marshal_QueryResult
     unmarshal_QueryResult (fun m x => mkReadResponse (Results m ++ [x])) rs)
     with (fuel := length (message_fields 1 size_QueryResult marshal_QueryResult rs ++ [])) (t := @nil ascii)
          (m := mkReadResponse []) as (f1 & Hf1 & ->); [lia|lia|done| |lia|lia|].
  { intros x Hin. rewrite forallb_forall in Hrs.
    assert (len (marshal_QueryResult x) < 2 ^ 63) by (subst l; eapply message_fields_elem_len; eauto).
    split; [apply size_QueryResult_len; lia|apply unmarshal_marshal_QueryResult; [by apply Hrs|done]]. }
  rewrite msg_loop_nil. f_equal. by apply (fold_append mkReadResponse Results rs []).
Qed.

(** ** Properties *)

(** C18. Round trip of the response: the [Unmarshal] of Prometheus reads
    back every [ReadResponse] the handler marshals, when its sample
    values are binary64 numbers other than [-0.0] and its timestamps
    [int64] values, for a message shorter than 2^63 bytes. *)
Theorem unmarshal_marshal_ReadResponse m :
  wf_ReadResponse m = true -> len (marshal_ReadResponse m) < 2 ^ 63 ->
  unmarshal_ReadResponse (marshal_ReadResponse m) = Ok m.
Proof. apply unmarshal_marshal_ReadResponse_ok. Qed.

(** C19. The conversion [float64(datapoint[0])] of line 108 gives, for
    every integer, a well-formed binary64 value (rounded to nearest
    even, infinite beyond the range) that is never [-0.0], and it is
    exact for integers of magnitude up to 2^53. *)
Theorem float64_of_int_correct i :
  valid_binary 53 1024 (float64_of_int i) = true /\ is_neg_zero (float64_of_int i) = false /\
  (Z.abs i <= 2 ^ 53 -> float_int_value (float64_of_int i) = Some i).
Proof.
  destruct (float64_of_int_wf i) as [Hv Hz]. split; [done|split; [done|]]. apply float64_of_int_exact.
Qed.

(** Beyond 2^53 the conversion rounds: 2^53 + 1 is sent as 2^53. *)
Example float64_of_int_rounds : float_int_value (float64_of_int (2 ^ 53 + 1)) = Some (2 ^ 53).
Proof. vm_compute. reflexivity. Qed.

(** ** Witnesses *)

(** The response of the scenario of [Handler], with a zero, a negative
    and a fractional value added. *)
Definition sample_response : ReadResponse :=
  mkReadResponse [mkQueryResult [mkTimeSeries [mkLabel "__name__" "foo"; mkLabel "target" ""]
    [mkSample (float64_of_int 7) 1000; mkSample (float64_of_int 0) (-5);
     mkSample (float64_of_int (-123456789)) 0; mkSample (S754_finite false 1 (-1074)) 1]];
    mkQueryResult []].

Lemma float64_of_int_correct_witness :
  float_int_value (float64_of_int (- 2 ^ 53)) = Some (- 2 ^ 53).
Proof. apply (proj2 (proj2 (float64_of_int_correct (- 2 ^ 53)))). vm_compute. discriminate. Defined.

Lemma unmarshal_marshal_ReadResponse_witness :
  unmarshal_ReadResponse (marshal_ReadResponse sample_response) = Ok sample_response.
Proof. apply unmarshal_marshal_ReadResponse; vm_compute; reflexivity. Defined.

End ProtoResponse.
