(* ===== verification/Snappy.v ===== *)
(** * The snappy block format of the request and the response

    [src/main.go] decompresses the request body with
    [snappy.Decode(nil, compressed)] (line 163) and compresses the
    response with [snappy.Encode(nil, data)] (line 198), from
    github.com/golang/snappy ([decode.go], [decode_other.go], [encode.go],
    [encode_other.go]).  This file translates those functions.

    - [Uvarint] is [binary.Uvarint], [decodedLen] reads the length of
      the decompressed block, [decode_loop] is the loop of [decode]: a
      literal copies bytes of the input, a copy repeats [length] bytes
      found [offset] bytes back in the output (byte by byte when the two
      overlap); [Decode] checks the result has the announced length.
    - [emitLiteral], [emitCopy] and [encodeBlock] write the elements;
      [encodeBlock] finds four-byte matches through a hash table of
      [uint16] positions ([table], a [gmap]); [Encode] writes the
      length and cuts the input into blocks of 64 KiB.

    Positions are [Z]; a byte at a position is read with [at_], which
    gives 0 out of range: the Go code reads only in range there, by the
    bounds it checks ([sLimit], [s < len(src)]).

    ** The round trip: [Decode] inverts [Encode]

    The decoder's side: [runs out p p'] says that the decoder loop
    ([Snappy.decode_loop]), at the bytes [out] of a block and with the
    output [p] written so far, reaches the output [p'] at the end of
    [out], using at most one turn of fuel per byte.  Every element the
    encoder emits is such a run: [emitLiteral] ([runs_literal]), the
    three- and two-byte copies of [emitCopy] ([runs_copy2],
    [runs_copy_last]) and the whole of [emitCopy] ([runs_emitCopy]),
    when the copied bytes are those found [offset] bytes back
    ([copy_ok]).  The tag bytes are checked by evaluation over their
    whole range ([lit1], [copy2_tag], [copy1_tag]).

    The encoder's side: [covers prev p dst n] says that [dst] decodes,
    after the output [prev] of the earlier blocks, to the first [n]
    bytes of the block [p].  The hash table only holds earlier positions
    ([tbl_ok]); [search] returns a position whose four bytes equal
    those of its candidate ([search_spec]); [extend] grows the match
    over equal bytes ([extend_spec]); the match loop and the block loop
    keep [covers] ([match_loop_spec], [block_loop_spec]) whatever their
    fuel, so [encodeBlock] and the blocks of [Encode] decode to their
    input ([runs_encodeBlock], [runs_encode_blocks]).  With the length
    header read back by [Uvarint] ([Uvarint_encodeVarint]) this gives
    [Decode_Encode]. *)

From S2P Require Import Prelude Utf8 Json Proto.
From stdpp Require Import gmap.

Module Snappy.

Import Utf8 Json Proto.
Open Scope Z_scope.

(** [src[i]] *)
Definition at_ (s : bytes) (i : Z) : Z :=
  match s !! Z.to_nat i with Some b => byte_val b | None => 0 end.

Definition ErrCorrupt : string := "snappy: corrupt input".
Definition errUnsupportedLiteralLength : string := "snappy: unsupported literal length".

(** ** Decoding *)

(** [binary.Uvarint(buf)]: the value and the number of bytes read; [0]
    bytes for a buffer that ends in the varint, minus the count for an
    overflow of 64 bits. *)
Fixpoint uvarint_go (buf : bytes) (i : nat) (x s : Z) : Z * Z :=
  match buf with
  | [] => (0, 0)
  | b :: buf' =>
      if (i =? 10)%nat then (0, - (Z.of_nat i + 1))
      else if byte_val b <? 128 then
        if (i =? 9)%nat && (1 <? byte_val b) then (0, - (Z.of_nat i + 1))
        else (Z.lor x (Z.shiftl (byte_val b) s), Z.of_nat i + 1)
      else uvarint_go buf' (S i) (Z.lor x (Z.shiftl (Z.land (byte_val b) 127) s)) (s + 7)
  end.

Definition Uvarint (buf : bytes) : Z * Z := uvarint_go buf 0 0 0.

(** [decodedLen(src)] on a 64-bit platform: the block length and the
    length of its header. *)
Definition decodedLen (src : bytes) : outcome (Z * Z) :=
  let '(v, n) := Uvarint src in
  if (n <=? 0) || (4294967295 <? v) then Err ErrCorrupt else Ok (v, n).

(** The copy of [length] bytes from [offset] back, byte by byte:
    [for i := range a { a[i] = b[i] }] with [a = dst[d:d+length]] and
    [b = dst[d-offset:]] overlapping. *)
Fixpoint copy_forward (n : nat) (offset : Z) (dst : bytes) : bytes :=
  match n with
  | O => dst
  | S n => copy_forward n offset (dst ++ [byte_of (at_ dst (len dst - offset))])
  end.

(** The element at [s] of a compressed block: a literal of [length]
    bytes from [s'], or a copy of [length] bytes from [offset] back, [s']
    being the index after its tag bytes. *)
Inductive elem : Type :=
| Literal (s' length : Z)
| Copy (s' offset length : Z).

(** The [switch src[s] & 0x03] of [decode], up to the checks on the
    output. *)
Definition read_elem (src : bytes) (s : Z) : outcome elem :=
  let t := at_ src s in
  let tag := Z.land t 3 in
  if tag =? 0 then
    let x := Z.shiftr t 2 in
    let '(s', x) :=
      if x <? 60 then (s + 1, x)
      else if x =? 60 then (s + 2, at_ src (s + 1))
      else if x =? 61 then (s + 3, Z.lor (at_ src (s + 1)) (Z.shiftl (at_ src (s + 2)) 8))
      else if x =? 62 then (s + 4, Z.lor (Z.lor (at_ src (s + 1)) (Z.shiftl (at_ src (s + 2)) 8))
                                          (Z.shiftl (at_ src (s + 3)) 16))
      else (s + 5, Z.lor (Z.lor (Z.lor (at_ src (s + 1)) (Z.shiftl (at_ src (s + 2)) 8))
                                (Z.shiftl (at_ src (s + 3)) 16)) (Z.shiftl (at_ src (s + 4)) 24)) in
    if len src <? s' then Err ErrCorrupt else Ok (Literal s' (x + 1))
  else if tag =? 1 then
    if len src <? s + 2 then Err ErrCorrupt else
    Ok (Copy (s + 2) (Z.lor (Z.shiftl (Z.land t 224) 3) (at_ src (s + 1)))
             (4 + Z.land (Z.shiftr t 2) 7))
  else if tag =? 2 then
    if len src <? s + 3 then Err ErrCorrupt else
    Ok (Copy (s + 3) (Z.lor (at_ src (s + 1)) (Z.shiftl (at_ src (s + 2)) 8)) (1 + Z.shiftr t 2))
  else
    if len src <? s + 5 then Err ErrCorrupt else
    Ok (Copy (s + 5) (Z.lor (Z.lor (Z.lor (at_ src (s + 1)) (Z.shiftl (at_ src (s + 2)) 8))
                                   (Z.shiftl (at_ src (s + 3)) 16)) (Z.shiftl (at_ src (s + 4)) 24))
             (1 + Z.shiftr t 2)).

(** [decode(dst, src)] with [len(dst) = dLen]: the bytes written so far
    are [dst]; each turn reads at least one byte, so [length src + 1]
    turns are enough. *)
Fixpoint decode_loop (fuel : nat) (src : bytes) (dLen s : Z) (dst : bytes) : outcome bytes :=
  match fuel with
  | O => Err ErrCorrupt
  | S f =>
      if negb (s <? len src) then
        if len dst =? dLen then Ok dst else Err ErrCorrupt
      else
        e ← read_elem src s;
        match e with
        | Literal s' length =>
            if length <=? 0 then Err errUnsupportedLiteralLength
            else if (dLen - len dst <? length) || (len src - s' <? length) then Err ErrCorrupt
            else decode_loop f src dLen (s' + length)
                   (dst ++ take (Z.to_nat length) (drop (Z.to_nat s') src))
        | Copy s' offset length =>
            if (offset <=? 0) || (len dst <? offset) || (dLen - len dst <? length) then Err ErrCorrupt
            else if length <=? offset then
              decode_loop f src dLen s'
                (dst ++ take (Z.to_nat length) (drop (Z.to_nat (len dst - offset)) dst))
            else decode_loop f src dLen s' (copy_forward (Z.to_nat length) offset dst)
        end
  end.

(** [snappy.Decode(nil, src)] *)
Definition Decode (src : bytes) : outcome bytes :=
  '(dLen, n) ← decodedLen src;
  let block := drop (Z.to_nat n) src in
  decode_loop (S (length block)) block dLen 0 [].

(** ** Encoding *)

Definition maxBlockSize : Z := 65536.
Definition inputMargin : Z := 16 - 1.
Definition minNonLiteralBlockSize : Z := 1 + 1 + inputMargin.
Definition maxTableSize : Z := 2 ^ 14.
Definition tableMask : Z := maxTableSize - 1.
Definition ErrTooLarge : string := "snappy: decoded block is too large".

(** The tag of a literal of [n + 1] bytes: [n] in the tag byte below
    60, in one more byte ([60 << 2]) below 256, in two more
    ([61 << 2]) else. *)
Definition literal_header (n : Z) : bytes :=
  if n <? 60 then [byte_of (Z.lor (Z.land (Z.shiftl n 2) 255) 0)]
  else if n <? 2 ^ 8 then [byte_of (Z.lor (Z.shiftl 60 2) 0); byte_of (Z.land n 255)]
  else [byte_of (Z.lor (Z.shiftl 61 2) 0); byte_of (Z.land n 255); byte_of (Z.land (Z.shiftr n 8) 255)].

(** [emitLiteral(dst, lit)] with [n := uint(len(lit)-1)]: the tag, then
    the bytes. *)
Definition emitLiteral (lit : bytes) : bytes :=
  literal_header ((len lit - 1) mod 2 ^ 64) ++ lit.

(** A [tagCopy2] element: [uint8(length-1)<<2 | tagCopy2], then the
    offset on two bytes. *)
Definition copy2 (offset length : Z) : bytes :=
  [byte_of (Z.lor (Z.land (Z.shiftl (Z.land (length - 1) 255) 2) 255) 2);
   byte_of (Z.land offset 255); byte_of (Z.land (Z.shiftr offset 8) 255)].

(** The end of [emitCopy], after its loop: a copy of at most 64 bytes,
    on two bytes when it is shorter than 12 and near, on three else. *)
Definition emit_copy_last (offset length : Z) : bytes :=
  if (12 <=? length) || (2048 <=? offset) then copy2 offset length
  else [byte_of (Z.lor (Z.lor (Z.land (Z.shiftl (Z.land (Z.shiftr offset 8) 255) 5) 255)
                              (Z.land (Z.shiftl (Z.land (length - 4) 255) 2) 255)) 1);
        byte_of (Z.land offset 255)].

(** [emitCopy(dst, offset, length)]: [for length >= 68] a copy of 64;
    then a copy of 60 above 64, and the last one.  The loop turns
    [length / 64] times at most, the fuel given it. *)
Fixpoint emit_copy_loop (fuel : nat) (offset length : Z) : bytes :=
  match fuel with
  | S f => if 68 <=? length then copy2 offset 64 ++ emit_copy_loop f offset (length - 64)
           else if 64 <? length then copy2 offset 60 ++ emit_copy_last offset (length - 60)
           else emit_copy_last offset length
  | O => if 64 <? length then copy2 offset 60 ++ emit_copy_last offset (length - 60)
         else emit_copy_last offset length
  end.

Definition emitCopy (offset length : Z) : bytes := emit_copy_loop (Z.to_nat (length / 64)) offset length.

(** [load32(b, i)], [load64(b, i)]: little-endian words. *)
Definition load32 (b : bytes) (i : Z) : Z :=
  Z.lor (Z.lor (at_ b i) (Z.shiftl (at_ b (i + 1)) 8))
        (Z.lor (Z.shiftl (at_ b (i + 2)) 16) (Z.shiftl (at_ b (i + 3)) 24)).

Definition load64 (b : bytes) (i : Z) : Z :=
  Z.lor (load32 b i) (Z.shiftl (load32 b (i + 4)) 32).

(** [hash(u, shift) = (u * 0x1e35a7bd) >> shift] in [uint32]. *)
Definition hash (u shift : Z) : Z := Z.shiftr (Z.land (u * 506832829) (2 ^ 32 - 1)) shift.

(** The hash table [var table [maxTableSize]uint16], zero where never
    written. *)
Abbreviation table := (gmap Z Z).
Definition tget (t : table) (k : Z) : Z := default 0 (t !! k).

(** [shift := 32 - 8; for tableSize := 1 << 8; tableSize < maxTableSize
    && tableSize < len(src); tableSize *= 2 { shift-- }] *)
Fixpoint table_shift (fuel : nat) (n tableSize shift : Z) : Z :=
  match fuel with
  | O => shift
  | S f => if (tableSize <? maxTableSize) && (tableSize <? n)
           then table_shift f n (tableSize * 2) (shift - 1) else shift
  end.

(** The first inner loop of [encodeBlock]: the hash lookups, each
    [skip >> 5] bytes further, until four bytes at [s] match those at
    the [candidate] the table gives, or [nextS] passes [sLimit] ([None]:
    [goto emitRemainder]). *)
Fixpoint search (fuel : nat) (src : bytes) (shift sLimit : Z) (tbl : table) (nextS skip nextHash : Z)
    : option (Z * Z * Z * table) :=
  match fuel with
  | O => None
  | S f =>
      let s := nextS in
      let bytesBetweenHashLookups := Z.shiftr skip 5 in
      let nextS := s + bytesBetweenHashLookups in
      let skip := skip + bytesBetweenHashLookups in
      if sLimit <? nextS then None else
      let candidate := tget tbl (Z.land nextHash tableMask) in
      let tbl := <[Z.land nextHash tableMask := Z.land s 65535]> tbl in
      let nextHash := hash (load32 src nextS) shift in
      if load32 src s =? load32 src candidate then Some (s, candidate, nextHash, tbl)
      else search f src shift sLimit tbl nextS skip nextHash
  end.

(** [for i := candidate + 4; s < len(src) && src[i] == src[s]; i, s = i+1, s+1 {}] *)
Fixpoint extend (fuel : nat) (src : bytes) (i s : Z) : Z :=
  match fuel with
  | O => s
  | S f => if (s <? len src) && (at_ src i =? at_ src s) then extend f src (i + 1) (s + 1) else s
  end.

(** The second inner loop: emit the match at [s] and, while the bytes
    after it match again, the next ones.  The result is the output, the
    new [nextEmit], and [None] for [goto emitRemainder] or the next
    [s], [nextHash] and table. *)
Fixpoint match_loop (fuel : nat) (src : bytes) (shift sLimit : Z) (tbl : table) (s candidate : Z)
    (dst : bytes) : bytes * Z * option (Z * Z * table) :=
  match fuel with
  | O => (dst, s, None)
  | S f =>
      let base := s in
      let s := extend (length src) src (candidate + 4) (s + 4) in
      let dst := dst ++ emitCopy (base - candidate) (s - base) in
      let nextEmit := s in
      if sLimit <=? s then (dst, nextEmit, None) else
      let x := load64 src (s - 1) in
      let prevHash := hash (Z.land x (2 ^ 32 - 1)) shift in
      let tbl := <[Z.land prevHash tableMask := Z.land (s - 1) 65535]> tbl in
      let currHash := hash (Z.land (Z.shiftr x 8) (2 ^ 32 - 1)) shift in
      let candidate := tget tbl (Z.land currHash tableMask) in
      let tbl := <[Z.land currHash tableMask := Z.land s 65535]> tbl in
      if negb (Z.land (Z.shiftr x 8) (2 ^ 32 - 1) =? load32 src candidate) then
        (dst, nextEmit, Some (s + 1, hash (Z.land (Z.shiftr x 16) (2 ^ 32 - 1)) shift, tbl))
      else match_loop f src shift sLimit tbl s candidate dst
  end.

(** The outer loop of [encodeBlock]; [s] grows at each turn, so
    [len(src)] turns are enough. *)
Fixpoint block_loop (fuel : nat) (src : bytes) (shift sLimit : Z) (tbl : table) (s nextEmit nextHash : Z)
    (dst : bytes) : bytes * Z :=
  match fuel with
  | O => (dst, nextEmit)
  | S f =>
      match search (length src) src shift sLimit tbl s 32 nextHash with
      | None => (dst, nextEmit)
      | Some (s, candidate, nextHash, tbl) =>
          let dst := dst ++ emitLiteral (take (Z.to_nat (s - nextEmit)) (drop (Z.to_nat nextEmit) src)) in
          match match_loop (length src) src shift sLimit tbl s candidate dst with
          | (dst, nextEmit, None) => (dst, nextEmit)
          | (dst, nextEmit, Some (s, nextHash, tbl)) => block_loop f src shift sLimit tbl s nextEmit nextHash dst
          end
      end
  end.

(** [encodeBlock(dst, src)], for [len(src) >= minNonLiteralBlockSize]. *)
Definition encodeBlock (src : bytes) : bytes :=
  let shift := table_shift 6 (len src) (2 ^ 8) (32 - 8) in
  let sLimit := len src - inputMargin in
  let '(dst, nextEmit) := block_loop (length src) src shift sLimit ∅ 1 0 (hash (load32 src 1) shift) [] in
  if nextEmit <? len src then dst ++ emitLiteral (drop (Z.to_nat nextEmit) src) else dst.

(** [MaxEncodedLen(srcLen)] *)
Definition MaxEncodedLen (srcLen : Z) : Z :=
  if 4294967295 <? srcLen then -1
  else let n := 32 + srcLen + srcLen / 6 in if 4294967295 <? n then -1 else n.

(** The loop of [Encode] over blocks of at most [maxBlockSize] bytes. *)
Fixpoint encode_blocks (fuel : nat) (src : bytes) : bytes :=
  match fuel with
  | O => []
  | S f =>
      match src with
      | [] => []
      | _ :: _ =>
          let p := take (Z.to_nat maxBlockSize) src in
          (if len p <? minNonLiteralBlockSize then emitLiteral p else encodeBlock p) ++
          encode_blocks f (drop (Z.to_nat maxBlockSize) src)
      end
  end.

(** [snappy.Encode(nil, src)]: [panic(ErrTooLarge)] when the input is
    too large for [MaxEncodedLen]; the length, [binary.PutUvarint]
    (the same bytes as [encodeVarint]), then the blocks. *)
Definition Encode (src : bytes) : outcome bytes :=
  if MaxEncodedLen (len src) <? 0 then Panic ErrTooLarge
  else Ok (encodeVarint (len src) ++ encode_blocks (length src) src).

(** ** The round trip *)

(** ** The decoder on the encoder's elements *)

Lemma at_app_r (x y : bytes) i : 0 <= i -> at_ (x ++ y) (len x + i) = at_ y i.
Proof.
  intros Hi. unfold at_. rewrite Z2Nat.inj_add, Nat2Z.id by lia.
  by rewrite lookup_app_r, Nat.add_sub' by lia.
Qed.

Lemma at_app_l (x y : bytes) i : 0 <= i < len x -> at_ (x ++ y) i = at_ x i.
Proof. intros Hi. unfold at_. by rewrite lookup_app_l by lia. Qed.

Lemma at_bound s i : 0 <= at_ s i < 256.
Proof. unfold at_. destruct (s !! _); [apply byte_val_bound|lia]. Qed.

Lemma decode_loop_mono f k src dLen s dst r :
  decode_loop f src dLen s dst = Ok r -> decode_loop (f + k) src dLen s dst = Ok r.
Proof.
  revert s dst. induction f as [|f IH]; intros s dst H; [done|].
  cbn [Nat.add decode_loop] in *. destruct (negb _); [done|].
  destruct (read_elem src s) as [[]| |]; cbn [mbind outcome_bind] in *; try done;
    repeat case_match; auto.
Qed.

(** [runs out p p']: the decoder, at the bytes [out] of a block, goes from
    the output [p] to [p'], reading at most one element per byte. *)
Definition runs (out p p' : bytes) : Prop :=
  forall pre rest dLen f r, len p' <= dLen ->
    decode_loop f (pre ++ out ++ rest) dLen (len (pre ++ out)) p' = Ok r ->
    decode_loop (f + length out) (pre ++ out ++ rest) dLen (len pre) p = Ok r.

Lemma runs_nil p : runs [] p p.
Proof. intros pre rest dLen f r _ H. by rewrite app_nil_r, Nat.add_0_r in *. Qed.

Lemma runs_app o1 o2 p p1 p2 :
  (length p1 <= length p2)%nat -> runs o1 p p1 -> runs o2 p1 p2 -> runs (o1 ++ o2) p p2.
Proof.
  intros Hl H1 H2 pre rest dLen f r Hd H.
  rewrite length_app, (Nat.add_comm (length o1)), Nat.add_assoc, <- app_assoc.
  apply (H1 pre (o2 ++ rest) dLen (f + length o2)%nat r); [lia|]. rewrite app_assoc.
  apply H2; [done|]. by rewrite <- !app_assoc in *.
Qed.

Lemma Z_range_forallb (P : Z -> bool) (lo : Z) (n : nat) :
  forallb P (map (fun i => lo + Z.of_nat i) (seq 0 n)) = true -> forall z, lo <= z < lo + Z.of_nat n -> P z = true.
Proof.
  intros H z Hz. rewrite forallb_forall in H. replace z with (lo + Z.of_nat (Z.to_nat (z - lo))) by lia.
  apply H. apply (in_map (fun i => lo + Z.of_nat i)). apply in_seq. lia.
Qed.

Lemma runs_elem out p p' :
  (1 <= length out)%nat ->
  (forall pre rest dLen f, len p' <= dLen ->
     decode_loop (S f) (pre ++ out ++ rest) dLen (len pre) p =
     decode_loop f (pre ++ out ++ rest) dLen (len (pre ++ out)) p') ->
  runs out p p'.
Proof.
  intros Hl Hs pre rest dLen f r Hd H. destruct (length out) as [|k] eqn:E; [lia|].
  rewrite Nat.add_succ_r, Hs by done. by apply decode_loop_mono.
Qed.

Lemma at_mid pre h t i : 0 <= i < len h -> at_ (pre ++ h ++ t) (len pre + i) = at_ h i.
Proof. intros Hi. rewrite at_app_r, at_app_l; lia. Qed.

Lemma decode_literal pre h lit rest dLen f p :
  read_elem (pre ++ (h ++ lit) ++ rest) (len pre) = Ok (Literal (len pre + len h) (len lit)) ->
  1 <= len lit -> len (p ++ lit) <= dLen ->
  decode_loop (S f) (pre ++ (h ++ lit) ++ rest) dLen (len pre) p =
  decode_loop f (pre ++ (h ++ lit) ++ rest) dLen (len (pre ++ h ++ lit)) (p ++ lit).
Proof.
  intros He Hl Hd. cbn [decode_loop]. rewrite !length_app in *.
  rewrite (proj2 (Z.ltb_lt _ _)) by lia. cbn [negb]. rewrite He. cbn [mbind outcome_bind].
  zbool. f_equal; [lia|]. f_equal.
  rewrite Z2Nat.inj_add, !Nat2Z.id by lia. rewrite <- length_app.
  rewrite <- app_assoc, (app_assoc pre h), drop_app_length. apply take_app_length.
Qed.

Lemma at_mid0 pre h t : h <> [] -> at_ (pre ++ h ++ t) (len pre) = at_ h 0.
Proof. intros Hh. rewrite <- (Z.add_0_r (len pre)), at_mid; [done|]. destruct h; [done|]. simpl; lia. Qed.

Lemma at_byte_of z : 0 <= z < 256 -> at_ [byte_of z] 0 = z.
Proof. intros. unfold at_. simpl. by apply byte_val_of. Qed.

Lemma at_cons0 b l : at_ (b :: l) 0 = byte_val b.
Proof. reflexivity. Qed.
Lemma at_cons1 b c l : at_ (b :: c :: l) 1 = byte_val c.
Proof. reflexivity. Qed.
Lemma at_cons2 b c d l : at_ (b :: c :: d :: l) 2 = byte_val d.
Proof. reflexivity. Qed.

Lemma bytes2 n : 0 <= n < 65536 ->
  Z.lor (Z.land n 255) (Z.shiftl (Z.land (Z.shiftr n 8) 255) 8) = n.
Proof.
  intros Hn. change 255 with (2 ^ 8 - 1). rewrite !land_ones_mod by lia.
  rewrite Z.shiftr_div_pow2, Z.shiftl_mul_pow2 by lia. change (2 ^ 8) with 256.
  rewrite (Z.mod_small (n / 256)) by (split; [apply Z.div_pos|apply Z.div_lt_upper_bound]; lia).
  rewrite Z.lor_comm, (lor_add _ _ 8) by (change (2^8) with 256; rewrite ?Z_mod_mult; try apply Z.mod_pos_bound; lia).
  pose proof (Z.div_mod n 256). lia.
Qed.

Definition lit1_ok (n : Z) : bool :=
  let t := byte_val (byte_of (Z.lor (Z.land (Z.shiftl n 2) 255) 0)) in
  (Z.land t 3 =? 0) && (Z.shiftr t 2 <? 60) && (Z.shiftr t 2 =? n).

Lemma lit1 n : 0 <= n < 60 -> lit1_ok n = true.
Proof. apply (Z_range_forallb lit1_ok 0 60). vm_compute. reflexivity. Qed.

Lemma read_literal pre lit rest : 1 <= len lit <= 65536 ->
  read_elem (pre ++ (literal_header (len lit - 1) ++ lit) ++ rest) (len pre) =
  Ok (Literal (len pre + len (literal_header (len lit - 1))) (len lit)).
Proof.
  intros Hl. unfold read_elem. rewrite <- app_assoc. unfold literal_header.
  destruct (Z.ltb_spec (len lit - 1) 60) as [H1|H1].
  - pose proof (lit1 (len lit - 1) ltac:(lia)) as Hok. unfold lit1_ok in Hok.
    rewrite at_mid0 by done. rewrite at_cons0.
    apply andb_prop in Hok as [Hok H3]. apply andb_prop in Hok as [H2 H4].
    rewrite H2, H4. apply Z.eqb_eq in H3. rewrite H3. cbn -[len at_].
    rewrite length_app. cbn [length]. rewrite (proj2 (Z.ltb_ge _ _)) by lia. repeat f_equal; lia.
  - destruct (Z.ltb_spec (len lit - 1) (2 ^ 8)) as [H2|H2]; rewrite at_mid0, at_cons0 by done.
    + replace (Z.lor (Z.shiftl 60 2) 0) with 240 by reflexivity.
      rewrite byte_val_of by lia. rewrite at_app_r by lia. cbn [app]. rewrite at_cons1.
      rewrite byte_val_of by (change 255 with (2^8-1); rewrite land_ones_mod; [apply Z.mod_pos_bound|]; lia).
      change 255 with (2^8-1) at 1. rewrite land_ones_mod, Z.mod_small by lia. simpl.
      rewrite !length_app. cbn [length]. rewrite !length_app. rewrite (proj2 (Z.ltb_ge _ _)) by lia. repeat f_equal; lia.
    + replace (Z.lor (Z.shiftl 61 2) 0) with 244 by reflexivity.
      rewrite byte_val_of by lia. rewrite !at_app_r by lia. cbn [app]. rewrite at_cons1, at_cons2.
      rewrite !byte_val_of by (change 255 with (2^8-1); rewrite land_ones_mod; [apply Z.mod_pos_bound|]; lia).
      rewrite bytes2 by lia. simpl.
      rewrite !length_app. cbn [length]. rewrite !length_app. rewrite (proj2 (Z.ltb_ge _ _)) by lia. repeat f_equal; lia.
Qed.

Lemma runs_literal lit p : 1 <= len lit <= 65536 -> runs (emitLiteral lit) p (p ++ lit).
Proof.
  intros Hl. unfold emitLiteral. rewrite Z.mod_small by lia.
  apply runs_elem; [rewrite length_app; lia|]. intros pre rest dLen f Hd.
  rewrite decode_literal; [done|by apply read_literal|lia|done].
Qed.

(** What a copy must find: [off] bytes back from [a], the [m] bytes of
    [T] from [a]. *)
Definition copy_ok (T : bytes) (a off m : Z) : Prop :=
  1 <= off <= a /\ a + m <= len T /\
  forall k, 0 <= k < m -> T !! Z.to_nat (a + k) = T !! Z.to_nat (a - off + k).

Lemma copy_ok_shift T a off m d : 0 <= d <= m -> copy_ok T a off m -> copy_ok T (a + d) off (m - d).
Proof.
  intros Hd (H1 & H2 & H3). split; [lia|]. split; [lia|]. intros k Hk.
  replace (a + d + k) with (a + (d + k)) by lia. replace (a + d - off + k) with (a - off + (d + k)) by lia.
  apply H3. lia.
Qed.

Lemma take_S_lookup (T : bytes) (a : nat) x : T !! a = Some x -> take (S a) T = take a T ++ [x].
Proof. intros H. by rewrite (take_S_r _ _ x). Qed.

Lemma copy_forward_take T a off m :
  0 <= m -> copy_ok T a off m -> copy_forward (Z.to_nat m) off (take (Z.to_nat a) T) = take (Z.to_nat (a + m)) T.
Proof.
  intros Hm. remember (Z.to_nat m) as n eqn:En. revert a m Hm En.
  induction n as [|n IH]; intros a m Hm En Hc; simpl.
  - by replace m with 0 by lia; rewrite Z.add_0_r.
  - destruct Hc as (H1 & H2 & H3) eqn:Hc'.
    destruct (T !! Z.to_nat a) as [x|] eqn:Ex; [|apply lookup_ge_None in Ex; lia].
    assert (Hx : at_ (take (Z.to_nat a) T) (len (take (Z.to_nat a) T) - off) = byte_val x).
    { unfold at_. rewrite length_take, lookup_take by lia.
      replace (Z.to_nat (Z.of_nat (Nat.min (Z.to_nat a) (length T)) - off)) with (Z.to_nat (a - off + 0)) by lia.
      rewrite <- H3 by lia. rewrite decide_True by lia. rewrite Z.add_0_r, Ex. done. }
    rewrite Hx, (byte_of_eq _ x) by done. rewrite <- take_S_lookup by done.
    replace (S (Z.to_nat a)) with (Z.to_nat (a + 1)) by lia.
    rewrite (IH (a + 1) (m - 1)); [f_equal; lia|lia|lia|apply copy_ok_shift; [lia|done]].
Qed.

Lemma copy_slice_take T a off m :
  0 <= m <= off -> copy_ok T a off m ->
  take (Z.to_nat a) T ++ take (Z.to_nat m) (drop (Z.to_nat (len (take (Z.to_nat a) T) - off)) (take (Z.to_nat a) T))
  = take (Z.to_nat (a + m)) T.
Proof.
  intros Hm (H1 & H2 & H3). rewrite length_take. replace (Nat.min (Z.to_nat a) (length T)) with (Z.to_nat a) by lia.
  apply list_eq. intros i. destruct (decide (i < Z.to_nat a)%nat).
  - rewrite lookup_app_l, !lookup_take_lt by (rewrite ?length_take; lia). done.
  - rewrite lookup_app_r by (rewrite length_take; lia). rewrite length_take.
    replace (Nat.min (Z.to_nat a) (length T)) with (Z.to_nat a) by lia.
    destruct (decide (i < Z.to_nat (a + m))%nat).
    + rewrite lookup_take_lt, lookup_drop, lookup_take_lt by lia.
      rewrite lookup_take_lt by lia.
      specialize (H3 (Z.of_nat i - a) ltac:(lia)).
      replace (Z.to_nat (a + (Z.of_nat i - a))) with i in H3 by lia. rewrite H3. f_equal. lia.
    + rewrite !lookup_take_ge by lia. done.
Qed.

Definition copy2_ok (m : Z) : bool :=
  let t := byte_val (byte_of (Z.lor (Z.land (Z.shiftl (Z.land (m - 1) 255) 2) 255) 2)) in
  (Z.land t 3 =? 2) && (1 + Z.shiftr t 2 =? m).

Lemma copy2_tag m : 1 <= m <= 64 -> copy2_ok m = true.
Proof. intros Hm. apply (Z_range_forallb copy2_ok 1 64); [vm_compute; reflexivity|lia]. Qed.

Definition copy1_ok (h m : Z) : bool :=
  let t := byte_val (byte_of (Z.lor (Z.lor (Z.land (Z.shiftl (Z.land h 255) 5) 255)
                                             (Z.land (Z.shiftl (Z.land (m - 4) 255) 2) 255)) 1)) in
  (Z.land t 3 =? 1) && (4 + Z.land (Z.shiftr t 2) 7 =? m) && (Z.land t 224 =? h * 32).

Lemma copy1_tag h m : 0 <= h < 8 -> 4 <= m < 12 -> copy1_ok h m = true.
Proof.
  intros Hh Hm. apply (Z_range_forallb (copy1_ok h) 4 8); [|lia].
  apply (Z_range_forallb (fun h => forallb (copy1_ok h) (map (fun i => 4 + Z.of_nat i) (seq 0 8))) 0 8); [|lia].
  vm_compute. reflexivity.
Qed.

Lemma land255_range z : 0 <= Z.land z 255 < 256.
Proof. change 255 with (2 ^ 8 - 1). rewrite land_ones_mod by lia. apply Z.mod_pos_bound. lia. Qed.

Lemma read_copy2 pre off m rest : 1 <= m <= 64 -> 0 <= off < 65536 ->
  read_elem (pre ++ copy2 off m ++ rest) (len pre) = Ok (Copy (len pre + 3) off m).
Proof.
  intros Hm Ho. pose proof (copy2_tag m Hm) as Hok. unfold copy2_ok in Hok.
  apply andb_prop in Hok as [H1 H2]. apply Z.eqb_eq in H1, H2.
  unfold read_elem, copy2. rewrite at_mid0 by done. rewrite at_cons0, H1.
  rewrite !at_app_r by lia. cbn [app]. rewrite at_cons1, at_cons2, (byte_val_of (Z.land off 255)), (byte_val_of (Z.land (Z.shiftr off 8) 255))
    by apply land255_range.
  rewrite bytes2, H2 by lia. simpl.
  rewrite !length_app. cbn [length]. rewrite (proj2 (Z.ltb_ge _ _)) by lia. done.
Qed.

Lemma read_copy1 pre off m rest : 4 <= m < 12 -> 0 <= off < 2048 ->
  read_elem (pre ++ emit_copy_last off m ++ rest) (len pre) = Ok (Copy (len pre + 2) off m).
Proof.
  intros Hm Ho. unfold emit_copy_last.
  rewrite (proj2 (Z.leb_gt 12 m)), (proj2 (Z.leb_gt 2048 off)) by lia. cbn [orb].
  assert (Hh : 0 <= Z.shiftr off 8 < 8).
  { rewrite Z.shiftr_div_pow2 by lia. change (2^8) with 256.
    split; [apply Z.div_pos|apply Z.div_lt_upper_bound]; lia. }
  assert (Hl : Z.land (Z.shiftr off 8) 255 = Z.shiftr off 8).
  { change 255 with (2^8-1). rewrite land_ones_mod by lia. apply Z.mod_small. change (2^8) with 256. lia. }
  pose proof (copy1_tag _ m Hh Hm) as Hok. unfold copy1_ok in Hok.
  apply andb_prop in Hok as [Hok H3]. apply andb_prop in Hok as [H1 H2]. apply Z.eqb_eq in H1, H2, H3.
  unfold read_elem. rewrite at_mid0 by done. rewrite at_cons0, H1, H2, H3.
  rewrite at_app_r by lia. cbn [app]. rewrite at_cons1, (byte_val_of (Z.land off 255)) by apply land255_range.
  replace (Z.shiftl (Z.shiftr off 8 * 32) 3) with (Z.shiftl (Z.land (Z.shiftr off 8) 255) 8)
    by (rewrite Hl, !Z.shiftl_mul_pow2 by lia; change (2^3) with 8; change (2^8) with 256; lia).
  rewrite (Z.lor_comm (Z.shiftl _ 8)), bytes2 by lia. simpl.
  rewrite !length_app. cbn [length]. rewrite (proj2 (Z.ltb_ge _ _)) by lia. done.
Qed.

Lemma read_copy_last pre off m rest : 4 <= m <= 64 -> 0 <= off < 65536 ->
  read_elem (pre ++ emit_copy_last off m ++ rest) (len pre) =
  Ok (Copy (len (pre ++ emit_copy_last off m)) off m).
Proof.
  intros Hm Ho. rewrite length_app.
  destruct ((12 <=? m) || (2048 <=? off)) eqn:E.
  - unfold emit_copy_last. rewrite E. rewrite read_copy2 by lia. cbn [length copy2]. do 2 f_equal; lia.
  - apply orb_false_iff in E as [E1 E2]. apply Z.leb_gt in E1, E2.
    rewrite read_copy1 by lia. unfold emit_copy_last. rewrite (proj2 (Z.leb_gt 12 m)), (proj2 (Z.leb_gt 2048 off)) by lia.
    cbn [orb length]. do 2 f_equal; lia.
Qed.

Lemma decode_copy pre piece rest dLen f T a off m :
  read_elem (pre ++ piece ++ rest) (len pre) = Ok (Copy (len (pre ++ piece)) off m) ->
  piece <> [] -> 0 <= m -> copy_ok T a off m -> a + m <= dLen ->
  decode_loop (S f) (pre ++ piece ++ rest) dLen (len pre) (take (Z.to_nat a) T) =
  decode_loop f (pre ++ piece ++ rest) dLen (len (pre ++ piece)) (take (Z.to_nat (a + m)) T).
Proof.
  intros He Hp Hm Hc Hd. pose proof Hc as (H1 & H2 & _). cbn [decode_loop].
  rewrite (proj2 (Z.ltb_lt _ _)) by (destruct piece; [done|]; rewrite !length_app; simpl; lia).
  cbn [negb]. rewrite He. cbn [mbind outcome_bind]. rewrite length_take.
  replace (Z.of_nat (Nat.min (Z.to_nat a) (length T))) with a by lia.
  rewrite (proj2 (Z.leb_gt off 0)), (proj2 (Z.ltb_ge a off)), (proj2 (Z.ltb_ge (dLen - a) m)) by lia.
  cbn [orb]. destruct (Z.leb_spec m off).
  - rewrite <- (copy_slice_take T a off m) by (done || lia). rewrite length_take.
    by replace (Z.of_nat (Nat.min (Z.to_nat a) (length T))) with a by lia.
  - by rewrite copy_forward_take by (done || lia).
Qed.

Lemma runs_copy piece T a off m :
  piece <> [] -> 0 <= m -> copy_ok T a off m ->
  (forall pre rest, read_elem (pre ++ piece ++ rest) (len pre) = Ok (Copy (len (pre ++ piece)) off m)) ->
  runs piece (take (Z.to_nat a) T) (take (Z.to_nat (a + m)) T).
Proof.
  intros Hp Hm Hc Hr. apply runs_elem; [destruct piece; [done|]; simpl; lia|].
  intros pre rest dLen f Hd. apply (decode_copy _ _ _ _ _ _ _ off); try done.
  pose proof Hc as (_ & H2 & _). rewrite length_take in Hd. lia.
Qed.

Lemma copy_ok_prefix T a off m d : 0 <= d <= m -> copy_ok T a off m -> copy_ok T a off d.
Proof. intros Hd (H1 & H2 & H3). split; [lia|]. split; [lia|]. intros k Hk. apply H3. lia. Qed.

Lemma runs_copy2 T a off m : 1 <= m <= 64 -> 1 <= off < 65536 -> copy_ok T a off m ->
  runs (copy2 off m) (take (Z.to_nat a) T) (take (Z.to_nat (a + m)) T).
Proof.
  intros Hm Ho Hc. apply (runs_copy _ _ _ off); [done|lia|done|]. intros pre rest.
  rewrite read_copy2 by lia. rewrite length_app. cbn [length copy2]. do 2 f_equal; lia.
Qed.

Lemma runs_copy_last T a off m : 4 <= m <= 64 -> 1 <= off < 65536 -> copy_ok T a off m ->
  runs (emit_copy_last off m) (take (Z.to_nat a) T) (take (Z.to_nat (a + m)) T).
Proof.
  intros Hm Ho Hc. apply (runs_copy _ _ _ off); [unfold emit_copy_last; by case_match|lia|done|].
  intros pre rest. by apply read_copy_last; lia.
Qed.

Lemma take_len_mono (T : bytes) a b : 0 <= a <= b -> (length (take (Z.to_nat a) T) <= length (take (Z.to_nat b) T))%nat.
Proof. intros. rewrite !length_take. lia. Qed.

Lemma runs_copy_split T a off m d piece rest :
  0 <= d <= m -> copy_ok T a off m ->
  runs piece (take (Z.to_nat a) T) (take (Z.to_nat (a + d)) T) ->
  runs rest (take (Z.to_nat (a + d)) T) (take (Z.to_nat (a + d + (m - d))) T) ->
  runs (piece ++ rest) (take (Z.to_nat a) T) (take (Z.to_nat (a + m)) T).
Proof.
  intros Hd Hc H1 H2. replace (a + m) with (a + d + (m - d)) by lia.
  eapply runs_app; [|exact H1|exact H2]. apply take_len_mono. destruct Hc; lia.
Qed.

Lemma runs_emit_copy_loop n T a off m :
  4 <= m < 64 * Z.of_nat n + 68 -> 1 <= off < 65536 -> copy_ok T a off m ->
  runs (emit_copy_loop n off m) (take (Z.to_nat a) T) (take (Z.to_nat (a + m)) T).
Proof.
  revert a m. induction n as [|n IH]; intros a m Hm Ho Hc; cbn [emit_copy_loop].
  - destruct (Z.ltb_spec 64 m).
    + apply (runs_copy_split _ _ off _ 60); [lia|done|apply runs_copy2; [lia|lia|apply (copy_ok_prefix _ _ _ m); [lia|done]]|].
      apply runs_copy_last; [lia|lia|apply copy_ok_shift; [lia|done]].
    + apply runs_copy_last; [lia|lia|done].
  - destruct (Z.leb_spec 68 m); [|destruct (Z.ltb_spec 64 m)].
    + apply (runs_copy_split _ _ off _ 64); [lia|done|apply runs_copy2; [lia|lia|apply (copy_ok_prefix _ _ _ m); [lia|done]]|].
      apply IH; [lia|lia|apply copy_ok_shift; [lia|done]].
    + apply (runs_copy_split _ _ off _ 60); [lia|done|apply runs_copy2; [lia|lia|apply (copy_ok_prefix _ _ _ m); [lia|done]]|].
      apply runs_copy_last; [lia|lia|apply copy_ok_shift; [lia|done]].
    + apply runs_copy_last; [lia|lia|done].
Qed.

Lemma runs_emitCopy T a off m : 4 <= m -> 1 <= off < 65536 -> copy_ok T a off m ->
  runs (emitCopy off m) (take (Z.to_nat a) T) (take (Z.to_nat (a + m)) T).
Proof.
  intros Hm Ho Hc. apply runs_emit_copy_loop; [|done|done].
  rewrite Z2Nat.id by (apply Z.div_pos; lia). pose proof (Z.div_mod m 64). pose proof (Z.mod_pos_bound m 64). lia.
Qed.

(** ** Words and the match finder *)

Lemma lor_low a b k : 0 <= k -> 0 <= a < 2 ^ k -> Z.lor a (b * 2 ^ k) = a + b * 2 ^ k.
Proof. intros Hk Ha. rewrite Z.lor_comm, (lor_add _ _ k) by (rewrite ?Z_mod_mult; lia). lia. Qed.

Lemma load32_val b i :
  load32 b i = at_ b i + 256 * at_ b (i + 1) + 65536 * at_ b (i + 2) + 16777216 * at_ b (i + 3).
Proof.
  unfold load32. pose proof (at_bound b i). pose proof (at_bound b (i + 1)).
  pose proof (at_bound b (i + 2)). pose proof (at_bound b (i + 3)).
  rewrite !Z.shiftl_mul_pow2 by lia.
  rewrite (lor_low _ _ 8) by (cbn; lia).
  rewrite (Z.lor_comm (at_ b (i + 2) * _)), (lor_add (at_ b (i + 3) * 2 ^ 24) _ 24) by (rewrite ?Z_mod_mult; cbn; lia).
  rewrite Z.lor_comm, (lor_add _ _ 16).
  - cbn. lia.
  - lia.
  - replace (at_ b (i + 3) * 2 ^ 24 + at_ b (i + 2) * 2 ^ 16) with ((at_ b (i + 3) * 2 ^ 8 + at_ b (i + 2)) * 2 ^ 16)
      by (cbn; lia). apply Z_mod_mult.
  - cbn. lia.
Qed.

Lemma load32_eq b i j : load32 b i = load32 b j ->
  forall k, 0 <= k < 4 -> at_ b (i + k) = at_ b (j + k).
Proof.
  rewrite !load32_val. intros H k Hk.
  pose proof (at_bound b i). pose proof (at_bound b (i + 1)). pose proof (at_bound b (i + 2)). pose proof (at_bound b (i + 3)).
  pose proof (at_bound b j). pose proof (at_bound b (j + 1)). pose proof (at_bound b (j + 2)). pose proof (at_bound b (j + 3)).
  assert (k = 0 \/ k = 1 \/ k = 2 \/ k = 3) as [-> | [-> | [-> | ->]]] by lia; rewrite ?Z.add_0_r; lia.
Qed.

Lemma load64_next b i :
  Z.land (Z.shiftr (load64 b i) 8) (2 ^ 32 - 1) = load32 b (i + 1).
Proof.
  unfold load64. rewrite load32_val, (load32_val b (i + 4)), (load32_val b (i + 1)).
  replace (i + 1 + 1) with (i + 2) by lia. replace (i + 1 + 2) with (i + 3) by lia.
  replace (i + 1 + 3) with (i + 4) by lia. replace (i + 4 + 1) with (i + 5) by lia.
  replace (i + 4 + 2) with (i + 6) by lia. replace (i + 4 + 3) with (i + 7) by lia.
  pose proof (at_bound b i). pose proof (at_bound b (i + 1)). pose proof (at_bound b (i + 2)).
  pose proof (at_bound b (i + 3)). pose proof (at_bound b (i + 4)). pose proof (at_bound b (i + 5)).
  pose proof (at_bound b (i + 6)). pose proof (at_bound b (i + 7)).
  rewrite Z.shiftl_mul_pow2, (lor_low _ _ 32) by (change (2^32) with 4294967296; lia).
  rewrite Z.shiftr_div_pow2, land_ones_mod by lia. change (2^8) with 256. change (2^32) with 4294967296.
  set (L := at_ b (i + 1) + 256 * at_ b (i + 2) + 65536 * at_ b (i + 3) + 16777216 * at_ b (i + 4)).
  set (R := at_ b (i + 5) + 256 * at_ b (i + 6) + 65536 * at_ b (i + 7)).
  replace (_ + _ * 4294967296) with (at_ b i + (L + R * 4294967296) * 256) by (subst L R; lia).
  rewrite Z_div_plus_full, (Z.div_small (at_ b i)), Z.add_0_l, Z_mod_plus_full by lia.
  apply Z.mod_small. subst L. lia.
Qed.

Lemma at_lookup_eq (b : bytes) i j : 0 <= i < len b -> 0 <= j < len b -> at_ b i = at_ b j ->
  b !! Z.to_nat i = b !! Z.to_nat j.
Proof.
  intros Hi Hj H. unfold at_ in H.
  destruct (b !! Z.to_nat i) as [x|] eqn:Ex; [|apply lookup_ge_None in Ex; lia].
  destruct (b !! Z.to_nat j) as [y|] eqn:Ey; [|apply lookup_ge_None in Ey; lia].
  f_equal. rewrite <- (byte_of_eq _ x eq_refl), <- (byte_of_eq _ y eq_refl). by rewrite H.
Qed.

Lemma extend_spec fuel src i s :
  s <= len src ->
  let s' := extend fuel src i s in
  s <= s' <= len src /\ forall k, 0 <= k < s' - s -> at_ src (i + k) = at_ src (s + k).
Proof.
  revert i s. induction fuel as [|f IH]; intros i s Hs; cbn [extend]; [split; [lia|intros; lia]|].
  destruct (Z.ltb_spec s (len src)); [destruct (Z.eqb_spec (at_ src i) (at_ src s))|]; cbn [andb];
    [|split; [lia|intros; lia]..].
  destruct (IH (i + 1) (s + 1)) as [H1 H2]; [lia|]. split; [lia|]. intros k Hk.
  destruct (Z.eq_dec k 0) as [->|]; [by rewrite !Z.add_0_r|].
  specialize (H2 (k - 1) ltac:(lia)). by replace (i + k) with (i + 1 + (k - 1)) by lia; replace (s + k) with (s + 1 + (k - 1)) by lia.
Qed.

(** The hash table only holds positions before [s]. *)
Definition tbl_ok (tbl : table) (s : Z) : Prop := forall k, 0 <= tget tbl k < s.

Lemma tbl_ok_empty s : 0 < s -> tbl_ok ∅ s.
Proof. intros Hs k. replace (tget ∅ k) with 0 by reflexivity. lia. Qed.

Lemma tbl_ok_mono tbl s s' : s <= s' -> tbl_ok tbl s -> tbl_ok tbl s'.
Proof. intros Hs H k. specialize (H k). lia. Qed.

Lemma land_65535 s : 0 <= s < 65536 -> Z.land s 65535 = s.
Proof. intros Hs. change 65535 with (2^16-1). rewrite land_ones_mod by lia. apply Z.mod_small. change (2^16) with 65536. lia. Qed.

Lemma tbl_ok_insert tbl s k v : tbl_ok tbl s -> 0 <= v < s -> v < 65536 -> tbl_ok (<[k := Z.land v 65535]> tbl) s.
Proof.
  intros H Hv Hv' k'. unfold tget. destruct (decide (k = k')) as [->|].
  - rewrite lookup_insert_eq. simpl. rewrite land_65535; lia.
  - rewrite lookup_insert_ne by done. apply H.
Qed.

Lemma search_spec fuel src shift sLimit tbl nextS skip nh s c nh' tbl' :
  search fuel src shift sLimit tbl nextS skip nh = Some (s, c, nh', tbl') ->
  tbl_ok tbl nextS -> 32 <= skip -> sLimit < 65536 ->
  nextS <= s <= sLimit /\ 0 <= c < s /\ load32 src s = load32 src c /\ tbl_ok tbl' (s + 1).
Proof.
  revert tbl nextS skip nh. induction fuel as [|f IH]; intros tbl nextS skip nh Hs Ht Hk Hl; [done|].
  cbn [search] in Hs. pose proof (Ht 0).
  assert (1 <= Z.shiftr skip 5) by (rewrite Z.shiftr_div_pow2 by lia; change (2^5) with 32; apply Z.div_le_lower_bound; lia).
  destruct (Z.ltb_spec sLimit (nextS + Z.shiftr skip 5)); [done|].
  destruct (Z.eqb_spec (load32 src nextS) (load32 src (tget tbl (Z.land nh tableMask)))).
  - injection Hs as <- <- <- <-. pose proof (Ht (Z.land nh tableMask)).
    split; [lia|]. split; [lia|]. split; [done|].
    apply tbl_ok_insert; [apply (tbl_ok_mono _ nextS); [lia|done]|lia|lia].
  - apply IH in Hs as (? & ?); [split; [lia|done]| |lia|lia].
    apply tbl_ok_insert; [apply (tbl_ok_mono _ nextS); [lia|done]|lia|lia].
Qed.

(** ** The block encoder's invariant: [dst] decodes to the block's first [n] bytes *)

Definition covers (prev p dst : bytes) (n : Z) : Prop := runs dst prev (prev ++ take (Z.to_nat n) p).

Lemma prefix_len_mono (prev p : bytes) a b : 0 <= a <= b ->
  (length (prev ++ take (Z.to_nat a) p) <= length (prev ++ take (Z.to_nat b) p))%nat.
Proof. intros. rewrite !length_app, !length_take. lia. Qed.

Lemma covers_literal prev p dst ne s : 0 <= ne < s -> s <= len p -> len p <= 65536 ->
  covers prev p dst ne ->
  covers prev p (dst ++ emitLiteral (take (Z.to_nat (s - ne)) (drop (Z.to_nat ne) p))) s.
Proof.
  intros Hn Hs Hp Hc. unfold covers.
  replace (prev ++ take (Z.to_nat s) p) with ((prev ++ take (Z.to_nat ne) p) ++ take (Z.to_nat (s - ne)) (drop (Z.to_nat ne) p))
    by (rewrite <- app_assoc, take_take_drop; do 2 f_equal; lia).
  eapply runs_app; [|exact Hc|apply runs_literal; rewrite length_take, length_drop; lia].
  rewrite !length_app, !length_take. lia.
Qed.

Lemma covers_copy prev p dst s c s' :
  0 <= c < s -> s + 4 <= s' <= len p -> s - c < 65536 ->
  (forall k, 0 <= k < s' - s -> at_ p (s + k) = at_ p (c + k)) ->
  covers prev p dst s -> covers prev p (dst ++ emitCopy (s - c) (s' - s)) s'.
Proof.
  intros Hc Hs Ho Heq Hd. eapply runs_app; [|exact Hd|]; [apply prefix_len_mono; lia|].
  assert (E : forall n, 0 <= n <= len p -> prev ++ take (Z.to_nat n) p = take (Z.to_nat (len prev + n)) (prev ++ p)).
  { intros n Hn. symmetry. replace (Z.to_nat (len prev + n)) with (length prev + Z.to_nat n)%nat by lia. apply take_app_add. }
  rewrite (E s), (E s') by lia. replace (len prev + s') with (len prev + s + (s' - s)) by lia.
  apply runs_emitCopy; [lia|lia|]. split; [lia|]. split; [rewrite length_app; lia|].
  intros k Hk. rewrite !lookup_app_r by lia.
  replace (Z.to_nat (len prev + s + k) - length prev)%nat with (Z.to_nat (s + k)) by lia.
  replace (Z.to_nat (len prev + s - (s - c) + k) - length prev)%nat with (Z.to_nat (c + k)) by lia.
  apply at_lookup_eq; [lia|lia|]. by rewrite Heq.
Qed.

Lemma match_at_extend p s c s' :
  0 <= c < s -> s + 4 <= len p -> load32 p s = load32 p c ->
  s' = extend (length p) p (c + 4) (s + 4) ->
  s + 4 <= s' <= len p /\ forall k, 0 <= k < s' - s -> at_ p (s + k) = at_ p (c + k).
Proof.
  intros Hc Hs Hl ->. destruct (extend_spec (length p) p (c + 4) (s + 4)) as [H1 H2]; [lia|].
  split; [lia|]. intros k Hk. destruct (Z.lt_ge_cases k 4).
  - symmetry. apply load32_eq; [done|lia].
  - specialize (H2 (k - 4) ltac:(lia)). replace (c + k) with (c + 4 + (k - 4)) by lia.
    replace (s + k) with (s + 4 + (k - 4)) by lia. done.
Qed.

Lemma match_loop_spec prev fuel src shift sLimit tbl s c dst dst' ne r :
  match_loop fuel src shift sLimit tbl s c dst = (dst', ne, r) ->
  tbl_ok tbl (s + 1) -> 0 <= c < s -> load32 src s = load32 src c -> s <= sLimit ->
  sLimit + 15 <= len src -> len src <= 65536 -> covers prev src dst s ->
  covers prev src dst' ne /\ s <= ne <= len src /\
  forall s' nh tbl', r = Some (s', nh, tbl') -> s' = ne + 1 /\ s' <= sLimit /\ tbl_ok tbl' s'.
Proof.
  revert tbl s c dst. induction fuel as [|f IH]; intros tbl s c dst Hr Ht Hc Hl Hs HL Hp Hd;
    cbn [match_loop] in Hr; [injection Hr as <- <- <-; split; [done|split; [lia|done]]|].
  destruct (match_at_extend src s c _ Hc ltac:(lia) Hl eq_refl) as [He1 He2].
  set (s1 := extend (length src) src (c + 4) (s + 4)) in *.
  pose proof (covers_copy prev src dst s c s1 Hc He1 ltac:(lia) He2 Hd) as Hd1.
  destruct (Z.leb_spec sLimit s1); [injection Hr as <- <- <-; split; [done|split; [lia|done]]|].
  assert (Ht1 : tbl_ok (<[Z.land (hash (Z.land (load64 src (s1 - 1)) (2 ^ 32 - 1)) shift) tableMask
                          := Z.land (s1 - 1) 65535]> tbl) s1).
  { apply tbl_ok_insert; [apply (tbl_ok_mono _ (s + 1)); [lia|done]|lia|lia]. }
  set (tbl1 := <[_ := Z.land (s1 - 1) 65535]> tbl) in *.
  rewrite load64_next in Hr. replace (s1 - 1 + 1) with s1 in Hr by lia.
  set (c' := tget tbl1 (Z.land (hash (load32 src s1) shift) tableMask)) in *.
  pose proof (Ht1 (Z.land (hash (load32 src s1) shift) tableMask)).
  assert (Ht2 : forall k, tbl_ok (<[k := Z.land s1 65535]> tbl1) (s1 + 1)).
  { intros k. apply tbl_ok_insert; [apply (tbl_ok_mono _ s1); [lia|done]|lia|lia]. }
  destruct (Z.eqb_spec (load32 src s1) (load32 src c')); cbn [negb] in Hr.
  - apply IH in Hr as (? & ? & ?); [split; [done|split; [lia|done]]|apply Ht2|lia|done|lia|lia|lia|done].
  - injection Hr as <- <- <-. split; [done|split; [lia|]]. intros ? ? ? [= <- _ <-]. split; [done|split; [lia|apply Ht2]].
Qed.

Lemma block_loop_spec prev fuel src shift sLimit tbl s ne nh dst dst' ne' :
  block_loop fuel src shift sLimit tbl s ne nh dst = (dst', ne') ->
  tbl_ok tbl s -> 0 <= ne < s -> ne <= sLimit -> sLimit + 15 <= len src -> len src <= 65536 ->
  covers prev src dst ne -> covers prev src dst' ne' /\ 0 <= ne' <= len src.
Proof.
  revert tbl s ne nh dst. induction fuel as [|f IH]; intros tbl s ne nh dst Hr Ht Hn Hns HL Hp Hd;
    cbn [block_loop] in Hr; [injection Hr as <- <-; split; [done|lia]|].
  destruct (search _ _ _ _ _ _ _ _) as [[[[s2 c] nh2] tbl2]|] eqn:Es; [|injection Hr as <- <-; split; [done|lia]].
  apply search_spec in Es as (Es1 & Es2 & Es3 & Es4); [|done|lia|lia].
  pose proof (covers_literal prev src dst ne s2 ltac:(lia) ltac:(lia) Hp Hd) as Hd2.
  destruct (match_loop _ _ _ _ _ _ _ _) as [[dst3 ne3] r3] eqn:Em.
  apply (match_loop_spec prev) in Em as (Em1 & Em2 & Em3); [|done|lia|done|lia|lia|lia|done].
  destruct r3 as [[[s4 nh4] tbl4]|]; [|injection Hr as <- <-; split; [done|lia]].
  destruct (Em3 s4 nh4 tbl4 eq_refl) as (-> & ? & ?).
  apply IH in Hr; [done|done|lia|lia|lia|lia|done].
Qed.

Lemma covers_all prev p dst : covers prev p dst (len p) -> runs dst prev (prev ++ p).
Proof. unfold covers. by rewrite Nat2Z.id, take_ge by lia. Qed.

Lemma runs_encodeBlock prev p : 17 <= len p <= 65536 -> runs (encodeBlock p) prev (prev ++ p).
Proof.
  intros Hp. unfold encodeBlock.
  destruct (block_loop _ _ _ _ _ _ _ _ _) as [dst ne] eqn:Eb.
  apply (block_loop_spec prev) in Eb as [Hd Hn];
    [|apply tbl_ok_empty; lia|unfold inputMargin; lia..|unfold covers; rewrite app_nil_r; apply runs_nil].
  destruct (Z.ltb_spec ne (len p)).
  - apply covers_all.
    replace (drop (Z.to_nat ne) p) with (take (Z.to_nat (len p - ne)) (drop (Z.to_nat ne) p))
      by (apply take_ge; rewrite length_drop; lia).
    by apply covers_literal; [lia|lia|lia|].
  - apply covers_all. by replace (len p) with ne by lia.
Qed.

Lemma runs_encode_blocks fuel prev src : (length src <= fuel)%nat ->
  runs (encode_blocks fuel src) prev (prev ++ src).
Proof.
  revert prev src. induction fuel as [|f IH]; intros prev src Hl; cbn [encode_blocks].
  - destruct src; [|simpl in Hl; lia]. rewrite app_nil_r. apply runs_nil.
  - destruct src as [|b src']; [rewrite app_nil_r; apply runs_nil|].
    set (q := b :: src') in *. assert (Hq1 : (1 <= length q)%nat) by (subst q; cbn [length]; lia).
    set (N := Z.to_nat maxBlockSize). assert (HN : Z.of_nat N = 65536) by (subst N; unfold maxBlockSize; lia).
    clearbody N q.
    replace (prev ++ q) with ((prev ++ take N q) ++ drop N q) by (rewrite <- app_assoc, take_drop; done).
    assert (Hq : 1 <= len (take N q) <= 65536) by (rewrite length_take; lia).
    apply (runs_app _ _ _ (prev ++ take N q)); [rewrite !length_app; lia| |apply IH; rewrite length_drop; lia].
    destruct (Z.ltb_spec (len (take N q)) minNonLiteralBlockSize).
    + apply runs_literal. lia.
    + apply runs_encodeBlock. unfold minNonLiteralBlockSize, inputMargin in *. lia.
Qed.

(** ** The length header *)

Lemma uvarint_go_encode k v i x rest :
  0 <= v < 2 ^ (7 * Z.of_nat (S k)) -> 0 <= x < 2 ^ (7 * Z.of_nat i) ->
  x + v * 2 ^ (7 * Z.of_nat i) < 2 ^ 63 -> (i <= 9)%nat ->
  uvarint_go (encode_varint_fuel k v ++ rest) i x (7 * Z.of_nat i) =
  (x + v * 2 ^ (7 * Z.of_nat i), Z.of_nat (i + length (encode_varint_fuel k v))).
Proof.
  revert v i x. induction k as [|k IH]; intros v i x Hv Hx Hlt Hi;
    cbn [encode_varint_fuel]; [|destruct (Z.ltb_spec v 128)];
    cbn [app uvarint_go length]; replace (i =? 10)%nat with false by (symmetry; apply Nat.eqb_neq; lia).
  1,2: assert (v < 128) by (simpl in Hv; lia);
    rewrite byte_val_of by lia; replace (v <? 128) with true by lia;
    replace ((i =? 9)%nat && (1 <? v)) with false;
    [rewrite Z.shiftl_mul_pow2, lor_low by lia; f_equal; lia|];
    destruct (Nat.eqb_spec i 9) as [->|]; [|done]; cbn [andb];
    destruct (Z.ltb_spec 1 v); [|done]; change (7 * Z.of_nat 9) with 63 in Hlt; nia.
  destruct (varint_byte_low v) as [Hlow Hb]; [lia|].
  rewrite byte_val_of, Hlow by lia. replace (_ <? 128) with false by lia.
  assert (Hi8 : (i <= 7)%nat).
  { assert (2 ^ (7 * Z.of_nat i + 7) < 2 ^ 63) by (rewrite Z.pow_add_r by lia; change (2^7) with 128; nia).
    apply Z.pow_lt_mono_r_iff in H0; lia. }
  pose proof (Z.mod_pos_bound v 128) as Hm. pose proof (Z.div_mod v 128 ltac:(lia)).
  assert (E : 2 ^ (7 * Z.of_nat (S i)) = 2 ^ (7 * Z.of_nat i) * 128)
    by (rewrite Nat2Z.inj_succ, Z.mul_succ_r, Z.pow_add_r; lia).
  assert (E2 : 2 ^ (7 * Z.of_nat (S (S k))) = 2 ^ (7 * Z.of_nat (S k)) * 128)
    by (rewrite (Nat2Z.inj_succ (S k)), Z.mul_succ_r, Z.pow_add_r; lia).
  pose proof (Z.pow_pos_nonneg 2 (7 * Z.of_nat i)).
  rewrite Z.shiftl_mul_pow2, lor_low by lia.
  replace (7 * Z.of_nat i + 7) with (7 * Z.of_nat (S i)) by lia.
  rewrite Z.shiftr_div_pow2 by lia. change (2 ^ 7) with 128.
  rewrite IH; rewrite ?E, ?E2 in *; [f_equal; [nia|lia]|nia..|lia].
Qed.

Lemma Uvarint_encodeVarint v rest : 0 <= v < 2 ^ 32 ->
  Uvarint (encodeVarint v ++ rest) = (v, len (encodeVarint v)).
Proof.
  intros Hv. unfold Uvarint, encodeVarint. change (uvarint_go ?b 0 0 0) with (uvarint_go b 0 0 (7 * Z.of_nat 0)).
  rewrite uvarint_go_encode; [f_equal; lia|simpl; lia|simpl; lia|simpl; lia|lia].
Qed.

(** ** The round trip *)

Lemma MaxEncodedLen_ok n : 0 <= n -> 0 <= MaxEncodedLen n <-> 32 + n + n / 6 <= 4294967295.
Proof.
  intros Hn. unfold MaxEncodedLen. pose proof (Z.div_pos n 6).
  destruct (Z.ltb_spec 4294967295 n); cbn zeta; [split; [lia|]; intros; pose proof (Z.div_pos n 6); lia|].
  destruct (Z.ltb_spec 4294967295 (32 + n + n / 6)); lia.
Qed.

Lemma decode_encode_blocks src :
  len src < 2 ^ 32 ->
  Decode (encodeVarint (len src) ++ encode_blocks (length src) src) = Ok src.
Proof.
  intros Hl. unfold Decode, decodedLen. rewrite Uvarint_encodeVarint by lia.
  assert (1 <= len (encodeVarint (len src))) by (unfold encodeVarint; cbn [encode_varint_fuel]; case_match; cbn [length]; lia).
  rewrite (proj2 (Z.leb_gt (len (encodeVarint (len src))) 0)) by lia.
  rewrite (proj2 (Z.ltb_ge 4294967295 (len src))) by lia. cbn [orb mbind outcome_bind].
  rewrite Nat2Z.id, drop_app_length.
  pose proof (runs_encode_blocks (length src) [] src (le_n _) [] [] (len src) 1%nat src) as Hr.
  rewrite !app_nil_l, app_nil_r in Hr. apply Hr; [lia|].
  cbn [decode_loop]. rewrite Z.ltb_irrefl, Z.eqb_refl. done.
Qed.

Lemma Encode_ok src : 32 + len src + len src / 6 <= 4294967295 ->
  Encode src = Ok (encodeVarint (len src) ++ encode_blocks (length src) src).
Proof.
  intros Hl. assert (Hn : 0 <= MaxEncodedLen (len src)) by (apply MaxEncodedLen_ok; lia).
  unfold Encode. by rewrite (proj2 (Z.ltb_ge _ 0)) by lia.
Qed.

Lemma Decode_of_Encode src e : Encode src = Ok e -> Decode e = Ok src.
Proof.
  unfold Encode. destruct (Z.ltb_spec (MaxEncodedLen (len src)) 0); [done|]. intros [= <-].
  apply decode_encode_blocks. pose proof (proj1 (MaxEncodedLen_ok (len src) ltac:(lia)) H).
  pose proof (Z.div_pos (len src) 6). lia.
Qed.

(** ** Properties *)

(** C14. The snappy round trip: every input [snappy.Encode] accepts (its
    [MaxEncodedLen] is not negative, about 3.68 GB) is encoded without a
    panic, and [snappy.Decode] of the encoding gives the input back. *)
Theorem Decode_Encode src :
  32 + len src + len src / 6 <= 4294967295 ->
  exists e, Encode src = Ok e /\ Decode e = Ok src.
Proof. intros Hl. eexists. split; [by apply Encode_ok|]. apply Decode_of_Encode. by apply Encode_ok. Qed.

(** A sentence with a repetition: the encoder emits a literal, a copy
    of 23 bytes from 13 back and a last literal. *)
Definition sample_text : bytes := bs "remote read: remote read: remote read!".

Lemma Decode_Encode_witness :
  Encode sample_text = Ok (bs "&4remote read: rZ" ++ ["013"%char; "000"%char; "000"%char; "!"%char]) /\
  exists e, Encode sample_text = Ok e /\ Decode e = Ok sample_text.
Proof. split; [vm_compute; reflexivity|]. apply Decode_Encode. vm_compute. discriminate. Defined.

End Snappy.
