(* ===== verification/JsonParse.v ===== *)
(** * The JSON syntax of the Lambda reply

    [src/main.go], line 96: [json.Unmarshal(resp.Payload, &jsonResult)]
    first checks that the whole payload is one JSON value (Go's
    [encoding/json/scanner.go], [checkValid]) and then decodes it.  This
    file is that check, for the [encoding/json] of Go 1.15 and later:
    [parse_value] reads one value (objects, arrays, strings with their
    escapes validated, numbers of the JSON grammar, [true], [false],
    [null]) after optional white space, with the nesting limit
    [maxNestingDepth] of the scanner's stack; [json_parse] requires
    nothing but white space after it.  A failure is Go's [SyntaxError]
    message: ["invalid character " + quoteChar(c) + " " + context] at
    the first byte the scanner's state rejects (a space at the end of
    the input, as [scanner.eof] feeds one), or ["unexpected end of JSON
    input"].  String contents and number lexemes are kept as the bytes
    of the input; their meaning is given by the decoder in [JsonDecode].

    The theorems: the printer's output is read back when it nests at
    most 10000 deep (C7), and rejected with Go's ["exceeded max depth"]
    error when it nests deeper; a proper prefix of an array or object
    is rejected ([json_parse_truncated]); the fuel [json_parse] gives is
    never exhausted ([json_parse_no_panic]). *)

From S2P Require Import Prelude Utf8 Json.

Module JsonParse.

Import Utf8 Json.
Open Scope Z_scope.

(** A JSON value as the scanner delimits it. *)
Inductive JVal : Type :=
| JNull
| JTrue
| JFalse
| JNum (lexeme : bytes)
| JStr (raw : bytes)
| JArr (elems : list JVal)
| JObj (members : list (bytes * JVal)).

Definition is_ws (c : ascii) : bool :=
  let v := byte_val c in (v =? 32) || (v =? 9) || (v =? 10) || (v =? 13).

Fixpoint skip_ws (s : bytes) : bytes :=
  match s with
  | c :: s' => if is_ws c then skip_ws s' else s
  | [] => []
  end.

Definition is_digit (c : ascii) : bool := in_range 48 57 c.

Definition is_hex (c : ascii) : bool :=
  is_digit c || in_range 65 70 c || in_range 97 102 c.

Definition byte_is (c : ascii) (v : Z) : bool := byte_val c =? v.

(** ** Go's syntax errors

    [scanner.error]: ["invalid character " + quoteChar(c) + " " + context],
    at the first byte [c] the scanner cannot take; when the input ends
    first, [scanner.eof] feeds it a space, which most states skip (the
    error is then ["unexpected end of JSON input"]) and a few reject. *)

Definition hex_lower (v : Z) : ascii := byte_of (if v <? 10 then 48 + v else 87 + v).

(** [strconv.Quote(string(c))] without its double quotes: the rune [c]
    (a byte, so a code point of Latin-1) as Go's [appendEscapedRune]
    writes it. *)
Definition quote_rune (c : ascii) : bytes :=
  let v := byte_val c in
  if v =? 92 then ["\"%char; "\"%char]
  else if (32 <=? v) && (v <=? 126) then [c]
  else if (161 <=? v) && negb (v =? 173) then [byte_of (192 + v / 64); byte_of (128 + v mod 64)]
  else if v =? 7 then ["\"%char; "a"%char]
  else if v =? 8 then ["\"%char; "b"%char]
  else if v =? 12 then ["\"%char; "f"%char]
  else if v =? 10 then ["\"%char; "n"%char]
  else if v =? 13 then ["\"%char; "r"%char]
  else if v =? 9 then ["\"%char; "t"%char]
  else if v =? 11 then ["\"%char; "v"%char]
  else if (v <? 32) || (v =? 127) then ["\"%char; "x"%char; hex_lower (v / 16); hex_lower (v mod 16)]
  else ["\"%char; "u"%char; "0"%char; "0"%char; hex_lower (v / 16); hex_lower (v mod 16)].

(** [quoteChar(c)] of [encoding/json/scanner.go]. *)
Definition quote_char (c : ascii) : string :=
  let v := byte_val c in
  String.string_of_list_ascii
    ("'"%char :: (if v =? 39 then ["\"%char; "'"%char] else if v =? 34 then [c] else quote_rune c)
     ++ ["'"%char]).

Definition syntax_error {A} (c : ascii) (context : string) : outcome A :=
  Err ("invalid character " +:+ quote_char c +:+ " " +:+ context).

Definition unexpected_eof {A} : outcome A := Err "unexpected end of JSON input".

(** [maxNestingDepth]: the scanner's stack of open arrays and objects
    holds at most 10000 entries. *)
Definition maxNestingDepth : nat := 10000.

(** [pushParseState]: opening one more array or object at [depth]
    keeps the stack within [maxNestingDepth]. *)
Definition push_ok (depth : nat) : bool := (S depth <=? maxNestingDepth)%nat.

(** ** The scanner's states as functions of the input *)

(** The [\u] escape's four hex digits failed: at the first byte that is
    not one, or at the end of the input. *)
Definition hex_error {A} (hs : bytes) : outcome A :=
  match List.find (fun h => negb (is_hex h)) hs with
  | Some h => syntax_error h "in \u hexadecimal character escape"
  | None => syntax_error " " "in \u hexadecimal character escape"
  end.

(** The contents of a string after its opening quote, up to the closing
    quote ([stateInString], [stateInStringEsc], [stateInStringEscU...]):
    any byte from 0x20 on but the quote and the backslash, or a
    backslash and one of the quote, the backslash, [/ b f n r t], or [u]
    and four hex digits. *)
Fixpoint scan_string (s : bytes) (acc : bytes) : outcome (bytes * bytes) :=
  match s with
  | [] => unexpected_eof
  | c :: s' =>
      if byte_is c 34 then Ok (rev acc, s')
      else if byte_is c 92 then
        match s' with
        | e :: s'' =>
            if existsb (byte_is e) [34; 92; 47; 98; 102; 110; 114; 116] then
              scan_string s'' (e :: c :: acc)
            else if byte_is e 117 then
              match s'' with
              | h1 :: h2 :: h3 :: h4 :: s3 =>
                  if forallb is_hex [h1; h2; h3; h4]
                  then scan_string s3 (h4 :: h3 :: h2 :: h1 :: e :: c :: acc)
                  else hex_error [h1; h2; h3; h4]
              | _ => hex_error s''
              end
            else syntax_error e "in string escape code"
        | [] => syntax_error " " "in string escape code"
        end
      else if byte_val c <? 32 then syntax_error c "in string literal"
      else scan_string s' (c :: acc)
  end.

(** A run of digits. *)
Fixpoint span_digits (s : bytes) : bytes * bytes :=
  match s with
  | c :: s' => if is_digit c then let '(ds, r) := span_digits s' in (c :: ds, r) else ([], s)
  | [] => ([], [])
  end.

(** One digit or more, where the state [context] requires a digit. *)
Definition nonempty_digits (context : string) (s : bytes) : outcome (bytes * bytes) :=
  match s with
  | c :: s' => if is_digit c then let '(ds, r) := span_digits s' in Ok (c :: ds, r)
               else syntax_error c context
  | [] => syntax_error " " context
  end.

(** The number grammar [-? (0 | [1-9][0-9]* ) (. [0-9]+)? ([eE] [+-]? [0-9]+)?],
    stage by stage as the states of Go's scanner ([stateNeg],
    [state0]/[state1], [stateDot]/[stateDot0], [stateE]/[stateESign]/[stateE0]):
    each stage returns the bytes it takes and the rest. *)
Definition scan_sign (s : bytes) : bytes * bytes :=
  match s with
  | c :: s' => if byte_is c 45 then ([c], s') else ([], s)
  | [] => ([], [])
  end.

Definition scan_int (s : bytes) : outcome (bytes * bytes) :=
  match s with
  | c :: s' =>
      if byte_is c 48 then Ok ([c], s')
      else if is_digit c then let '(ds, r) := span_digits s' in Ok (c :: ds, r)
      else syntax_error c "in numeric literal"
  | [] => syntax_error " " "in numeric literal"
  end.

Definition scan_frac (s : bytes) : outcome (bytes * bytes) :=
  match s with
  | c :: s' => if byte_is c 46 then
                 '(ds, r) ← nonempty_digits "after decimal point in numeric literal" s'; Ok (c :: ds, r)
               else Ok ([], s)
  | [] => Ok ([], [])
  end.

Definition scan_exp (s : bytes) : outcome (bytes * bytes) :=
  match s with
  | c :: s' =>
      if byte_is c 101 || byte_is c 69 then
        let '(sg, s'') := match s' with
                          | d :: r => if byte_is d 43 || byte_is d 45 then ([d], r) else ([], s')
                          | [] => ([], [])
                          end in
        '(ds, r) ← nonempty_digits "in exponent of numeric literal" s''; Ok (c :: sg ++ ds, r)
      else Ok ([], s)
  | [] => Ok ([], [])
  end.

Definition scan_number (s : bytes) : outcome (bytes * bytes) :=
  let '(sign, s) := scan_sign s in
  '(ip, s) ← scan_int s;
  '(fp, s) ← scan_frac s;
  '(ep, s) ← scan_exp s;
  Ok (sign ++ ip ++ fp ++ ep, s).

(** The rest [lit] of the literal [name] after its first byte, byte by
    byte ([stateT], [stateTr], ...). *)
Fixpoint scan_literal (name : string) (lit : bytes) (s : bytes) : outcome bytes :=
  match lit with
  | [] => Ok s
  | x :: lit' =>
      let context := "in literal " +:+ name +:+ " (expecting " +:+ quote_char x +:+ ")" in
      match s with
      | c :: s' => if decide (c = x) then scan_literal name lit' s' else syntax_error c context
      | [] => syntax_error " " context
      end
  end.

(** One value at nesting [depth] (the number of arrays and objects open
    around it), and the members and elements of the objects and arrays
    it contains; each nested value costs one unit of fuel.  Opening an
    array or object pushes a parse state, which fails beyond
    [maxNestingDepth] ([push_ok]). *)
Fixpoint parse_value (fuel depth : nat) (s : bytes) : outcome (JVal * bytes) :=
  match fuel with
  | O => Panic "scanner fuel"
  | S f =>
      match skip_ws s with
      | [] => unexpected_eof
      | c :: r =>
          if byte_is c 123 then
            if push_ok depth then
              match skip_ws r with
              | d :: r' => if byte_is d 125 then Ok (JObj [], r')
                           else parse_members f (S depth) (skip_ws r) []
              | [] => unexpected_eof
              end
            else syntax_error c "exceeded max depth"
          else if byte_is c 91 then
            if push_ok depth then
              match skip_ws r with
              | d :: r' => if byte_is d 93 then Ok (JArr [], r') else parse_elems f (S depth) r []
              | [] => unexpected_eof
              end
            else syntax_error c "exceeded max depth"
          else if byte_is c 34 then
            '(raw, r') ← scan_string r []; Ok (JStr raw, r')
          else if byte_is c 45 || is_digit c then
            '(lex, r') ← scan_number (c :: r); Ok (JNum lex, r')
          else if byte_is c 116 then r' ← scan_literal "true" (bs "rue") r; Ok (JTrue, r')
          else if byte_is c 102 then r' ← scan_literal "false" (bs "alse") r; Ok (JFalse, r')
          else if byte_is c 110 then r' ← scan_literal "null" (bs "ull") r; Ok (JNull, r')
          else syntax_error c "looking for beginning of value"
      end
  end
with parse_elems (fuel depth : nat) (s : bytes) (acc : list JVal) : outcome (JVal * bytes) :=
  match fuel with
  | O => Panic "scanner fuel"
  | S f =>
      '(v, r) ← parse_value f depth s;
      match skip_ws r with
      | d :: r' =>
          if byte_is d 44 then parse_elems f depth r' (v :: acc)
          else if byte_is d 93 then Ok (JArr (rev (v :: acc)), r')
          else syntax_error d "after array element"
      | [] => unexpected_eof
      end
  end
with parse_members (fuel depth : nat) (s : bytes) (acc : list (bytes * JVal)) : outcome (JVal * bytes) :=
  match fuel with
  | O => Panic "scanner fuel"
  | S f =>
      match s with
      | q :: r =>
          if byte_is q 34 then
            '(k, r) ← scan_string r [];
            match skip_ws r with
            | col :: r =>
                if byte_is col 58 then
                  '(v, r) ← parse_value f depth r;
                  match skip_ws r with
                  | d :: r' =>
                      if byte_is d 44 then parse_members f depth (skip_ws r') ((k, v) :: acc)
                      else if byte_is d 125 then Ok (JObj (rev ((k, v) :: acc)), r')
                      else syntax_error d "after object key:value pair"
                  | [] => unexpected_eof
                  end
                else syntax_error col "after object key"
            | [] => unexpected_eof
            end
          else syntax_error q "looking for beginning of object key string"
      | [] => unexpected_eof
      end
  end.

(** [checkValid]: one value and white space only ([stateEndTop]).  The
    fuel [2 * length s + 1] is never exhausted ([parse_value_no_panic]):
    a value takes at least one byte, and an element or member two
    units. *)
Definition json_parse (s : bytes) : outcome JVal :=
  '(v, r) ← parse_value (S (2 * length s)) 0 s;
  match skip_ws r with
  | [] => Ok v
  | c :: _ => syntax_error c "after top-level value"
  end.

(** ** Printing a value

    The text a JSON writer produces for a value, with no white space: the
    reference against which the scanner is checked.  A number keeps its
    lexeme and a string its raw contents. *)

Fixpoint join_with (sep : ascii) (l : list bytes) : bytes :=
  match l with
  | [] => []
  | [x] => x
  | x :: l' => x ++ sep :: join_with sep l'
  end.

Fixpoint print_jval (v : JVal) : bytes :=
  match v with
  | JNull => bs "null"
  | JTrue => bs "true"
  | JFalse => bs "false"
  | JNum lex => lex
  | JStr raw => "034"%char :: raw ++ ["034"%char]
  | JArr xs => "["%char :: join_with ","%char (map print_jval xs) ++ ["]"%char]
  | JObj kvs =>
      "{"%char :: join_with ","%char
        (map (fun '(k, x) => "034"%char :: k ++ "034"%char :: ":"%char :: print_jval x) kvs)
      ++ ["}"%char]
  end.

(** One member of an object, ["key":value]. *)
Definition print_member (kv : bytes * JVal) : bytes :=
  let '(k, x) := kv in "034"%char :: k ++ "034"%char :: ":"%char :: print_jval x.

(** A string's raw contents as the scanner delimits them. *)
Definition str_ok (raw : bytes) : bool :=
  bool_decide (scan_string (raw ++ ["034"%char]) [] = Ok (raw, [])).

(** The values the scanner can produce: numbers and strings are lexemes
    it accepts. *)
Fixpoint wf_jval (v : JVal) : bool :=
  match v with
  | JNum lex => bool_decide (scan_number lex = Ok (lex, []))
  | JStr raw => str_ok raw
  | JArr xs => forallb wf_jval xs
  | JObj kvs => forallb (fun '(k, x) => str_ok k && wf_jval x) kvs
  | _ => true
  end.

(** The fuel [parse_value] spends on a value: one unit per value and
    per element or member. *)
Fixpoint cost (v : JVal) : nat :=
  match v with
  | JArr xs => S (sum_list_with (fun x => S (cost x)) xs)
  | JObj kvs => S (sum_list_with (fun '(_, x) => S (cost x)) kvs)
  | _ => 1%nat
  end.

(** What may follow a value inside a document: its end, a comma or a
    closing bracket. *)
Definition is_stop (r : bytes) : bool :=
  match r with
  | [] => true
  | d :: _ => byte_is d 44 || byte_is d 93 || byte_is d 125
  end.

(** How deep arrays and objects nest in a value. *)
Fixpoint nesting (v : JVal) : nat :=
  match v with
  | JArr xs => S (max_list_with nesting xs)
  | JObj kvs => S (max_list_with (fun '(_, x) => nesting x) kvs)
  | _ => 0
  end.

(** ** The scanner reads back what is printed *)

#[local] Arguments join_with : simpl never.

Lemma stop_head c t :
  is_stop (c :: t) = true ->
  is_digit c = false /\ byte_is c 45 = false /\ byte_is c 46 = false /\
  byte_is c 101 = false /\ byte_is c 69 = false /\ is_ws c = false.
Proof.
  unfold is_stop, is_digit, is_ws, in_range, byte_is. intros H.
  apply orb_prop in H as [[H|H]%orb_prop|H]; apply Z.eqb_eq in H; rewrite H; done.
Qed.

Lemma span_digits_app s rest ds r :
  span_digits s = (ds, r) -> is_stop rest = true -> span_digits (s ++ rest) = (ds, r ++ rest).
Proof.
  revert ds r. induction s as [|c s IH]; intros ds r H Hr; simpl in *.
  - simplify_eq. destruct rest as [|d t]; [done|]. simpl.
    by rewrite (proj1 (stop_head d t Hr)).
  - destruct (is_digit c); [|by simplify_eq].
    destruct (span_digits s) as [ds' r'] eqn:E. simplify_eq. by rewrite (IH ds' r).
Qed.

Lemma nonempty_digits_app ctx s rest ds r :
  nonempty_digits ctx s = Ok (ds, r) -> is_stop rest = true ->
  nonempty_digits ctx (s ++ rest) = Ok (ds, r ++ rest).
Proof.
  destruct s as [|c s]; [done|]. cbn [nonempty_digits app]. destruct (is_digit c); [|done].
  destruct (span_digits s) as [ds' r'] eqn:E. intros [= <- <-] Hr.
  by rewrite (span_digits_app _ _ _ _ E Hr).
Qed.

(** A stage of the number scanner reads the same bytes when more input
    that cannot continue a number follows. *)
Definition stage_ext (f : bytes -> outcome (bytes * bytes)) : Prop :=
  forall s x r rest, is_stop rest = true -> f s = Ok (x, r) -> f (s ++ rest) = Ok (x, r ++ rest).

Lemma scan_sign_app s rest : is_stop rest = true ->
  scan_sign (s ++ rest) = (fst (scan_sign s), snd (scan_sign s) ++ rest).
Proof.
  intros Hr. destruct s as [|c s]; simpl.
  - destruct rest as [|d t]; [done|]. simpl. by rewrite (proj1 (proj2 (stop_head d t Hr))).
  - by destruct (byte_is c 45).
Qed.

Lemma scan_int_ext : stage_ext scan_int.
Proof.
  intros [|c s] x r rest Hr H; [done|]. simpl in *.
  destruct (byte_is c 48); [by simplify_eq|]. destruct (is_digit c); [|done].
  destruct (span_digits s) as [ds r'] eqn:E. simplify_eq.
  by rewrite (span_digits_app _ _ _ _ E Hr).
Qed.

Lemma scan_frac_ext : stage_ext scan_frac.
Proof.
  intros [|c s] x r rest Hr H; simpl in *.
  - simplify_eq. destruct rest as [|d t]; [done|]. simpl.
    by rewrite (proj1 (proj2 (proj2 (stop_head d t Hr)))).
  - destruct (byte_is c 46); [|by simplify_eq].
    destruct (nonempty_digits _ s) as [[ds r']| |] eqn:E; try done. simplify_eq/=.
    by rewrite (nonempty_digits_app _ _ _ _ _ E Hr).
Qed.

Lemma scan_exp_ext : stage_ext scan_exp.
Proof.
  intros [|c s] x r rest Hr H; simpl in *.
  - simplify_eq. destruct rest as [|d t]; [done|]. simpl.
    destruct (stop_head d t Hr) as (_ & _ & _ & -> & -> & _). done.
  - destruct (byte_is c 101 || byte_is c 69); [|by simplify_eq].
    destruct s as [|d s]; simpl in *; [done|].
    destruct (byte_is d 43 || byte_is d 45);
      [destruct (nonempty_digits _ s) as [[ds r']| |] eqn:E
      |destruct (nonempty_digits _ (d :: s)) as [[ds r']| |] eqn:E]; cbn -[nonempty_digits] in H;
      simplify_eq; try done.
    + by rewrite (nonempty_digits_app _ _ _ _ _ E Hr).
    + change (d :: s ++ rest) with ((d :: s) ++ rest).
      by rewrite (nonempty_digits_app _ _ _ _ _ E Hr).
Qed.

Lemma scan_number_app s lex rest :
  scan_number s = Ok (lex, []) -> is_stop rest = true -> scan_number (s ++ rest) = Ok (lex, rest).
Proof.
  unfold scan_number. intros H Hr. rewrite (scan_sign_app s rest Hr).
  destruct (scan_sign s) as [sg s1]. simpl.
  destruct (scan_int s1) as [[ip s2]| |] eqn:E1; try done. simpl in H.
  destruct (scan_frac s2) as [[fp s3]| |] eqn:E2; try done. simpl in H.
  destruct (scan_exp s3) as [[ep s4]| |] eqn:E3; try done. simpl in H. simplify_eq.
  rewrite (scan_int_ext _ _ _ _ Hr E1). cbn -[scan_frac scan_exp].
  rewrite (scan_frac_ext _ _ _ _ Hr E2). cbn -[scan_exp].
  by rewrite (scan_exp_ext _ _ _ _ Hr E3).
Qed.

Lemma hex_error_not_ok {A} hs (x : A) : hex_error hs <> Ok x.
Proof. unfold hex_error. by destruct (List.find _ _). Qed.

Lemma scan_string_app s t acc x r :
  scan_string s acc = Ok (x, r) -> scan_string (s ++ t) acc = Ok (x, r ++ t).
Proof.
  revert acc. induction s as [s IH] using (well_founded_ind (well_founded_ltof _ (@length ascii))).
  unfold ltof in IH. intros acc H. destruct s as [|c s]; [done|]. cbn [scan_string app] in *.
  destruct (byte_is c 34); [by simplify_eq|].
  destruct (byte_is c 92).
  - destruct s as [|e s]; [done|]. cbn [app] in *.
    destruct (existsb (byte_is e) [34; 92; 47; 98; 102; 110; 114; 116]);
      [apply IH; [simpl; lia|done]|].
    destruct (byte_is e 117); [|done].
    destruct s as [|h1 [|h2 [|h3 [|h4 s]]]]; try by apply hex_error_not_ok in H. cbn [app] in *.
    destruct (forallb is_hex [h1; h2; h3; h4]); [|by apply hex_error_not_ok in H].
    apply IH; [simpl; lia|done].
  - destruct (byte_val c <? 32); [done|]. apply IH; [simpl; lia|done].
Qed.

Lemma zero_is_digit c : byte_is c 48 = true -> is_digit c = true.
Proof. unfold byte_is, is_digit, in_range. intros H%Z.eqb_eq. by rewrite H. Qed.

(** A number starts with its sign or a digit, which it keeps. *)
Lemma scan_number_head c s lex r :
  scan_number (c :: s) = Ok (lex, r) ->
  (byte_is c 45 || is_digit c) = true /\ exists t, lex = c :: t.
Proof.
  unfold scan_number. cbn [scan_sign].
  assert (Hrest : forall s0 ip (sg : bytes),
    ('(fp, s1) ← scan_frac s0; '(ep, s2) ← scan_exp s1; Ok (sg ++ ip ++ fp ++ ep, s2))
      = Ok (lex, r) -> exists fe, lex = sg ++ ip ++ fe).
  { intros s0 ip sg. destruct (scan_frac s0) as [[fp s1]| |]; try done. cbn.
    destruct (scan_exp s1) as [[ep s2]| |]; try done. cbn. intros [= <- _]. eauto. }
  destruct (byte_is c 45) eqn:Hc.
  - destruct (scan_int s) as [[ip s2]| |]; try done. cbn. intros H.
    destruct (Hrest s2 ip [c] H) as [fe ->]. eauto.
  - cbn [scan_int]. destruct (byte_is c 48) eqn:H0.
    + cbn. intros H. destruct (Hrest s [c] [] H) as [fe ->].
      rewrite zero_is_digit by done. eauto.
    + destruct (is_digit c) eqn:Hd; [|done]. destruct (span_digits s) as [ds r']. cbn.
      intros H. destruct (Hrest r' (c :: ds) [] H) as [fe ->]. eauto.
Qed.

Section JValInd.
Variable P : JVal -> Prop.
Hypothesis H_null : P JNull.
Hypothesis H_true : P JTrue.
Hypothesis H_false : P JFalse.
Hypothesis H_num : forall lex, P (JNum lex).
Hypothesis H_str : forall raw, P (JStr raw).
Hypothesis H_arr : forall xs, Forall P xs -> P (JArr xs).
Hypothesis H_obj : forall kvs, Forall (fun kv => P kv.2) kvs -> P (JObj kvs).

(** Induction on values, with the hypothesis on every element and member. *)
Fixpoint JVal_ind' (v : JVal) : P v :=
  match v with
  | JNull => H_null
  | JTrue => H_true
  | JFalse => H_false
  | JNum lex => H_num lex
  | JStr raw => H_str raw
  | JArr xs =>
      H_arr xs ((fix go (l : list JVal) : Forall P l :=
                   match l with
                   | [] => @List.Forall_nil _ P
                   | x :: l' => @List.Forall_cons _ P x l' (JVal_ind' x) (go l')
                   end) xs)
  | JObj kvs =>
      H_obj kvs ((fix go (l : list (bytes * JVal)) : Forall (fun kv => P kv.2) l :=
                    match l with
                    | [] => @List.Forall_nil _ (fun kv => P kv.2)
                    | kv :: l' => @List.Forall_cons _ (fun kv => P kv.2) kv l' (JVal_ind' kv.2) (go l')
                    end) kvs)
  end.

End JValInd.

Lemma num_start c :
  (byte_is c 45 || is_digit c) = true ->
  is_ws c = false /\ byte_is c 93 = false /\ byte_is c 125 = false /\
  byte_is c 123 = false /\ byte_is c 91 = false /\ byte_is c 34 = false.
Proof.
  unfold byte_is, is_digit, in_range, is_ws. intros H.
  apply orb_prop in H as [H|H].
  - apply Z.eqb_eq in H. by rewrite H.
  - apply andb_prop in H as [H1 H2]. apply Z.leb_le in H1, H2. zbool.
Qed.

Lemma print_head v :
  wf_jval v = true ->
  exists c t, print_jval v = c :: t /\ is_ws c = false /\ byte_is c 93 = false /\ byte_is c 125 = false.
Proof.
  destruct v as [| | |lex|raw|xs|kvs]; intros Hwf; try by (eexists _, _; split; [reflexivity|]).
  simpl in Hwf. apply bool_decide_eq_true in Hwf. destruct lex as [|c t]; [done|].
  destruct (scan_number_head _ _ _ _ Hwf) as [Hc _].
  destruct (num_start c Hc) as (H1 & H2 & H3 & _). by exists c, t.
Qed.

Definition parses (x : JVal) : Prop :=
  forall fuel depth rest, wf_jval x = true -> (cost x <= fuel)%nat ->
  (depth + nesting x <= maxNestingDepth)%nat -> is_stop rest = true ->
  parse_value fuel depth (print_jval x ++ rest) = Ok (x, rest).

Lemma join_with_one sep (a : bytes) : join_with sep [a] = a.
Proof. reflexivity. Qed.

Lemma join_with_cons2 sep (a b : bytes) l :
  join_with sep (a :: b :: l) = a ++ sep :: join_with sep (b :: l).
Proof. reflexivity. Qed.

Lemma join_map_cons2 {A} (f : A -> bytes) sep a b l :
  join_with sep (map f (a :: b :: l)) = f a ++ sep :: join_with sep (map f (b :: l)).
Proof. reflexivity. Qed.

Lemma max_list_with_cons {A} (f : A -> nat) x l :
  max_list_with f (x :: l) = Nat.max (f x) (max_list_with f l).
Proof. reflexivity. Qed.

Lemma push_ok_true d : (S d <= maxNestingDepth)%nat -> push_ok d = true.
Proof. apply Nat.leb_le. Qed.

Lemma push_ok_false d : (maxNestingDepth < S d)%nat -> push_ok d = false.
Proof. apply Nat.leb_gt. Qed.

#[local] Arguments push_ok : simpl never.
#[local] Arguments maxNestingDepth : simpl never.

Lemma parse_elems_print xs acc fuel depth rest :
  Forall parses xs -> xs <> [] -> forallb wf_jval xs = true ->
  (sum_list_with (fun x => S (cost x)) xs <= fuel)%nat ->
  (depth + max_list_with nesting xs <= maxNestingDepth)%nat ->
  parse_elems fuel depth (join_with ","%char (map print_jval xs) ++ "]"%char :: rest) acc =
  Ok (JArr (rev acc ++ xs), rest).
Proof.
  revert acc fuel. induction xs as [|x xs IH]; intros acc fuel Hall Hne Hwf Hcost Hd; [done|].
  apply Forall_cons in Hall as [Hx Hall]. simpl in Hwf. apply andb_prop in Hwf as [Hwx Hwxs].
  rewrite max_list_with_cons in Hd.
  destruct fuel as [|f]; [simpl in Hcost; lia|]. simpl in Hcost.
  destruct xs as [|y xs'].
  - cbn [map join_with parse_elems]. rewrite Hx by (done || lia). simpl.
    by rewrite <- ?app_assoc.
  - rewrite join_map_cons2, <- app_assoc. cbn [app parse_elems].
    rewrite Hx by (done || lia). simpl.
    rewrite IH by (done || lia). simpl. by rewrite <- app_assoc.
Qed.

Lemma byte_is_34 : byte_is "034"%char 34 = true.
Proof. reflexivity. Qed.

Lemma str_ok_app k t : str_ok k = true -> scan_string (k ++ "034"%char :: t) [] = Ok (k, t).
Proof.
  intros H%bool_decide_eq_true. apply (scan_string_app _ t) in H.
  by rewrite <- app_assoc in H.
Qed.

Lemma member_join_head kv l u :
  exists t, join_with ","%char (map print_member (kv :: l)) ++ u = "034"%char :: t.
Proof.
  destruct kv as [k x]. destruct l as [|kv' l].
  - rewrite map_cons, join_with_one. by eexists.
  - rewrite join_map_cons2. by eexists.
Qed.

Lemma skip_ws_members kv l u : skip_ws (join_with ","%char (map print_member (kv :: l)) ++ u) =
  join_with ","%char (map print_member (kv :: l)) ++ u.
Proof. destruct (member_join_head kv l u) as [t ->]. reflexivity. Qed.

Lemma parse_members_print kvs acc fuel depth rest :
  Forall (fun kv => parses kv.2) kvs -> kvs <> [] ->
  forallb (fun '(k, x) => str_ok k && wf_jval x) kvs = true ->
  (sum_list_with (fun '(_, x) => S (cost x)) kvs <= fuel)%nat ->
  (depth + max_list_with (fun '(_, x) => nesting x) kvs <= maxNestingDepth)%nat ->
  parse_members fuel depth (join_with ","%char (map print_member kvs) ++ "}"%char :: rest) acc =
  Ok (JObj (rev acc ++ kvs), rest).
Proof.
  revert acc fuel. induction kvs as [|[k x] kvs IH]; intros acc fuel Hall Hne Hwf Hcost Hd; [done|].
  apply Forall_cons in Hall as [Hx Hall]. simpl in Hwf, Hx.
  apply andb_prop in Hwf as [[Hk Hwx]%andb_prop Hwxs]. rewrite max_list_with_cons in Hd.
  destruct fuel as [|f]; [simpl in Hcost; lia|]. simpl in Hcost.
  destruct kvs as [|[k' y] kvs'].
  - cbn [map print_member]. rewrite join_with_one. cbn [app parse_members].
    rewrite byte_is_34, <- app_assoc. cbn [app]. rewrite str_ok_app by done. simpl.
    rewrite Hx by (done || lia). simpl. by rewrite <- ?app_assoc.
  - rewrite join_map_cons2, <- app_assoc. cbn [app].
    remember (join_with ","%char (map print_member ((k', y) :: kvs')) ++ "}"%char :: rest) as R eqn:HR.
    assert (Hskip : skip_ws R = R) by (rewrite HR; apply skip_ws_members).
    cbn [print_member app parse_members].
    rewrite byte_is_34, <- app_assoc. cbn [app]. rewrite str_ok_app by done. simpl.
    rewrite Hx by (done || lia). simpl. rewrite Hskip.
    rewrite IH by (done || lia). simpl. by rewrite <- app_assoc.
Qed.

Lemma elems_join_head x xs u :
  wf_jval x = true ->
  exists c t, join_with ","%char (map print_jval (x :: xs)) ++ u = c :: t /\
              is_ws c = false /\ byte_is c 93 = false.
Proof.
  intros Hx. destruct (print_head x Hx) as (c & t & Ht & Hws & H93 & _).
  destruct xs as [|y xs].
  - rewrite map_cons, join_with_one, Ht. by exists c, (t ++ u).
  - rewrite join_map_cons2, Ht. by eexists c, _.
Qed.

(** The scanner reads back every well-formed value within the nesting
    limit from its printed text, followed by anything that may follow a
    value. *)
Lemma parse_print v : parses v.
Proof.
  induction v as [| | |lex|raw|xs IH|kvs IH] using JVal_ind';
    intros fuel depth rest Hwf Hc Hd Hr; destruct fuel as [|f]; try (simpl in Hc; lia);
    try reflexivity.
  - simpl in Hwf. apply bool_decide_eq_true in Hwf. destruct lex as [|c t]; [done|].
    destruct (scan_number_head _ _ _ _ Hwf) as [Hnum _].
    destruct (num_start c Hnum) as (Hws & _ & _ & H123 & H91 & H34).
    cbn [print_jval app parse_value skip_ws]. rewrite Hws, H123, H91, H34, Hnum.
    change (c :: t ++ rest) with ((c :: t) ++ rest). by rewrite (scan_number_app _ _ _ Hwf Hr).
  - simpl. rewrite <- app_assoc. simpl. by rewrite str_ok_app.
  - cbn [nesting] in Hd. destruct xs as [|x xs'].
    { cbn. by rewrite push_ok_true by lia. }
    simpl in Hwf, Hc. apply andb_prop in Hwf as [Hwx Hwxs].
    cbn [print_jval]. cbn [app]. rewrite <- app_assoc. cbn [app].
    destruct (elems_join_head x xs' ("]"%char :: rest) Hwx) as (c & t & Ht & Hws & H93).
    rewrite Ht. simpl. rewrite push_ok_true by lia. rewrite Hws. simpl. rewrite H93, <- Ht.
    rewrite parse_elems_print; [done|done|done|simpl; by rewrite Hwx|simpl; lia|lia].
  - cbn [nesting] in Hd. destruct kvs as [|[k x] kvs'].
    { cbn. by rewrite push_ok_true by lia. }
    cbn [print_jval]. cbn [app]. rewrite <- app_assoc. cbn [app].
    change (map (fun '(k, x) => "034"%char :: k ++ "034"%char :: ":"%char :: print_jval x))
      with (map print_member).
    destruct (member_join_head (k, x) kvs' ("}"%char :: rest)) as (t & Ht).
    rewrite Ht. simpl. rewrite push_ok_true by lia. rewrite <- Ht.
    rewrite parse_members_print; [done|done|done|done| |lia]. simpl in Hc |- *. lia.
Qed.

Lemma length_join_ge sep l :
  (sum_list_with length l + length l <= S (length (join_with sep l)))%nat.
Proof.
  induction l as [|a [|b l] IH]; [simpl; lia|rewrite join_with_one; simpl; lia|].
  rewrite join_with_cons2, length_app. simpl in *. lia.
Qed.

Lemma sum_list_with_le {A} (f g : A -> nat) l :
  Forall (fun x => f x <= g x)%nat l -> (sum_list_with f l <= sum_list_with g l)%nat.
Proof. induction 1; simpl; lia. Qed.

Lemma sum_list_with_map {A B} (f : B -> nat) (g : A -> B) l :
  sum_list_with f (map g l) = sum_list_with (fun x => f (g x)) l.
Proof. induction l; simpl; lia. Qed.

(** A value costs no more fuel than its text has bytes. *)
Lemma cost_le_length v : wf_jval v = true -> (cost v <= length (print_jval v))%nat.
Proof.
  induction v as [| | |lex|raw|xs IH|kvs IH] using JVal_ind'; intros Hwf; simpl; try lia.
  - simpl in Hwf. apply bool_decide_eq_true in Hwf. destruct lex; [done|simpl; lia].
  - rewrite length_app. simpl.
    pose proof (length_join_ge ","%char (map print_jval xs)) as Hj.
    rewrite sum_list_with_map, length_map in Hj.
    assert (sum_list_with (fun x => S (cost x)) xs <= sum_list_with (fun x => length (print_jval x)) xs + length xs)%nat.
    { clear Hj. induction xs as [|x xs IHxs]; [simpl; lia|].
      apply Forall_cons in IH as [Hx IH]. simpl in Hwf |- *. apply andb_prop in Hwf as [? ?].
      specialize (Hx ltac:(done)). specialize (IHxs IH ltac:(done)). lia. }
    lia.
  - rewrite length_app. simpl.
    pose proof (length_join_ge ","%char (map print_member kvs)) as Hj.
    change (map (fun '(k, x) => "034"%char :: k ++ "034"%char :: ":"%char :: print_jval x))
      with (map print_member).
    rewrite sum_list_with_map, length_map in Hj.
    assert (sum_list_with (fun '(_, x) => S (cost x)) kvs <= sum_list_with (fun kv => length (print_member kv)) kvs + length kvs)%nat.
    { clear Hj. induction kvs as [|[k x] kvs IHkvs]; [simpl; lia|].
      apply Forall_cons in IH as [Hx IH]. simpl in Hwf, Hx |- *.
      apply andb_prop in Hwf as [[? ?]%andb_prop ?].
      specialize (Hx ltac:(done)). specialize (IHkvs IH ltac:(done)). rewrite length_app. simpl. lia. }
    lia.
Qed.

(** The whole document: [json_parse] gives enough fuel. *)
Lemma parse_document v :
  wf_jval v = true -> (nesting v <= maxNestingDepth)%nat -> json_parse (print_jval v) = Ok v.
Proof.
  intros Hwf Hn. unfold json_parse.
  pose proof (parse_print v (S (2 * length (print_jval v))) 0%nat [] Hwf) as H.
  rewrite app_nil_r in H. rewrite H; [done| |lia|done].
  pose proof (cost_le_length v Hwf). lia.
Qed.

(** ** Values nested too deep *)

(** The error of [pushParseState] at an opening bracket or brace. *)
Definition depth_error {A} (r : outcome A) : Prop :=
  exists c, (c = "["%char \/ c = "{"%char) /\ r = syntax_error c "exceeded max depth".

Definition rejects (x : JVal) : Prop :=
  forall fuel depth rest, wf_jval x = true -> (cost x <= fuel)%nat ->
  (depth <= maxNestingDepth)%nat -> (maxNestingDepth < depth + nesting x)%nat ->
  depth_error (parse_value fuel depth (print_jval x ++ rest)).

Lemma depth_error_bind {A B} (m : outcome A) (k : A -> outcome B) :
  depth_error m -> depth_error (m ≫= k).
Proof. intros (c & Hc & ->). by exists c. Qed.

Lemma parse_elems_deep xs acc fuel depth rest :
  Forall rejects xs -> Forall parses xs -> forallb wf_jval xs = true ->
  (sum_list_with (fun x => S (cost x)) xs <= fuel)%nat ->
  (depth <= maxNestingDepth)%nat -> (maxNestingDepth < depth + max_list_with nesting xs)%nat ->
  depth_error (parse_elems fuel depth (join_with ","%char (map print_jval xs) ++ "]"%char :: rest) acc).
Proof.
  revert acc fuel. induction xs as [|x xs IH]; intros acc fuel Hrej Hall Hwf Hcost Hd Hdeep;
    [cbn in Hdeep; lia|].
  apply Forall_cons in Hrej as [Rx Hrej]. apply Forall_cons in Hall as [Hx Hall].
  simpl in Hwf. apply andb_prop in Hwf as [Hwx Hwxs]. rewrite max_list_with_cons in Hdeep.
  destruct fuel as [|f]; [simpl in Hcost; lia|]. simpl in Hcost.
  destruct (decide (maxNestingDepth < depth + nesting x)%nat).
  - destruct xs as [|y xs'];
      [cbn [map join_with parse_elems]|rewrite join_map_cons2, <- app_assoc; cbn [app parse_elems]];
      apply depth_error_bind, Rx; (done || lia).
  - destruct xs as [|y xs']; [cbn in Hdeep; lia|].
    rewrite join_map_cons2, <- app_assoc. cbn [app parse_elems].
    rewrite Hx by (done || lia). simpl. apply IH; (done || lia).
Qed.

Lemma parse_members_deep kvs acc fuel depth rest :
  Forall (fun kv => rejects kv.2) kvs -> Forall (fun kv => parses kv.2) kvs ->
  forallb (fun '(k, x) => str_ok k && wf_jval x) kvs = true ->
  (sum_list_with (fun '(_, x) => S (cost x)) kvs <= fuel)%nat ->
  (depth <= maxNestingDepth)%nat -> (maxNestingDepth < depth + max_list_with (fun '(_, x) => nesting x) kvs)%nat ->
  depth_error (parse_members fuel depth (join_with ","%char (map print_member kvs) ++ "}"%char :: rest) acc).
Proof.
  revert acc fuel. induction kvs as [|[k x] kvs IH]; intros acc fuel Hrej Hall Hwf Hcost Hd Hdeep;
    [cbn in Hdeep; lia|].
  apply Forall_cons in Hrej as [Rx Hrej]. apply Forall_cons in Hall as [Hx Hall]. simpl in Rx, Hx, Hwf.
  apply andb_prop in Hwf as [[Hk Hwx]%andb_prop Hwxs]. rewrite max_list_with_cons in Hdeep.
  destruct fuel as [|f]; [simpl in Hcost; lia|]. simpl in Hcost.
  destruct (decide (maxNestingDepth < depth + nesting x)%nat).
  - destruct kvs as [|kv' kvs'];
      [rewrite map_cons, join_with_one|rewrite join_map_cons2, <- app_assoc]; cbn [print_member app parse_members];
      rewrite byte_is_34, <- app_assoc; cbn [app]; rewrite str_ok_app by done; simpl;
      apply depth_error_bind, Rx; (done || lia).
  - destruct kvs as [|[k' y] kvs']; [cbn in Hdeep; lia|].
    rewrite join_map_cons2, <- app_assoc. cbn [app].
    remember (join_with ","%char (map print_member ((k', y) :: kvs')) ++ "}"%char :: rest) as R eqn:HR.
    assert (Hskip : skip_ws R = R) by (rewrite HR; apply skip_ws_members).
    cbn [print_member app parse_members].
    rewrite byte_is_34, <- app_assoc. cbn [app]. rewrite str_ok_app by done. simpl.
    rewrite Hx by (done || lia). simpl. rewrite Hskip. subst R. apply IH; (done || lia).
Qed.

(** The scanner fails with [exceeded max depth] on every value nested
    deeper than [maxNestingDepth], whatever follows it. *)
Lemma parse_deep v : rejects v.
Proof.
  induction v as [| | |lex|raw|xs IH|kvs IH] using JVal_ind';
    intros fuel depth rest Hwf Hc Hd Hdeep; cbn [nesting] in Hdeep; try lia;
    destruct fuel as [|f]; try (simpl in Hc; lia).
  - destruct (decide (maxNestingDepth < S depth)%nat).
    { cbn [print_jval app parse_value skip_ws]. rewrite push_ok_false by done. simpl. by eexists; split; [left|]. }
    destruct xs as [|x xs']; [cbn in Hdeep; lia|]. simpl in Hwf, Hc.
    assert (Hp : Forall parses (x :: xs')) by (apply Forall_forall; intros; apply parse_print).
    apply andb_prop in Hwf as [Hwx Hwxs].
    cbn [print_jval]. cbn [app]. rewrite <- app_assoc. cbn [app].
    destruct (elems_join_head x xs' ("]"%char :: rest) Hwx) as (c & t & Ht & Hws & H93).
    rewrite Ht. simpl. rewrite push_ok_true by lia. rewrite Hws. simpl. rewrite H93, <- Ht.
    apply parse_elems_deep; [done|done|simpl; by rewrite Hwx|simpl; lia|lia|lia].
  - destruct (decide (maxNestingDepth < S depth)%nat).
    { cbn [print_jval app parse_value skip_ws]. rewrite push_ok_false by done. simpl. by eexists; split; [right|]. }
    destruct kvs as [|[k x] kvs']; [cbn in Hdeep; lia|].
    assert (Hp : Forall (fun kv => parses kv.2) ((k, x) :: kvs'))
      by (apply Forall_forall; intros; apply parse_print).
    cbn [print_jval]. cbn [app]. rewrite <- app_assoc. cbn [app].
    change (map (fun '(k, x) => "034"%char :: k ++ "034"%char :: ":"%char :: print_jval x))
      with (map print_member).
    destruct (member_join_head (k, x) kvs' ("}"%char :: rest)) as (t & Ht).
    rewrite Ht. simpl. rewrite push_ok_true by lia. rewrite <- Ht.
    apply parse_members_deep; [done|done|done| |lia|lia]. simpl in Hc |- *. lia.
Qed.

Lemma json_parse_deep v :
  wf_jval v = true -> (maxNestingDepth < nesting v)%nat -> depth_error (json_parse (print_jval v)).
Proof.
  intros Hwf Hn. unfold json_parse.
  pose proof (parse_deep v (S (2 * length (print_jval v))) 0%nat [] Hwf) as H.
  rewrite app_nil_r in H. apply depth_error_bind, H; [|lia|lia].
  pose proof (cost_le_length v Hwf). lia.
Qed.

(** ** The fuel is never exhausted

    Every value the scanner reads takes at least one byte of the input,
    and every element or member two units of fuel, so [2 * length s + 1]
    units never run out: [json_parse] never reports the model's own
    exhaustion. *)

Lemma skip_ws_length s : (length (skip_ws s) <= length s)%nat.
Proof. induction s as [|c s IH]; simpl; [lia|]. case_match; simpl; lia. Qed.

Lemma scan_string_length s acc k r : scan_string s acc = Ok (k, r) -> (length r < length s)%nat.
Proof.
  revert acc. induction s as [s IH] using (well_founded_ind (well_founded_ltof _ (@length ascii))).
  unfold ltof in IH. intros acc H. destruct s as [|c s']; [done|]. cbn [scan_string] in H.
  repeat (case_match; simplify_eq/=; try done; try by apply hex_error_not_ok in H);
    try match goal with H : scan_string ?t _ = Ok _ |- _ => apply IH in H end; simpl in *; lia.
Qed.

Lemma span_digits_length s : (length (snd (span_digits s)) <= length s)%nat.
Proof. induction s as [|c s IH]; simpl; [lia|]. repeat case_match; simplify_eq/=; lia. Qed.

Lemma scan_number_length s lex r : scan_number s = Ok (lex, r) -> (length r < length s)%nat.
Proof.
  unfold scan_number, scan_sign, scan_int, scan_frac, scan_exp, nonempty_digits, syntax_error. intros H.
  repeat (case_match; simplify_eq/=; try done);
  repeat match goal with H : span_digits ?t = _ |- _ =>
    let E := fresh in pose proof (span_digits_length t) as E; rewrite H in E; simpl in E; clear H end;
  simpl in *; lia.
Qed.

Lemma scan_literal_length name lit s r : scan_literal name lit s = Ok r -> (length r <= length s)%nat.
Proof.
  revert s. induction lit as [|x lit IH]; intros s H; cbn [scan_literal] in H; [simplify_eq; lia|].
  destruct s as [|c s]; [done|]. case_decide; [|done]. apply IH in H. simpl. lia.
Qed.

#[local] Ltac lengths :=
  repeat match goal with
  | H : skip_ws ?t = _ |- _ =>
      let E := fresh in pose proof (skip_ws_length t) as E; rewrite H in E; simpl in E; revert H
  | H : scan_string ?t ?a = Ok _ |- _ => apply scan_string_length in H as ?E; revert H
  | H : scan_number ?t = Ok _ |- _ => apply scan_number_length in H as ?E; revert H
  | H : scan_literal ?n ?l ?t = Ok _ |- _ => apply scan_literal_length in H as ?E; revert H
  end; intros.

#[local] Ltac ws_lengths :=
  repeat match goal with
  | H : context [skip_ws ?t] |- _ =>
      lazymatch goal with
      | _ : (length (skip_ws t) <= length t)%nat |- _ => fail
      | _ => pose proof (skip_ws_length t)
      end
  | |- context [skip_ws ?t] =>
      lazymatch goal with
      | _ : (length (skip_ws t) <= length t)%nat |- _ => fail
      | _ => pose proof (skip_ws_length t)
      end
  end.

(** Case analysis on the scanner's branches and on each result it binds. *)
#[local] Ltac split_cases :=
  repeat (first
    [ match goal with H : ?m ≫= _ = _ |- _ =>
        destruct m as [[? ?]| |] eqn:?; cbn beta iota delta [mbind outcome_bind] in H end
    | case_match ]; simplify_eq/=; try done).

(** What the scanner reads is a part of its input. *)
Definition consumes_at (f : nat) : Prop :=
  (forall d s v r, parse_value f d s = Ok (v, r) -> (length r < length s)%nat) /\
  (forall d s acc v r, parse_elems f d s acc = Ok (v, r) -> (length r < length s)%nat) /\
  (forall d s acc v r, parse_members f d s acc = Ok (v, r) -> (length r < length s)%nat).

Lemma parse_consumes f : consumes_at f.
Proof.
  induction f as [|f (IHv & IHe & IHm)]; [repeat split; intros; done|].
  refine (conj _ (conj _ _)); intros d s; [intros v r|intros acc v r|intros acc v r]; intros H;
    cbn [parse_value parse_elems parse_members] in H;
    split_cases; lengths;
    repeat match goal with
      | H : parse_value _ _ _ = Ok _ |- _ => apply IHv in H
      | H : parse_elems _ _ _ _ = Ok _ |- _ => apply IHe in H
      | H : parse_members _ _ _ _ = Ok _ |- _ => apply IHm in H end;
    ws_lengths; cbn [length] in *; lia.
Qed.

(** The scanner's stages only fail with a syntax error. *)
Lemma scan_string_no_panic s acc p : scan_string s acc <> Panic p.
Proof.
  revert acc. induction s as [s IH] using (well_founded_ind (well_founded_ltof _ (@length ascii))).
  unfold ltof in IH. intros acc. destruct s as [|c s']; [done|]. cbn [scan_string].
  repeat case_match; try done; try (apply IH; simpl; lia); unfold hex_error; by case_match.
Qed.

Lemma scan_number_no_panic s p : scan_number s <> Panic p.
Proof.
  unfold scan_number, scan_sign, scan_int, scan_frac, scan_exp, nonempty_digits, syntax_error.
  by repeat (case_match; simplify_eq/=).
Qed.

Lemma scan_literal_no_panic name lit s p : scan_literal name lit s <> Panic p.
Proof.
  revert s. induction lit as [|x lit IH]; intros [|c s]; cbn [scan_literal]; try done.
  case_decide; [apply IH|done].
Qed.

Definition no_panic_at (f : nat) : Prop :=
  (forall d s p, (2 * length s < f)%nat -> parse_value f d s <> Panic p) /\
  (forall d s acc p, (2 * length s + 2 <= f)%nat -> parse_elems f d s acc <> Panic p) /\
  (forall d s acc p, (2 * length s + 2 <= f)%nat -> parse_members f d s acc <> Panic p).

Lemma parse_no_panic f : no_panic_at f.
Proof.
  induction f as [|f (IHv & IHe & IHm)]; [repeat split; intros; lia|].
  refine (conj _ (conj _ _)); intros d s; [intros p|intros acc p|intros acc p]; intros Hf H;
    cbn [parse_value parse_elems parse_members] in H;
    split_cases; lengths;
    repeat match goal with
      | H : parse_value _ _ _ = Ok _ |- _ => apply (proj1 (parse_consumes _)) in H
      | H : scan_string _ _ = Panic _ |- _ => by apply scan_string_no_panic in H
      | H : scan_number _ = Panic _ |- _ => by apply scan_number_no_panic in H
      | H : scan_literal _ _ _ = Panic _ |- _ => by apply scan_literal_no_panic in H
      | H : parse_value _ _ _ = Panic _ |- _ => revert H; apply IHv
      | H : parse_elems _ _ _ _ = Panic _ |- _ => revert H; apply IHe
      | H : parse_members _ _ _ _ = Panic _ |- _ => revert H; apply IHm end;
    ws_lengths; cbn [length] in *; lia.
Qed.

Lemma json_parse_no_panic s p : json_parse s <> Panic p.
Proof.
  unfold json_parse. destruct (parse_value _ 0%nat s) as [[v r]| |] eqn:E; cbn; try done.
  - by case_match.
  - intros [= ->]. revert E. apply (proj1 (parse_no_panic _)). lia.
Qed.

(** ** A truncated document is rejected

    What the scanner found in [s] it finds in [s ++ q] with as much
    fuel or more, unless the value is a number that [q] could continue. *)

Lemma span_digits_ext s q ds r :
  span_digits s = (ds, r) -> r <> [] -> span_digits (s ++ q) = (ds, r ++ q).
Proof.
  revert ds r. induction s as [|c s IH]; intros ds r H Hr; cbn in H |- *; [by simplify_eq|].
  destruct (is_digit c); [|by simplify_eq].
  destruct (span_digits s) as [ds' r'] eqn:E. simplify_eq. by rewrite (IH ds' r).
Qed.

Lemma nonempty_digits_ext ctx s q ds r :
  nonempty_digits ctx s = Ok (ds, r) -> r <> [] -> nonempty_digits ctx (s ++ q) = Ok (ds, r ++ q).
Proof.
  destruct s as [|c s]; [done|]. cbn [nonempty_digits app]. destruct (is_digit c); [|done].
  destruct (span_digits s) as [ds' r'] eqn:E. intros [= <- <-] Hr. by rewrite (span_digits_ext _ _ _ _ E Hr).
Qed.

Definition stage_ext_ne (f : bytes -> outcome (bytes * bytes)) : Prop :=
  forall s q x r, f s = Ok (x, r) -> r <> [] -> f (s ++ q) = Ok (x, r ++ q).

Lemma scan_int_ext_ne : stage_ext_ne scan_int.
Proof.
  intros [|c s] q x r H Hr; [done|]. cbn [scan_int app] in *.
  destruct (byte_is c 48); [by simplify_eq|]. destruct (is_digit c); [|done].
  destruct (span_digits s) as [ds r'] eqn:E. simplify_eq. by rewrite (span_digits_ext _ _ _ _ E Hr).
Qed.

Lemma scan_frac_ext_ne : stage_ext_ne scan_frac.
Proof.
  intros [|c s] q x r H Hr; cbn [scan_frac app] in *; [by simplify_eq|].
  destruct (byte_is c 46); [|by simplify_eq].
  destruct (nonempty_digits _ s) as [[ds r']| |] eqn:E; cbn in H; simplify_eq; try done.
  by rewrite (nonempty_digits_ext _ _ _ _ _ E Hr).
Qed.

Lemma scan_exp_ext_ne : stage_ext_ne scan_exp.
Proof.
  intros [|c s] q x r H Hr; cbn [scan_exp app] in *; [by simplify_eq|].
  destruct (byte_is c 101 || byte_is c 69); [|by simplify_eq].
  destruct s as [|d s]; cbn [app] in *; [done|].
  destruct (byte_is d 43 || byte_is d 45);
    [destruct (nonempty_digits _ s) as [[ds r']| |] eqn:E
    |destruct (nonempty_digits _ (d :: s)) as [[ds r']| |] eqn:E]; cbn -[nonempty_digits] in H;
    simplify_eq; try done.
  - by rewrite (nonempty_digits_ext _ _ _ _ _ E Hr).
  - change (d :: s ++ q) with ((d :: s) ++ q). by rewrite (nonempty_digits_ext _ _ _ _ _ E Hr).
Qed.

Lemma scan_number_ext_ne : stage_ext_ne scan_number.
Proof.
  intros s q lex r H Hr. destruct s as [|c s]; [done|]. unfold scan_number in *.
  assert (Hs : scan_sign ((c :: s) ++ q) = (fst (scan_sign (c :: s)), snd (scan_sign (c :: s)) ++ q))
    by (cbn; by destruct (byte_is c 45)).
  rewrite Hs. destruct (scan_sign (c :: s)) as [sg s1]. cbn [fst snd] in *.
  destruct (scan_int s1) as [[ip s2]| |] eqn:E1; cbn in H; try done.
  destruct (scan_frac s2) as [[fp s3]| |] eqn:E2; cbn in H; try done.
  destruct (scan_exp s3) as [[ep s4]| |] eqn:E3; cbn in H; try done. simplify_eq.
  assert (s3 <> []) by (intros ->; cbn in E3; by simplify_eq).
  assert (s2 <> []) by (intros ->; cbn in E2; simplify_eq; cbn in E3; by simplify_eq).
  rewrite (scan_int_ext_ne _ _ _ _ E1) by done. cbn.
  rewrite (scan_frac_ext_ne _ _ _ _ E2) by done. cbn.
  by rewrite (scan_exp_ext_ne _ _ _ _ E3).
Qed.

Lemma scan_literal_ext name lit s q r : scan_literal name lit s = Ok r -> scan_literal name lit (s ++ q) = Ok (r ++ q).
Proof.
  revert s. induction lit as [|x lit IH]; intros s H; cbn [scan_literal] in *; [by simplify_eq|].
  destruct s as [|c s]; [done|]. cbn [app]. case_decide; [by apply IH|done].
Qed.

Lemma skip_ws_ext s q : skip_ws s <> [] -> skip_ws (s ++ q) = skip_ws s ++ q.
Proof. induction s as [|c s IH]; [done|]. cbn. case_match; [apply IH|done]. Qed.

Lemma parse_members_nil f d acc x : parse_members f d [] acc <> Ok x.
Proof. by destruct f. Qed.

(** The first byte of a value is no number's. *)
Definition no_num_start (s : bytes) : Prop :=
  forall c t, skip_ws s = c :: t -> (byte_is c 45 || is_digit c) = false.

Definition ext_at (f : nat) : Prop :=
  (forall d s q v r g, (f <= g)%nat -> parse_value f d s = Ok (v, r) -> (r <> [] \/ no_num_start s) ->
     parse_value g d (s ++ q) = Ok (v, r ++ q)) /\
  (forall d s q acc v r g, (f <= g)%nat -> parse_elems f d s acc = Ok (v, r) ->
     parse_elems g d (s ++ q) acc = Ok (v, r ++ q)) /\
  (forall d s q acc v r g, (f <= g)%nat -> parse_members f d s acc = Ok (v, r) ->
     parse_members g d (s ++ q) acc = Ok (v, r ++ q)).

Lemma parse_ext f : ext_at f.
Proof.
  induction f as [|f (IHv & IHe & IHm)]; [repeat split; intros; done|].
  refine (conj _ (conj _ _)).
  - intros d s q v r [|g] Hg H Hr; [lia|]. cbn [parse_value] in H |- *.
    destruct (skip_ws s) as [|c r0] eqn:Ew; [done|]. rewrite skip_ws_ext, Ew by (by rewrite Ew). cbn [app].
    destruct (byte_is c 123).
    { destruct (push_ok d); [|done]. destruct (skip_ws r0) as [|e r1] eqn:E0; [done|].
      rewrite skip_ws_ext, E0 by (by rewrite E0). cbn [app].
      destruct (byte_is e 125); [by simplify_eq|]. try rewrite E0 in H.
      change (e :: r1 ++ q) with ((e :: r1) ++ q). eapply IHm; [lia|done]. }
    destruct (byte_is c 91).
    { destruct (push_ok d); [|done]. destruct (skip_ws r0) as [|e r1] eqn:E0; [done|].
      rewrite skip_ws_ext, E0 by (by rewrite E0). cbn [app].
      destruct (byte_is e 93); [by simplify_eq|]. eapply IHe; [lia|done]. }
    destruct (byte_is c 34).
    { destruct (scan_string r0 []) as [[raw r']| |] eqn:E; cbn in H; simplify_eq; try done.
      by rewrite (scan_string_app _ _ _ _ _ E). }
    destruct (byte_is c 45 || is_digit c) eqn:Hn.
    { destruct (scan_number (c :: r0)) as [[lex r']| |] eqn:E; cbn in H; simplify_eq; try done.
      destruct Hr as [Hr|Hr]; [|by rewrite (Hr c r0 Ew) in Hn].
      change (c :: r0 ++ q) with ((c :: r0) ++ q). by rewrite (scan_number_ext_ne _ _ _ _ E Hr). }
    repeat match goal with |- context [if byte_is c ?k then _ else _] =>
      destruct (byte_is c k); [|] end; try done;
    match goal with H : (scan_literal ?n ?l ?t ≫= _) = _ |- _ =>
      destruct (scan_literal n l t) as [r'| |] eqn:E; cbn in H; simplify_eq; try done;
      by rewrite (scan_literal_ext _ _ _ _ _ E) end.
  - intros d s q acc v r [|g] Hg H; [lia|]. cbn [parse_elems] in H |- *.
    destruct (parse_value f d s) as [[x r1]| |] eqn:E; cbn in H; try done.
    destruct (skip_ws r1) as [|e r2] eqn:E1; [done|].
    rewrite (IHv d s q x r1 g ltac:(lia) E) by (left; by intros ->). cbn.
    rewrite skip_ws_ext, E1 by (by rewrite E1). cbn [app].
    destruct (byte_is e 44); [eapply IHe; [lia|done]|].
    destruct (byte_is e 93); by simplify_eq.
  - intros d s q acc v r [|g] Hg H; [lia|]. cbn [parse_members] in H |- *.
    destruct s as [|c s]; [done|]. cbn [app]. destruct (byte_is c 34); [|done].
    destruct (scan_string s []) as [[k r1]| |] eqn:E; cbn in H; try done.
    rewrite (scan_string_app _ _ _ _ _ E). cbn.
    destruct (skip_ws r1) as [|e r2] eqn:E1; [done|].
    rewrite skip_ws_ext, E1 by (by rewrite E1). cbn [app]. destruct (byte_is e 58); [|done].
    destruct (parse_value f d r2) as [[x r3]| |] eqn:E2; cbn in H; try done.
    destruct (skip_ws r3) as [|e' r4] eqn:E3; [done|].
    rewrite (IHv d r2 q x r3 g ltac:(lia) E2) by (left; by intros ->). cbn.
    rewrite skip_ws_ext, E3 by (by rewrite E3). cbn [app].
    destruct (byte_is e' 44); [|destruct (byte_is e' 125); by simplify_eq].
    destruct (skip_ws r4) as [|e'' r5] eqn:E4; [by apply parse_members_nil in H|].
    rewrite skip_ws_ext, E4 by (by rewrite E4). try rewrite E4 in H.
    change (e'' :: r5 ++ q) with ((e'' :: r5) ++ q). eapply IHm; [lia|done].
Qed.

(** An array or an object. *)
Definition is_container (v : JVal) : bool := match v with JArr _ | JObj _ => true | _ => false end.

Lemma json_parse_prefix v k :
  wf_jval v = true -> is_container v = true -> (k < length (print_jval v))%nat ->
  forall x, json_parse (take k (print_jval v)) <> Ok x.
Proof.
  intros Hwf Hc Hk x H. set (P := print_jval v) in *.
  unfold json_parse in H.
  destruct (parse_value _ 0%nat (take k P)) as [[x' r]| |] eqn:E; cbn in H; try done.
  assert (Hs : no_num_start (take k P)).
  { intros c t Ht. destruct k as [|k]; [done|].
    destruct v as [| | | | |xs|kvs]; try done; cbn in Ht; by injection Ht as <-. }
  pose (g := Nat.max (S (2 * length (take k P))) (cost v)).
  assert (Hg1 : (S (2 * length (take k P)) <= g)%nat) by apply Nat.le_max_l.
  assert (Hg2 : (cost v <= g)%nat) by apply Nat.le_max_r. clearbody g.
  pose proof (proj1 (parse_ext (S (2 * length (take k P)))) 0%nat (take k P) (drop k P) x' r g ltac:(lia) E (or_intror Hs)) as Hx.
  rewrite take_drop in Hx.
  destruct (decide (nesting v <= maxNestingDepth)%nat).
  - pose proof (parse_print v g 0%nat [] Hwf ltac:(lia) ltac:(lia) eq_refl) as Hp.
    rewrite app_nil_r in Hp. fold P in Hp. rewrite Hp in Hx. injection Hx as _ Hx.
    apply (f_equal length) in Hx. rewrite length_app, length_drop in Hx. cbn in Hx. lia.
  - destruct (parse_deep v g 0%nat [] Hwf ltac:(lia) ltac:(lia) ltac:(lia)) as (c & _ & Hd).
    rewrite app_nil_r in Hd. fold P in Hd. by rewrite Hd in Hx.
Qed.

(** ** Properties *)

(** C7. Round trip of the JSON syntax: [checkValid] of [json.Unmarshal]
    (its scanner, [json_parse]) reads every well-formed value nested at
    most [maxNestingDepth] deep back from its printed text. *)
Theorem json_parse_print v :
  wf_jval v = true -> (nesting v <= maxNestingDepth)%nat -> json_parse (print_jval v) = Ok v.
Proof. apply parse_document. Qed.

(** C16. Error behaviour of the scanner: a well-formed value nested more
    than [maxNestingDepth] deep is rejected with Go's error
    [invalid character '[' exceeded max depth] (or ['{']). *)
Theorem json_parse_too_deep v :
  wf_jval v = true -> (maxNestingDepth < nesting v)%nat ->
  exists c, (c = "["%char \/ c = "{"%char) /\
    json_parse (print_jval v) = Err ("invalid character " +:+ quote_char c +:+ " exceeded max depth").
Proof. apply json_parse_deep. Qed.

(** C17. Safety of the scanner on a truncated payload: every proper
    prefix of the text of a well-formed array or object (a Lambda reply
    cut short) is rejected with a syntax error, never read as a shorter
    value. *)
Theorem json_parse_truncated v k :
  wf_jval v = true -> is_container v = true -> (k < length (print_jval v))%nat ->
  exists e, json_parse (take k (print_jval v)) = Err e.
Proof.
  intros Hwf Hc Hk. destruct (json_parse _) as [x|e|p] eqn:E.
  - by destruct (json_parse_prefix v k Hwf Hc Hk x).
  - by exists e.
  - by destruct (json_parse_no_panic _ _ E).
Qed.

(** ** Witnesses *)

Lemma json_parse_print_witness :
  json_parse (print_jval (JArr [JNum (bs "-1.5e3"); JStr (bs "a\né"); JObj [(bs "k", JNull)]]))
  = Ok (JArr [JNum (bs "-1.5e3"); JStr (bs "a\né"); JObj [(bs "k", JNull)]]).
Proof. apply json_parse_print; vm_compute; [reflexivity|lia]. Defined.

(** An array nested [n] deep around [null]. *)
Definition nested_array (n : nat) : JVal := Nat.iter n (fun v => JArr [v]) JNull.

Lemma json_parse_too_deep_witness :
  exists c, (c = "["%char \/ c = "{"%char) /\
    json_parse (print_jval (nested_array 10001)) =
      Err ("invalid character " +:+ quote_char c +:+ " exceeded max depth").
Proof. apply json_parse_too_deep; vm_compute; [reflexivity|lia]. Defined.

Lemma json_parse_truncated_witness :
  json_parse (take 8 (print_jval (JArr [JObj [(bs "t", JNum (bs "12"))]]))) =
    Err "unexpected end of JSON input".
Proof.
  destruct (json_parse_truncated (JArr [JObj [(bs "t", JNum (bs "12"))]]) 8) as [e He];
    [reflexivity|reflexivity|vm_compute; lia|].
  rewrite He. vm_compute in He. by symmetry.
Defined.

End JsonParse.
