(* ===== verification/JsonString.v ===== *)
(** * Go's unquoting of JSON strings, and its round trip with the encoder

    The decoder of [json.Unmarshal] (line 96 of [src/main.go]) turns the
    contents of a JSON string into bytes with [unquoteBytes]
    ([encoding/json/decode.go]): one-byte escapes, [\uXXXX] escapes
    (a high surrogate followed by a [\u] low surrogate making one rune,
    any other surrogate U+FFFD), ASCII bytes as they are, and every other
    rune decoded by [utf8.DecodeRune] and re-encoded by
    [utf8.EncodeRune], so an invalid byte becomes U+FFFD.  [unquote_unit]
    is one iteration of its loop; [unquote] the loop.

    The main theorem relates it to the encoder of [Json]: unquoting what
    [encodeState.string] writes gives back the string with each invalid
    byte replaced by U+FFFD ([sanitize], Go's [string([]rune(s))]), and
    the string itself when it is valid UTF-8. *)

From S2P Require Import Prelude Utf8 Json JsonParse.

Module JsonString.

Import Utf8 Json JsonParse.
Open Scope Z_scope.

(** ** [unquoteBytes] *)

Definition hex_val (c : ascii) : Z :=
  let v := byte_val c in
  if in_range 48 57 c then v - 48 else if in_range 65 70 c then v - 55 else v - 87.

(** [getu4]: the value of four hex digits. *)
Definition getu4 (s : bytes) : option Z :=
  match s with
  | h1 :: h2 :: h3 :: h4 :: _ =>
      if is_hex h1 && is_hex h2 && is_hex h3 && is_hex h4
      then Some (((hex_val h1 * 16 + hex_val h2) * 16 + hex_val h3) * 16 + hex_val h4)
      else None
  | _ => None
  end.

(** The rune of a [\u] escape, given the bytes after [\u], and how many
    of them it takes: four, or ten when a high surrogate is followed by
    the [\u] escape of a low one. *)
Definition unicode_escape (s : bytes) : option (Z * nat) :=
  rr ← getu4 s;
  if (55296 <=? rr) && (rr <? 57344) then
    let dec := match drop 4 s with
               | b :: u :: s' =>
                   if byte_is b 92 && byte_is u 117
                   then default RuneError (decode_surrogates rr <$> getu4 s')
                   else RuneError
               | _ => RuneError
               end in
    if dec =? RuneError then Some (RuneError, 4%nat) else Some (dec, 10%nat)
  else Some (rr, 4%nat).

(** The byte of a one-byte escape [\e]. *)
Definition simple_escape (e : ascii) : option ascii :=
  let v := byte_val e in
  if (v =? 34) || (v =? 92) || (v =? 47) || (v =? 39) then Some e
  else if v =? 98 then Some (byte_of 8)
  else if v =? 102 then Some (byte_of 12)
  else if v =? 110 then Some (byte_of 10)
  else if v =? 114 then Some (byte_of 13)
  else if v =? 116 then Some (byte_of 9)
  else None.

(** One iteration of the loop [for r < len(s)]: the bytes written and
    the bytes read.  A malformed escape, a quote or a control byte makes
    [unquoteBytes] give up; the scanner of [JsonParse] has excluded
    them, and the model then writes nothing more. *)
Definition unquote_unit (s : bytes) : bytes * nat :=
  match s with
  | [] => ([], 0%nat)
  | c :: s' =>
      if byte_is c 92 then
        match s' with
        | e :: s'' =>
            match simple_escape e with
            | Some b => ([b], 2%nat)
            | None =>
                if byte_is e 117 then
                  match unicode_escape s'' with
                  | Some (r, n) => (encode_rune r, (2 + n)%nat)
                  | None => ([], length s)
                  end
                else ([], length s)
            end
        | [] => ([], 1%nat)
        end
      else if byte_is c 34 || (byte_val c <? 32) then ([], length s)
      else if byte_val c <? 128 then ([c], 1%nat)
      else let '(rr, size) := decode_rune s in (encode_rune rr, size)
  end.

Definition unquote (s : bytes) : bytes := run_units unquote_unit (length s) s.

(** ** The unquoting of the encoder's output *)

Lemma unquote_ascii_unit b t :
  byte_val b < 128 ->
  let o := if html_safe b then [b] else "\"%char :: escape_ascii b in
  unquote_unit (o ++ t) = ([b], length o).
Proof.
  intros H. destruct b as [[] [] [] [] [] [] [] []];
    vm_compute in H; try discriminate H; vm_compute; reflexivity.
Qed.

Lemma unquote_unit_size s : s <> [] -> (1 <= snd (unquote_unit s))%nat.
Proof.
  destruct s as [|c s]; [done|]. intros _. unfold unquote_unit.
  pose proof (decode_rune_size c s).
  repeat case_match; simplify_eq/=; lia.
Qed.

Lemma rune_unit_unit_out s : snd (rune_unit s) = snd (unit_out s).
Proof. destruct s as [|c s]; [done|]. unfold rune_unit, unit_out. by repeat case_match. Qed.

(** What the encoder writes for one unit, the decoder reads back as one
    unit: the rune re-encoded. *)
Lemma unquote_unit_out s t :
  s <> [] -> unquote_unit (fst (unit_out s) ++ t) = (fst (rune_unit s), length (fst (unit_out s))).
Proof.
  destruct s as [|b rest]; [done|]. intros _. unfold unit_out, rune_unit.
  destruct (Z.ltb_spec (byte_val b) 128) as [Hb|Hb].
  { by apply unquote_ascii_unit. }
  pose proof (decode_rune_size b rest) as Hs.
  destruct (decode_rune (b :: rest)) as [c size] eqn:D. simpl in Hs.
  assert (Hp := decode_rune_prefix b rest t c size D).
  destruct ((c =? RuneError) && (size =? 1)%nat) eqn:E1.
  { apply andb_prop in E1 as [E1 E2]. apply Z.eqb_eq in E1. apply Nat.eqb_eq in E2.
    subst. reflexivity. }
  destruct ((c =? 8232) || (c =? 8233)) eqn:E2.
  { apply orb_prop in E2 as [E2|E2]; apply Z.eqb_eq in E2; subst; reflexivity. }
  destruct size as [|size]; [lia|]. cbn [fst take app] in *.
  cbn [unquote_unit]. unfold byte_is.
  replace (byte_val b =? 92) with false by lia.
  replace (byte_val b =? 34) with false by lia.
  replace (byte_val b <? 32) with false by lia.
  replace (byte_val b <? 128) with false by lia. cbn -[decode_rune].
  rewrite Hp by (intros [= -> ->]; by rewrite Z.eqb_refl in E1).
  rewrite length_take. f_equal. lia.
Qed.

Lemma unit_out_nonempty s : s <> [] -> fst (unit_out s) <> [].
Proof.
  destruct s as [|b rest]; [done|]. intros _. unfold unit_out.
  pose proof (decode_rune_size b rest).
  repeat case_match; simplify_eq/=; try done.
  match goal with |- take ?n _ <> [] => destruct n; [simpl in *; lia | done] end.
Qed.

(** The round trip, unit by unit. *)
Lemma unquote_escape_sanitize s : unquote (escape s) = sanitize s.
Proof.
  induction s as [s IH] using (well_founded_ind (well_founded_ltof _ (@length ascii))).
  unfold ltof in IH. destruct s as [|b rest]; [done|].
  assert (Hs := unit_out_size (b :: rest) ltac:(done)).
  rewrite escape_unfold by done. unfold unquote.
  rewrite (run_units_app unquote_unit unquote_unit_size _ _ (fst (rune_unit (b :: rest))));
    [| by apply unit_out_nonempty | by apply unquote_unit_out].
  fold (unquote (escape (drop (snd (unit_out (b :: rest))) (b :: rest)))).
  rewrite IH by (rewrite length_drop; lia).
  unfold sanitize. rewrite (run_units_unfold rune_unit rune_unit_size (b :: rest)) by done.
  by rewrite rune_unit_unit_out.
Qed.

(** C8. Round trip of strings through the JSON encoder and decoder:
    [unquoteBytes] applied to what [encodeState.string] writes (HTML
    escapes, [\u00XX], the escape of U+FFFD for an invalid byte, those
    of U+2028 and U+2029) gives Go's
    [string([]rune(s))], the string with each invalid byte replaced by
    U+FFFD. *)
Theorem unquote_escape s : unquote (escape s) = sanitize s.
Proof. apply unquote_escape_sanitize. Qed.

(** ** The string scanner passes over the encoder's output *)

Lemma scan_string_high l t acc :
  Forall (fun b => 128 <= byte_val b) l -> scan_string (l ++ t) acc = scan_string t (rev l ++ acc).
Proof.
  intros Hl. revert acc. induction Hl as [|b l Hb Hl IH]; intros acc; [done|].
  cbn [app scan_string]. unfold byte_is.
  replace (byte_val b =? 34) with false by lia. replace (byte_val b =? 92) with false by lia.
  replace (byte_val b <? 32) with false by lia. rewrite IH. simpl. by rewrite <- app_assoc.
Qed.

Lemma scan_ascii_unit b t acc :
  byte_val b < 128 ->
  let o := if html_safe b then [b] else "\"%char :: escape_ascii b in
  scan_string (o ++ t) acc = scan_string t (rev o ++ acc).
Proof.
  intros H. destruct b as [[] [] [] [] [] [] [] []];
    vm_compute in H; try discriminate H; reflexivity.
Qed.

(** The string scanner passes over what the encoder writes for one unit. *)
Lemma scan_unit_out s t acc :
  s <> [] -> scan_string (fst (unit_out s) ++ t) acc = scan_string t (rev (fst (unit_out s)) ++ acc).
Proof.
  destruct s as [|b rest]; [done|]. intros _. unfold unit_out.
  destruct (Z.ltb_spec (byte_val b) 128) as [Hb|Hb]; [by apply scan_ascii_unit|].
  destruct (decode_rune (b :: rest)) as [c size] eqn:D.
  destruct ((c =? RuneError) && (size =? 1)%nat) eqn:E1; [reflexivity|].
  destruct ((c =? 8232) || (c =? 8233)) eqn:E2.
  { apply orb_prop in E2 as [E2|E2]; apply Z.eqb_eq in E2; subst; reflexivity. }
  apply scan_string_high, (decode_rune_high b rest c size D); [|lia].
  intros [= -> ->]. by rewrite Z.eqb_refl in E1.
Qed.

Lemma scan_string_escape s t acc :
  scan_string (escape s ++ t) acc = scan_string t (rev (escape s) ++ acc).
Proof.
  revert acc. induction s as [s IH] using (well_founded_ind (well_founded_ltof _ (@length ascii))).
  unfold ltof in IH. intros acc. destruct s as [|b rest]; [done|].
  assert (Hs := unit_out_size (b :: rest) ltac:(done)).
  rewrite escape_unfold by done. rewrite <- app_assoc, scan_unit_out by done.
  rewrite IH by (rewrite length_drop; lia). by rewrite rev_app_distr, <- app_assoc.
Qed.

(** What the encoder writes is the contents of a JSON string. *)
Lemma str_ok_escape s : str_ok (escape s) = true.
Proof.
  unfold str_ok. apply bool_decide_eq_true. rewrite scan_string_escape.
  simpl. by rewrite app_nil_r, rev_involutive.
Qed.

End JsonString.
