(* ===== verification/Rfc3339.v ===== *)
(** * [time.Time.Format(time.RFC3339)]: the time strings of the payload

    [src/main.go], lines 70-71, writes the query's start and end times
    with the layout ["2006-01-02T15:04:05Z07:00"] in the process's
    location ([time.Unix] returns local times).  [format] follows Go's
    [Time.AppendFormat] for that layout: the local date ([Civil]), the
    clock, and the zone as [Z] or [+hh:mm]/[-hh:mm], each number written
    by Go's [appendInt].  [parse] reads such a string back to Unix
    seconds; the round trip shows that the payload carries the query's
    seconds exactly.  The instance [rfc3339_format] implements the
    [TimeFormat] interface of [TimeConv] that [Backend] uses. *)

From S2P Require Import Prelude Utf8 TimeConv Json Civil.

Module Rfc3339.

Import Utf8 TimeConv Json Civil.
Open Scope Z_scope.

(** The time zone of the process ([time.Local]): the offset east of UTC,
    in seconds, in force at a Unix second. *)
Class Location : Type := { utc_offset : Z -> Z }.

Definition digit (u : Z) : ascii := byte_of (48 + u).

(** The decimal digits of [u > 0], most significant first (the loop of
    [appendInt] that fills the buffer from the end). *)
Fixpoint digits_loop (fuel : nat) (u : Z) (acc : bytes) : bytes :=
  match fuel with
  | O => acc
  | S fuel => if u <=? 0 then acc else digits_loop fuel (u / 10) (digit (u mod 10) :: acc)
  end.

(** [appendInt(b, x, width)] of Go's [time/format.go]: a sign, then the
    digits of [|x|] padded with zeros to [width]; two- and four-digit
    fields take the fast paths of the code.  A 64-bit value has at most
    20 digits, the fuel of the loop. *)
Definition appendInt (x : Z) (width : nat) : bytes :=
  let sign := if x <? 0 then ["-"%char] else [] in
  let u := Z.abs x in
  if (width =? 2)%nat && (u <? 100) then sign ++ [digit (u / 10); digit (u mod 10)]
  else if (width =? 4)%nat && (u <? 10000) then
    sign ++ [digit (u / 1000); digit (u / 100 mod 10); digit (u / 10 mod 10); digit (u mod 10)]
  else
    let ds := if u =? 0 then ["0"%char] else digits_loop 20 u [] in
    sign ++ replicate (width - length ds) "0"%char ++ ds.

(** The [Z07:00] field: [Z] for UTC, else the offset in hours and
    minutes ([zone := offset / 60], truncated as in Go). *)
Definition format_zone (offset : Z) : bytes :=
  if offset =? 0 then ["Z"%char]
  else
    let zone := Z.quot offset 60 in
    let '(sign, zone) := if zone <? 0 then ("-"%char, - zone) else ("+"%char, zone) in
    sign :: appendInt (Z.quot zone 60) 2 ++ [":"%char] ++ appendInt (Z.rem zone 60) 2.

Definition seconds_per_day : Z := 86400.

(** [t.Format(time.RFC3339)] for a time [t] of location [loc]. *)
Definition format `{Location} (t : Time) : bytes :=
  let offset := utc_offset (sec t) in
  let local := sec t + offset in
  let days := local / seconds_per_day in
  let sod := local mod seconds_per_day in
  let '(y, m, d) := civil_from_days days in
  appendInt y 4 ++ ["-"%char] ++ appendInt m 2 ++ ["-"%char] ++ appendInt d 2 ++ ["T"%char] ++
  appendInt (sod / 3600) 2 ++ [":"%char] ++ appendInt (sod mod 3600 / 60) 2 ++ [":"%char] ++
  appendInt (sod mod 60) 2 ++ format_zone offset.

#[export] Instance rfc3339_format `{Location} : TimeFormat :=
  {| format_rfc3339 := fun t => String.string_of_list_ascii (format t) |}.

(** ** Reading an RFC 3339 time back *)

Definition digit_val (c : ascii) : option Z :=
  let v := byte_val c in if (48 <=? v) && (v <=? 57) then Some (v - 48) else None.

Fixpoint digits_val (acc : Z) (s : bytes) : option Z :=
  match s with
  | [] => Some acc
  | c :: s' => match digit_val c with Some v => digits_val (acc * 10 + v) s' | None => None end
  end.

Definition num (s : bytes) : option Z := digits_val 0 s.

(** Unix seconds of [YYYY-MM-DDTHH:MM:SS] followed by [Z] or [+hh:mm]
    or [-hh:mm]. *)
Definition parse (s : bytes) : option Z :=
  match s with
  | y1 :: y2 :: y3 :: y4 :: "-"%char :: m1 :: m2 :: "-"%char :: d1 :: d2 :: "T"%char ::
    h1 :: h2 :: ":"%char :: n1 :: n2 :: ":"%char :: s1 :: s2 :: zone =>
      y ← num [y1; y2; y3; y4]; m ← num [m1; m2]; d ← num [d1; d2];
      hh ← num [h1; h2]; mm ← num [n1; n2]; ss ← num [s1; s2];
      off ← match zone with
             | ["Z"%char] => Some 0
             | [sg; o1; o2; ":"%char; o3; o4] =>
                 oh ← num [o1; o2]; om ← num [o3; o4];
                 if byte_val sg =? 43 then Some ((oh * 60 + om) * 60)
                 else if byte_val sg =? 45 then Some (- ((oh * 60 + om) * 60))
                 else None
             | _ => None
             end;
      Some (days_from_civil y m d * seconds_per_day + hh * 3600 + mm * 60 + ss - off)
  | _ => None
  end.

(** ** Lemmas *)

Lemma digit_val_digit u : 0 <= u < 10 -> digit_val (digit u) = Some u.
Proof.
  intros H. unfold digit_val, digit, byte_val, byte_of.
  rewrite N_ascii_embedding by lia. rewrite Z2N.id by lia.
  destruct (_ && _) eqn:E; [f_equal; lia|].
  apply andb_false_iff in E as [E|E]; apply Z.leb_gt in E; lia.
Qed.

Lemma appendInt_2 x : 0 <= x < 100 -> appendInt x 2 = [digit (x / 10); digit (x mod 10)].
Proof.
  intros H. unfold appendInt. rewrite Z.abs_eq by lia.
  replace (x <? 0) with false by (symmetry; apply Z.ltb_ge; lia).
  replace (x <? 100) with true by (symmetry; apply Z.ltb_lt; lia). reflexivity.
Qed.

Lemma appendInt_4 x :
  0 <= x < 10000 ->
  appendInt x 4 = [digit (x / 1000); digit (x / 100 mod 10); digit (x / 10 mod 10); digit (x mod 10)].
Proof.
  intros H. unfold appendInt. rewrite Z.abs_eq by lia.
  replace (x <? 0) with false by (symmetry; apply Z.ltb_ge; lia).
  replace (x <? 10000) with true by (symmetry; apply Z.ltb_lt; lia). reflexivity.
Qed.

Lemma num_2 x : 0 <= x < 100 -> num [digit (x / 10); digit (x mod 10)] = Some x.
Proof.
  intros H. unfold num. simpl.
  rewrite !digit_val_digit by (pose proof (Z.mod_pos_bound x 10); Z.to_euclidean_division_equations; lia).
  simpl. f_equal. Z.to_euclidean_division_equations. lia.
Qed.

Lemma num_4 x :
  0 <= x < 10000 ->
  num [digit (x / 1000); digit (x / 100 mod 10); digit (x / 10 mod 10); digit (x mod 10)] = Some x.
Proof.
  intros H. unfold num. simpl.
  rewrite !digit_val_digit by (Z.to_euclidean_division_equations; lia).
  simpl. f_equal. Z.to_euclidean_division_equations. lia.
Qed.

#[export] Hint Rewrite digit_val_digit appendInt_2 appendInt_4 num_2 num_4 : adapter.

(** The local year of a time: the year [format] writes. *)
Definition local_year `{Location} (t : Time) : Z :=
  fst (fst (civil_from_days ((sec t + utc_offset (sec t)) / seconds_per_day))).

(** The zone field reads back as the offset, for an offset of whole
    minutes under a day. *)
Lemma parse_zone off :
  off mod 60 = 0 -> -86400 < off < 86400 ->
  match format_zone off with
  | ["Z"%char] => Some 0
  | [sg; o1; o2; ":"%char; o3; o4] =>
      oh ← num [o1; o2]; om ← num [o3; o4];
      if byte_val sg =? 43 then Some ((oh * 60 + om) * 60)
      else if byte_val sg =? 45 then Some (- ((oh * 60 + om) * 60))
      else None
  | _ => None
  end = Some off.
Proof.
  intros Hm Hr. unfold format_zone.
  destruct (Z.eqb_spec off 0) as [->|Hz]; [reflexivity|].
  pose proof (Z.quot_rem' off 60). pose proof (Z.rem_bound_abs off 60 ltac:(lia)).
  assert (Z.rem off 60 = 0) as Hrem.
  { rewrite Z.rem_mod_eq_0 by lia. done. }
  destruct (Z.ltb_spec (Z.quot off 60) 0) as [Hn|Hn]; cbv zeta.
  - rewrite !appendInt_2 by (Z.to_euclidean_division_equations; lia). simpl.
    rewrite !num_2 by (Z.to_euclidean_division_equations; lia). simpl. f_equal.
    Z.to_euclidean_division_equations. lia.
  - rewrite !appendInt_2 by (Z.to_euclidean_division_equations; lia). simpl.
    rewrite !num_2 by (Z.to_euclidean_division_equations; lia). simpl. f_equal.
    Z.to_euclidean_division_equations. lia.
Qed.

(** Days, hours, minutes and seconds recompose the instant. *)
Lemma clock_decompose x :
  x / 86400 * 86400 + x mod 86400 / 3600 * 3600 + x mod 86400 mod 3600 / 60 * 60 +
  x mod 86400 mod 60 = x.
Proof.
  pose proof (Z.div_mod x 86400 ltac:(lia)).
  pose proof (Z.div_mod (x mod 86400) 3600 ltac:(lia)).
  pose proof (Z.div_mod (x mod 86400 mod 3600) 60 ltac:(lia)).
  assert (x mod 86400 mod 60 = x mod 86400 mod 3600 mod 60) as E.
  { rewrite (Z.mod_mod_divide (x mod 86400) 3600 60) by (exists 60; lia). reflexivity. }
  rewrite E. lia.
Qed.

(** Reading the formatted time gives its Unix second back, for a zone
    of whole minutes under a day and a local year of four digits. *)
Lemma parse_format `{Location} t :
  utc_offset (sec t) mod 60 = 0 -> -86400 < utc_offset (sec t) < 86400 ->
  0 <= local_year t <= 9999 ->
  parse (format t) = Some (sec t).
Proof.
  intros Hm Hr Hy. unfold local_year in Hy. unfold format.
  set (off := utc_offset (sec t)) in *.
  pose proof (civil_from_days_valid ((sec t + off) / seconds_per_day)) as Hv.
  pose proof (days_from_civil_from_days ((sec t + off) / seconds_per_day)) as Hrt.
  destruct (civil_from_days ((sec t + off) / seconds_per_day)) as [[y m] d] eqn:Hc.
  simpl in Hy. destruct (valid_date_bounds _ _ _ Hv) as [Hmb Hdb].
  pose proof (Z.mod_pos_bound (sec t + off) seconds_per_day ltac:(unfold seconds_per_day; lia)).
  unfold seconds_per_day in *.
  rewrite !appendInt_2, appendInt_4 by (Z.to_euclidean_division_equations; lia).
  cbn [app]. unfold parse.
  rewrite num_4 by lia. rewrite !num_2 by (Z.to_euclidean_division_equations; lia).
  cbn [mbind option_bind]. rewrite (parse_zone off Hm Hr). cbn [mbind option_bind].
  f_equal. rewrite Hrt. unfold seconds_per_day.
  pose proof (clock_decompose (sec t + off)). lia.
Qed.

(** ** Properties *)

(** C30. The time strings of the payload carry the query's timestamps
    to the second: the RFC 3339 text written for [time.Unix(ms/1000,
    ms%1000*1000)] reads back as the floor of [ms / 1000], whatever the
    process's zone (of whole minutes under a day), for dates of years
    0000 to 9999. *)
Theorem payload_time_roundtrip `{Location} ms :
  utc_offset (ms / 1000) mod 60 = 0 -> -86400 < utc_offset (ms / 1000) < 86400 ->
  0 <= local_year (unix_of_ms ms) <= 9999 ->
  parse (format (unix_of_ms ms)) = Some (ms / 1000).
Proof.
  intros Hm Hr Hy. rewrite <- unix_of_ms_sec_eq in *. by apply parse_format.
Qed.

Definition fixed_zone (offset : Z) : Location := {| utc_offset := fun _ => offset |}.

Lemma payload_time_roundtrip_witness :
  @parse (@format (fixed_zone (-18000)) (unix_of_ms (-1500))) = Some (-2).
Proof.
  apply (@payload_time_roundtrip (fixed_zone (-18000)) (-1500)); vm_compute; try split; congruence.
Defined.

End Rfc3339.
