(* ===== verification/Region.v ===== *)
(** * Region resolution at start-up: [GetDefaultRegion]

    [src/main.go], lines 115-135 and 147-152.  The region comes from the
    EC2 instance metadata service when it answers, else from the
    environment variable [AWS_REGION], else ["us-east-1"]; [main] panics
    when the metadata service is available but its region query fails.
    The metadata service and the environment are the interface
    [RegionEnv]. *)

From S2P Require Import Prelude.

Module Region.

Class RegionEnv : Type := {
  (** [metadata.Available()] *)
  metadata_available : bool;
  (** [metadata.Region()] *)
  metadata_region : outcome string;
  (** [os.Getenv(name)] *)
  getenv : string -> string
}.

Section GetDefaultRegion.

Context `{RE : RegionEnv}.

(** [func GetDefaultRegion() (string, error)] *)
Definition GetDefaultRegion : outcome string :=
  if metadata_available then
    match metadata_region with
    | Ok region => Ok region
    | Err e => Err e
    | Panic p => Panic p
    end
  else
    let region := getenv "AWS_REGION" in
    if String.eqb region "" then Ok "us-east-1" else Ok region.

(** Lines 147-152 of [main]: [if err != nil { ...; panic(err) }]. *)
Definition main_region : outcome string :=
  match GetDefaultRegion with
  | Ok region => Ok region
  | Err e => Panic e
  | Panic p => Panic p
  end.

(** ** Properties *)

(** C29. Start-up never returns the metadata service's error: it
    panics with it, exactly when the service is available and its
    region query fails.  Outside EC2 the region is [AWS_REGION] when it
    is set and ["us-east-1"] otherwise, so never empty; on EC2 it is the
    service's answer. *)
Theorem main_region_spec :
  (forall e, main_region <> Err e) /\
  (forall p, main_region = Panic p <->
             metadata_available = true /\ (metadata_region = Err p \/ metadata_region = Panic p)) /\
  (forall r, main_region = Ok r ->
             if metadata_available then metadata_region = Ok r
             else r = (if String.eqb (getenv "AWS_REGION") "" then "us-east-1" else getenv "AWS_REGION") /\ r <> "").
Proof.
  unfold main_region, GetDefaultRegion.
  destruct metadata_available; [destruct metadata_region as [x|x|x]|
    destruct (String.eqb_spec (getenv "AWS_REGION") "") as [E|E]];
    (split; [done|split]); try (intros p; split; [intros [= <-]|]; intuition congruence);
    intros r [= <-]; done.
Qed.

End GetDefaultRegion.

Definition test_env (available : bool) (md : outcome string) (aws_region : string) : RegionEnv :=
  {| metadata_available := available; metadata_region := md;
     getenv := fun name => if String.eqb name "AWS_REGION" then aws_region else "" |}.

Lemma main_region_spec_witness :
  @main_region (test_env true (Err "EC2MetadataError") "") = Panic "EC2MetadataError" /\
  @main_region (test_env false (Ok "eu-west-1") "") = Ok "us-east-1".
Proof.
  split.
  - apply (proj1 (proj2 (@main_region_spec (test_env true (Err "EC2MetadataError") ""))) "EC2MetadataError").
    split; [reflexivity|left; reflexivity].
  - reflexivity.
Defined.

End Region.
