(* ===== verification/Bootstrap.v ===== *)
(** * Start-up: [main]'s flags, region, routes and server

    [src/main.go], lines 26-28 and 137-206.  [main] declares one string
    flag, [-web.listen-address] with default [":9461"], and parses the
    command line with the [flag] package's [CommandLine] set
    ([ExitOnError]).  It then resolves the region ([Region.main_region],
    a panic when the metadata service fails) and serves [/metrics] and
    [/read] on the [DefaultServeMux], where the blank import of
    [net/http/pprof] has already registered the [/debug/pprof/]
    handlers.  [srv.ListenAndServe()] only returns with an error, which
    [main] logs before returning.

    - [parse_one] is [parseOne] of [flag.FlagSet] for this one flag,
      [parse_loop]/[flag_Parse] its loop in [Parse]; [main_boot] the
      whole start-up, up to the error of [ListenAndServe].
    - [mux_handler] is [Handler] of [http.ServeMux] before Go 1.22 on a
      cleaned path: an exact pattern first, else the longest pattern
      ending in a slash that prefixes the path, and the redirect of
      [/debug/pprof] to [/debug/pprof/].  The cleaning of the path
      ([path.Clean] and its redirect) is not modelled.
    - The [-h]/[-help] exit status is that of Go 1.15 and later (0). *)

From S2P Require Import Prelude Region.

Module Bootstrap.

Import Region.
Open Scope Z_scope.

(** ** [type config struct { listenAddr string }] *)

Record config : Type := mkConfig { listenAddr : string }.

Definition flag_name : string := "web.listen-address".
Definition flag_default : string := ":9461".

(** ** [flag.Parse] *)

(** The result of one [parseOne]: no more flags (the arguments left), a
    value for the flag, an error, or [ErrHelp]. *)
Inductive parse_step : Type :=
| Done (args : list string)
| Parsed (value : string) (args : list string)
| Failed (err : string)
| Help.

(** [for i := 1; i < len(name); i++ { if name[i] == '=' { ... } }] on
    [name[1:]]: the text before and after the first ['=']. *)
Fixpoint break_eq (s : string) : option (string * string) :=
  match s with
  | EmptyString => None
  | String c s' =>
      if Ascii.eqb c "=" then Some (EmptyString, s')
      else match break_eq s' with
           | Some (a, v) => Some (String c a, v)
           | None => None
           end
  end.

(** The name and the [=value] of a flag argument, [=] never first. *)
Definition split_name (name : string) : string * option string :=
  match name with
  | String c rest =>
      match break_eq rest with
      | Some (a, v) => (String c a, Some v)
      | None => (name, None)
      end
  | EmptyString => (EmptyString, None)
  end.

(** [func (f *FlagSet) parseOne() (bool, error)] with [f.formal] holding
    the one string flag of [main]. *)
Definition parse_one (args : list string) : parse_step :=
  match args with
  | [] => Done []
  | s :: args' =>
      match s with
      | String c0 (String c1 t) =>
          if negb (Ascii.eqb c0 "-") then Done args
          else if Ascii.eqb c1 "-" && String.eqb t "" then Done args'
          else
            let name := if Ascii.eqb c1 "-" then t else String c1 t in
            match name with
            | String c _ =>
                if Ascii.eqb c "-" || Ascii.eqb c "=" then Failed ("bad flag syntax: " +:+ s)
                else
                  let '(n, hv) := split_name name in
                  if String.eqb n flag_name then
                    match hv with
                    | Some v => Parsed v args'
                    | None =>
                        match args' with
                        | v :: args'' => Parsed v args''
                        | [] => Failed ("flag needs an argument: -" +:+ n)
                        end
                    end
                  else if String.eqb n "help" || String.eqb n "h" then Help
                  else Failed ("flag provided but not defined: -" +:+ n)
            | EmptyString => Failed ("bad flag syntax: " +:+ s)
            end
      | _ => Done args
      end
  end.

(** The outcome of [flag.Parse()]: the flag's value and the arguments
    left, or the [os.Exit] of [ExitOnError]. *)
Inductive flag_result : Type :=
| FlagOk (value : string) (args : list string)
| FlagErr (err : string)
| FlagHelp.

(** [for { seen, err := f.parseOne(); if seen { continue }; ... }]: every
    value read consumes an argument, so [length args + 1] turns are
    enough ([parse_loop_fuel]). *)
Fixpoint parse_loop (fuel : nat) (args : list string) (value : string) : flag_result :=
  match fuel with
  | O => FlagOk value args
  | S f =>
      match parse_one args with
      | Parsed v args' => parse_loop f args' v
      | Done args' => FlagOk value args'
      | Failed e => FlagErr e
      | Help => FlagHelp
      end
  end.

(** [flag.StringVar(&cfg.listenAddr, "web.listen-address", ":9461", ...);
    flag.Parse()] on [os.Args[1:]]. *)
Definition flag_Parse (args : list string) : flag_result :=
  parse_loop (S (length args)) args flag_default.

(** ** [http.DefaultServeMux] *)

Inductive handler : Type :=
| MetricsHandler                 (* prometheus.Handler() *)
| ReadHandler                    (* the /read function *)
| PprofIndex | PprofCmdline | PprofProfile | PprofSymbol | PprofTrace
| Redirect (to : string)         (* 301 to the path with a slash *)
| NotFound.

(** The patterns of the mux: those of [net/http/pprof]'s [init], then
    lines 155-156. *)
Definition mux_entries : list (string * handler) :=
  [("/debug/pprof/", PprofIndex); ("/debug/pprof/cmdline", PprofCmdline);
   ("/debug/pprof/profile", PprofProfile); ("/debug/pprof/symbol", PprofSymbol);
   ("/debug/pprof/trace", PprofTrace); ("/metrics", MetricsHandler); ("/read", ReadHandler)].

Definition ends_with_slash (s : string) : bool :=
  match String.get (String.length s - 1) s with
  | Some c => Ascii.eqb c "/"
  | None => false
  end.

Definition mux_lookup (path : string) : option handler :=
  option_map snd (List.find (fun e => String.eqb (fst e) path) mux_entries).

(** [mux.match(path)]: the exact pattern, else the longest pattern
    ending in a slash that is a prefix of the path. *)
Definition mux_match (path : string) : option handler :=
  match mux_lookup path with
  | Some h => Some h
  | None =>
      option_map snd
        (List.fold_left
           (fun best e =>
              if ends_with_slash (fst e) && String.prefix (fst e) path then
                match best with
                | Some b => if (String.length (fst b) <? String.length (fst e))%nat then Some e else best
                | None => Some e
                end
              else best) mux_entries None)
  end.

(** [mux.shouldRedirectRLocked]: the path is not a pattern but the path
    with a slash is. *)
Definition should_redirect (path : string) : bool :=
  match mux_lookup path with
  | Some _ => false
  | None =>
      match mux_lookup (path +:+ "/") with
      | Some _ => negb (ends_with_slash path) && negb (String.eqb path "")
      | None => false
      end
  end.

(** [mux.Handler(r)] for a cleaned path. *)
Definition mux_handler (path : string) : handler :=
  if should_redirect path then Redirect (path +:+ "/")
  else match mux_match path with
       | Some h => h
       | None => NotFound
       end.

(** ** [func main()] *)

(** How a run of the process ends. *)
Inductive boot : Type :=
| FlagExit (code : Z) (err : option string)   (* os.Exit in flag.Parse *)
| RegionPanic (msg : string)                  (* panic(err), line 151 *)
| Served (cfg : config) (region : string) (listen_err : string).
    (* ListenAndServe returned listen_err; main logs it and returns *)

(** The exit status of the process. *)
Definition exit_status (b : boot) : Z :=
  match b with
  | FlagExit code _ => code
  | RegionPanic _ => 2
  | Served _ _ _ => 0
  end.

Section Main.

Context `{RE : RegionEnv}.

(** Lines 137-206, for the arguments [os.Args[1:]] and the error the
    server stops with. *)
Definition main_boot (args : list string) (listen_err : string) : boot :=
  match flag_Parse args with
  | FlagHelp => FlagExit 0 None
  | FlagErr e => FlagExit 2 (Some e)
  | FlagOk v _ =>
      let cfg := mkConfig v in
      match main_region with
      | Ok region => Served cfg region listen_err
      | Err e => RegionPanic e
      | Panic p => RegionPanic p
      end
  end.

End Main.

(** ** The command lines of the flag *)

(** An occurrence of the flag on the command line, with one or two
    dashes, its value after [=] or in the next argument. *)
Inductive flag_arg : Type :=
| Joined (double : bool) (v : string)
| Separate (double : bool) (v : string).

Definition dashes (double : bool) : string := if double then "--" else "-".

Definition render (o : flag_arg) : list string :=
  match o with
  | Joined d v => [dashes d +:+ flag_name +:+ "=" +:+ v]
  | Separate d v => [dashes d +:+ flag_name; v]
  end.

Definition arg_value (o : flag_arg) : string := match o with Joined _ v | Separate _ v => v end.

(** The value the last occurrence gives, or the default. *)
Definition last_value (occs : list flag_arg) : string := fold_left (fun _ o => arg_value o) occs flag_default.

(** An argument that ends the flags: shorter than two bytes or not
    starting with a dash. *)
Definition flag_like (s : string) : bool :=
  match s with String c (String _ _) => Ascii.eqb c "-" | _ => false end.

Definition ends_flags (rest : list string) : bool :=
  match rest with [] => true | s :: _ => negb (flag_like s) end.

(** ** Lemmas *)

Lemma parse_one_render o rest : parse_one (render o ++ rest) = Parsed (arg_value o) rest.
Proof. destruct o as [[] v|[] v]; reflexivity. Qed.

Lemma parse_one_ends rest : ends_flags rest = true -> parse_one rest = Done rest.
Proof.
  destruct rest as [|s rest]; [done|]. cbn [ends_flags]. intros H. cbn [parse_one].
  destruct s as [|c0 [|c1 t]]; [done|done|]. cbn [flag_like] in H. by destruct (Ascii.eqb c0 "-").
Qed.

Lemma parse_loop_occs occs args v fuel :
  parse_loop (length occs + fuel) (mjoin (map render occs) ++ args) v =
  parse_loop fuel args (fold_left (fun _ o => arg_value o) occs v).
Proof.
  revert v. induction occs as [|o occs IH]; intros v; [done|].
  cbn [length Nat.add parse_loop map]. change (mjoin (render o :: map render occs)) with (render o ++ mjoin (map render occs)).
  by rewrite <- app_assoc, parse_one_render.
Qed.

Lemma length_render_all occs : (length occs <= length (mjoin (map render occs)))%nat.
Proof.
  induction occs as [|o occs IH]; [done|]. cbn [map length].
  change (mjoin (render o :: map render occs)) with (render o ++ mjoin (map render occs)).
  rewrite length_app. destruct o; simpl; lia.
Qed.

Lemma flag_Parse_occs occs args :
  flag_Parse (mjoin (map render occs) ++ args) =
  parse_loop (S (length (mjoin (map render occs) ++ args)) - length occs) args (last_value occs).
Proof.
  unfold flag_Parse. pose proof (length_render_all occs). rewrite length_app.
  replace (S (length (mjoin (map render occs)) + length args)) with
    (length occs + (S (length (mjoin (map render occs)) + length args) - length occs))%nat at 1 by lia.
  apply parse_loop_occs.
Qed.

Lemma break_eq_none s : ~ In "="%char (String.list_ascii_of_string s) -> break_eq s = None.
Proof.
  induction s as [|c s IH]; [done|]. cbn. intros H.
  destruct (Ascii.eqb_spec c "="); [subst; tauto|]. rewrite IH; [done|tauto].
Qed.

Lemma parse_one_undefined c n args :
  c <> "-"%char -> c <> "="%char -> ~ In "="%char (String.list_ascii_of_string n) ->
  String c n <> flag_name -> String c n <> "help" -> String c n <> "h" ->
  parse_one (("-" +:+ String c n) :: args) = Failed ("flag provided but not defined: -" +:+ String c n).
Proof.
  intros H1 H2 H3 H4 H5 H6. unfold parse_one. change ("-" +:+ String c n) with (String "-" (String c n)) at 1. cbn beta iota.
  rewrite (proj2 (Ascii.eqb_neq c "-")) by done. cbn [negb andb].
  replace (Ascii.eqb "-" "-") with true by reflexivity. cbn [negb andb].
  rewrite (proj2 (Ascii.eqb_neq c "=")) by done. cbn [orb split_name]. rewrite break_eq_none by done.
  rewrite (proj2 (String.eqb_neq _ _) H4), (proj2 (String.eqb_neq _ _) H5), (proj2 (String.eqb_neq _ _) H6).
  rewrite (proj2 (Ascii.eqb_neq c "-")) by done. reflexivity.
Qed.

Lemma get_app_slash p : String.get (String.length p) (p +:+ "/") = Some "/"%char.
Proof. induction p as [|c p IH]; [done|]. exact IH. Qed.

Lemma string_app_cons c p s : String c p +:+ s = String c (p +:+ s).
Proof. reflexivity. Qed.

Lemma length_app_slash p : String.length (p +:+ "/") = S (String.length p).
Proof. induction p as [|c p IH]; [done|]. rewrite string_app_cons. cbn [String.length]. by rewrite IH. Qed.

Lemma ends_with_slash_app p : ends_with_slash (p +:+ "/") = true.
Proof. unfold ends_with_slash. rewrite length_app_slash, Nat.sub_1_r, Nat.pred_succ, get_app_slash. done. Qed.

Lemma app_slash_inj p q : p +:+ "/" = q +:+ "/" -> p = q.
Proof.
  revert q. induction p as [|c p IH]; intros [|c' q] H; rewrite ?string_app_cons in H; cbn in H; try congruence.
  - injection H as <- Hq. destruct q; discriminate.
  - injection H as <- Hp. destruct p; discriminate.
  - injection H as <- H. by rewrite (IH q H).
Qed.

Lemma eqb_app_slash q p : ends_with_slash q = false -> String.eqb q (p +:+ "/") = false.
Proof. intros Hq. apply String.eqb_neq. intros ->. by rewrite ends_with_slash_app in Hq. Qed.

Lemma eqb_app_slash_pprof p : p <> "/debug/pprof" -> String.eqb "/debug/pprof/" (p +:+ "/") = false.
Proof.
  intros Hp. apply String.eqb_neq. intros H. apply Hp. symmetry. apply app_slash_inj. exact H.
Qed.

Ltac path_case p q := destruct (String.eqb_spec p q) as [->|?]; [reflexivity|].

(** ** Properties *)

Section MainProps.

Context `{RE : RegionEnv}.

(** C20. Flag parsing: on a command line made of occurrences of
    [-web.listen-address] (one or two dashes, the value after [=] or in
    the next argument, whatever it holds) followed by arguments that are
    not flags, [main] serves on the address of the last occurrence, or
    on [:9461] when there is none; the server's error then ends the
    process with exit status 0. *)
Theorem main_boot_flags occs rest listen_err r :
  ends_flags rest = true -> main_region = Ok r ->
  main_boot (mjoin (map render occs) ++ rest) listen_err = Served (mkConfig (last_value occs)) r listen_err /\
  exit_status (main_boot (mjoin (map render occs) ++ rest) listen_err) = 0.
Proof.
  intros He Hr. unfold main_boot. rewrite flag_Parse_occs.
  pose proof (length_render_all occs). rewrite length_app.
  destruct (S (length (mjoin (map render occs)) + length rest) - length occs)%nat as [|f] eqn:E; [lia|].
  cbn [parse_loop]. rewrite parse_one_ends by done. by rewrite Hr.
Qed.

(** C37. An argument [-name] for a flag [main] does not define ends the
    process in [flag.Parse] with exit status 2 and the message of
    [failf], before the region is resolved, wherever it follows valid
    occurrences of [-web.listen-address]. *)
Theorem main_boot_undefined_flag occs c n args listen_err :
  c <> "-"%char -> c <> "="%char -> ~ In "="%char (String.list_ascii_of_string n) ->
  String c n <> flag_name -> String c n <> "help" -> String c n <> "h" ->
  main_boot (mjoin (map render occs) ++ ("-" +:+ String c n) :: args) listen_err =
  FlagExit 2 (Some ("flag provided but not defined: -" +:+ String c n)).
Proof.
  intros H1 H2 H3 H4 H5 H6. unfold main_boot. rewrite flag_Parse_occs.
  pose proof (length_render_all occs). rewrite length_app.
  destruct (S (length (mjoin (map render occs)) + length (("-" +:+ String c n) :: args)) - length occs)%nat
    as [|f] eqn:E; [cbn [length] in E; lia|].
  cbn [parse_loop]. by rewrite parse_one_undefined.
Qed.

End MainProps.

(** C21. Routing of the [DefaultServeMux]: [/read] and [/metrics] only
    on their exact paths (so [/read/] is a 404), the four named
    [net/http/pprof] handlers on theirs, a redirect of [/debug/pprof],
    and the pprof index on every other path under [/debug/pprof/]: the
    profiling endpoints are served on the listen address too. *)
Theorem mux_handler_table p :
  mux_handler p =
  if String.eqb p "/read" then ReadHandler
  else if String.eqb p "/metrics" then MetricsHandler
  else if String.eqb p "/debug/pprof/cmdline" then PprofCmdline
  else if String.eqb p "/debug/pprof/profile" then PprofProfile
  else if String.eqb p "/debug/pprof/symbol" then PprofSymbol
  else if String.eqb p "/debug/pprof/trace" then PprofTrace
  else if String.eqb p "/debug/pprof" then Redirect "/debug/pprof/"
  else if String.prefix "/debug/pprof/" p then PprofIndex
  else NotFound.
Proof.
  path_case p "/read". path_case p "/metrics". path_case p "/debug/pprof/cmdline".
  path_case p "/debug/pprof/profile". path_case p "/debug/pprof/symbol". path_case p "/debug/pprof/trace".
  path_case p "/debug/pprof". path_case p "/debug/pprof/".
  unfold mux_handler, should_redirect, mux_match, mux_lookup, mux_entries. cbn [List.find fst snd fold_left].
  rewrite !(String.eqb_sym _ p).
  repeat match goal with H : p <> ?q |- _ => rewrite (proj2 (String.eqb_neq p q) H) end.
  rewrite eqb_app_slash_pprof by done. rewrite !eqb_app_slash by reflexivity.
  repeat match goal with |- context [ends_with_slash (String ?c ?q)] =>
    let b := eval vm_compute in (ends_with_slash (String c q)) in change (ends_with_slash (String c q)) with b end.
  cbn [andb option_map]. by destruct (String.prefix "/debug/pprof/" p).
Qed.

(** ** Witnesses *)

Lemma main_boot_flags_witness :
  ends_flags ["extra"] = true /\
  @main_region (test_env false (Ok "") "") = Ok "us-east-1" /\
  (@main_boot (test_env false (Ok "") "")
     (mjoin (map render [Joined false ":80"; Separate true "localhost:9000"]) ++ ["extra"]) "bind: address in use"
   = Served (mkConfig (last_value [Joined false ":80"; Separate true "localhost:9000"])) "us-east-1"
       "bind: address in use" /\
   exit_status (@main_boot (test_env false (Ok "") "")
     (mjoin (map render [Joined false ":80"; Separate true "localhost:9000"]) ++ ["extra"])
     "bind: address in use") = 0).
Proof.
  refine (conj eq_refl (conj eq_refl _)).
  apply (@main_boot_flags (test_env false (Ok "") "")); reflexivity.
Defined.

Lemma main_boot_undefined_flag_witness :
  @main_boot (test_env false (Ok "") "") (mjoin (map render [Separate false ":80"]) ++ ["-port"; "80"]) ""
  = FlagExit 2 (Some "flag provided but not defined: -port").
Proof.
  apply (@main_boot_undefined_flag (test_env false (Ok "") "") _ "p"%char "ort");
    [discriminate | discriminate | simpl; intros H; repeat (destruct H as [H|H]; [discriminate H|]); exact H
    | discriminate..].
Defined.

End Bootstrap.
