(* ===== verification/Mapper.v ===== *)
(** * The result mapper: Lambda reply to remote-read time series

    [src/main.go], lines 101-111: for each [timeSerie] of the decoded
    Lambda reply, in order, [runQuery] builds a [prompb.TimeSeries] with
    four labels ([__name__], [functionName] and [type] from the query's
    parameters, [target] from the reply) and one sample per datapoint,
    [Sample{Value: float64(datapoint[0]), Timestamp: int64(datapoint[1])}].
    Indexing a datapoint shorter than two elements panics in Go; the
    model returns [Panic] there.  [sample_of_datapoint] is the loop body
    over datapoints, [series_of_serie] one iteration of the outer loop,
    [map_series] the whole loop. *)

From S2P Require Import Prelude Prompb.

Module Mapper.

(** Lines 103-106, in their order. *)
Definition labels_of (metricName functionName target paramType : string) : list Label :=
  [mkLabel "__name__" metricName; mkLabel "functionName" functionName;
   mkLabel "target" target; mkLabel "type" paramType].

(** Go's index expression [s[i]] on a slice of [int]: the element, or
    the runtime panic of an index out of range. *)
Definition index_int (s : list Z) (i : nat) : outcome Z :=
  match s !! i with
  | Some x => Ok x
  | None => Panic ("runtime error: index out of range [" +:+ pretty (Z.of_nat i)
                   +:+ "] with length " +:+ pretty (Z.of_nat (length s)))
  end.

(** Line 108: [datapoint[0]] is evaluated before [datapoint[1]]. *)
Definition sample_of_datapoint (datapoint : list Z) : outcome Sample :=
  match index_int datapoint 0 with
  | Ok v =>
      match index_int datapoint 1 with
      | Ok t => Ok (mkSample (float64_of_int v) t)
      | Err e => Err e
      | Panic p => Panic p
      end
  | Err e => Err e
  | Panic p => Panic p
  end.

(** Lines 102-110: one time series per [serie]. *)
Definition series_of_serie (metricName functionName paramType : string)
           (serie : timeSerie) : outcome TimeSeries :=
  match mapM sample_of_datapoint (Datapoints serie) with
  | Ok samples =>
      Ok (mkTimeSeries (labels_of metricName functionName (Target serie) paramType) samples)
  | Err e => Err e
  | Panic p => Panic p
  end.

(** Lines 101-111, with [result := []*prompb.TimeSeries{}] of line 38. *)
Definition map_series (metricName functionName paramType : string)
           (jsonResult : lambdaResult) : outcome (list TimeSeries) :=
  mapM (series_of_serie metricName functionName paramType) jsonResult.

(** ** Reference reading of the mapper *)

(** Every datapoint has the two elements the code indexes. *)
Definition reply_well_formed (r : lambdaResult) : bool :=
  forallb (fun s => forallb (fun dp => 2 <=? length dp)%nat (Datapoints s)) r.

Definition sample_spec (dp : list Z) : Sample :=
  mkSample (float64_of_int (nth 0 dp 0)) (nth 1 dp 0).

Definition series_spec (metricName functionName paramType : string) (s : timeSerie) : TimeSeries :=
  mkTimeSeries (labels_of metricName functionName (Target s) paramType)
               (map sample_spec (Datapoints s)).

(** ** Lemmas *)

Lemma sample_of_datapoint_ok dp :
  (2 <= length dp)%nat -> sample_of_datapoint dp = Ok (sample_spec dp).
Proof.
  destruct dp as [|v [|t rest]]; simpl; intros H; [lia | lia | reflexivity].
Qed.

Lemma sample_of_datapoint_short dp :
  (length dp < 2)%nat -> exists p, sample_of_datapoint dp = Panic p.
Proof.
  destruct dp as [|v [|t rest]]; simpl; intros H; [eauto | eauto | lia].
Qed.

Lemma sample_of_datapoint_no_err dp e : sample_of_datapoint dp <> Err e.
Proof. destruct dp as [|v [|t rest]]; discriminate. Qed.

Lemma series_of_serie_no_err mn fn ty s e : series_of_serie mn fn ty s <> Err e.
Proof.
  unfold series_of_serie. pose proof (mapM_no_err sample_of_datapoint (Datapoints s) e
    (fun dp => sample_of_datapoint_no_err dp e)).
  destruct (mapM _ _); congruence.
Qed.

Lemma series_of_serie_ok mn fn ty s :
  forallb (fun dp => 2 <=? length dp)%nat (Datapoints s) = true ->
  series_of_serie mn fn ty s = Ok (series_spec mn fn ty s).
Proof.
  rewrite forallb_forall. intros H. unfold series_of_serie.
  rewrite (mapM_ok_map _ sample_spec); [done|].
  intros dp Hdp. apply sample_of_datapoint_ok. apply Nat.leb_le. auto.
Qed.

Lemma reply_well_formed_cons s r :
  reply_well_formed (s :: r) =
  forallb (fun dp => 2 <=? length dp)%nat (Datapoints s) && reply_well_formed r.
Proof. reflexivity. Qed.

Lemma series_of_serie_short mn fn ty s :
  forallb (fun dp => 2 <=? length dp)%nat (Datapoints s) = false ->
  exists p, series_of_serie mn fn ty s = Panic p.
Proof.
  intros H. apply forallb_false_exists in H as (dp & Hin & Hdp).
  apply Nat.leb_nle in Hdp.
  destruct (mapM_panic sample_of_datapoint (Datapoints s)) as [p Hp].
  - destruct (sample_of_datapoint_short dp) as [p Hp]; [lia|]. eauto.
  - intros x e. apply sample_of_datapoint_no_err.
  - unfold series_of_serie. rewrite Hp. eauto.
Qed.

Lemma map_series_ok mn fn ty r :
  reply_well_formed r = true ->
  map_series mn fn ty r = Ok (map (series_spec mn fn ty) r).
Proof.
  intros Hw. apply mapM_ok_map. intros s Hs. apply series_of_serie_ok.
  unfold reply_well_formed in Hw. rewrite forallb_forall in Hw. auto.
Qed.

Lemma map_series_ok_inv mn fn ty r ts :
  map_series mn fn ty r = Ok ts -> reply_well_formed r = true /\ ts = map (series_spec mn fn ty) r.
Proof.
  intros H. apply mapM_ok_inv in H. induction H as [|s t r ts Hs _ IH]; [done|].
  destruct IH as [IHw ->]. rewrite reply_well_formed_cons, IHw, andb_true_r.
  destruct (forallb _ (Datapoints s)) eqn:Hw.
  + rewrite series_of_serie_ok in Hs by done. injection Hs as <-. done.
  + destruct (series_of_serie_short mn fn ty s Hw) as [p Hp]. congruence.
Qed.

(** ** Properties *)

(** C2. Functional behaviour of the mapper: it succeeds exactly on a
    reply whose datapoints all have two elements, and then returns one
    time series per backend series, in order, labelled [__name__],
    [functionName], [target], [type] with [type] taken from the query,
    whose samples are the datapoints in order, the value converted with
    [float64] and the timestamp verbatim. *)
Theorem map_series_ok_iff mn fn ty r ts :
  map_series mn fn ty r = Ok ts <->
  reply_well_formed r = true /\ ts = map (series_spec mn fn ty) r.
Proof.
  split; [apply map_series_ok_inv|intros [Hw ->]; by apply map_series_ok].
Qed.

(** C9. Error behaviour of the mapper: it never returns an error value,
    and it panics (Go's index out of range) exactly when some datapoint
    of the reply has fewer than two elements. *)
Theorem map_series_panic_iff mn fn ty r :
  (forall e, map_series mn fn ty r <> Err e) /\
  (reply_well_formed r = false <-> exists p, map_series mn fn ty r = Panic p).
Proof.
  split.
  { intros e. apply mapM_no_err. intros s. apply series_of_serie_no_err. }
  split.
  - intros H. apply forallb_false_exists in H as (s & Hin & Hs).
    apply mapM_panic; [|intros x e; apply series_of_serie_no_err].
    destruct (series_of_serie_short mn fn ty s Hs) as [p Hp]. eauto.
  - intros [p Hp]. destruct (reply_well_formed r) eqn:Hw; [|done].
    rewrite map_series_ok in Hp by done. congruence.
Qed.

End Mapper.
