(* ===== verification/Backend.v ===== *)
(** * The backend invoker: [runQuery]

    [src/main.go], lines 37-113.  [runQuery] creates an AWS session for
    the region ([session.Must] panics on failure), computes the query's
    time range ([TimeConv]), scans the matchers ([Extract]), marshals
    the payload [{"range": {"from", "to"}, "targets": {"target", "type"}}]
    ([Json]), invokes the Lambda function synchronously, checks the
    status code, unmarshals the reply into a [lambdaResult] and maps it
    ([Mapper]).  The collaborators the code only calls are interfaces:
    [LambdaService] (the AWS SDK session and [client.Invoke]),
    [TimeFormat] ([time.Time.Format(time.RFC3339)] in the process's
    location) and [ReplyDecoder] ([json.Unmarshal] into a
    [lambdaResult]).  The state [runQuery] changes is the log of the
    Lambda invocations it makes. *)

From S2P Require Import Prelude Utf8 Prompb Extract TimeConv Json Civil Rfc3339 Mapper.

Module Backend.

Import Utf8 Extract TimeConv Json Mapper.
Open Scope Z_scope.
Local Open Scope go_scope.

(** [lambda.InvokeInput] with the two fields the adapter sets. *)
Record InvokeInput : Type := mkInvokeInput {
  FunctionName : string;
  Payload : bytes
}.

(** [lambda.InvokeOutput]: [StatusCode] is a pointer ([*int64]). *)
Record InvokeOutput : Type := mkInvokeOutput {
  StatusCode : option Z;
  ResultPayload : bytes
}.

(** ** Interfaces of the collaborators *)

Class LambdaService : Type := {
  (** the error of [session.NewSession(cfg)] for a region, if any *)
  new_session_error : string -> option string;
  (** [client.Invoke(input)] on a client of that region *)
  lambda_invoke : string -> InvokeInput -> outcome InvokeOutput
}.

Class ReplyDecoder : Type := {
  unmarshal_lambdaResult : bytes -> outcome lambdaResult
}.

(** The calls made to the Lambda service, oldest first: the region and
    the input of each. *)
Definition Calls : Type := list (string * InvokeInput).

Section RunQuery.

Context `{LS : LambdaService} `{TF : TimeFormat} `{RD : ReplyDecoder}.

(** Lines 40-42: [session.Must(session.NewSession(cfg))] and
    [lambda.New(sess)]. *)
Definition new_client (region : string) : goM Calls unit :=
  match new_session_error region with
  | Some e => panic e
  | None => ret tt
  end.

(** Line 87: the invocation is recorded whatever its result. *)
Definition invoke (region : string) (input : InvokeInput) : goM Calls InvokeOutput :=
  fun calls => (lambda_invoke region input, calls ++ [(region, input)]).

(** Lines 68-77. *)
Definition params_json (startTime endTime : Time) (p : params) : JValue :=
  JObject [(bs "range", JObject [(bs "from", JString (bs (format_rfc3339 startTime)));
                                 (bs "to", JString (bs (format_rfc3339 endTime)))]);
           (bs "targets", JObject [(bs "target", JString (bs (paramTarget p)));
                                   (bs "type", JString (bs (paramType p)))])].

Definition nil_deref : string :=
  "runtime error: invalid memory address or nil pointer dereference".

(** Lines 91-112, after the invocation returned [resp].  A status other
    than 200 executes [return nil, err] with [err] nil: no series and no
    error. *)
Definition handle_output (p : params) (resp : InvokeOutput) : goM Calls (list TimeSeries) :=
  match StatusCode resp with
  | None => panic nil_deref
  | Some code =>
      if negb (code =? 200) then ret []
      else
        jsonResult <- lift (unmarshal_lambdaResult (ResultPayload resp)) ;;
        lift (map_series (metricName p) (functionName p) (paramType p) jsonResult)
  end.

(** [func runQuery(region string, q *prompb.Query, ...)] *)
Definition runQuery (region : string) (q : Query) : goM Calls (list TimeSeries) :=
  new_client region ;;;
  let startTime := unix_of_ms (StartTimestampMs q) in
  let endTime := unix_of_ms (EndTimestampMs q) in
  p <- lift (extract_params (Matchers q)) ;;
  payload <- lift (Marshal (params_json startTime endTime p)) ;;
  resp <- invoke region (mkInvokeInput (functionName p) payload) ;;
  handle_output p resp.

(** The payload of the query: what [runQuery] sends when it invokes. *)
Definition query_payload (q : Query) : bytes :=
  encode (params_json (unix_of_ms (StartTimestampMs q)) (unix_of_ms (EndTimestampMs q))
                      (params_spec (Matchers q))).

(** ** Lemmas *)

Lemma handle_output_calls p resp calls : snd (handle_output p resp calls) = calls.
Proof.
  unfold handle_output. destruct (StatusCode resp) as [code|]; [|done].
  destruct (negb _); [done|]. unfold bind, lift.
  by destruct (unmarshal_lambdaResult _).
Qed.

(** With a working session and a function name, [runQuery] invokes the
    function once, with the parameters of the matchers, and continues
    with the reply. *)
Lemma runQuery_invoke region q calls :
  new_session_error region = None ->
  matcher_value "functionName" (Matchers q) <> "" ->
  runQuery region q calls =
  match lambda_invoke region (mkInvokeInput (matcher_value "functionName" (Matchers q))
                                            (query_payload q)) with
  | Ok resp => handle_output (params_spec (Matchers q)) resp
                 (calls ++ [(region, mkInvokeInput (matcher_value "functionName" (Matchers q))
                                                   (query_payload q))])
  | Err e => (Err e, calls ++ [(region, mkInvokeInput (matcher_value "functionName" (Matchers q))
                                                      (query_payload q))])
  | Panic e => (Panic e, calls ++ [(region, mkInvokeInput (matcher_value "functionName" (Matchers q))
                                                          (query_payload q))])
  end.
Proof.
  intros Hs Hf. unfold runQuery, new_client. rewrite Hs, extract_params_eq.
  apply String.eqb_neq in Hf. rewrite Hf. reflexivity.
Qed.

(** Every list of series [runQuery] returns is empty (a status other
    than 200) or the mapping of a reply the decoder accepted. *)
Lemma runQuery_ok_inv region q calls ts calls' :
  runQuery region q calls = (Ok ts, calls') ->
  ts = [] \/ exists pl r mn fn ty, unmarshal_lambdaResult pl = Ok r /\ map_series mn fn ty r = Ok ts.
Proof.
  unfold runQuery. intros H.
  repeat match goal with
         | H : bind _ _ _ = (Ok _, _) |- _ => apply bind_ok_inv in H as (? & ? & ? & H)
         end.
  unfold handle_output in H. destruct (StatusCode _); [|done]. destruct (negb _); [by left; injection H|].
  apply bind_ok_inv in H as (r & ? & Hr & H). unfold lift in Hr, H. injection Hr as Hr _. injection H as H _.
  right. do 5 eexists. split; [exact Hr|exact H].
Qed.

(** ** Properties *)

(** C3. A query whose matchers give no function name ends [runQuery]
    with the error "no function name specified" before any call to the
    Lambda service: the log of invocations is unchanged. *)
Theorem runQuery_no_function_name region q calls :
  new_session_error region = None ->
  matcher_value "functionName" (Matchers q) = "" ->
  runQuery region q calls = (Err "no function name specified", calls).
Proof.
  intros Hs Hf. unfold runQuery, new_client. rewrite Hs, extract_params_eq, Hf.
  reflexivity.
Qed.

(** C10. A query with a function name makes exactly one Lambda
    invocation, of that function, with the JSON payload of the query's
    time range and parameters, whatever the outcome of the call. *)
Theorem runQuery_invokes_once region q calls :
  new_session_error region = None ->
  matcher_value "functionName" (Matchers q) <> "" ->
  snd (runQuery region q calls) =
  calls ++ [(region, mkInvokeInput (matcher_value "functionName" (Matchers q)) (query_payload q))].
Proof.
  intros Hs Hf. rewrite runQuery_invoke by done.
  destruct (lambda_invoke _ _); [apply handle_output_calls | done | done].
Qed.

(** C6. A reply with a status code other than 200 is not reported as
    an error: [runQuery] returns [nil, err] with [err] still nil, so the
    query succeeds with no series. *)
Theorem runQuery_non200_swallowed region q calls code pl :
  new_session_error region = None ->
  matcher_value "functionName" (Matchers q) <> "" ->
  lambda_invoke region (mkInvokeInput (matcher_value "functionName" (Matchers q)) (query_payload q))
    = Ok (mkInvokeOutput (Some code) pl) ->
  code <> 200 ->
  fst (runQuery region q calls) = Ok [].
Proof.
  intros Hs Hf Hi Hc. rewrite runQuery_invoke, Hi by done.
  unfold handle_output. simpl. apply Z.eqb_neq in Hc. by rewrite Hc.
Qed.

(** C11. The successful path: a reply with status 200 that decodes to a
    well-formed [lambdaResult] gives one series per backend series,
    labelled with the query's metric name, function name and type. *)
Theorem runQuery_success region q calls pl r :
  new_session_error region = None ->
  matcher_value "functionName" (Matchers q) <> "" ->
  lambda_invoke region (mkInvokeInput (matcher_value "functionName" (Matchers q)) (query_payload q))
    = Ok (mkInvokeOutput (Some 200) pl) ->
  unmarshal_lambdaResult pl = Ok r ->
  reply_well_formed r = true ->
  fst (runQuery region q calls) =
  Ok (map (series_spec (matcher_value "__name__" (Matchers q))
                       (matcher_value "functionName" (Matchers q))
                       (matcher_value "type" (Matchers q))) r).
Proof.
  intros Hs Hf Hi Hu Hw. rewrite runQuery_invoke, Hi by done.
  unfold handle_output. simpl. unfold bind, lift. rewrite Hu.
  simpl. by rewrite map_series_ok.
Qed.

(** C34. A reply with status 200 that does not decode makes [runQuery]
    fail with the decoder's error, after the one invocation. *)
Theorem runQuery_decode_error region q calls pl e :
  new_session_error region = None ->
  matcher_value "functionName" (Matchers q) <> "" ->
  lambda_invoke region (mkInvokeInput (matcher_value "functionName" (Matchers q)) (query_payload q))
    = Ok (mkInvokeOutput (Some 200) pl) ->
  unmarshal_lambdaResult pl = Err e ->
  fst (runQuery region q calls) = Err e.
Proof.
  intros Hs Hf Hi Hu. rewrite runQuery_invoke, Hi by done.
  unfold handle_output. simpl. unfold bind, lift. by rewrite Hu.
Qed.

(** C35. The payload [runQuery] sends is the JSON object of lines 68-77
    with its keys in byte order, as [json.Marshal] writes a map:
    [{"range":{"from":_,"to":_},"targets":{"target":_,"type":_}}], each
    value the escaped string of the code. *)
Theorem payload_shape st et p :
  encode (params_json st et p) =
  json_text "{'range':{'from':" ++ encode_string (bs (format_rfc3339 st)) ++
  json_text ",'to':" ++ encode_string (bs (format_rfc3339 et)) ++
  json_text "},'targets':{'target':" ++ encode_string (bs (paramTarget p)) ++
  json_text ",'type':" ++ encode_string (bs (paramType p)) ++ json_text "}}".
Proof.
  unfold params_json. cbn [encode map].
  rewrite (sort_entries_two "from" "to"), (sort_entries_two "target" "type"),
    (sort_entries_two "range" "targets") by reflexivity.
  cbn -[encode_string].
  repeat match goal with
         | |- context [encode_string ?k] =>
             match k with
             | bs _ => fail 1
             | _ => let v := eval vm_compute in (encode_string k) in
                    change (encode_string k) with v
             end
         end.
  do 3 (cbn -[encode_string]; rewrite ?app_nil_r, <- ?app_assoc).
  reflexivity.
Qed.

End RunQuery.

(** ** Test doubles for the collaborators, and the witnesses *)

Definition test_service (code : Z) (reply : bytes) : LambdaService :=
  {| new_session_error := fun _ => None;
     lambda_invoke := fun _ _ => Ok (mkInvokeOutput (Some code) reply) |}.

(** A process in UTC, as on AWS Lambda and in most containers. *)
Definition test_format : TimeFormat := @Rfc3339.rfc3339_format (Rfc3339.fixed_zone 0).

Definition test_decoder (r : lambdaResult) : ReplyDecoder :=
  {| unmarshal_lambdaResult := fun _ => Ok r |}.

(** The query of the end-to-end scenario of the specification. *)
Definition scenario_query : Query :=
  mkQuery 1000 5000 [mkLabelMatcher EQ "__name__" "foo"; mkLabelMatcher EQ "functionName" "f1";
                     mkLabelMatcher EQ "target" "t1"; mkLabelMatcher EQ "type" "count"].

Definition scenario_reply : lambdaResult := [mktimeSerie "t1" [[7; 1000]; [9; 4000]]].

(** A later matcher with an empty value wipes the function name. *)
Definition wiped_query : Query :=
  mkQuery 0 0 [mkLabelMatcher EQ "functionName" "f1"; mkLabelMatcher NEQ "functionName" ""].

(** The payload of the scenario, as [json.Marshal] writes it in a UTC
    process: sorted keys, the times of 1000 ms and 5000 ms to the second. *)
Example scenario_payload :
  @query_payload test_format scenario_query =
  json_text "{'range':{'from':'1970-01-01T00:00:01Z','to':'1970-01-01T00:00:05Z'},'targets':{'target':'t1','type':'count'}}".
Proof. vm_compute. reflexivity. Qed.

Lemma runQuery_no_function_name_witness :
  @runQuery (test_service 200 []) test_format (test_decoder []) "us-east-1" wiped_query []
  = (Err "no function name specified", []).
Proof.
  apply (@runQuery_no_function_name (test_service 200 []) test_format (test_decoder []));
    reflexivity.
Defined.

Lemma runQuery_invokes_once_witness :
  snd (@runQuery (test_service 200 []) test_format (test_decoder []) "us-east-1" scenario_query [])
  = [("us-east-1", mkInvokeInput "f1" (@query_payload test_format scenario_query))].
Proof.
  apply (@runQuery_invokes_once (test_service 200 []) test_format (test_decoder []));
    [reflexivity | discriminate].
Defined.

Lemma runQuery_non200_swallowed_witness :
  fst (@runQuery (test_service 502 (bs "Bad Gateway")) test_format (test_decoder scenario_reply)
         "us-east-1" scenario_query []) = Ok [].
Proof.
  apply (@runQuery_non200_swallowed (test_service 502 (bs "Bad Gateway")) test_format
           (test_decoder scenario_reply) _ _ _ 502 (bs "Bad Gateway"));
    [reflexivity | discriminate | reflexivity | discriminate].
Defined.

Lemma runQuery_decode_error_witness :
  fst (@runQuery (test_service 200 (bs "[1.5]")) test_format
         {| unmarshal_lambdaResult := fun _ => Err "json: cannot unmarshal number 1.5" |}
         "us-east-1" scenario_query []) = Err "json: cannot unmarshal number 1.5".
Proof.
  apply (@runQuery_decode_error (test_service 200 (bs "[1.5]")) test_format
           {| unmarshal_lambdaResult := fun _ => Err "json: cannot unmarshal number 1.5" |}
           _ _ _ (bs "[1.5]")); [reflexivity | discriminate | reflexivity | reflexivity].
Defined.

Lemma runQuery_success_witness :
  fst (@runQuery (test_service 200 []) test_format (test_decoder scenario_reply)
         "us-east-1" scenario_query []) =
  Ok (map (series_spec "foo" "f1" "count") scenario_reply).
Proof.
  rewrite (@runQuery_success (test_service 200 []) test_format (test_decoder scenario_reply)
             "us-east-1" scenario_query [] [] scenario_reply);
    [reflexivity | reflexivity | discriminate | reflexivity..].
Defined.

End Backend.
