(* ===== verification/JsonDecode.v ===== *)
(** * [json.Unmarshal] of the Lambda reply into a [lambdaResult]

    [src/main.go], lines 95-99: [var jsonResult lambdaResult;
    err = json.Unmarshal(resp.Payload, &jsonResult)].  After the syntax
    check of [JsonParse], Go's decoder ([encoding/json/decode.go])
    stores the value into the Go type [[]timeSerie]: [null] leaves a
    slice nil and a struct or string unchanged; an array gives one
    element per item; an object sets the fields whose name matches a key
    up to case ([Target], [Datapoints]), the last occurrence winning, and
    ignores other keys; a string is unquoted ([JsonString.unquote]); a number stored in an [int] must be
    an integer literal of 64 bits ([strconv.ParseInt]).  Any other
    combination is an [UnmarshalTypeError], which [json.Unmarshal]
    returns: the model stops at the first one.  A payload that fails the
    syntax check gives Go's [SyntaxError] message of [JsonParse], as it
    is.  The version is Go 1.20's [encoding/json]. *)

From S2P Require Import Prelude Utf8 Prompb Extract TimeConv Json JsonParse JsonString Mapper Backend.

Module JsonDecode.

Import Utf8 Extract TimeConv Json JsonParse JsonString Mapper Backend.
Open Scope Z_scope.

(** ** Field names up to case *)

(** A key's runes folded to upper case: ASCII letters, and the two
    runes Go folds onto ASCII letters, U+017F (long s) and U+212A
    (Kelvin sign); [None] for any other non-ASCII rune, which matches no
    ASCII field name. *)
Fixpoint fold_key (fuel : nat) (k : bytes) : option bytes :=
  match fuel with
  | O => Some []
  | S f =>
      match k with
      | [] => Some []
      | c :: k' =>
          let v := byte_val c in
          if v <? 128 then
            rest ← fold_key f k';
            Some ((if in_range 97 122 c then byte_of (v - 32) else c) :: rest)
          else
            let '(r, size) := decode_rune k in
            if r =? 383 then rest ← fold_key f (drop size k); Some ("S"%char :: rest)
            else if r =? 8490 then rest ← fold_key f (drop size k); Some ("K"%char :: rest)
            else None
      end
  end.

Definition upper (s : bytes) : bytes :=
  map (fun c => if in_range 97 122 c then byte_of (byte_val c - 32) else c) s.

(** The key names the field [name] (Go's [foldFunc] / [foldName]). *)
Definition field_matches (name key : bytes) : bool :=
  match fold_key (length key) key with
  | Some k => bool_decide (k = upper name)
  | None => false
  end.

(** ** Storing values into the Go types

    Go decodes in place: [null] leaves an [int], a [string] or a struct
    as it is and sets a slice to nil; an array is decoded element by
    element into the slice already there, elements past its length
    starting from zero, and the slice is cut to the array's length. *)

(** The [Value] of an [UnmarshalTypeError]. *)
Definition kind_of (v : JVal) : string :=
  match v with
  | JNull => "null"
  | JTrue | JFalse => "bool"
  | JNum _ => "number"
  | JStr _ => "string"
  | JArr _ => "array"
  | JObj _ => "object"
  end.

(** [UnmarshalTypeError.Error()], inside a field of [timeSerie] or not. *)
Definition type_error {A} (field : option string) (what ty : string) : outcome A :=
  Err ("json: cannot unmarshal " +:+ what +:+ " into " +:+
       match field with
       | Some f => "Go struct field timeSerie." +:+ f
       | None => "Go value"
       end +:+ " of type " +:+ ty).

(** The value of a run of decimal digits. *)
Definition digits_value (ds : bytes) : Z :=
  fold_left (fun acc c => acc * 10 + (byte_val c - 48)) ds 0.

(** [strconv.ParseInt(s, 10, 64)] on a JSON number lexeme: an optional
    minus sign and digits, within the range of [int64]; a fraction, an
    exponent or an overflow is an error. *)
Definition parse_int (lex : bytes) : option Z :=
  let '(neg, ds) := match lex with
                    | c :: r => if byte_is c 45 then (true, r) else (false, lex)
                    | [] => (false, [])
                    end in
  match ds with
  | [] => None
  | _ =>
      if forallb is_digit ds then
        let n := digits_value ds in
        let z := if neg then - n else n in
        if in_int64 z then Some z else None
      else None
  end.

(** A value into an [int] field element ([literalStore]). *)
Definition store_int (v : JVal) (cur : Z) : outcome Z :=
  match v with
  | JNull => Ok cur
  | JNum lex =>
      match parse_int lex with
      | Some z => Ok z
      | None => type_error (Some "Datapoints") ("number " +:+ String.string_of_list_ascii lex) "int"
      end
  | _ => type_error (Some "Datapoints") (kind_of v) "int"
  end.

(** An array into the slice [cur], element by element ([array]). *)
Fixpoint store_elems {A} (store : JVal -> A -> outcome A) (zero : A)
    (xs : list JVal) (cur : list A) : outcome (list A) :=
  match xs with
  | [] => Ok []
  | x :: xs' =>
      match store x (default zero (head cur)) with
      | Ok y =>
          match store_elems store zero xs' (tail cur) with
          | Ok ys => Ok (y :: ys)
          | Err e => Err e
          | Panic p => Panic p
          end
      | Err e => Err e
      | Panic p => Panic p
      end
  end.

Definition store_ints (v : JVal) (cur : list Z) : outcome (list Z) :=
  match v with
  | JNull => Ok []
  | JArr xs => store_elems store_int 0 xs cur
  | _ => type_error (Some "Datapoints") (kind_of v) "[]int"
  end.

Definition store_datapoints (v : JVal) (cur : list (list Z)) : outcome (list (list Z)) :=
  match v with
  | JNull => Ok []
  | JArr xs => store_elems store_ints [] xs cur
  | _ => type_error (Some "Datapoints") (kind_of v) "[][]int"
  end.

Definition store_string (v : JVal) (cur : string) : outcome string :=
  match v with
  | JNull => Ok cur
  | JStr raw => Ok (String.string_of_list_ascii (unquote raw))
  | _ => type_error (Some "Target") (kind_of v) "string"
  end.

(** The members of an object into a [timeSerie], in order ([object]):
    the key is unquoted and matched up to case; other keys are skipped. *)
Fixpoint store_members (kvs : list (bytes * JVal)) (ts : timeSerie) : outcome timeSerie :=
  match kvs with
  | [] => Ok ts
  | (k, v) :: kvs' =>
      let key := unquote k in
      if field_matches (bs "Target") key then
        match store_string v (Target ts) with
        | Ok t => store_members kvs' (mktimeSerie t (Datapoints ts))
        | Err e => Err e
        | Panic p => Panic p
        end
      else if field_matches (bs "Datapoints") key then
        match store_datapoints v (Datapoints ts) with
        | Ok d => store_members kvs' (mktimeSerie (Target ts) d)
        | Err e => Err e
        | Panic p => Panic p
        end
      else store_members kvs' ts
  end.

Definition zero_serie : timeSerie := mktimeSerie "" [].

Definition store_serie (v : JVal) (cur : timeSerie) : outcome timeSerie :=
  match v with
  | JNull => Ok cur
  | JObj kvs => store_members kvs cur
  | _ => type_error None (kind_of v) "main.timeSerie"
  end.

(** Into [var jsonResult lambdaResult], a nil slice. *)
Definition store_result (v : JVal) : outcome lambdaResult :=
  match v with
  | JNull => Ok []
  | JArr xs => store_elems store_serie zero_serie xs []
  | _ => type_error None (kind_of v) "main.lambdaResult"
  end.

(** [json.Unmarshal(data, &jsonResult)]: the syntax is checked first
    ([checkValid]), and its [SyntaxError] returned as it is. *)
Definition Unmarshal (data : bytes) : outcome lambdaResult :=
  v ← json_parse data; store_result v.

(** ** The reply as a Lambda function written in Go sends it

    [json.Marshal] of a [lambdaResult]: an array of objects with the
    fields [Target] (a string, escaped by [encodeState.string]) and
    [Datapoints] (arrays of decimal integers), without white space. *)

(** The decimal digits of [u >= 0], most significant first; 20 units of
    fuel cover every 64-bit magnitude. *)
Fixpoint dec_digits (fuel : nat) (u : Z) : bytes :=
  match fuel with
  | O => []
  | S f => if u <? 10 then [byte_of (48 + u)]
           else dec_digits f (u / 10) ++ [byte_of (48 + u mod 10)]
  end.

(** [strconv.AppendInt(b, z, 10)]. *)
Definition itoa (z : Z) : bytes :=
  (if z <? 0 then ["-"%char] else []) ++ dec_digits 20 (Z.abs z).

Definition serie_jval (ts : timeSerie) : JVal :=
  JObj [(bs "Target", JStr (escape (bs (Target ts))));
        (bs "Datapoints",
         JArr (map (fun dp => JArr (map (fun z => JNum (itoa z)) dp)) (Datapoints ts)))].

Definition reply_json (r : lambdaResult) : bytes := print_jval (JArr (map serie_jval r)).

(** Every datapoint of the reply is a 64-bit integer. *)
Definition reply_ints_ok (r : lambdaResult) : bool :=
  forallb (fun ts => forallb (forallb in_int64) (Datapoints ts)) r.

(** A series as the decoder gives it back: its target with invalid
    UTF-8 replaced by U+FFFD. *)
Definition sanitize_serie (ts : timeSerie) : timeSerie :=
  mktimeSerie (String.string_of_list_ascii (sanitize (bs (Target ts)))) (Datapoints ts).

(** A target with a two-byte rune, HTML characters and a quote, and the
    extreme datapoints of [int64]. *)
Definition sample_reply : lambdaResult :=
  [mktimeSerie (String.string_of_list_ascii (bs "t<" ++ [byte_of 195; byte_of 169] ++ json_text "'&>"))
               [[7; -1000]; [-9223372036854775808; 9223372036854775807]];
   mktimeSerie "" []].

#[export] Instance json_reply_decoder : ReplyDecoder :=
  {| unmarshal_lambdaResult := Unmarshal |}.

(** ** Lemmas *)

Lemma digit_byte u : 0 <= u < 10 -> is_digit (byte_of (48 + u)) = true /\ byte_val (byte_of (48 + u)) = 48 + u.
Proof.
  intros H. assert (Hv : byte_val (byte_of (48 + u)) = 48 + u).
  { unfold byte_val, byte_of. rewrite N_ascii_embedding by lia. lia. }
  split; [|done]. unfold is_digit, in_range. rewrite Hv. zbool.
Qed.

Lemma dec_digits_S f u :
  dec_digits (S f) u =
  if u <? 10 then [byte_of (48 + u)] else dec_digits f (u / 10) ++ [byte_of (48 + u mod 10)].
Proof. reflexivity. Qed.

Lemma dec_digits_spec f u :
  0 <= u < 10 ^ Z.of_nat (S f) ->
  exists c ds, dec_digits (S f) u = c :: ds /\ forallb is_digit (c :: ds) = true /\
    digits_value (c :: ds) = u /\ (byte_is c 48 = true -> u = 0 /\ ds = []).
Proof.
  revert u. induction f as [|f IH]; intros u Hu.
  - cbn [dec_digits]. replace (u <? 10) with true by (symmetry; apply Z.ltb_lt; simpl in Hu; lia).
    destruct (digit_byte u ltac:(simpl in Hu; lia)) as [Hd Hv].
    exists (byte_of (48 + u)), []. unfold digits_value, byte_is. simpl. rewrite Hd, Hv.
    repeat split; try lia; intros ?%Z.eqb_eq; lia.
  - rewrite dec_digits_S. destruct (Z.ltb_spec u 10).
    + destruct (digit_byte u ltac:(lia)) as [Hd Hv].
      exists (byte_of (48 + u)), []. unfold digits_value, byte_is. simpl. rewrite Hd, Hv.
      repeat split; try lia; intros ?%Z.eqb_eq; lia.
    + destruct (IH (u / 10)) as (c & ds & Heq & Hall & Hval & H0).
      { rewrite Nat2Z.inj_succ, Z.pow_succ_r in Hu by lia.
        split; [apply Z.div_pos; lia|]. apply Z.div_lt_upper_bound; lia. }
      destruct (digit_byte (u mod 10) ltac:(apply Z.mod_pos_bound; lia)) as [Hd Hv].
      exists c, (ds ++ [byte_of (48 + u mod 10)]). rewrite Heq. split; [done|].
      split; [rewrite app_comm_cons, forallb_app, Hall; simpl; by rewrite Hd|].
      split.
      * unfold digits_value in *. rewrite app_comm_cons, fold_left_app, Hval. simpl.
        rewrite Hv. pose proof (Z.div_mod u 10). lia.
      * intros Hc. destruct (H0 Hc) as [Hz _].
        assert (1 <= u / 10) by (apply Z.div_le_lower_bound; lia). lia.
Qed.

Lemma span_digits_all ds : forallb is_digit ds = true -> span_digits ds = (ds, []).
Proof.
  induction ds as [|c ds IH]; [done|]. simpl. intros [-> H]%andb_prop. by rewrite IH.
Qed.

Lemma digit_not_minus c : is_digit c = true -> byte_is c 45 = false.
Proof.
  unfold is_digit, in_range, byte_is. intros [H1 H2]%andb_prop.
  apply Z.leb_le in H1, H2. zbool.
Qed.

Lemma itoa_digits_wide z :
  Z.abs z < 10 ^ 20 ->
  exists c ds, dec_digits 20 (Z.abs z) = c :: ds /\ forallb is_digit (c :: ds) = true /\
    digits_value (c :: ds) = Z.abs z /\ (byte_is c 48 = true -> z = 0 /\ ds = []).
Proof.
  intros Hz. destruct (dec_digits_spec 19 (Z.abs z)) as (c & ds & H1 & H2 & H3 & H4); [lia|].
  exists c, ds. do 3 (split; [done|]). intros Hc. destruct (H4 Hc). split; [lia|done].
Qed.

Lemma itoa_digits z :
  in_int64 z = true ->
  exists c ds, dec_digits 20 (Z.abs z) = c :: ds /\ forallb is_digit (c :: ds) = true /\
    digits_value (c :: ds) = Z.abs z /\ (byte_is c 48 = true -> z = 0 /\ ds = []).
Proof.
  intros Hz. apply itoa_digits_wide. apply in_int64_spec in Hz. unfold int64_min, int64_max in Hz.
  change (10 ^ 20) with 100000000000000000000. lia.
Qed.

Lemma scan_number_itoa z : in_int64 z = true -> scan_number (itoa z) = Ok (itoa z, []).
Proof.
  intros Hz. destruct (itoa_digits z Hz) as (c & ds & Hd & Hall & _ & H0).
  unfold itoa. rewrite Hd. simpl in Hall. apply andb_prop in Hall as [Hc Hds].
  unfold scan_number.
  assert (Hint : scan_int (c :: ds) = Ok (c :: ds, [])).
  { simpl. destruct (byte_is c 48) eqn:E.
    - by destruct (H0 eq_refl) as [_ ->].
    - by rewrite Hc, span_digits_all. }
  destruct (Z.ltb_spec z 0).
  - change (scan_sign (["-"%char] ++ c :: ds)) with (["-"%char], c :: ds).
    cbn -[scan_int]. rewrite Hint. simpl. by rewrite !app_nil_r.
  - cbn [app scan_sign]. rewrite digit_not_minus by done.
    cbn -[scan_int]. rewrite Hint. simpl. by rewrite !app_nil_r.
Qed.

Lemma parse_int_digits (neg : bool) c ds :
  forallb is_digit (c :: ds) = true ->
  parse_int ((if neg then ["-"%char] else []) ++ c :: ds) =
  let n := digits_value (c :: ds) in
  if in_int64 (if neg then - n else n) then Some (if neg then - n else n) else None.
Proof.
  intros Hall. assert (Hc : is_digit c = true) by (simpl in Hall; by apply andb_prop in Hall as [? _]).
  unfold parse_int. destruct neg; simpl; [simpl in Hall|rewrite digit_not_minus by done];
    rewrite Hall; reflexivity.
Qed.

(** [strconv.ParseInt] of the decimal text of any integer of at most 20
    digits: its value when it fits [int64], else a range error. *)
Lemma parse_int_itoa_wide z :
  Z.abs z < 10 ^ 20 -> parse_int (itoa z) = if in_int64 z then Some z else None.
Proof.
  intros Hz. destruct (itoa_digits_wide z Hz) as (c & ds & Hd & Hall & Hval & _).
  unfold itoa. rewrite Hd, (parse_int_digits (z <? 0) c ds Hall). cbv zeta. rewrite Hval.
  destruct (Z.ltb_spec z 0); [replace (- Z.abs z) with z by lia|replace (Z.abs z) with z by lia]; done.
Qed.

Lemma parse_int_itoa z : in_int64 z = true -> parse_int (itoa z) = Some z.
Proof.
  intros Hz. rewrite parse_int_itoa_wide, Hz; [done|].
  apply in_int64_spec in Hz. unfold int64_min, int64_max in Hz.
  change (10 ^ 20) with 100000000000000000000. lia.
Qed.

Lemma store_elems_nil {A} (store : JVal -> A -> outcome A) zero xs (g : JVal -> A) :
  (forall x, In x xs -> store x zero = Ok (g x)) -> store_elems store zero xs [] = Ok (map g xs).
Proof.
  induction xs as [|x xs IH]; intros H; [done|]. simpl.
  rewrite (H x) by (left; done). rewrite IH; [done|]. intros y Hy. apply H. by right.
Qed.

Lemma store_int_itoa z cur : in_int64 z = true -> store_int (JNum (itoa z)) cur = Ok z.
Proof. intros Hz. unfold store_int. by rewrite parse_int_itoa. Qed.

Lemma store_ints_itoa dp :
  forallb in_int64 dp = true -> store_ints (JArr (map (fun z => JNum (itoa z)) dp)) [] = Ok dp.
Proof.
  unfold store_ints. induction dp as [|z dp IH]; [done|]. simpl forallb. intros [Hz Hdp]%andb_prop.
  cbn [map store_elems head tail default]. rewrite store_int_itoa by done. by rewrite IH.
Qed.

Lemma store_datapoints_itoa d :
  forallb (forallb in_int64) d = true ->
  store_datapoints (JArr (map (fun dp => JArr (map (fun z => JNum (itoa z)) dp)) d)) [] = Ok d.
Proof.
  unfold store_datapoints. induction d as [|dp d IH]; [done|]. simpl forallb.
  intros [Hdp Hd]%andb_prop.
  cbn [map store_elems head tail default]. rewrite store_ints_itoa by done. by rewrite IH.
Qed.

Lemma key_Target : unquote (bs "Target") = bs "Target".
Proof. reflexivity. Qed.
Lemma key_Datapoints : unquote (bs "Datapoints") = bs "Datapoints".
Proof. reflexivity. Qed.
Lemma match_Target : field_matches (bs "Target") (bs "Target") = true.
Proof. reflexivity. Qed.
Lemma match_Target_Datapoints : field_matches (bs "Target") (bs "Datapoints") = false.
Proof. reflexivity. Qed.
Lemma match_Datapoints : field_matches (bs "Datapoints") (bs "Datapoints") = true.
Proof. reflexivity. Qed.

Lemma store_serie_json ts :
  forallb (forallb in_int64) (Datapoints ts) = true ->
  store_serie (serie_jval ts) zero_serie = Ok (sanitize_serie ts).
Proof.
  destruct ts as [t d]. simpl Datapoints. intros Hd. unfold serie_jval, store_serie.
  cbn [store_members Target Datapoints zero_serie].
  rewrite key_Target, match_Target. cbn [store_string].
  rewrite key_Datapoints, match_Target_Datapoints, match_Datapoints, store_datapoints_itoa by done.
  cbn. unfold sanitize_serie. simpl. by rewrite unquote_escape_sanitize.
Qed.

Lemma wf_serie ts : forallb (forallb in_int64) (Datapoints ts) = true -> wf_jval (serie_jval ts) = true.
Proof.
  destruct ts as [t d]. simpl Datapoints. intros Hd. unfold serie_jval. cbn [Target Datapoints].
  cbn [forallb wf_jval]. rewrite str_ok_escape.
  change (str_ok (bs "Target")) with true. change (str_ok (bs "Datapoints")) with true.
  cbn [andb]. rewrite andb_true_r, forallb_forall. rewrite forallb_forall in Hd.
  intros x (dp & <- & Hdp)%in_map_iff. cbn [wf_jval]. apply forallb_forall.
  intros y (z & <- & Hz)%in_map_iff. cbn [wf_jval]. apply bool_decide_eq_true, scan_number_itoa.
  specialize (Hd dp Hdp). rewrite forallb_forall in Hd. by apply Hd.
Qed.

Lemma wf_reply r : reply_ints_ok r = true -> wf_jval (JArr (map serie_jval r)) = true.
Proof.
  unfold reply_ints_ok. rewrite !forallb_forall. intros H. simpl. apply forallb_forall.
  intros x (ts & <- & Hin)%in_map_iff. by apply wf_serie, H.
Qed.

Lemma store_result_reply r :
  reply_ints_ok r = true -> store_result (JArr (map serie_jval r)) = Ok (map sanitize_serie r).
Proof.
  unfold reply_ints_ok, store_result. induction r as [|ts r IH]; [done|]. simpl forallb.
  intros [Hd Hr]%andb_prop. cbn [map store_elems head tail default].
  rewrite store_serie_json by done. by rewrite IH.
Qed.

Lemma max_list_with_le {A} (f : A -> nat) l n :
  (forall x, In x l -> (f x <= n)%nat) -> (max_list_with f l <= n)%nat.
Proof.
  induction l as [|x l IH]; intros H; [cbn; lia|]. cbn.
  apply Nat.max_lub; [apply H; by left|apply IH; intros; apply H; by right].
Qed.

(** The reply nests four deep: the array of series, a series, its
    datapoints, a datapoint. *)
Lemma nesting_reply r : (nesting (JArr (map serie_jval r)) <= 4)%nat.
Proof.
  cbn [nesting]. apply le_n_S, max_list_with_le. intros x (ts & <- & _)%in_map_iff.
  cbn [serie_jval nesting max_list_with]. apply le_n_S.
  enough (max_list_with nesting (map (fun dp => JArr (map (fun z => JNum (itoa z)) dp)) (Datapoints ts)) <= 1)%nat by lia.
  apply max_list_with_le. intros y (dp & <- & _)%in_map_iff. cbn [nesting]. apply le_n_S.
  apply max_list_with_le. intros z (k & <- & _)%in_map_iff. cbn. lia.
Qed.

Lemma unmarshal_reply r :
  reply_ints_ok r = true -> Unmarshal (reply_json r) = Ok (map sanitize_serie r).
Proof.
  intros H. unfold Unmarshal, reply_json.
  rewrite parse_document; [by apply store_result_reply|by apply wf_reply|].
  pose proof (nesting_reply r). assert (4 <= maxNestingDepth)%nat by (apply Nat.leb_le; reflexivity). lia.
Qed.

(** C5. Round trip of the Lambda reply: what a Go function writes for a
    [lambdaResult] of 64-bit datapoints, [json.Unmarshal] reads back,
    each target with its invalid UTF-8 replaced by U+FFFD. *)
Theorem reply_roundtrip r :
  reply_ints_ok r = true -> Unmarshal (reply_json r) = Ok (map sanitize_serie r).
Proof. apply unmarshal_reply. Qed.

(** With targets in valid UTF-8 the reply comes back unchanged. *)
Theorem reply_roundtrip_valid r :
  reply_ints_ok r = true -> forallb (fun ts => utf8_valid (bs (Target ts))) r = true ->
  Unmarshal (reply_json r) = Ok r.
Proof.
  intros Hi Hv. rewrite unmarshal_reply by done. f_equal.
  rewrite <- (map_id r) at 2. apply map_ext_in. intros [t d] Hin.
  rewrite forallb_forall in Hv. specialize (Hv _ Hin). simpl in Hv.
  unfold sanitize_serie. simpl. rewrite sanitize_valid by done.
  unfold bs. by rewrite String.string_of_list_ascii_of_string.
Qed.

(** A lexeme with a byte other than a digit after its sign is no
    [int]: [strconv.ParseInt] fails on a fraction or an exponent. *)
Lemma parse_int_not_integer lex c :
  In c lex -> is_digit c = false -> byte_is c 45 = false -> parse_int lex = None.
Proof.
  intros Hin Hd Hm. unfold parse_int.
  assert (Hall : forall ds, In c ds -> forallb is_digit ds = false).
  { intros ds Hds. apply forallb_false_exists. eauto. }
  destruct lex as [|c0 lex]; [done|]. destruct (byte_is c0 45) eqn:E.
  - destruct Hin as [<-|Hin]; [by rewrite Hm in E|].
    destruct lex; [done|]. by rewrite Hall.
  - by rewrite Hall.
Qed.

(** C33. A datapoint that is not an integer literal, such as [7.5] or
    [1e3], is an [UnmarshalTypeError]: the Go type of [Datapoints] is
    [[][]int]. *)
Theorem store_int_not_integer lex cur c :
  In c lex -> is_digit c = false -> byte_is c 45 = false ->
  store_int (JNum lex) cur =
  Err ("json: cannot unmarshal number " +:+ String.string_of_list_ascii lex +:+
       " into Go struct field timeSerie.Datapoints of type int").
Proof. intros Hin Hd Hm. unfold store_int. by rewrite (parse_int_not_integer lex c). Qed.

(** ** The decoder's type invariant: [int] is 64 bits *)

(** A store that keeps [p] keeps it along the elements of a slice, the
    elements the slice held before included. *)
Lemma store_elems_forallb {A} (p : A -> bool) (store : JVal -> A -> outcome A) zero xs cur ys :
  (forall x a b, p a = true -> store x a = Ok b -> p b = true) -> p zero = true ->
  forallb p cur = true -> store_elems store zero xs cur = Ok ys -> forallb p ys = true.
Proof.
  intros Hs Hz. revert cur ys. induction xs as [|x xs IH]; intros cur ys Hc H; cbn [store_elems] in H.
  - by injection H as <-.
  - destruct (store x _) as [y| |] eqn:E1; try done.
    destruct (store_elems _ _ xs _) as [ys'| |] eqn:E2; try done. injection H as <-. cbn [forallb].
    apply andb_true_intro. destruct cur as [|c cur]; cbn [forallb head tail default] in Hc |- *;
      [split; [eapply Hs, E1; done|eapply IH, E2; done]|].
    apply andb_prop in Hc as [Hc1 Hc2]. split; [eapply Hs, E1; done|eapply IH, E2; done].
Qed.

Lemma parse_int_int64 lex z : parse_int lex = Some z -> in_int64 z = true.
Proof.
  unfold parse_int. intros H. repeat case_match; simplify_eq; done.
Qed.

Lemma store_int_int64 v a b : in_int64 a = true -> store_int v a = Ok b -> in_int64 b = true.
Proof.
  intros Ha. destruct v; cbn [store_int]; try (by intros [= <-]); try (unfold type_error; done).
  destruct (parse_int _) eqn:E; [intros [= <-]; by eapply parse_int_int64|unfold type_error; done].
Qed.

Lemma store_datapoints_int64 v d d' :
  forallb (forallb in_int64) d = true -> store_datapoints v d = Ok d' -> forallb (forallb in_int64) d' = true.
Proof.
  intros Hd. destruct v; cbn [store_datapoints]; try (by intros [= <-]); try (unfold type_error; done).
  apply store_elems_forallb; [|done|done]. intros x a b Ha.
  destruct x; cbn [store_ints]; try (by intros [= <-]); try (unfold type_error; done).
  apply store_elems_forallb; [apply store_int_int64|done|done].
Qed.

Lemma store_members_int64 kvs ts ts' :
  forallb (forallb in_int64) (Datapoints ts) = true -> store_members kvs ts = Ok ts' ->
  forallb (forallb in_int64) (Datapoints ts') = true.
Proof.
  revert ts. induction kvs as [|[k v] kvs IH]; intros ts Hts; cbn [store_members]; [by intros [= <-]|].
  destruct (field_matches _ _); [destruct (store_string _ _); [by apply IH|done|done]|].
  destruct (field_matches _ _); [|by apply IH].
  destruct (store_datapoints _ _) eqn:E; [|done|done]. apply IH. by eapply store_datapoints_int64.
Qed.

Lemma Unmarshal_ints_ok data r : Unmarshal data = Ok r -> reply_ints_ok r = true.
Proof.
  unfold Unmarshal. destruct (json_parse data) as [v| |]; cbn; [|done|done].
  destruct v; cbn [store_result]; try (by intros [= <-]); try (unfold type_error; done).
  apply store_elems_forallb; [|done|done]. intros x a b Ha.
  destruct x; cbn [store_serie]; try (by intros [= <-]); try (unfold type_error; done).
  by apply store_members_int64.
Qed.

(** C27. The range check of [strconv.ParseInt] (line 32, [Datapoints
    [][]int]): a datapoint written as a decimal integer of up to 20
    digits is stored as its value when it fits Go's 64-bit [int], and
    otherwise rejected with the [UnmarshalTypeError] of its text, never
    wrapped around. *)
Theorem store_int_range z cur :
  Z.abs z < 10 ^ 20 ->
  store_int (JNum (itoa z)) cur =
  if in_int64 z then Ok z
  else Err ("json: cannot unmarshal number " +:+ String.string_of_list_ascii (itoa z) +:+
            " into Go struct field timeSerie.Datapoints of type int").
Proof. intros Hz. unfold store_int. rewrite parse_int_itoa_wide by done. by destruct (in_int64 z). Qed.

(** ** [runQuery] with Go's decoder *)

Section WithBackend.
Context `{LS : LambdaService} `{TF : TimeFormat}.

(** C32. [runQuery] composed with [json.Unmarshal]: a 200 reply that a Go
    function wrote for a well-formed [lambdaResult] of 64-bit datapoints
    gives one series per backend series, as the spec's mapping says. *)
Theorem runQuery_json_reply region q calls r :
  new_session_error region = None ->
  matcher_value "functionName" (Matchers q) <> "" ->
  lambda_invoke region (mkInvokeInput (matcher_value "functionName" (Matchers q)) (query_payload q))
    = Ok (mkInvokeOutput (Some 200) (reply_json r)) ->
  reply_ints_ok r = true -> reply_well_formed r = true ->
  fst (@runQuery LS TF json_reply_decoder region q calls) =
  Ok (map (series_spec (matcher_value "__name__" (Matchers q))
                       (matcher_value "functionName" (Matchers q))
                       (matcher_value "type" (Matchers q))) (map sanitize_serie r)).
Proof.
  intros Hs Hf Hi Hok Hw. rewrite runQuery_invoke, Hi by done.
  unfold handle_output. simpl. unfold bind, lift. simpl. rewrite unmarshal_reply by done.
  simpl. rewrite map_series_ok; [done|]. unfold reply_well_formed in *.
  rewrite forallb_forall in *. intros s (ts & <- & Hin)%in_map_iff. exact (Hw ts Hin).
Qed.

End WithBackend.

(** ** Witnesses *)

Lemma reply_roundtrip_witness :
  Unmarshal (reply_json [mktimeSerie (String.string_of_list_ascii [byte_of 255]) [[1; 2]]]) =
  Ok [mktimeSerie (String.string_of_list_ascii (encode_rune RuneError)) [[1; 2]]].
Proof. apply (reply_roundtrip [mktimeSerie (String.string_of_list_ascii [byte_of 255]) [[1; 2]]]). reflexivity. Defined.

Lemma reply_roundtrip_valid_witness : Unmarshal (reply_json sample_reply) = Ok sample_reply.
Proof. apply reply_roundtrip_valid; reflexivity. Defined.

Lemma store_int_range_witness :
  store_int (JNum (itoa (2 ^ 63))) 0 =
  Err "json: cannot unmarshal number 9223372036854775808 into Go struct field timeSerie.Datapoints of type int".
Proof. rewrite store_int_range; vm_compute; reflexivity. Defined.

Lemma store_int_not_integer_witness :
  store_int (JNum (bs "7.5")) 0 =
  Err "json: cannot unmarshal number 7.5 into Go struct field timeSerie.Datapoints of type int".
Proof. apply (store_int_not_integer (bs "7.5") 0 "."%char); [simpl; tauto | reflexivity | reflexivity]. Defined.

Lemma runQuery_json_reply_witness :
  fst (@runQuery (test_service 200 (reply_json scenario_reply)) test_format json_reply_decoder
         "us-east-1" scenario_query []) =
  Ok (map (series_spec "foo" "f1" "count") (map sanitize_serie scenario_reply)).
Proof.
  apply (@runQuery_json_reply (test_service 200 (reply_json scenario_reply)) test_format);
    [reflexivity | discriminate | reflexivity | reflexivity | reflexivity].
Defined.

End JsonDecode.
