(* ===== verification/Handler.v ===== *)
(** * The request handler: [http.HandleFunc("/read", ...)]

    [src/main.go], lines 156-202.  The handler reads the body, decodes
    it with snappy and protobuf, requires exactly one query, runs
    [runQuery] ([Backend]), marshals and compresses the [ReadResponse]
    and writes it.  Every failure is answered with [http.Error]: 400 for
    the body, decoding, the query count and [runQuery]'s errors, 500 for
    marshalling and for a failed write.  The state is the log of Lambda
    invocations and the [http.ResponseWriter]: its header map, the
    status and header sent with the first [WriteHeader] (later calls are
    ignored by [net/http]), and the body bytes written.  The snappy and
    protobuf codecs are the interface [WireCodec]. *)

From S2P Require Import Prelude Utf8 Prompb Extract TimeConv Json Mapper Backend JsonDecode.
From stdpp Require Import gmap.

Module Handler.

Import Utf8 Extract TimeConv Json Mapper Backend.
Open Scope Z_scope.
Local Open Scope go_scope.

(** ** The [http.ResponseWriter] of [net/http] *)

Record ResponseWriter : Type := mkRW {
  header : gmap string string;          (* w.Header() *)
  sent : option (Z * gmap string string); (* status and header, once written *)
  body : bytes                          (* the body bytes written *)
}.

Definition rw0 : ResponseWriter := mkRW ∅ None [].

(** [w.WriteHeader(code)]: only the first call has an effect. *)
Definition rw_write_header (code : Z) (w : ResponseWriter) : ResponseWriter :=
  match sent w with
  | Some _ => w
  | None => mkRW (header w) (Some (code, header w)) (body w)
  end.

(** [w.Write(data)]: an implicit [WriteHeader(http.StatusOK)] first, then
    the bytes, unless the connection fails with [werr].  (Every write of
    the handler follows a [Content-Type], so [net/http]'s sniffing of a
    missing content type never applies and is not modelled.) *)
Definition rw_write (werr : option string) (data : bytes) (w : ResponseWriter)
  : option string * ResponseWriter :=
  let w := rw_write_header 200 w in
  match werr with
  | Some e => (Some e, w)
  | None => (None, mkRW (header w) (sent w) (body w ++ data))
  end.

(** ** The codecs the handler calls *)

Class WireCodec : Type := {
  snappy_Decode : bytes -> outcome bytes;
  snappy_Encode : bytes -> outcome bytes;  (* a [Panic] for an input too large *)
  unmarshal_ReadRequest : bytes -> outcome ReadRequest;
  marshal_ReadResponse : ReadResponse -> outcome bytes
}.

(** ** The handler's state *)

Record HState : Type := mkHState {
  calls : Calls;
  rw : ResponseWriter
}.

Section ReadHandler.

Context `{LS : LambdaService} `{TF : TimeFormat} `{RD : ReplyDecoder} `{WC : WireCodec}.

(** The connection's write error, if the client has gone. *)
Variable werr : option string.

Definition modify_rw (f : ResponseWriter -> ResponseWriter) : goM HState unit :=
  fun st => (Ok tt, mkHState (calls st) (f (rw st))).

(** [w.Header().Set(k, v)] *)
Definition header_set (k v : string) : goM HState unit :=
  modify_rw (fun w => mkRW (<[k := v]> (header w)) (sent w) (body w)).

Definition write (data : bytes) : goM HState (option string) :=
  fun st => let '(e, w) := rw_write werr data (rw st) in (Ok e, mkHState (calls st) w).

(** [http.Error(w, error, code)]: a plain-text body, the status, and the
    message followed by a newline ([fmt.Fprintln], whose error is
    dropped). *)
Definition http_Error (error : string) (code : Z) : goM HState unit :=
  header_set "Content-Type" "text/plain; charset=utf-8" ;;;
  header_set "X-Content-Type-Options" "nosniff" ;;;
  modify_rw (rw_write_header code) ;;;
  _ <- write (bs error ++ ["010"%char]) ;;
  ret tt.

(** [v, err := f(...); if err != nil { http.Error(w, err.Error(), code);
    return }]: the error of a call answered with a status. *)
Definition check {A} (o : outcome A) (code : Z) (k : A -> goM HState unit) : goM HState unit :=
  match o with
  | Ok a => k a
  | Err e => http_Error e code
  | Panic p => panic p
  end.

(** Run [runQuery] on the log of calls and return its [error] as a
    value; a panic goes on unwinding. *)
Definition run_backend (region : string) (q : Query) : goM HState (outcome (list TimeSeries)) :=
  fun st =>
    let '(o, c) := runQuery region q (calls st) in
    match o with
    | Panic p => (Panic p, mkHState c (rw st))
    | _ => (Ok o, mkHState c (rw st))
    end.

(** Lines 186-201. *)
Definition respond (timeSeries : list TimeSeries) : goM HState unit :=
  let resp := mkReadResponse [mkQueryResult timeSeries] in
  check (marshal_ReadResponse resp) 500 (fun data =>
  header_set "Content-Type" "application/x-protobuf" ;;;
  enc <- lift (snappy_Encode data) ;;
  e <- write enc ;;
  match e with
  | Some msg => http_Error msg 500
  | None => ret tt
  end).

(** Lines 175-185, once the request is decoded. *)
Definition handle_queries (region : string) (req : ReadRequest) : goM HState unit :=
  match Queries req with
  | [q] =>
      r <- run_backend region q ;;
      check r 400 respond
  | _ => http_Error "Can only handle one query." 400
  end.

(** Lines 156-202: the handler, for the region resolved at start-up and
    the result of [ioutil.ReadAll(r.Body)]. *)
Definition read_handler (region : string) (reqBody : outcome bytes) : goM HState unit :=
  check reqBody 400 (fun compressed =>
  check (snappy_Decode compressed) 400 (fun reqBuf =>
  check (unmarshal_ReadRequest reqBuf) 400 (fun req =>
  handle_queries region req))).

(** The three decoding steps of lines 157-173 as one. *)
Definition decode_request (reqBody : outcome bytes) : outcome ReadRequest :=
  match reqBody with
  | Ok compressed =>
      match snappy_Decode compressed with
      | Ok reqBuf => unmarshal_ReadRequest reqBuf
      | Err e => Err e
      | Panic p => Panic p
      end
  | Err e => Err e
  | Panic p => Panic p
  end.

(** ** What the client receives *)

(** The header [http.Error] sends. *)
Definition text_plain_header : gmap string string :=
  <["X-Content-Type-Options" := "nosniff"]> (<["Content-Type" := "text/plain; charset=utf-8"]> ∅).

Definition protobuf_header : gmap string string :=
  <["Content-Type" := "application/x-protobuf"]> ∅.

(** A fresh writer after [http.Error(w, msg, code)] on a live connection. *)
Definition error_rw (msg : string) (code : Z) : ResponseWriter :=
  mkRW text_plain_header (Some (code, text_plain_header)) (bs msg ++ ["010"%char]).

(** ** Lemmas *)

Lemma http_Error_fresh msg code c :
  werr = None ->
  http_Error msg code (mkHState c rw0) = (Ok tt, mkHState c (error_rw msg code)).
Proof.
  intros H. unfold http_Error, bind, ret, header_set, modify_rw, write, rw_write.
  simpl. rewrite H. reflexivity.
Qed.

Lemma check_ok {A} (a : A) code k st : check (Ok a) code k st = k a st.
Proof. reflexivity. Qed.

Lemma check_err {A} e code (k : A -> goM HState unit) st :
  check (Err e) code k st = http_Error e code st.
Proof. reflexivity. Qed.

Lemma read_handler_decode region reqBody st :
  read_handler region reqBody st =
  check (decode_request reqBody) 400 (handle_queries region) st.
Proof.
  unfold read_handler, decode_request.
  destruct reqBody as [c| |]; [|done|done]. rewrite check_ok.
  destruct (snappy_Decode c); [|done|done]. rewrite check_ok. done.
Qed.

Lemma run_backend_ok region q c c' w ts :
  runQuery region q c = (Ok ts, c') ->
  run_backend region q (mkHState c w) = (Ok (Ok ts), mkHState c' w).
Proof. intros H. unfold run_backend. simpl. by rewrite H. Qed.

Lemma run_backend_err region q c c' w e :
  runQuery region q c = (Err e, c') ->
  run_backend region q (mkHState c w) = (Ok (Err e), mkHState c' w).
Proof. intros H. unfold run_backend. simpl. by rewrite H. Qed.

(** The path of a decoded request with one query that [runQuery]
    answers: the handler goes on with [respond]. *)
Lemma read_handler_to_respond region reqBody req q c c' ts :
  decode_request reqBody = Ok req -> Queries req = [q] -> runQuery region q c = (Ok ts, c') ->
  read_handler region reqBody (mkHState c rw0) = respond ts (mkHState c' rw0).
Proof.
  intros Hd Hq Hr. rewrite read_handler_decode, Hd, check_ok. unfold handle_queries.
  rewrite Hq. eapply eq_trans; [apply (bind_ok _ _ _ _ _ (run_backend_ok _ _ _ _ _ _ Hr))|].
  by rewrite check_ok.
Qed.

Lemma respond_ok ts c data enc :
  werr = None -> marshal_ReadResponse (mkReadResponse [mkQueryResult ts]) = Ok data ->
  snappy_Encode data = Ok enc ->
  respond ts (mkHState c rw0) = (Ok tt, mkHState c (mkRW protobuf_header (Some (200, protobuf_header)) enc)).
Proof.
  intros Hw Hm He. unfold respond. rewrite Hm, check_ok.
  unfold bind, header_set, modify_rw, write, rw_write, lift. simpl. by rewrite He, Hw.
Qed.

(** ** Properties *)

(** C22. A request that cannot be read or decoded (body, snappy or
    protobuf) is answered 400 with the decoder's message, before any
    Lambda invocation. *)
Theorem read_handler_decode_error region reqBody e c :
  werr = None -> decode_request reqBody = Err e ->
  read_handler region reqBody (mkHState c rw0) = (Ok tt, mkHState c (error_rw e 400)).
Proof.
  intros Hw Hd. rewrite read_handler_decode, Hd, check_err. by apply http_Error_fresh.
Qed.

(** C4. A request whose envelope holds zero or two or more queries is
    answered 400 "Can only handle one query." and never reaches the
    Lambda service. *)
Theorem read_handler_one_query region reqBody req c :
  werr = None -> decode_request reqBody = Ok req -> length (Queries req) <> 1%nat ->
  read_handler region reqBody (mkHState c rw0) =
  (Ok tt, mkHState c (error_rw "Can only handle one query." 400)).
Proof.
  intros Hw Hd Hn. rewrite read_handler_decode, Hd, check_ok. unfold handle_queries.
  destruct (Queries req) as [|q [|q' qs]]; simpl in Hn; try lia; by apply http_Error_fresh.
Qed.

(** C23. An error of [runQuery] (no function name, a failed invocation,
    an undecodable reply) is answered 400 with its message; the calls
    [runQuery] made stay made. *)
Theorem read_handler_backend_error region reqBody req q c c' e :
  werr = None -> decode_request reqBody = Ok req -> Queries req = [q] ->
  runQuery region q c = (Err e, c') ->
  read_handler region reqBody (mkHState c rw0) = (Ok tt, mkHState c' (error_rw e 400)).
Proof.
  intros Hw Hd Hq Hr. rewrite read_handler_decode, Hd, check_ok. unfold handle_queries.
  rewrite Hq. eapply eq_trans; [apply (bind_ok _ _ _ _ _ (run_backend_err _ _ _ _ _ _ Hr))|].
  rewrite check_err. by apply http_Error_fresh.
Qed.

(** C12. The successful path: the series of [runQuery] go out in one
    [QueryResult], marshalled and snappy-compressed, with status 200 and
    content type [application/x-protobuf]. *)
Theorem read_handler_success region reqBody req q c c' ts data enc :
  werr = None -> decode_request reqBody = Ok req -> Queries req = [q] ->
  runQuery region q c = (Ok ts, c') ->
  marshal_ReadResponse (mkReadResponse [mkQueryResult ts]) = Ok data ->
  snappy_Encode data = Ok enc ->
  read_handler region reqBody (mkHState c rw0) =
  (Ok tt, mkHState c' (mkRW protobuf_header (Some (200, protobuf_header)) enc)).
Proof.
  intros Hw Hd Hq Hr Hm He. rewrite (read_handler_to_respond _ _ req q _ _ ts) by done.
  by apply (respond_ok _ _ data).
Qed.

(** A marshalling failure of the response is a server fault:
    answered 500 with its message. *)
Theorem read_handler_marshal_error region reqBody req q c c' ts e :
  werr = None -> decode_request reqBody = Ok req -> Queries req = [q] ->
  runQuery region q c = (Ok ts, c') ->
  marshal_ReadResponse (mkReadResponse [mkQueryResult ts]) = Err e ->
  read_handler region reqBody (mkHState c rw0) = (Ok tt, mkHState c' (error_rw e 500)).
Proof.
  intros Hw Hd Hq Hr Hm. rewrite (read_handler_to_respond _ _ req q _ _ ts) by done.
  unfold respond. rewrite Hm, check_err. by apply http_Error_fresh.
Qed.

(** C24. When writing the response fails, the [http.Error(w, ..., 500)]
    that follows cannot change the response: the status already sent is
    200 with the protobuf content type, and no body byte was written. *)
Theorem read_handler_write_error region reqBody req q c c' ts data enc e :
  werr = Some e -> decode_request reqBody = Ok req -> Queries req = [q] ->
  runQuery region q c = (Ok ts, c') ->
  marshal_ReadResponse (mkReadResponse [mkQueryResult ts]) = Ok data ->
  snappy_Encode data = Ok enc ->
  read_handler region reqBody (mkHState c rw0) =
  (Ok tt, mkHState c' (mkRW text_plain_header (Some (200, protobuf_header)) [])).
Proof.
  intros Hw Hd Hq Hr Hm He. rewrite (read_handler_to_respond _ _ req q _ _ ts) by done.
  unfold respond. rewrite Hm, check_ok.
  unfold bind, header_set, modify_rw, write, rw_write, http_Error, bind, ret, lift. simpl.
  rewrite He, Hw. simpl. unfold header_set, modify_rw, write, rw_write, bind. simpl. rewrite Hw.
  simpl. reflexivity.
Qed.

End ReadHandler.

(** ** Test double of the codecs, the end-to-end scenario and the witnesses *)

(** Codecs that decode every body to a fixed request and marshal a
    response to a fixed payload; compression is the identity. *)
Definition test_codec (req : ReadRequest) (marshalled : outcome bytes) : WireCodec :=
  {| snappy_Decode := fun b => Ok b;
     snappy_Encode := fun b => Ok b;
     unmarshal_ReadRequest := fun _ => Ok req;
     marshal_ReadResponse := fun _ => marshalled |}.

Definition scenario_request : ReadRequest := mkReadRequest [scenario_query].

(** The reply of the scenario as the function sends it. *)
Definition scenario_json : bytes :=
  json_text "[{'Target':'t1','Datapoints':[[7,1000],[9,4000]]}]".

(** The scenario of the specification: matchers [__name__="foo"],
    [functionName="f1"], [target="t1"], [type="count"], range [1000, 5000]
    ms, the reply [scenario_json] decoded by Go's [json.Unmarshal]: the
    handler answers 200 with one series labelled as the query says,
    with samples [(7.0, 1000)] and [(9.0, 4000)], after one invocation
    of ["f1"]. *)
Example scenario_end_to_end :
  let '(o, st) := @read_handler (test_service 200 scenario_json) test_format
                    JsonDecode.json_reply_decoder
                    (test_codec scenario_request (Ok (bs "data"))) None "us-east-1"
                    (Ok []) (mkHState [] rw0) in
  o = Ok tt /\ map snd (calls st) = [mkInvokeInput "f1" (@query_payload test_format scenario_query)] /\
  sent (rw st) = Some (200, protobuf_header) /\
  @runQuery (test_service 200 scenario_json) test_format JsonDecode.json_reply_decoder "us-east-1"
     scenario_query [] =
  (Ok [mkTimeSeries [mkLabel "__name__" "foo"; mkLabel "functionName" "f1";
                     mkLabel "target" "t1"; mkLabel "type" "count"]
                    [mkSample (float64_of_int 7) 1000; mkSample (float64_of_int 9) 4000]],
   [("us-east-1", mkInvokeInput "f1" (@query_payload test_format scenario_query))]).
Proof. vm_compute. repeat split. Qed.

(** The same query when the function sends a fractional value: the
    decoder's [UnmarshalTypeError] becomes a 400 response carrying its
    text. *)
Example scenario_fractional_value :
  snd (@read_handler (test_service 200 (json_text "[{'Target':'t1','Datapoints':[[7.5,1000]]}]"))
         test_format JsonDecode.json_reply_decoder
         (test_codec scenario_request (Ok (bs "data"))) None "us-east-1"
         (Ok []) (mkHState [] rw0)) =
  mkHState [("us-east-1", mkInvokeInput "f1" (@query_payload test_format scenario_query))]
    (error_rw "json: cannot unmarshal number 7.5 into Go struct field timeSerie.Datapoints of type int" 400).
Proof. vm_compute. reflexivity. Qed.

Lemma read_handler_decode_error_witness :
  @read_handler (test_service 200 []) test_format (test_decoder [])
    (test_codec scenario_request (Ok [])) None "us-east-1" (Err "unexpected EOF") (mkHState [] rw0)
  = (Ok tt, mkHState [] (error_rw "unexpected EOF" 400)).
Proof.
  apply (@read_handler_decode_error (test_service 200 []) test_format (test_decoder [])
           (test_codec scenario_request (Ok [])) None); reflexivity.
Defined.

Lemma read_handler_one_query_witness :
  @read_handler (test_service 200 []) test_format (test_decoder [])
    (test_codec (mkReadRequest [scenario_query; scenario_query]) (Ok [])) None "us-east-1"
    (Ok []) (mkHState [] rw0)
  = (Ok tt, mkHState [] (error_rw "Can only handle one query." 400)).
Proof.
  apply (@read_handler_one_query (test_service 200 []) test_format (test_decoder [])
           (test_codec (mkReadRequest [scenario_query; scenario_query]) (Ok [])) None
           _ _ (mkReadRequest [scenario_query; scenario_query]));
    [reflexivity | reflexivity | discriminate].
Defined.

Lemma read_handler_backend_error_witness :
  @read_handler (test_service 200 []) test_format (test_decoder [])
    (test_codec (mkReadRequest [wiped_query]) (Ok [])) None "us-east-1" (Ok []) (mkHState [] rw0)
  = (Ok tt, mkHState [] (error_rw "no function name specified" 400)).
Proof.
  apply (@read_handler_backend_error (test_service 200 []) test_format (test_decoder [])
           (test_codec (mkReadRequest [wiped_query]) (Ok [])) None
           _ _ (mkReadRequest [wiped_query]) wiped_query); reflexivity.
Defined.

Lemma read_handler_success_witness :
  @read_handler (test_service 200 []) test_format (test_decoder scenario_reply)
    (test_codec scenario_request (Ok (bs "data"))) None "us-east-1" (Ok []) (mkHState [] rw0)
  = (Ok tt, mkHState [("us-east-1", mkInvokeInput "f1" (@query_payload test_format scenario_query))]
                     (mkRW protobuf_header (Some (200, protobuf_header)) (bs "data"))).
Proof.
  apply (@read_handler_success (test_service 200 []) test_format (test_decoder scenario_reply)
           (test_codec scenario_request (Ok (bs "data"))) None
           _ _ scenario_request scenario_query _ _
           (map (series_spec "foo" "f1" "count") scenario_reply) (bs "data")); reflexivity.
Defined.

Lemma read_handler_marshal_error_witness :
  @read_handler (test_service 200 []) test_format (test_decoder scenario_reply)
    (test_codec scenario_request (Err "proto: oversized")) None "us-east-1" (Ok [])
    (mkHState [] rw0)
  = (Ok tt, mkHState [("us-east-1", mkInvokeInput "f1" (@query_payload test_format scenario_query))]
                     (error_rw "proto: oversized" 500)).
Proof.
  apply (@read_handler_marshal_error (test_service 200 []) test_format (test_decoder scenario_reply)
           (test_codec scenario_request (Err "proto: oversized")) None
           _ _ scenario_request scenario_query _ _
           (map (series_spec "foo" "f1" "count") scenario_reply)); reflexivity.
Defined.

Lemma read_handler_write_error_witness :
  @read_handler (test_service 200 []) test_format (test_decoder scenario_reply)
    (test_codec scenario_request (Ok (bs "data"))) (Some "write: broken pipe") "us-east-1"
    (Ok []) (mkHState [] rw0)
  = (Ok tt, mkHState [("us-east-1", mkInvokeInput "f1" (@query_payload test_format scenario_query))]
                     (mkRW text_plain_header (Some (200, protobuf_header)) [])).
Proof.
  apply (@read_handler_write_error (test_service 200 []) test_format (test_decoder scenario_reply)
           (test_codec scenario_request (Ok (bs "data"))) (Some "write: broken pipe")
           _ _ scenario_request scenario_query _ _
           (map (series_spec "foo" "f1" "count") scenario_reply) (bs "data") (bs "data")
           "write: broken pipe"); reflexivity.
Defined.

End Handler.
