(* ===== verification/HandlerInv.v ===== *)
(** * What the handler does to the [http.ResponseWriter]

    The handler of [src/main.go] (lines 156-202, modelled in [Handler])
    touches the response only through four operations of [net/http]:
    [w.Header().Set], [w.WriteHeader] (called by [http.Error] with 400
    or 500), [w.Write] (an implicit [WriteHeader(200)] first) and, in
    [http.Error], both.  [rw_step] is one of them, with the codes the
    handler uses; [rw_steps] any sequence of them.

    The invariant ([rw_steps_sent_ok]): along such a sequence a status
    once sent is one of the handler's codes and stays sent.  Every
    computation of the handler is such a sequence ([read_handler_mono]),
    and a run that completes has sent a status, one of 200, 400 and 500
    ([read_handler_responds]). *)

From S2P Require Import Prelude Utf8 Prompb Extract TimeConv Json Mapper Backend JsonDecode Handler.
From stdpp Require Import gmap relations.

Module HandlerInv.

Import Utf8 TimeConv Json Backend Handler.
Open Scope Z_scope.

(** The status codes the handler writes. *)
Definition handler_code (code : Z) : bool := (code =? 200) || (code =? 400) || (code =? 500).

(** One operation of the handler on the writer. *)
Inductive rw_step (werr : option string) : ResponseWriter -> ResponseWriter -> Prop :=
| step_header_set k v w :
    rw_step werr w (mkRW (<[k := v]> (header w)) (sent w) (body w))
| step_write_header code w :
    handler_code code = true -> rw_step werr w (rw_write_header code w)
| step_write data w :
    rw_step werr w (snd (rw_write werr data w)).

Definition rw_steps (werr : option string) : relation ResponseWriter := rtc (rw_step werr).

(** The status a writer has sent, if any, is one the handler writes. *)
Definition sent_ok (w : ResponseWriter) : bool :=
  match sent w with
  | None => true
  | Some (code, _) => handler_code code
  end.

Section Steps.

Context `{LS : LambdaService} `{TF : TimeFormat} `{RD : ReplyDecoder} `{WC : WireCodec}.
Variable werr : option string.

(** A computation of the handler changes the writer by operations only. *)
Definition rw_mono {A} (m : goM HState A) : Prop :=
  forall st o st', m st = (o, st') -> rw_steps werr (rw st) (rw st').

(** A computation that completes has sent a status. *)
Definition responds (m : goM HState unit) : Prop :=
  forall st st', m st = (Ok tt, st') -> sent (rw st') <> None.

(** ** One step *)

Lemma rw_step_sent w w' x :
  rw_step werr w w' -> sent w = Some x -> sent w' = Some x /\ body w `prefix_of` body w'.
Proof.
  intros Hs Hw. destruct Hs as [k v w|code w _|data w]; simpl.
  - by rewrite Hw.
  - unfold rw_write_header. by rewrite Hw.
  - unfold rw_write, rw_write_header. rewrite Hw.
    destruct werr; simpl; (split; [done|]); [reflexivity | by exists data].
Qed.

Lemma rw_step_sent_ok w w' : rw_step werr w w' -> sent_ok w = true -> sent_ok w' = true.
Proof.
  intros Hs Hw. destruct Hs as [k v w|code w Hc|data w]; [done| |].
  - unfold rw_write_header, sent_ok in *. destruct (sent w) as [[c h]|] eqn:E; simpl; by rewrite ?E.
  - unfold rw_write, rw_write_header, sent_ok in *.
    destruct (sent w) as [[c h]|] eqn:E; destruct werr; simpl; by rewrite ?E.
Qed.

(** ** The handler's combinators *)

Lemma rw_mono_ret {A} (a : A) : rw_mono (ret a).
Proof. intros st o st' [= _ <-]. apply rtc_refl. Qed.

Lemma rw_mono_panic {A} p : rw_mono (panic (A := A) p).
Proof. intros st o st' [= _ <-]. apply rtc_refl. Qed.

Lemma rw_mono_lift {A} (o : outcome A) : rw_mono (lift o).
Proof. intros st o' st' [= _ <-]. apply rtc_refl. Qed.

Lemma rw_mono_bind {A B} (m : goM HState A) (k : A -> goM HState B) :
  rw_mono m -> (forall a, rw_mono (k a)) -> rw_mono (bind m k).
Proof.
  intros Hm Hk st o st'. unfold bind.
  destruct (m st) as [[a|e|p] st1] eqn:E; intros H.
  - etrans; [apply (Hm _ _ _ E)|]. by apply (Hk a st1 o st').
  - injection H as _ <-. apply (Hm _ _ _ E).
  - injection H as _ <-. apply (Hm _ _ _ E).
Qed.

Lemma rw_mono_header_set k v : rw_mono (header_set k v).
Proof. intros st o st' [= _ <-]. apply rtc_once. constructor. Qed.

Lemma rw_mono_write_header code : handler_code code = true -> rw_mono (modify_rw (rw_write_header code)).
Proof. intros Hc st o st' [= _ <-]. apply rtc_once. by constructor. Qed.

Lemma rw_mono_write data : rw_mono (write werr data).
Proof.
  intros st o st'. unfold write. destruct (rw_write werr data (rw st)) as [e w] eqn:E.
  intros [= _ <-]. apply rtc_once. simpl. change w with (snd (e, w)). rewrite <- E. constructor.
Qed.

Lemma rw_mono_http_Error msg code : handler_code code = true -> rw_mono (http_Error werr msg code).
Proof.
  intros Hc. unfold http_Error.
  repeat (apply rw_mono_bind; [|intros _]);
    auto using rw_mono_header_set, rw_mono_write_header, rw_mono_write, rw_mono_ret.
Qed.

Lemma rw_mono_check {A} (o : outcome A) code k :
  handler_code code = true -> (forall a, rw_mono (k a)) -> rw_mono (check werr o code k).
Proof.
  intros Hc Hk. destruct o as [a|e|p]; simpl; auto using rw_mono_http_Error, rw_mono_panic.
Qed.

Lemma rw_mono_run_backend region q : rw_mono (run_backend region q).
Proof.
  intros st o st'. unfold run_backend. destruct (runQuery region q (calls st)) as [[] c].
  all: intros [= _ <-]; apply rtc_refl.
Qed.

Lemma rw_mono_respond ts : rw_mono (respond werr ts).
Proof.
  unfold respond. apply rw_mono_check; [done|]. intros data.
  apply rw_mono_bind; [apply rw_mono_header_set|]. intros _.
  apply rw_mono_bind; [apply rw_mono_lift|]. intros enc.
  apply rw_mono_bind; [apply rw_mono_write|]. intros [msg|].
  - by apply rw_mono_http_Error.
  - apply rw_mono_ret.
Qed.

Lemma rw_mono_handle_queries region req : rw_mono (handle_queries werr region req).
Proof.
  unfold handle_queries. destruct (Queries req) as [|q [|q' qs]];
    try (by apply rw_mono_http_Error); try apply rw_mono_ret.
  apply rw_mono_bind; [apply rw_mono_run_backend|]. intros r.
  apply rw_mono_check; [done|]. apply rw_mono_respond.
Qed.

(** ** Sending a status *)

Lemma responds_http_Error msg code : responds (http_Error werr msg code).
Proof.
  intros st st'. unfold http_Error, bind, ret, header_set, modify_rw, write, rw_write.
  simpl. unfold rw_write_header at 1. simpl.
  destruct (sent (rw st)) eqn:E; simpl; destruct werr; simpl; intros [= <-]; simpl;
    unfold rw_write_header; simpl; rewrite ?E; done.
Qed.

(** A status, once sent, survives every later step of the handler. *)
Lemma rw_steps_keep_sent w w' : rw_steps werr w w' -> sent w <> None -> sent w' <> None.
Proof.
  induction 1 as [w|w w1 w' Hs _ IH]; [done|]. intros Hw. apply IH.
  destruct (sent w) as [x|] eqn:E; [|done]. by rewrite (proj1 (rw_step_sent _ _ _ Hs E)).
Qed.

Lemma responds_bind_after {A} (m : goM HState A) (k : A -> goM HState unit) :
  (forall a, responds (k a)) -> responds (bind m k).
Proof.
  intros Hk st st'. unfold bind. destruct (m st) as [[a|e|p] st1]; [apply Hk|done|done].
Qed.

Lemma responds_bind_before (m : goM HState unit) (k : unit -> goM HState unit) :
  responds m -> (forall u, rw_mono (k u)) -> responds (bind m k).
Proof.
  intros Hm Hk st st'. unfold bind. destruct (m st) as [[[]|e|p] st1] eqn:E; [|done|done].
  intros H. apply (rw_steps_keep_sent (rw st1)); [apply (Hk tt _ _ _ H)|]. by apply (Hm st).
Qed.

Lemma responds_check {A} (o : outcome A) code k :
  (forall a, responds (k a)) -> responds (check werr o code k).
Proof.
  intros Hk. destruct o as [a|e|p]; simpl; [apply Hk|apply responds_http_Error|done].
Qed.

Lemma responds_write_then (data : bytes) (k : option string -> goM HState unit) :
  (forall e, rw_mono (k e)) -> responds (bind (write werr data) k).
Proof.
  intros Hk st st'. unfold bind, write. destruct (rw_write werr data (rw st)) as [e w] eqn:E.
  intros H. apply (rw_steps_keep_sent w); [apply (Hk e _ _ _ H)|].
  unfold rw_write, rw_write_header in E.
  destruct (sent (rw st)) eqn:Es; destruct werr; injection E as _ <-; simpl; by rewrite ?Es.
Qed.

Lemma responds_respond ts : responds (respond werr ts).
Proof.
  unfold respond. apply responds_check. intros data.
  apply responds_bind_after. intros _. apply responds_bind_after. intros enc. apply responds_write_then.
  intros [msg|]; [by apply rw_mono_http_Error | apply rw_mono_ret].
Qed.

Lemma responds_handle_queries region req : responds (handle_queries werr region req).
Proof.
  unfold handle_queries. destruct (Queries req) as [|q [|q' qs]]; try apply responds_http_Error.
  apply responds_bind_after. intros r. apply responds_check, responds_respond.
Qed.

(** The statuses the handler sends. *)
Lemma rw_steps_sent_ok w w' : rw_steps werr w w' -> sent_ok w = true -> sent_ok w' = true.
Proof. induction 1; eauto using rw_step_sent_ok. Qed.

(** Every run of the handler acts on the writer by its operations. *)
Lemma read_handler_mono region reqBody : rw_mono (read_handler werr region reqBody).
Proof.
  unfold read_handler. do 3 (apply rw_mono_check; [done|]; intros ?).
  apply rw_mono_handle_queries.
Qed.

(** ** Properties *)

(** C36. Every request the handler completes without a panic gets a
    response status, and it is 200, 400 or 500. *)
Theorem read_handler_responds region reqBody c st' :
  read_handler werr region reqBody (mkHState c rw0) = (Ok tt, st') ->
  exists code h, sent (rw st') = Some (code, h) /\ handler_code code = true.
Proof.
  intros H.
  assert (Hs : sent (rw st') <> None).
  { revert H. unfold read_handler. apply responds_check. intros ?.
    apply responds_check. intros ?. apply responds_check. intros ?. apply responds_handle_queries. }
  pose proof (rw_steps_sent_ok _ _ (read_handler_mono region reqBody _ _ _ H) eq_refl) as Hok.
  unfold sent_ok in Hok. destruct (sent (rw st')) as [[code h]|]; [by exists code, h|done].
Qed.

End Steps.

(** ** Witnesses *)

Lemma read_handler_responds_witness :
  exists code h, sent (rw (snd (@read_handler (test_service 200 scenario_json) test_format
                   JsonDecode.json_reply_decoder (test_codec scenario_request (Ok (bs "data")))
                   None "us-east-1" (Ok []) (mkHState [] rw0)))) = Some (code, h) /\
                 handler_code code = true.
Proof.
  apply (@read_handler_responds (test_service 200 scenario_json) test_format
           JsonDecode.json_reply_decoder (test_codec scenario_request (Ok (bs "data")))
           None "us-east-1" (Ok []) []).
  vm_compute. reflexivity.
Defined.

End HandlerInv.
