(* ===== verification/Codec.v ===== *)
(** * The handler on the wire: the codecs of [src/main.go] plugged in

    [Handler] takes the codecs as the interface [WireCodec].  Here it
    gets the libraries the program links: [snappy.Decode] and
    [snappy.Encode] ([Snappy]), [proto.Unmarshal] into a
    [prompb.ReadRequest] and [proto.Marshal] of a [prompb.ReadResponse]
    ([Proto]); the latter never fails.

    [read_spec] is the handler's contract at the level of messages: a
    request with one query is answered with the series [runQuery]
    returns, in one [QueryResult].  [read_handler_refines_wf] shows that
    the handler on bytes implements it for any reply decoder: for a
    request that a Prometheus server marshals and compresses, the
    handler makes the Lambda calls of [runQuery], sends status 200 with
    the protobuf content type, and its body decompresses to bytes that
    the [Unmarshal] of Prometheus ([ProtoResponse]) reads back as the
    response of the contract, when its samples are well formed.
    [read_spec_wf] shows they are whenever the decoder yields [int64]
    datapoints, and [read_handler_refines] (C13) puts the pieces
    together for the program as linked, with [json.Unmarshal]. *)

From S2P Require Import Prelude Utf8 Prompb Extract TimeConv Json Proto ProtoResponse Snappy Mapper Backend JsonDecode Handler.
From stdpp Require Import gmap.

Module Codec.

Import Utf8 TimeConv Json Proto ProtoResponse Snappy Backend JsonDecode Handler.
Open Scope Z_scope.

(** Lines 163, 170, 191 and 198 of [src/main.go]: the library calls. *)
#[export] Instance go_codec : WireCodec := {|
  snappy_Decode := Snappy.Decode;
  snappy_Encode := Snappy.Encode;
  unmarshal_ReadRequest := Proto.unmarshal_ReadRequest;
  marshal_ReadResponse := fun m => Ok (Proto.marshal_ReadResponse m)
|}.

(** What a Prometheus server sends for a request: [proto.Marshal], then
    [snappy.Encode]. *)
Definition prometheus_request (r : ReadRequest) : outcome bytes := Snappy.Encode (marshal_ReadRequest r).

Section Wire.

Context `{LS : LambdaService} `{TF : TimeFormat} `{RD : ReplyDecoder}.

(** The contract of [/read] on messages: the response to a request with
    one query, and the calls made, when [runQuery] succeeds. *)
Definition read_spec (region : string) (r : ReadRequest) (c : Calls) : option (ReadResponse * Calls) :=
  match Queries r with
  | [q] => match runQuery region q c with
           | (Ok ts, c') => Some (mkReadResponse [mkQueryResult ts], c')
           | _ => None
           end
  | _ => None
  end.

Lemma read_spec_some region r c resp c' :
  read_spec region r c = Some (resp, c') ->
  exists q ts, Queries r = [q] /\ runQuery region q c = (Ok ts, c') /\ resp = mkReadResponse [mkQueryResult ts].
Proof.
  unfold read_spec. destruct (Queries r) as [|q [|]]; [done| |done].
  destruct (runQuery region q c) as [[ts| |] c1] eqn:E; intros; simplify_eq; by exists q, ts.
Qed.

Lemma decode_prometheus_request r e :
  wf_ReadRequest r = true -> len (marshal_ReadRequest r) < 2 ^ 63 -> prometheus_request r = Ok e ->
  decode_request (Ok e) = Ok r.
Proof.
  intros Hwf Hl He. unfold decode_request. cbn [snappy_Decode go_codec].
  rewrite (Decode_of_Encode _ _ He). by apply unmarshal_marshal_ReadRequest_ok.
Qed.

(** A sample of the mapper is well formed for the wire when its
    datapoint holds [int64] values. *)
Lemma sample_spec_wf dp : forallb in_int64 dp = true -> wf_Sample (Mapper.sample_spec dp) = true.
Proof.
  intros Hdp. destruct (float64_of_int_wf (nth 0 dp 0)) as [Hv Hz].
  unfold wf_Sample, Mapper.sample_spec. cbn [SValue Timestamp]. rewrite Hv, Hz. cbn.
  destruct dp as [|a [|b l]]; try done. cbn in Hdp |- *. by apply andb_prop in Hdp as [_ [-> _]%andb_prop].
Qed.

(** A response of [read_spec] is well formed for the wire when the
    decoder gives 64-bit datapoints: [float64] of an integer is a valid
    binary64 value other than [-0.0], and timestamps are [int64]. *)
Lemma read_spec_wf region r c resp c' :
  (forall pl x, unmarshal_lambdaResult pl = Ok x -> reply_ints_ok x = true) ->
  read_spec region r c = Some (resp, c') -> wf_ReadResponse resp = true.
Proof.
  intros Hd Hs. destruct (read_spec_some _ _ _ _ _ Hs) as (q & ts & _ & Hr & ->).
  destruct (runQuery_ok_inv _ _ _ _ _ Hr) as [->|(pl & x & mn & fn & ty & Hx & Hm)]; [done|].
  apply Mapper.map_series_ok_inv in Hm as [_ ->]. apply Hd in Hx.
  cbn [wf_ReadResponse Results forallb wf_QueryResult Timeseries]. rewrite andb_true_r.
  apply forallb_forall. intros t (s & <- & Hsx)%in_map_iff.
  unfold reply_ints_ok in Hx. rewrite forallb_forall in Hx. specialize (Hx s Hsx). rewrite forallb_forall in Hx.
  apply forallb_forall. intros smp (dp & <- & Hdp)%in_map_iff. by apply sample_spec_wf, Hx.
Qed.

(** Refinement against any reply decoder, for a response whose samples
    are well formed. *)
Lemma read_handler_refines_wf region r e c resp c' :
  wf_ReadRequest r = true -> len (marshal_ReadRequest r) < 2 ^ 63 -> prometheus_request r = Ok e ->
  read_spec region r c = Some (resp, c') ->
  wf_ReadResponse resp = true ->
  32 + len (Proto.marshal_ReadResponse resp) + len (Proto.marshal_ReadResponse resp) / 6 <= 4294967295 ->
  exists body data,
    read_handler None region (Ok e) (mkHState c rw0) =
      (Ok tt, mkHState c' (mkRW protobuf_header (Some (200, protobuf_header)) body)) /\
    Decode body = Ok data /\ unmarshal_ReadResponse data = Ok resp.
Proof.
  intros Hwf Hl He Hs Hw Hsz. destruct (read_spec_some _ _ _ _ _ Hs) as (q & ts & Hq & Hr & ->).
  eexists _, _. split; [|split].
  - rewrite (read_handler_to_respond _ _ _ r q _ _ ts) by (done || by apply decode_prometheus_request).
    apply (respond_ok _ _ _ (Proto.marshal_ReadResponse (mkReadResponse [mkQueryResult ts]))); [done|reflexivity|]. cbn [snappy_Encode go_codec]. by apply Encode_ok.
  - apply (Decode_of_Encode _ _ (Encode_ok _ Hsz)).
  - apply unmarshal_marshal_ReadResponse_ok; [done|].
    assert (0 <= len (Proto.marshal_ReadResponse (mkReadResponse [mkQueryResult ts])) / 6) by (apply Z.div_pos; lia). lia.
Qed.

End Wire.

Section Program.

Context `{LS : LambdaService} `{TF : TimeFormat}.

(** C13. Refinement, for the program as it is linked ([json.Unmarshal]
    as the reply decoder, snappy and protobuf as the codecs): on a
    request that a Prometheus server marshals and compresses, well typed
    and within the sizes the libraries take, the handler does what
    [read_spec] says: the Lambda calls of [runQuery], status 200 with the
    protobuf content type, and a body that [snappy.Decode] turns into
    bytes that Prometheus unmarshals into exactly the response of the
    contract. *)
Theorem read_handler_refines region r e c resp c' :
  wf_ReadRequest r = true -> len (marshal_ReadRequest r) < 2 ^ 63 -> prometheus_request r = Ok e ->
  @read_spec LS TF json_reply_decoder region r c = Some (resp, c') ->
  32 + len (Proto.marshal_ReadResponse resp) + len (Proto.marshal_ReadResponse resp) / 6 <= 4294967295 ->
  exists body data,
    @read_handler LS TF json_reply_decoder go_codec None region (Ok e) (mkHState c rw0) =
      (Ok tt, mkHState c' (mkRW protobuf_header (Some (200, protobuf_header)) body)) /\
    Decode body = Ok data /\ unmarshal_ReadResponse data = Ok resp.
Proof.
  intros Hwf Hl He Hs Hsz. apply (read_handler_refines_wf region r e c resp c'); try done.
  apply (read_spec_wf region r c resp c'); [apply Unmarshal_ints_ok|done].
Qed.

End Program.

(** The scenario of [Handler] on the wire: the body Prometheus sends. *)
Definition scenario_body : bytes :=
  match prometheus_request scenario_request with Ok e => e | _ => [] end.

Lemma read_handler_refines_witness :
  exists body data,
    @read_handler (test_service 200 scenario_json) test_format JsonDecode.json_reply_decoder go_codec
      None "us-east-1"
      (Ok scenario_body)
      (mkHState [] rw0) =
      (Ok tt, mkHState [("us-east-1", mkInvokeInput "f1" (@query_payload test_format scenario_query))]
                (mkRW protobuf_header (Some (200, protobuf_header)) body)) /\
    Decode body = Ok data /\
    unmarshal_ReadResponse data = Ok
      (mkReadResponse [mkQueryResult
        [mkTimeSeries [mkLabel "__name__" "foo"; mkLabel "functionName" "f1";
                       mkLabel "target" "t1"; mkLabel "type" "count"]
                      [mkSample (float64_of_int 7) 1000; mkSample (float64_of_int 9) 4000]]]).
Proof.
  apply (@read_handler_refines (test_service 200 scenario_json) test_format "us-east-1" scenario_request);
    [vm_compute; reflexivity..|apply Z.leb_le; vm_compute; reflexivity].
Defined.

End Codec.
